(* ===== verification/_CoqProject ===== *)
-Q . S2P
Prelude.v
Printf.v
AddressMap.v
GuestMem.v
MemBus.v
BusWatch.v
TraceCodec.v
TraceEngine.v
Checkpoint.v
StoreCheck.v
TlbMirror.v
Checker.v
Scsi.v
Loader.v
Ctrace.v
Monitor.v
Mipsmon.v
Session.v
Vdma.v
VdmaBench.v
BenchPort.v
StageBench.v
RingBench.v
EnetBench.v
GioBench.v
Retire.v
Console.v
Probes.v
Cosim.v
Verdict.v
Gates.v
MainLoop.v
Boot.v
BenchCheck.v
StageMain.v
DmaMains.v
RingMain.v
VdmaMain.v
Logs.v
Env.v
CtraceTool.v
DebugProbes.v
Recorders.v
Services.v
Host.v
Frontend.v
Reports.v
