(* ===== verification/Prelude.v ===== *)
(** * Verification of the Henry SoC simulation harness

    The program is the C++ test bench that drives the Verilated Henry SoC (a
    MIPS core with caches, an IOC2, SCSI, Ethernet and VDMA engines) and checks
    it against a golden instruction-set simulator: sim/henry_tb.cpp, with
    sim/ctrace.hh and sim/ctrace_dump.cc (compressed retire trace),
    sim/inst_record.hh (retire archive), sim/mipsmon.cc (terminal client of the
    monitor) and the unit benches under sim/*_test/.

    ** How the parts interact

    Once per clock the main loop of henry_tb.cpp evaluates the RTL, then reads
    its ports.  Requests on the two memory lanes are answered from the byte
    array [g_mem] through the address fold [fpga_map]; retirement ports feed the
    counters, the trace recorders and the lockstep checker; committed stores and
    TLB writes arrive through DPI hooks in queues the checker drains; SCSI
    doorbells start transfers in the servicer; console bytes feed the script
    and the crash detector; a TCP client may freeze and step the loop.  Before
    the loop, memory is seeded from a kernel, a firmware image, a checkpoint or
    a checkpoint's pages.

    ** Files

    - [Prelude]: bytes, machine words and their wrap-around, the byte-map
      memory ([mget], [mput], [mput_bytes]), little/big-endian conversions,
      bit-list lemmas, the arithmetic automation, [trim] (newest [n] elements).
    - [AddressMap]: [fpga_map] and the other address folds.  The AXI master's
      fold is restated from the RTL as the specification it is compared with.
    - [GuestMem]: accessors of [g_mem], the line load and masked store.
    - [MemBus]: the two lanes as a step function on [bus] ([bus_step],
      [bus_run]), latency generator, quiescence gate.
    - [BusWatch]: the watchpoints on the bus traffic (MEMWATCH and others).
    - [TraceCodec]: rtl/dram_trace.sv's capture filter, code and pack logic,
      and the harness's decoder and comparison; [TraceEngine]: the same RTL clock
      by clock (registered append, packer, FIFO, drain into the ring) and the
      end-to-end comparison.
    - [Checkpoint]: file formats, loaders, verify pass, DPI seed functions.
    - [StoreCheck], [TlbMirror]: the two DPI queues and what consumes them.
    - [Checker]: the lockstep checker, [checker_step] in the code's order, the
      register scan, and the main loop's checker block ([checker_cycle]).
    - [Scsi]: the disk servicer of the main loop ([scsi_cycle]).
    - [Loader]: ELF and blob loading, the ARCS handoff and its boot stub.
    - [Ctrace]: chunked columnar writer ([ctrace_writer]) and reader.
    - [CtraceTool]: the reader as a command: arguments, files, exit status.
    - [Monitor]: the TCP monitor and where the loop calls it.
    - [Mipsmon]: the monitor's curses client.
    - [Printf]: numbers as printf writes them; [Session]: the texts of the monitor's
      replies, and the monitor and its client joined by the socket.
    - [Vdma], [VdmaBench], [VdmaMain]: the VDMA bench: its reference model and
      memory server; its address space, transfer loop and verdict; its drawn
      descriptors and the loop over them.
    - [BenchPort]: the memory port the four DMA benches share, specified by the
      relation [serves]; the benches instantiate it.
    - [StageBench], [RingBench], [EnetBench]: the SCSI staging, Ethernet ring and
      Ethernet / SCSI DMA benches over an abstract device.
    - [BenchCheck]: scripts, verdicts and byte checks of the benches' mains;
      [StageMain], [RingMain], [DmaMains]: the scripted cases themselves.
    - [GioBench]: the GIO window bench, a loop of CPU, memory and ARM phases.
    - [Retire]: watchdog, register shadow, USRETLOG, RETIRETRACE, PCHASH,
      ctrace capture, PRFAULT ring, PC trace, TIP profile.
    - [Console]: --rx drip, RXSCRIPT, console crash detector.
    - [Probes]: L1 line histories, VA-PA log, FSM state trace, the external flush
      driver, the BADVA probe.
    - [Cosim]: DPI queues, checker block and bus servicing composed in loop order.
    - [Verdict]: the RTL behaviours a run without alarms admits, as a step relation on
      the model ([explains], [conforms]).
    - [Gates]: the save gate with its image and restore, over the model, the SCSI
      servicer's statics, the disk and the other services; the verify gate.
    - [MainLoop]: an iteration of the run loop with every part that can end the run
      or shares state ([main_cycle]), the run ([main_run]) and its closing line.
    - [Recorders]: the same loop with the trace recorders where the code calls them.
    - [Boot]: the option loop and the choice of what a run starts from.
    - [Logs]: the bounded printing probes, the exception log and RTLTRACE.
    - [Env]: the knobs read from the environment, with the C number scanners.
    - [DebugProbes]: the probes written for particular bugs: store and fill watches, PCDUMP,
      register walks, the register snapshot of HENRY_TB_GO_DEBUG.
    - [Services]: reset and resume, doorbells, the Ethernet tap service.
    - [Host]: the Ethernet and GIO polls as the loop's [host_poll], on the shared DRAM.
    - [Frontend]: the same loop with the console: typed bytes, stdout, the monitor's client,
      the crash marks in USRETLOG.
    - [Reports]: the TIP dump and what is printed behind the loop ([final_report]).

    Definitions keep the source's names.  Integers are [Z] with explicit
    wrap-around ([u8], [u32], [s32], ...), text and files are lists of bytes,
    [g_mem] is a finite map from addresses to bytes with absent meaning zero.
    The C++ statics a routine keeps are the fields of a record that is passed
    and returned.

    ** What the theorems show

    - The checker: a run of the main loop ends without a stop or an alarm iff the
      RTL conforms to the model and the store streams agree ([main_verdict], from
      [verdict_exact] for the composed cycle and [checker_exact] for the checker
      alone); the monitor's client changes nothing but the monitor
      ([monitor_transparent]); for an RTL that follows the model the loop
      stops iff the streams disagree ([cosim_exact]); no false
      alarm on a faithful run, detection of a wrong value, the trust rule,
      two-sample confirmation of the register scan, exactness of the store
      comparison for every interleaving; the TLB duplicate scan reports only real
      duplicates and all those of 4 KB pages.
    - Memory: each bus answer is served once and in time, masked stores are
      exact, the ISS mirror stays coherent, the bus state stays typed, an image
      saved on a quiet bus before any SCSI command is unobservable, while a later one
      makes the restored run serve the last command again ([save_restore_exact]);
      the fold is the board's on 32-bit addresses.
    - Loading: images, checkpoints and the ARCS structures end up where the core
      reads them; the verify pass and its window are exact; both loading paths
      agree; every boot starts the ISS where the core is resumed, and a
      checkpoint boot starts both machines in the same state.
    - Traces: encoder and decoder are inverse; the trace engine's ring, FIFO and
      registers hold the code stream until it reports an overflow, and the decoder
      then differs in at most the record that is cut; chunked compressed files round-trip
      but for what close() leaves behind ([unflushed]), and files cut short by a killed
      run give their complete chunks; every recorder keeps
      exactly the retirements it says it keeps, and at the end of a run of the loop
      all of them hold the same ones ([recorders_agree]);
      a crash message on the console marks USRETLOG at the cycle that completed it
      ([crash_mark_anchors]);
      the trace-validation report and the cycle-attribution dump show what they
      claim to ([trace_val_report_exact], [tip_dump_top]); ctrace_dump accepts every
      file the recorder closed ([tool_accepts]).
    - Devices and tools: chunked SCSI writes equal one write; the monitor's
      buffer, halt and step behave; the terminal client shows the right window,
      and a command typed in it is the one the monitor runs ([session_command],
      [echo_faithful]);
      the console window search equals a search of the whole stream; the VDMA
      reference transfers the rows its descriptor describes.
    - Services in the loop: loopback frames are received in the order sent, whatever the
      rest of the loop does to the rings' memory ([main_loopback]); the monitor's client
      sees what stdout sees ([console_mirrored]).
    - Benches: the shared port is a one-request memory; waits terminate within
      their limits; rings, chains and FIFOs lose and reorder nothing; the checks
      the benches make accept exactly the runs they are meant to accept
      ([ring_tx_exact], [random_round_exact], [case7_exact], [scsi_main_exact]).
    - Probes: each recorder's output determines what it observed (histories,
      logs, state traces, page lists, BADVA reports, the register snapshot); MEMWATCH's
      prints replay a watched line that the fold leaves in place ([memwatch_explains]),
      but only lane 0 prints.
    - Configuration: a knob has the value its number is written with, and every
      environment that orders the two latency bounds gives a sound latency model.
    - Theorems whose conclusion is a defect are stated the way the code behaves
      ([nostorecheck_jams], [watchdog_blind_in_loadval],
      [restore_replays_last_command], [trace_validate_spurious_fail],
      [save_gate_misses_request], [handoff_not_mirrored], ...).

    ** Fuel and bounds

    Loops over input are structural recursion on it.  Where the code loops on a
    counter or a file position the fuel is that quantity: [decode] runs for the
    record count, [getleb] for the ten groups a 64-bit LEB128 can have,
    [dump_loop] for the length of the file, [script_lines] for the length of the
    script plus one, [bytes_loop] for the byte count (each step takes at least one),
    [bus_run] and [con_run] for the number of cycles, [main_run] for the cycles left
    before --maxcyc and one more test ([main_run_total]).  [arm_wait_cq] drains a queue
    by the number of entries pending and waits the code's own cycle limit; the VDMA
    bench's [xfer] takes fuel, and [vdma_xfer_terminates] shows that the limit plus
    one cycles are enough.  The theorems are stated at these values, so none of them
    holds by running out of fuel.  Bounds that appear as hypotheses: a ctrace chunk takes
    fewer than [CHUNK_MAX] = 2^28 calls (columns below 2 GB) and a file has fewer than
    2^32 chunks; the code of a traced run fits the 112 MB ring ([code_fits]).

    ** What is not modelled

    The golden ISS, the SCSI command decoder, the disk, the staging ring,
    Zstandard and the devices under test are not part of the repository's C++
    sources: they are section variables, with the documented behaviour used as
    named hypotheses.  Not modelled: Verilator's model and its save
    format, sockets and curses, the rings, display and
    keyboard behind the service headers (parameters of [Services]), printing other
    than reports, code disabled by if(false), the cache sweep and the random number generators of the benches (their draws are arguments). *)
From stdpp Require Export base gmap list strings numbers option.
From Stdlib Require Export ZArith Lia.
#[global] Open Scope Z_scope.

(** ** Machine words

    A [uintN_t] of the source is a [Z] in [[0, 2^N)]; every definition that
    can leave that range wraps explicitly.  The signed casts [(int16_t)x],
    [(int32_t)x] and [(int64_t)x] are two's complement. *)

Definition u8  (x : Z) : Z := x mod 0x100.
Definition u16 (x : Z) : Z := x mod 0x10000.
Definition u32 (x : Z) : Z := x mod 0x100000000.
Definition u64 (x : Z) : Z := x mod 0x10000000000000000.

Definition s16 (x : Z) : Z := let y := u16 x in if y <? 0x8000 then y else y - 0x10000.
Definition s32 (x : Z) : Z := let y := u32 x in if y <? 0x80000000 then y else y - 0x100000000.
Definition s64 (x : Z) : Z :=
  let y := u64 x in if y <? 0x8000000000000000 then y else y - 0x10000000000000000.

Declare Scope hw_scope.
Delimit Scope hw_scope with hw.
Notation "a .& b" := (Z.land a b) (at level 41, left associativity) : hw_scope.
Notation "a .| b" := (Z.lor a b) (at level 43, left associativity) : hw_scope.
Notation "a .^ b" := (Z.lxor a b) (at level 42, left associativity) : hw_scope.
Notation "a .<< b" := (Z.shiftl a b) (at level 39, left associativity) : hw_scope.
Notation "a .>> b" := (Z.shiftr a b) (at level 39, left associativity) : hw_scope.
Notation "a +32 b" := (u32 (a + b)) (at level 50, left associativity) : hw_scope.
Notation "a -32 b" := (u32 (a - b)) (at level 50, left associativity) : hw_scope.
Notation "a +64 b" := (u64 (a + b)) (at level 50, left associativity) : hw_scope.
#[global] Open Scope hw_scope.

(** The predicate "[x] is a [w]-bit unsigned value". *)
Definition is_u (w x : Z) : Prop := 0 <= x < 2 ^ w.
#[export] Instance is_u_dec w x : Decision (is_u w x).
Proof. unfold is_u. apply _. Defined.

Create HintDb hw.
Create Rewrite HintDb hw.

Ltac unfold_words := unfold is_u, s16, s32, s64, u8, u16, u32, u64 in *.

(** [word_lia]: linear arithmetic with [mod]/[div] by constants and words unfolded. *)
Ltac word_lia := unfold_words; Z.to_euclidean_division_equations; lia.

(** Case analysis on every boolean test of the goal or of a hypothesis, keeping
    the arithmetic fact it decides. *)
Ltac case_test :=
  match goal with
  | |- context [if ?b then _ else _] => let E := fresh "E" in destruct b eqn:E
  | H : context [if ?b then _ else _] |- _ => let E := fresh "E" in destruct b eqn:E
  end.
Ltac bool_props :=
  repeat match goal with
  | H : (_ && _) = true |- _ => apply andb_true_iff in H as [? ?]
  | H : (_ || _) = false |- _ => apply orb_false_iff in H as [? ?]
  | H : negb _ = true |- _ => apply negb_true_iff in H
  | H : negb _ = false |- _ => apply negb_false_iff in H
  | H : (_ <? _) = true |- _ => apply Z.ltb_lt in H
  | H : (_ <? _) = false |- _ => apply Z.ltb_ge in H
  | H : (_ <=? _) = true |- _ => apply Z.leb_le in H
  | H : (_ <=? _) = false |- _ => apply Z.leb_gt in H
  | H : (_ =? _) = true |- _ => apply Z.eqb_eq in H
  | H : (_ =? _) = false |- _ => apply Z.eqb_neq in H
  end.

Lemma u8_range x : 0 <= u8 x < 0x100.
Proof. word_lia. Qed.
Lemma u16_range x : 0 <= u16 x < 0x10000.
Proof. word_lia. Qed.
Lemma u32_range x : 0 <= u32 x < 0x100000000.
Proof. word_lia. Qed.
Lemma u64_range x : 0 <= u64 x < 0x10000000000000000.
Proof. word_lia. Qed.
Lemma u8_small x : 0 <= x < 0x100 -> u8 x = x.
Proof. word_lia. Qed.
Lemma u16_small x : 0 <= x < 0x10000 -> u16 x = x.
Proof. word_lia. Qed.
Lemma u32_small x : 0 <= x < 0x100000000 -> u32 x = x.
Proof. word_lia. Qed.
Lemma u64_small x : 0 <= x < 0x10000000000000000 -> u64 x = x.
Proof. word_lia. Qed.
#[export] Hint Resolve u8_range u16_range u32_range u64_range : hw.
#[export] Hint Rewrite u8_small u16_small u32_small u64_small using lia : hw.

(** ** Bits *)

Lemma land_ones_mod x n : 0 <= n -> x .& (2 ^ n - 1) = x mod 2 ^ n.
Proof. intros. replace (2 ^ n - 1) with (Z.ones n) by (rewrite Z.ones_equiv; lia). by apply Z.land_ones. Qed.

(** [x & ~(2^n - 1)], the source's alignment idiom, is [Z.ldiff x (2^n - 1)]. *)
Lemma ldiff_ones_align x n : 0 <= n -> Z.ldiff x (2 ^ n - 1) = x - x mod 2 ^ n.
Proof.
  intros. replace (2 ^ n - 1) with (Z.ones n) by (rewrite Z.ones_equiv; lia).
  rewrite Z.ldiff_ones_r, Z.shiftl_mul_pow2, Z.shiftr_div_pow2 by lia.
  pose proof (Z.div_mod x (2 ^ n) ltac:(apply Z.pow_nonzero; lia)). lia.
Qed.

Lemma testbit_above b n i : 0 <= b < 2 ^ n -> n <= i -> Z.testbit b i = false.
Proof.
  intros Hb Hi. rewrite <- (Z.mod_small b (2 ^ n)) by lia.
  destruct (decide (0 <= n)) as [Hn|Hn].
  - apply Z.mod_pow2_bits_high. lia.
  - rewrite Z.pow_neg_r in Hb by lia. lia.
Qed.

Lemma land_shiftl_low a b n : 0 <= n -> 0 <= b < 2 ^ n -> (a .<< n) .& b = 0.
Proof.
  intros Hn Hb. apply Z.bits_inj'. intros i Hi.
  rewrite Z.land_spec, Z.bits_0, Z.shiftl_spec by lia.
  destruct (decide (i < n)).
  - rewrite Z.testbit_neg_r by lia. reflexivity.
  - rewrite (testbit_above b n i) by lia. apply andb_false_r.
Qed.

(** [(a << n) | b] is [a * 2^n + b] when [b] fits below bit [n]. *)
Lemma lor_shiftl_add a b n : 0 <= n -> 0 <= b < 2 ^ n -> (a .<< n) .| b = a * 2 ^ n + b.
Proof.
  intros Hn Hb. rewrite <- Z.add_nocarry_lor by (apply land_shiftl_low; lia).
  rewrite Z.shiftl_mul_pow2 by lia. reflexivity.
Qed.

Lemma is_u_testbit w x : 0 <= w -> 0 <= x -> (forall i, w <= i -> Z.testbit x i = false) -> is_u w x.
Proof.
  unfold is_u. intros Hw Hx Hb. split; [lia|].
  destruct (decide (2 ^ w <= x)) as [Hge|]; [|lia].
  assert (0 < 2 ^ w) by (apply Z.pow_pos_nonneg; lia).
  assert (w <= Z.log2 x) by (apply Z.log2_le_pow2; lia).
  pose proof (Z.bit_log2 x ltac:(lia)) as Hbit. rewrite Hb in Hbit by lia. done.
Qed.
Lemma lor_bound a b n : 0 <= n -> is_u n a -> is_u n b -> is_u n (a .| b).
Proof.
  intros Hn Ha Hb. apply is_u_testbit; [lia|apply Z.lor_nonneg; unfold is_u in *; lia|].
  intros i Hi. by rewrite Z.lor_spec, !(testbit_above _ n) by done.
Qed.
Lemma lxor_bound a b n : 0 <= n -> is_u n a -> is_u n b -> is_u n (a .^ b).
Proof.
  intros Hn Ha Hb. apply is_u_testbit; [lia|apply Z.lxor_nonneg; unfold is_u in *; lia|].
  intros i Hi. by rewrite Z.lxor_spec, !(testbit_above _ n) by done.
Qed.
(** ** Little- and big-endian byte strings

    [le_bytes n v] is what [fwrite(&v, n, 1, f)] writes on the little-endian
    host; [le_val] reads it back.  Guest memory is big-endian: [be_bytes]. *)

Fixpoint le_bytes (n : nat) (v : Z) : list Z :=
  match n with
  | O => []
  | S k => v mod 256 :: le_bytes k (v / 256)
  end.
Fixpoint le_val (bs : list Z) : Z :=
  match bs with
  | [] => 0
  | b :: t => b + 256 * le_val t
  end.
Definition be_bytes (n : nat) (v : Z) : list Z := rev (le_bytes n v).
Definition be_val (bs : list Z) : Z := le_val (rev bs).

Abbreviation bytes_ok := (Forall (is_u 8)).

Lemma length_le_bytes n v : length (le_bytes n v) = n.
Proof. revert v; induction n; intros; cbn; [done|]. by rewrite IHn. Qed.
Lemma length_be_bytes n v : length (be_bytes n v) = n.
Proof. unfold be_bytes. by rewrite length_rev, length_le_bytes. Qed.
Lemma le_bytes_ok n v : bytes_ok (le_bytes n v).
Proof. revert v; induction n; intros; cbn; constructor; [word_lia|apply IHn]. Qed.
Lemma be_bytes_ok n v : bytes_ok (be_bytes n v).
Proof. unfold be_bytes. apply Forall_rev, le_bytes_ok. Qed.
#[export] Hint Resolve le_bytes_ok be_bytes_ok : hw.
#[export] Hint Rewrite length_le_bytes length_be_bytes : hw.

Lemma le_val_le_bytes n v : 0 <= v < 256 ^ Z.of_nat n -> le_val (le_bytes n v) = v.
Proof.
  revert v; induction n as [|n IH]; intros v Hv; cbn [le_bytes le_val].
  - change (256 ^ Z.of_nat 0) with 1 in Hv. lia.
  - rewrite Nat2Z.inj_succ, Z.pow_succ_r in Hv by lia.
    rewrite IH by (split; [apply Z.div_pos; lia | apply Z.div_lt_upper_bound; lia]).
    pose proof (Z.div_mod v 256). lia.
Qed.
Lemma be_val_be_bytes n v : 0 <= v < 256 ^ Z.of_nat n -> be_val (be_bytes n v) = v.
Proof. intros. unfold be_val, be_bytes. rewrite rev_involutive. by apply le_val_le_bytes. Qed.

Lemma le_val_bound bs : bytes_ok bs -> 0 <= le_val bs < 256 ^ Z.of_nat (length bs).
Proof.
  induction 1 as [|b t Hb _ IH]; cbn [le_val length]; [change (256 ^ Z.of_nat 0) with 1; lia|].
  rewrite Nat2Z.inj_succ, Z.pow_succ_r by lia. unfold is_u in Hb. lia.
Qed.
Lemma le_bytes_le_val bs : bytes_ok bs -> le_bytes (length bs) (le_val bs) = bs.
Proof.
  induction 1 as [|b t Hb Ht IH]; cbn [le_val le_bytes length]; [done|].
  unfold is_u in Hb. f_equal.
  - rewrite Z.mul_comm, Z.mod_add by lia. apply Z.mod_small. lia.
  - rewrite Z.mul_comm, Z.div_add, (Z.div_small b) by lia. rewrite Z.add_0_l. done.
Qed.

(** ** Byte-addressed memory

    Anonymous [mmap]ed memory is zero filled, so an absent key reads 0. *)

Abbreviation mem := (gmap Z Z).
Definition mget (m : mem) (a : Z) : Z := default 0 (m !! a).
Fixpoint mput_bytes (m : mem) (a : Z) (bs : list Z) : mem :=
  match bs with
  | [] => m
  | b :: t => mput_bytes (<[a := b]> m) (a + 1) t
  end.
Fixpoint mget_bytes (m : mem) (a : Z) (n : nat) : list Z :=
  match n with
  | O => []
  | S k => mget m a :: mget_bytes m (a + 1) k
  end.
Definition mem_ok (m : mem) : Prop := forall a, is_u 8 (mget m a).

Lemma mget_empty a : mget ∅ a = 0.
Proof. unfold mget. by rewrite lookup_empty. Qed.
Lemma mget_insert m a b x : mget (<[a := b]> m) x = if a =? x then b else mget m x.
Proof.
  unfold mget. destruct (Z.eqb_spec a x) as [->|Hne].
  - by rewrite lookup_insert_eq.
  - by rewrite lookup_insert_ne.
Qed.
Lemma mget_insert_eq m a b : mget (<[a := b]> m) a = b.
Proof. rewrite mget_insert, Z.eqb_refl. done. Qed.
Lemma mget_insert_ne m a b x : a <> x -> mget (<[a := b]> m) x = mget m x.
Proof. intros. rewrite mget_insert. by destruct (Z.eqb_spec a x). Qed.
Lemma mem_ok_empty : mem_ok ∅.
Proof. intros a. rewrite mget_empty. by vm_compute. Qed.
Lemma mem_ok_insert m a b : mem_ok m -> is_u 8 b -> mem_ok (<[a := b]> m).
Proof. intros Hm Hb x. rewrite mget_insert. destruct (a =? x); auto. Qed.
#[export] Hint Resolve mem_ok_empty mem_ok_insert : hw.

Lemma mget_mput_out m a bs x :
  x < a \/ a + Z.of_nat (length bs) <= x -> mget (mput_bytes m a bs) x = mget m x.
Proof.
  revert m a; induction bs as [|b t IH]; intros m a Hx; cbn [mput_bytes length] in *; [done|].
  rewrite IH by lia. apply mget_insert_ne. lia.
Qed.
Lemma mget_mput_in m a bs x :
  a <= x < a + Z.of_nat (length bs) ->
  mget (mput_bytes m a bs) x = nth (Z.to_nat (x - a)) bs 0.
Proof.
  revert m a; induction bs as [|b t IH]; intros m a Hx; cbn [mput_bytes length] in *; [lia|].
  destruct (decide (x = a)) as [->|Hne].
  - rewrite mget_mput_out by lia. rewrite mget_insert_eq, Z.sub_diag. done.
  - rewrite IH by lia. replace (Z.to_nat (x - a)) with (S (Z.to_nat (x - (a + 1)))) by lia. done.
Qed.
Lemma mem_ok_mput m a bs : mem_ok m -> bytes_ok bs -> mem_ok (mput_bytes m a bs).
Proof. intros Hm Hb. revert m a Hm; induction Hb; intros; cbn; auto with hw. Qed.
#[export] Hint Resolve mem_ok_mput : hw.

Lemma length_mget_bytes m a n : length (mget_bytes m a n) = n.
Proof. revert a; induction n; intros; cbn; auto. Qed.
Lemma mget_bytes_ok m a n : mem_ok m -> bytes_ok (mget_bytes m a n).
Proof. intros Hm. revert a; induction n; intros; cbn; constructor; auto. Qed.
Lemma mget_bytes_ext m m' a n :
  (forall x, a <= x < a + Z.of_nat n -> mget m x = mget m' x) ->
  mget_bytes m a n = mget_bytes m' a n.
Proof.
  revert a; induction n as [|n IH]; intros a Hx; cbn; [done|].
  rewrite (Hx a) by lia. f_equal. apply IH. intros; apply Hx; lia.
Qed.
Lemma mget_bytes_mput m a bs : mget_bytes (mput_bytes m a bs) a (length bs) = bs.
Proof.
  revert m a; induction bs as [|b t IH]; intros m a; cbn; [done|].
  rewrite mget_mput_out by lia. rewrite mget_insert_eq. by rewrite IH.
Qed.
Lemma nth_mget_bytes m a n i :
  (i < n)%nat -> nth i (mget_bytes m a n) 0 = mget m (a + Z.of_nat i).
Proof.
  revert a i; induction n as [|n IH]; intros a i Hi; [lia|].
  destruct i as [|i]; cbn [mget_bytes nth]; [by rewrite Z.add_0_r|].
  rewrite IH by lia. f_equal. lia.
Qed.
Lemma mget_bytes_mput_disj m a bs x n :
  x + Z.of_nat n <= a \/ a + Z.of_nat (length bs) <= x ->
  mget_bytes (mput_bytes m a bs) x n = mget_bytes m x n.
Proof. intros. apply mget_bytes_ext. intros. apply mget_mput_out. lia. Qed.

Lemma le_bytes_app n k lo hi :
  0 <= lo < 256 ^ Z.of_nat n -> le_bytes (n + k) (lo + hi * 256 ^ Z.of_nat n) = le_bytes n lo ++ le_bytes k hi.
Proof.
  revert lo; induction n as [|n IH]; intros lo Hlo; cbn [Nat.add le_bytes app].
  - change (256 ^ Z.of_nat 0) with 1 in *. f_equal. lia.
  - rewrite Nat2Z.inj_succ, Z.pow_succ_r in * by lia.
    replace (lo + hi * (256 * 256 ^ Z.of_nat n)) with (lo + (hi * 256 ^ Z.of_nat n) * 256) by lia.
    rewrite Z.mod_add, Z.div_add by lia. f_equal. apply IH.
    split; [apply Z.div_pos; lia|apply Z.div_lt_upper_bound; lia].
Qed.
Lemma mput_bytes_app m a xs ys :
  mput_bytes m a (xs ++ ys) = mput_bytes (mput_bytes m a xs) (a + Z.of_nat (length xs)) ys.
Proof.
  revert m a; induction xs as [|x xs IH]; intros m a; cbn [app mput_bytes length].
  - f_equal. lia.
  - rewrite IH. f_equal. lia.
Qed.
Lemma mget_bytes_app m a n k :
  mget_bytes m a (n + k) = mget_bytes m a n ++ mget_bytes m (a + Z.of_nat n) k.
Proof.
  revert a; induction n as [|n IH]; intros a; cbn [Nat.add mget_bytes app].
  - f_equal. lia.
  - rewrite IH. do 2 f_equal. f_equal. lia.
Qed.
(** Fixed-size records laid out back to back are read back one by one. *)
Lemma mget_bytes_concat m a n bss i bs :
  Forall (fun b => length b = n) bss -> bss !! i = Some bs ->
  mget_bytes (mput_bytes m a (concat bss)) (a + Z.of_nat i * Z.of_nat n) n = bs.
Proof.
  intros Hn. revert m a i; induction Hn as [|b bss Hb Hn IH]; intros m a i Hi; [done|].
  cbn [concat]. rewrite mput_bytes_app. destruct i as [|i]; cbn in Hi.
  - injection Hi as ->. rewrite Z.add_0_r, mget_bytes_mput_disj by lia.
    rewrite <- Hb. apply mget_bytes_mput.
  - rewrite Hb. replace (a + Z.of_nat (S i) * Z.of_nat n) with (a + Z.of_nat n + Z.of_nat i * Z.of_nat n) by lia.
    by apply IH.
Qed.

(** The bytes of a string literal. *)
Definition chars (s : string) : list Z := map (fun c => Z.of_N (Ascii.N_of_ascii c)) (String.list_ascii_of_string s).

(** ** Bounded queues: [while(q.size() > n) q.pop_front()] *)
Definition trim {A} (n : nat) (l : list A) : list A := drop (length l - n) l.
Lemma trim_short {A} n (l : list A) : (length l <= n)%nat -> trim n l = l.
Proof. intros. unfold trim. by replace (length l - n)%nat with 0%nat by lia. Qed.
Lemma length_trim {A} n (l : list A) : length (trim n l) = Nat.min n (length l).
Proof. unfold trim. rewrite length_drop. lia. Qed.
Lemma trim_trim_app {A} n (l k : list A) : trim n (trim n l ++ k) = trim n (l ++ k).
Proof.
  unfold trim. rewrite !length_app, length_drop.
  destruct (decide (length k <= n)%nat).
  - destruct (decide (length l <= n)%nat) as [H|H].
    + replace (length l - n)%nat with 0%nat by lia. by rewrite drop_0, Nat.sub_0_r.
    + rewrite !drop_app_le by (rewrite ?length_drop; lia). rewrite drop_drop. do 2 f_equal. lia.
  - rewrite !drop_app_ge by (rewrite ?length_drop; lia). rewrite ?length_drop. f_equal. lia.
Qed.

(** ** Files of fixed-size records *)
Fixpoint read_recs {A} (size : nat) (parse : list Z -> A) (n : nat) (f : list Z) : list A :=
  match n with O => [] | S k => parse (take size f) :: read_recs size parse k (drop size f) end.
Lemma read_recs_app {A} size (parse : list Z -> A) (print : A -> list Z) rs rest :
  (forall r, length (print r) = size) -> Forall (fun r => parse (print r) = r) rs ->
  read_recs size parse (length rs) (concat (map print rs) ++ rest) = rs.
Proof.
  intros Hl. induction 1 as [|r rs Hr _ IH]; [done|]. cbn [length read_recs map concat]. rewrite <- app_assoc.
  rewrite take_app_length', drop_app_length' by (by rewrite Hl). by rewrite Hr, IH.
Qed.
Lemma length_recs {A} size (print : A -> list Z) rs :
  (forall r, length (print r) = size) -> length (concat (map print rs)) = (size * length rs)%nat.
Proof.
  intros Hl. induction rs as [|r rs IH]; cbn [map concat length]; [lia|]. rewrite length_app, Hl, IH. lia.
Qed.
