(* ===== verification/Printf.v ===== *)
(** * Printf: numbers as the C library prints them

    The conversions of printf that the harness uses for text another program reads:
    [%llu], [%d], [%llx], with field widths. *)
From S2P Require Import Prelude.

(** Digits as characters: 0-9, then a-f. *)
Definition digit_char (d : Z) : Z := if d <? 10 then 48 + d else 87 + d.
Definition value (base : Z) (ds : list Z) : Z := foldl (fun a d => a * base + d) 0 ds.
Definition digits_ok (base : Z) (ds : list Z) : Prop := Forall (fun d => 0 <= d < base) ds.

(** The digits of [x] in front of [acc], at most [fuel] of them. *)
Fixpoint num_from (fuel : nat) (base x : Z) (acc : list Z) : list Z :=
  match fuel with
  | O => acc
  | S k => if x <? base then digit_char x :: acc else num_from k base (x / base) (digit_char (x mod base) :: acc)
  end.
(** Twenty decimal and sixteen hexadecimal digits hold every 64-bit value. *)
Definition dec (x : Z) : list Z := num_from 20 10 x [].
Definition hex (x : Z) : list Z := num_from 16 16 x [].
(** [%d]. *)
Definition sdec (x : Z) : list Z := if x <? 0 then 45 :: dec (- x) else dec x.
(** [%08x], [%03llu] pad with zeros on the left; [%-2d] with spaces on the right. *)
Definition zpad (w : nat) (l : list Z) : list Z := repeat 48 (w - length l) ++ l.
Definition rpad (w : nat) (l : list Z) : list Z := l ++ repeat 32 (w - length l).

(** ** Lemmas *)

Lemma digit_char_range d : 0 <= d < 16 -> 48 <= digit_char d <= 57 \/ 97 <= digit_char d <= 102.
Proof. unfold digit_char. case_test; bool_props; lia. Qed.
Lemma num_from_app fuel base : forall x acc, num_from fuel base x acc = num_from fuel base x [] ++ acc.
Proof.
  induction fuel as [|k IH]; intros x acc; cbn [num_from]; [done|]. case_test; [done|].
  rewrite IH, (IH _ [_]), <- app_assoc. done.
Qed.
(** What is printed are the digits of the number. *)
Lemma num_from_digits base fuel : 2 <= base -> forall x, 0 <= x < base ^ Z.of_nat fuel -> (0 < fuel)%nat ->
  exists ds, num_from fuel base x [] = map digit_char ds /\ digits_ok base ds /\ ds <> [] /\ (length ds <= fuel)%nat /\ value base ds = x.
Proof.
  intros Hb. induction fuel as [|k IH]; intros x Hx Hf; [lia|]. cbn [num_from]. destruct (Z.ltb_spec x base).
  { exists [x]. split; [done|]. split; [repeat constructor; lia|]. split; [done|]. split; [cbn; lia|]. cbn. lia. }
  assert (0 < k)%nat as Hk by (destruct k; [change (Z.of_nat 1) with 1 in Hx; rewrite Z.pow_1_r in Hx; lia|lia]).
  rewrite Nat2Z.inj_succ, Z.pow_succ_r in Hx by lia.
  destruct (IH (x / base)) as (ds & Hd & Hok & Hne & Hl & Hv); [split; [apply Z.div_pos; lia|apply Z.div_lt_upper_bound; lia]|done|].
  exists (ds ++ [x mod base]). rewrite num_from_app, Hd, map_app. split; [done|].
  split; [apply Forall_app; split; [done|]; repeat constructor; apply Z.mod_pos_bound; lia|].
  split; [by destruct ds|]. split; [rewrite length_app; cbn; lia|].
  unfold value in *. rewrite foldl_app. cbn [foldl]. rewrite Hv. pose proof (Z.div_mod x base ltac:(lia)). lia.
Qed.
Lemma length_num_from base fuel x : 2 <= base -> 0 <= x < base ^ Z.of_nat fuel -> (0 < fuel)%nat ->
  (0 < length (num_from fuel base x []) <= fuel)%nat.
Proof.
  intros Hb Hx Hf. destruct (num_from_digits base fuel Hb x Hx Hf) as (ds & -> & _ & Hne & Hl & _).
  rewrite length_map. destruct ds; [done|]. cbn [length] in *. lia.
Qed.
