(* ===== verification/AddressMap.v ===== *)
(** * AddressMap: the physical address folds of the harness

    [fpga_map] of sim/henry_tb.cpp, the RTL fold it claims to mirror
    ([sgi_mode] of ip_hdl/axi_is_the_worst_v1_0_M00_AXI.v), the System Memory
    Alias of the loaders, the kseg-to-physical step of the monitor and the
    sign extension of a checkpoint's PC. *)
From S2P Require Import Prelude.

Definition MEM_SIZE : Z := 0x20000000.
Definition MEM_MASK : Z := MEM_SIZE - 1.
Definition HALT_PA : Z := 0x1fd00000.
Definition FPGA_ADDRESS_MAP : bool := true.
Definition FPGA_ADDRMASK : Z := 0x1effffff.

(** [fpga_map(cpuaddr, bad)]: the DRAM byte offset and the [*bad] flag.  The
    parameter is a [uint32_t], so a wider argument is cut at the call. *)
Definition fpga_map (cpuaddr : Z) : Z * bool :=
  let cpuaddr := u32 cpuaddr in
  let t :=
    if (0x08000000 <=? cpuaddr) && (cpuaddr <=? 0x17ffffff) then
      cpuaddr .& 0x0fffffff
    else if (0x1f000000 <=? cpuaddr) && (cpuaddr <=? 0x1fffffff) then
      0x10000000 .| (cpuaddr .& 0x00ffffff)
    else cpuaddr in
  (t, FPGA_ADDRMASK <? t).

(** The AXI master's combinational fold ([t_cpuaddr], [w_bad_addr]) on the
    36-bit [req_addr]; [{8'd0, a[27:0]}] and [{12'd16, a[23:0]}] are bit
    concatenations. *)
Definition m00_fold (sgi_mode : bool) (req_addr : Z) : Z :=
  if sgi_mode then
    if (req_addr <=? 0x17ffffff) && (0x08000000 <=? req_addr) then
      (0 .<< 28) .| (req_addr .& 0x0fffffff)
    else if (req_addr <=? 0x1fffffff) && (0x1f000000 <=? req_addr) then
      (16 .<< 24) .| (req_addr .& 0x00ffffff)
    else req_addr
  else req_addr.
Definition m00_bad (sgi_mode : bool) (addrmask req_addr : Z) : bool :=
  addrmask <? m00_fold sgi_mode req_addr.

(** The IP22 System Memory Alias the loaders apply before [fpga_map]: the low
    512 KB shows up in Low Local Memory. *)
Definition memory_alias (pa : Z) : Z :=
  if (pa .>> 19) =? 0 then pa .| 0x08000000 else pa.

(** kseg0/kseg1 to physical, as [mon_mem_rd] does it. *)
Definition kseg_phys (va : Z) : Z :=
  if (0x80000000 <=? va) && (va <? 0xc0000000) then va .& 0x1fffffff else va.

(** [ckpt_pc_sext]: sign-extend a PC whose high half is zero. *)
Definition ckpt_pc_sext (pc : Z) : Z :=
  if (pc .>> 32) =? 0 then u64 (s32 pc) else pc.

(** [scsi_mem]: the accessor's offset into [g_mem], [None] for [nullptr]. *)
Definition scsi_mem (phys len : Z) : option Z :=
  let '(off, bad) :=
    if FPGA_ADDRESS_MAP then fpga_map phys else (phys .& MEM_MASK, false) in
  if bad || (MEM_SIZE <? off + len) then None else Some off.

(** ** Arithmetic form of the folds *)

Lemma land_0fffffff x : x .& 0x0fffffff = x mod 0x10000000.
Proof. exact (land_ones_mod x 28 ltac:(lia)). Qed.
Lemma land_00ffffff x : x .& 0x00ffffff = x mod 0x1000000.
Proof. exact (land_ones_mod x 24 ltac:(lia)). Qed.
Lemma land_1fffffff x : x .& 0x1fffffff = x mod 0x20000000.
Proof. exact (land_ones_mod x 29 ltac:(lia)). Qed.
Lemma land_MEM_MASK x : x .& MEM_MASK = x mod MEM_SIZE.
Proof. apply land_1fffffff. Qed.
#[export] Hint Rewrite land_0fffffff land_00ffffff land_1fffffff : hw.

Lemma lor_10000000 x : 0 <= x < 0x10000000 -> 0x10000000 .| x = 0x10000000 + x.
Proof. intros. exact (lor_shiftl_add 1 x 28 ltac:(lia) ltac:(lia)). Qed.
Lemma lor_08000000 x : 0 <= x < 0x08000000 -> x .| 0x08000000 = 0x08000000 + x.
Proof. intros. rewrite Z.lor_comm. exact (lor_shiftl_add 1 x 27 ltac:(lia) ltac:(lia)). Qed.

(** [fpga_map] without bit operations. *)
Definition fold_spec (a : Z) : Z :=
  if (0x08000000 <=? a) && (a <? 0x10000000) then a
  else if (0x10000000 <=? a) && (a <? 0x18000000) then a - 0x10000000
  else if (0x1f000000 <=? a) && (a <? 0x20000000) then a - 0x0f000000
  else a.

Lemma fpga_map_eq a : fpga_map a = (fold_spec (u32 a), FPGA_ADDRMASK <? fold_spec (u32 a)).
Proof.
  assert (fst (fpga_map a) = fold_spec (u32 a)) as E; [|by rewrite <- E].
  pose proof (u32_range a). unfold fpga_map, fold_spec; cbn [fst].
  repeat case_test; bool_props; autorewrite with hw;
    rewrite ?lor_10000000 by word_lia; word_lia.
Qed.
Lemma fpga_map_eq32 a : is_u 32 a -> fpga_map a = (fold_spec a, FPGA_ADDRMASK <? fold_spec a).
Proof. intros Ha. rewrite fpga_map_eq, u32_small; [done|exact Ha]. Qed.
Lemma fpga_map_spec a : is_u 32 a -> fst (fpga_map a) = fold_spec a.
Proof. intros Ha. by rewrite fpga_map_eq32. Qed.
Lemma fpga_map_bad a : is_u 32 a -> snd (fpga_map a) = (FPGA_ADDRMASK <? fold_spec a).
Proof. intros Ha. by rewrite fpga_map_eq32. Qed.
Lemma is_u32_29 a : 0 <= a < 0x20000000 -> is_u 32 a.
Proof. unfold is_u. lia. Qed.
#[export] Hint Resolve is_u32_29 : hw.

Lemma memory_alias_spec pa :
  0 <= pa -> memory_alias pa = if pa <? 0x80000 then pa + 0x08000000 else pa.
Proof.
  intros Hpa. unfold memory_alias. rewrite Z.shiftr_div_pow2 by lia. change (2 ^ 19) with 0x80000.
  repeat case_test; bool_props; rewrite ?lor_08000000 by word_lia; word_lia.
Qed.

Ltac fold_cases :=
  unfold fold_spec, FPGA_ADDRMASK, MEM_SIZE in *; repeat case_test; bool_props; try lia.

Lemma fold_spec_range a : 0 <= a < 0x20000000 -> 0 <= fold_spec a <= FPGA_ADDRMASK.
Proof. intros. fold_cases. Qed.

(** Inside a naturally aligned line of up to 4 KB the fold is a translation,
    so mapping the base once (the bus lanes, the page loaders) and mapping
    every byte (the SCSI read check) reach the same offsets. *)
Lemma fold_spec_page a i :
  0 <= a < 0x20000000 -> 0 <= i < 0x1000 - a mod 0x1000 ->
  fold_spec (a + i) = fold_spec a + i.
Proof.
  intros Ha Hi. pose proof (Z.div_mod a 0x1000 ltac:(lia)).
  unfold fold_spec. repeat case_test; bool_props; Z.to_euclidean_division_equations; lia.
Qed.
Lemma fold_spec_align a : fold_spec a mod 0x1000 = a mod 0x1000.
Proof. unfold fold_spec. repeat case_test; Z.to_euclidean_division_equations; lia. Qed.

(** ** Properties *)

(** C40.  On every 32-bit address the harness's [fpga_map] is bit-exact with the AXI
    master's sgi_mode fold and its bad-address test with a 496 MB [addrmask].  Of
    the 36 bits the port carries the function's parameter keeps 32: above 4 GB the
    board faults on every address, while [fpga_map] folds what is left of it. *)
Theorem fpga_map_matches_axi_master (a : Z) :
  is_u 36 a ->
  fpga_map a = (m00_fold true (u32 a), m00_bad true FPGA_ADDRMASK (u32 a)) /\
  (2 ^ 32 <= a -> m00_bad true FPGA_ADDRMASK a = true).
Proof.
  intros Ha. split.
  - assert (m00_fold true (u32 a) = fst (fpga_map a)) as E; [|unfold m00_bad; by rewrite E].
    unfold m00_fold, fpga_map; cbn [fst]. change (0 .<< 28) with 0. rewrite Z.lor_0_l.
    change (16 .<< 24) with 0x10000000. repeat case_test; bool_props; done || lia.
  - intros H. unfold m00_bad, m00_fold, FPGA_ADDRMASK. repeat case_test; bool_props; lia.
Qed.
Lemma fpga_map_matches_axi_master_witness :
  fpga_map 0x1fc00040 = (m00_fold true 0x1fc00040, false) /\
  fpga_map 0x108000000 = (0x08000000, false) /\ m00_bad true FPGA_ADDRMASK 0x108000000 = true.
Proof.
  destruct (fpga_map_matches_axi_master 0x1fc00040) as [H1 _]; [by vm_compute|].
  destruct (fpga_map_matches_axi_master 0x108000000) as [H2 H3]; [by vm_compute|].
  split; [exact H1|]. split; [exact H2|]. apply H3. by vm_compute.
Defined.

(** The bus lanes mask the 36-bit request to 29 bits before [fpga_map],
    and on 29-bit addresses [fpga_map] never reports a bad address, while the
    AXI master faults on every request at or above 512 MB.  So the harness
    folds such a request into DRAM where the board answers [mem_rsp_bad]. *)
Theorem high_request_faults_only_on_board (a : Z) :
  snd (fpga_map (a .& 0x1fffffff)) = false /\
  (0x20000000 <= a -> m00_bad true FPGA_ADDRMASK a = true).
Proof.
  split.
  - assert (0 <= a .& 0x1fffffff < 0x20000000) as Hr by (autorewrite with hw; apply Z.mod_pos_bound; lia).
    rewrite fpga_map_bad by auto with hw. by apply Z.ltb_ge, fold_spec_range.
  - intros Ha. unfold m00_bad, m00_fold, FPGA_ADDRMASK. repeat case_test; bool_props; lia.
Qed.

(** Exactly one pair of physical regions shares DRAM storage: the first
    128 MB of the physical map and the second 128 MB of Low Local Memory
    (0x10000000..0x17ffffff); every other pair of distinct 29-bit addresses is
    kept apart, the PROM/device shadow included. *)
Theorem fpga_map_aliases (a b : Z) :
  0 <= a < b -> b < 0x20000000 ->
  (fst (fpga_map a) = fst (fpga_map b) <-> a < 0x08000000 /\ b = a + 0x10000000).
Proof.
  intros Ha Hb. rewrite !fpga_map_spec by (unfold is_u; lia). split.
  - unfold fold_spec. repeat case_test; bool_props; lia.
  - intros [? ->]. fold_cases.
Qed.
Lemma fpga_map_aliases_witness :
  0 <= 0x1000 < 0x10001000 /\ fst (fpga_map 0x1000) = fst (fpga_map 0x10001000).
Proof.
  split; [lia|]. apply (fpga_map_aliases 0x1000 0x10001000); [lia|lia|]. split; lia.
Defined.

(** Any naturally aligned line (16 bytes, a 64-byte burst, a 4 KB page) at
    a 29-bit address lands inside the [MEM_SIZE] window, at an offset with the
    same alignment, and byte [i] of the line is byte [i] of the folded line. *)
Theorem fpga_map_line (a len i : Z) :
  0 <= a < 0x20000000 -> a mod len = 0 -> (len | 0x1000) -> 0 <= i < len ->
  let '(off, bad) := fpga_map a in
  bad = false /\ off mod len = 0 /\ 0 <= off /\ off + len <= MEM_SIZE /\
  fpga_map (a + i) = (off + i, false).
Proof.
  intros Ha Hal [k Hk] Hi. rewrite (fpga_map_eq32 a) by auto with hw.
  pose proof (fold_spec_range a Ha) as Hr.
  assert (i < 0x1000 - a mod 0x1000) as Hin.
  { rewrite Hk. rewrite (Z.mul_comm k len), Z.rem_mul_r, Hal by nia.
    pose proof (Z.mod_pos_bound (a / len) k ltac:(nia)). nia. }
  assert (a + i < 0x20000000).
  { pose proof (Z.div_mod a 0x1000 ltac:(lia)). assert (a / 0x1000 < 0x20000) by (apply Z.div_lt_upper_bound; lia). lia. }
  rewrite (fpga_map_eq32 (a + i)), fold_spec_page by (lia || (apply is_u32_29; lia)).
  assert (fold_spec a mod len = 0) as Hm.
  { rewrite <- (Z.mod_mod_divide (fold_spec a) 0x1000 len) by (by exists k).
    rewrite fold_spec_align, Z.mod_mod_divide by (by exists k). done. }
  pose proof (Z.div_mod (fold_spec a) len ltac:(nia)) as Hd.
  unfold FPGA_ADDRMASK, MEM_SIZE in *.
  assert (fold_spec a + len <= 0x1f000000).
  { assert (0x1f000000 = (0x1f000 * k) * len) by (transitivity (0x1f000 * 0x1000); [done|rewrite Hk; ring]).
    rewrite Hm, Z.add_0_r in Hd. generalize dependent (fold_spec a / len). intros q Hd.
    assert (q < 0x1f000 * k) by nia. nia. }
  split; [apply Z.ltb_ge; lia|]. split; [done|]. split; [lia|]. split; [lia|].
  f_equal. apply Z.ltb_ge. lia.
Qed.
Lemma fpga_map_line_witness :
  let '(off, bad) := fpga_map 0x1fc00040 in
  bad = false /\ off mod 64 = 0 /\ 0 <= off /\ off + 64 <= MEM_SIZE /\
  fpga_map (0x1fc00040 + 63) = (off + 63, false).
Proof. apply (fpga_map_line 0x1fc00040 64 63); [lia|reflexivity|by exists 64|lia]. Defined.

(** [ckpt_pc_sext] makes every compat-32 PC the sign extension of its low
    word (so kseg0..3 land in their canonical 64-bit segments), leaves a true
    64-bit PC alone, and never changes the low 32 bits. *)
Theorem ckpt_pc_sext_canonical (pc : Z) :
  is_u 64 pc ->
  u32 (ckpt_pc_sext pc) = u32 pc /\
  (pc < 2 ^ 32 -> s64 (ckpt_pc_sext pc) = s32 pc) /\
  (2 ^ 32 <= pc -> ckpt_pc_sext pc = pc) /\
  ckpt_pc_sext (ckpt_pc_sext pc) = ckpt_pc_sext pc.
Proof.
  unfold ckpt_pc_sext, is_u. intros Hpc.
  rewrite !Z.shiftr_div_pow2 by lia.
  repeat split; intros; unfold s64, s32, u64, u32 in *;
    repeat case_test; bool_props; Z.to_euclidean_division_equations; lia.
Qed.
Lemma ckpt_pc_sext_canonical_witness :
  s64 (ckpt_pc_sext 0x8801964c) = s32 0x8801964c.
Proof. apply (ckpt_pc_sext_canonical 0x8801964c); [by vm_compute | lia]. Defined.

(** The accessor only hands out in-range buffers. *)
Lemma scsi_mem_in_range phys len off :
  0 <= len -> 0 <= phys -> scsi_mem phys len = Some off -> 0 <= off /\ off + len <= MEM_SIZE.
Proof.
  unfold scsi_mem, FPGA_ADDRESS_MAP. rewrite fpga_map_eq. intros Hl Hp.
  case_test; [done|]. intros [= <-]. bool_props. split; [|lia]. pose proof (u32_range phys).
  unfold fold_spec. repeat case_test; bool_props; lia.
Qed.
