(* ===== verification/GuestMem.v ===== *)
(** * GuestMem: the byte array [g_mem] and its accessors

    The RTL DRAM of sim/henry_tb.cpp: a zero-filled byte array, big-endian
    guest words, little-endian 32-bit bus lanes.  Accessors: [be32]/[be16],
    [put_be32], [dump_pa], [mon_mem_rd], [seed_bbram_mac], and the 16/64-byte
    line load and masked store both bus lanes share. *)
From S2P Require Import Prelude AddressMap.

(** [be32(p)], [be16(p)] with [p = g_mem + a]. *)
Definition be32 (m : mem) (a : Z) : Z :=
  (mget m a .<< 24) .| (mget m (a + 1) .<< 16) .| (mget m (a + 2) .<< 8) .| mget m (a + 3).
Definition be16 (m : mem) (a : Z) : Z := (mget m a .<< 8) .| mget m (a + 1).

(** A little-endian 32-bit lane, as the bus reply builds it. *)
Definition le32 (m : mem) (a : Z) : Z :=
  mget m a .| (mget m (a + 1) .<< 8) .| (mget m (a + 2) .<< 16) .| (mget m (a + 3) .<< 24).

(** [put_be32(pa, w)]: only the base address is masked. *)
Definition put_be32 (m : mem) (pa w : Z) : mem :=
  let pa := pa .& MEM_MASK in
  <[pa + 3 := w .& 0xff]> (<[pa + 2 := (w .>> 8) .& 0xff]>
    (<[pa + 1 := (w .>> 16) .& 0xff]> (<[pa := (w .>> 24) .& 0xff]> m))).

(** [dump_pa(pa)]: the eight words it prints. *)
Definition dump_pa (m : mem) (pa : Z) : list Z :=
  let pa := pa .& MEM_MASK in
  map (fun i => be32 m ((pa + 4 * Z.of_nat i) .& MEM_MASK)) (seq 0 8).

(** [mon_mem_rd(va, out)]: [None] is the [false] return. *)
Definition mon_mem_rd (m : mem) (va : Z) : option Z :=
  let '(off, bad) := fpga_map (kseg_phys va) in
  if bad || (MEM_SIZE <? off + 4) then None else Some (be32 m off).

(** [seed_bbram_mac()]. *)
Definition bbram_mac : list Z := [0x08; 0x00; 0x69; 0x12; 0x34; 0x56].
Fixpoint seed_bbram_from (m : mem) (k : Z) (mac : list Z) : mem :=
  match mac with
  | [] => m
  | b :: t => seed_bbram_from (<[fst (fpga_map (0x1fbe04e8 + 4 * k + 3)) := b]> m) (k + 1) t
  end.
Definition seed_bbram_mac (m : mem) : mem := seed_bbram_from m 0 bbram_mac.

(** A bus line load: lane [i] is the little-endian word at [addr + 4i]. *)
Definition line_load (m : mem) (addr : Z) (lanes : nat) : list Z :=
  map (fun i => le32 m ((addr + 4 * Z.of_nat i) .& MEM_MASK)) (seq 0 lanes).

(** Byte [i] of the store-data lanes: [(sd[i>>2] >> (8*(i&3))) & 0xff]. *)
Definition sd_byte (sd : list Z) (i : nat) : Z :=
  (nth (i / 4) sd 0 .>> (8 * Z.of_nat (i mod 4))) .& 0xff.

(** A masked store of [n] bytes: byte [i] is written when [en i]. *)
Fixpoint line_store_from (m : mem) (addr : Z) (sd : list Z) (en : nat -> bool) (i n : nat) : mem :=
  match n with
  | O => m
  | S k =>
      let m' := if en i then <[(addr + Z.of_nat i) .& MEM_MASK := sd_byte sd i]> m else m in
      line_store_from m' addr sd en (S i) k
  end.
Definition line_store (m : mem) (addr : Z) (sd : list Z) (en : nat -> bool) (n : nat) : mem :=
  line_store_from m addr sd en 0 n.

Definition bswap32 (x : Z) : Z :=
  ((x .& 0xff) .<< 24) .| (((x .>> 8) .& 0xff) .<< 16) .| (((x .>> 16) .& 0xff) .<< 8) .| ((x .>> 24) .& 0xff).

(** ** Words as byte sums *)

Lemma land_ff x : x .& 0xff = x mod 256.
Proof. exact (land_ones_mod x 8 ltac:(lia)). Qed.
Lemma sd_byte_ok sd i : is_u 8 (sd_byte sd i).
Proof. unfold sd_byte. rewrite land_ff. word_lia. Qed.
#[export] Hint Rewrite land_ff : hw.
#[export] Hint Resolve sd_byte_ok : hw.

(** The four-byte concatenation the source writes with shifts and ors. *)
Lemma cat32 b3 b2 b1 b0 :
  is_u 8 b3 -> is_u 8 b2 -> is_u 8 b1 -> is_u 8 b0 ->
  (b3 .<< 24) .| (b2 .<< 16) .| (b1 .<< 8) .| b0
  = b3 * 0x1000000 + b2 * 0x10000 + b1 * 0x100 + b0.
Proof.
  unfold is_u. intros. change (2 ^ 8) with 256 in *.
  rewrite (lor_shiftl_add b3 (b2 .<< 16) 24) by (rewrite ?Z.shiftl_mul_pow2 by lia; lia).
  replace (b3 * 2 ^ 24 + (b2 .<< 16)) with ((b3 * 256 + b2) .<< 16)
    by (rewrite !Z.shiftl_mul_pow2 by lia; lia).
  rewrite (lor_shiftl_add _ (b1 .<< 8) 16) by (rewrite ?Z.shiftl_mul_pow2 by lia; lia).
  replace ((b3 * 256 + b2) * 2 ^ 16 + (b1 .<< 8)) with ((b3 * 65536 + b2 * 256 + b1) .<< 8)
    by (rewrite !Z.shiftl_mul_pow2 by lia; lia).
  rewrite (lor_shiftl_add _ b0 8) by lia. lia.
Qed.
Lemma cat32_rev b0 b1 b2 b3 :
  b0 .| (b1 .<< 8) .| (b2 .<< 16) .| (b3 .<< 24) = (b3 .<< 24) .| (b2 .<< 16) .| (b1 .<< 8) .| b0.
Proof.
  apply Z.bits_inj'. intros i _. rewrite !Z.lor_spec.
  by repeat destruct (Z.testbit _ _).
Qed.

Lemma be32_sum m a : mem_ok m ->
  be32 m a = mget m a * 0x1000000 + mget m (a + 1) * 0x10000 + mget m (a + 2) * 0x100 + mget m (a + 3).
Proof. intros Hm. apply cat32; apply Hm. Qed.
Lemma be32_bytes m a : mem_ok m -> be32 m a = be_val (mget_bytes m a 4).
Proof. intros Hm. rewrite be32_sum by done. unfold be_val; cbn -[Z.add Z.mul].
  replace (a + 1 + 1) with (a + 2) by lia. replace (a + 2 + 1) with (a + 3) by lia. lia. Qed.
Lemma le32_sum m a : mem_ok m ->
  le32 m a = mget m (a + 3) * 0x1000000 + mget m (a + 2) * 0x10000 + mget m (a + 1) * 0x100 + mget m a.
Proof. intros Hm. unfold le32. rewrite cat32_rev. apply cat32; apply Hm. Qed.
Lemma be32_range m a : mem_ok m -> is_u 32 (be32 m a).
Proof.
  intros Hm. rewrite be32_sum by done. pose proof (Hm a). pose proof (Hm (a + 1)).
  pose proof (Hm (a + 2)). pose proof (Hm (a + 3)). word_lia.
Qed.
Lemma be32_low_byte m a : is_u 8 (mget m (a + 3)) -> be32 m a .& 0xff = mget m (a + 3).
Proof.
  intros Hb. unfold be32. rewrite !Z.land_lor_distr_l.
  rewrite !land_ff, !Z.shiftl_mul_pow2 by lia.
  change (2 ^ 24) with (65536 * 256). change (2 ^ 16) with (256 * 256). change (2 ^ 8) with 256.
  rewrite !Z.mul_assoc, !Z.mod_mul, !Z.lor_0_l by lia. by apply Z.mod_small.
Qed.
Lemma le32_val m a : mem_ok m -> le32 m a = le_val (mget_bytes m a 4).
Proof. intros Hm. rewrite le32_sum by done. cbn [mget_bytes le_val]. rewrite <- !Z.add_assoc. change (1 + (1 + 1)) with 3. change (1 + 1) with 2. lia. Qed.
Lemma bswap32_le32 m a : mem_ok m -> bswap32 (le32 m a) = be32 m a.
Proof.
  intros Hm. rewrite le32_sum, be32_sum by done. unfold bswap32. autorewrite with hw.
  rewrite !Z.shiftr_div_pow2 by lia.
  pose proof (Hm a). pose proof (Hm (a + 1)). pose proof (Hm (a + 2)). pose proof (Hm (a + 3)).
  rewrite cat32 by word_lia. unfold is_u in *. change (2 ^ 8) with 256 in *.
  change (2 ^ 16) with 65536. change (2 ^ 24) with 16777216.
  Z.to_euclidean_division_equations. lia.
Qed.

Lemma seed_bbram_mac_eq m :
  seed_bbram_mac m =
  <[0x10be04ff := 0x56]> (<[0x10be04fb := 0x34]> (<[0x10be04f7 := 0x12]>
    (<[0x10be04f3 := 0x69]> (<[0x10be04ef := 0x00]> (<[0x10be04eb := 0x08]> m))))).
Proof. reflexivity. Qed.

(** ** [put_be32] *)

Lemma put_be32_bytes m pa w :
  0 <= w -> put_be32 m pa w = mput_bytes m (pa mod MEM_SIZE) (be_bytes 4 w).
Proof.
  intros Hw. unfold put_be32. autorewrite with hw. unfold be_bytes; cbn.
  rewrite !Z.shiftr_div_pow2 by lia. change (2 ^ 8) with 256. change (2 ^ 16) with (256 * 256).
  change (2 ^ 24) with (256 * 256 * 256). rewrite <- !Z.div_div by lia.
  set (q := pa mod MEM_SIZE).
  replace (q + 1 + 1) with (q + 2) by lia. replace (q + 2 + 1) with (q + 3) by lia. done.
Qed.
Lemma put_be32_ok m pa w : mem_ok m -> 0 <= w -> mem_ok (put_be32 m pa w).
Proof. intros. rewrite put_be32_bytes by done. auto with hw. Qed.
#[export] Hint Resolve put_be32_ok : hw.

Lemma be32_put_be32 m pa w :
  mem_ok m -> is_u 32 w -> be32 (put_be32 m pa w) (pa mod MEM_SIZE) = w.
Proof.
  intros Hm Hw. rewrite be32_bytes by (apply put_be32_ok; [done|unfold is_u in *; lia]).
  rewrite put_be32_bytes by (unfold is_u in *; lia).
  change 4%nat with (length (be_bytes 4 w)) at 2. rewrite mget_bytes_mput.
  apply be_val_be_bytes. unfold is_u in *. lia.
Qed.
Lemma be32_ext m m' a : (forall x, a <= x < a + 4 -> mget m x = mget m' x) -> be32 m a = be32 m' a.
Proof. intros H. unfold be32. by rewrite !H by lia. Qed.
Lemma be32_put_be32_ne m pa w a :
  0 <= w -> a + 4 <= pa mod MEM_SIZE \/ pa mod MEM_SIZE + 4 <= a ->
  be32 (put_be32 m pa w) a = be32 m a.
Proof.
  intros Hw Ha. apply be32_ext. intros x Hx. rewrite put_be32_bytes by done.
  apply mget_mput_out. rewrite length_be_bytes. lia.
Qed.

(** ** Line loads and stores *)

Lemma mod_window a : 0 <= a < MEM_SIZE -> a .& MEM_MASK = a.
Proof. intros. rewrite land_MEM_MASK. by apply Z.mod_small. Qed.

Lemma line_store_from_spec m addr sd en i n x :
  0 <= addr -> addr + Z.of_nat (i + n) <= MEM_SIZE ->
  mget (line_store_from m addr sd en i n) x =
  if (addr + Z.of_nat i <=? x) && (x <? addr + Z.of_nat (i + n)) && en (Z.to_nat (x - addr))
  then sd_byte sd (Z.to_nat (x - addr)) else mget m x.
Proof.
  intros Ha. revert m i; induction n as [|n IH]; intros m i Hn; cbn [line_store_from].
  - destruct (_ <=? x) eqn:E1, (x <? _) eqn:E2; cbn; bool_props; try done; lia.
  - rewrite IH by lia. rewrite mod_window by lia.
    replace (S i + n)%nat with (i + S n)%nat by lia.
    destruct (decide (x = addr + Z.of_nat i)) as [->|Hne].
    + replace (Z.to_nat (addr + Z.of_nat i - addr)) with i by lia.
      rewrite (proj2 (Z.leb_gt _ _)) by lia. rewrite Z.leb_refl, (proj2 (Z.ltb_lt _ _)) by lia.
      cbn. destruct (en i); [apply mget_insert_eq|done].
    + assert (mget (if en i then <[addr + Z.of_nat i := sd_byte sd i]> m else m) x = mget m x) as ->.
      { destruct (en i); [apply mget_insert_ne; lia|done]. }
      destruct (addr + Z.of_nat (S i) <=? x) eqn:E1, (addr + Z.of_nat i <=? x) eqn:E2;
        cbn; bool_props; try done; lia.
Qed.
Lemma line_store_ok m addr sd en n : mem_ok m -> mem_ok (line_store m addr sd en n).
Proof.
  unfold line_store. generalize 0%nat. intros i Hm. revert m i Hm.
  induction n as [|n IH]; intros; cbn; [done|]. apply IH. destruct (en i); auto with hw.
Qed.
#[export] Hint Resolve line_store_ok : hw.

Lemma sd_bytes_lane v i sd :
  is_u 32 v -> nth i sd 0 = v ->
  sd_byte sd (4 * i + 3) * 0x1000000 + sd_byte sd (4 * i + 2) * 0x10000
    + sd_byte sd (4 * i + 1) * 0x100 + sd_byte sd (4 * i) = v.
Proof.
  intros Hv Hn. unfold sd_byte. autorewrite with hw.
  assert (forall j, (j < 4)%nat -> ((4 * i + j) / 4 = i /\ (4 * i + j) mod 4 = j)%nat) as E.
  { intros j Hj. split; symmetry; [apply (Nat.div_unique _ 4 i j)|apply (Nat.mod_unique _ 4 i j)]; lia. }
  destruct (E 3%nat) as [-> ->]; [lia|]. destruct (E 2%nat) as [-> ->]; [lia|].
  destruct (E 1%nat) as [-> ->]; [lia|]. replace (4 * i)%nat with (4 * i + 0)%nat by lia.
  destruct (E 0%nat) as [-> ->]; [lia|]. rewrite Hn, !Z.shiftr_div_pow2 by lia.
  change (2 ^ (8 * Z.of_nat 3)) with (256 * 256 * 256). change (2 ^ (8 * Z.of_nat 2)) with (256 * 256).
  change (2 ^ (8 * Z.of_nat 1)) with 256. change (2 ^ (8 * Z.of_nat 0)) with 1.
  unfold is_u in Hv. Z.to_euclidean_division_equations. lia.
Qed.

(** ** Properties *)

(** A masked store through a lane changes exactly the enabled bytes of its
    line, to the bytes of the store-data lanes, and nothing else. *)
Theorem line_store_exact (m : mem) (addr : Z) (sd : list Z) (en : nat -> bool) (n : nat) (x : Z) :
  0 <= addr -> addr + Z.of_nat n <= MEM_SIZE ->
  mget (line_store m addr sd en n) x =
  if (addr <=? x) && (x <? addr + Z.of_nat n) && en (Z.to_nat (x - addr))
  then sd_byte sd (Z.to_nat (x - addr)) else mget m x.
Proof.
  intros Ha Hn. unfold line_store. rewrite line_store_from_spec by lia. by rewrite Z.add_0_r.
Qed.
Lemma line_store_exact_witness :
  mget (line_store ∅ 0x40 [0x11223344; 0; 0; 0x55] (fun i => Nat.eqb i 1) 16) 0x41 = 0x33.
Proof. rewrite line_store_exact; [reflexivity | lia | by vm_compute]. Defined.

(** A fully enabled line store followed by a line load of the same line
    returns the stored lanes: the store's byte order and the load's agree. *)
Theorem line_store_load (m : mem) (addr : Z) (sd : list Z) :
  mem_ok m -> 0 <= addr -> addr + 4 * Z.of_nat (length sd) <= MEM_SIZE -> Forall (is_u 32) sd ->
  line_load (line_store m addr sd (fun _ => true) (4 * length sd)) addr (length sd) = sd.
Proof.
  intros Hm Ha Hn Hsd. apply (nth_ext _ _ 0 0); unfold line_load.
  { by rewrite length_map, length_seq. }
  intros i Hi. rewrite length_map, length_seq in Hi.
  rewrite (nth_indep _ 0 (le32 (line_store m addr sd (fun _ => true) (4 * length sd))
    ((addr + 4 * Z.of_nat (length sd)) .& MEM_MASK))) by (by rewrite length_map, length_seq).
  rewrite (map_nth (fun j => le32 _ ((addr + 4 * Z.of_nat j) .& MEM_MASK))), seq_nth by done.
  rewrite Nat.add_0_l, mod_window, le32_sum by (auto with hw || lia).
  rewrite !line_store_exact by lia.
  rewrite !(proj2 (Z.leb_le _ _)), !(proj2 (Z.ltb_lt _ _)) by lia. cbn [andb].
  replace (Z.to_nat (addr + 4 * Z.of_nat i - addr)) with (4 * i)%nat by lia.
  replace (Z.to_nat (addr + 4 * Z.of_nat i + 1 - addr)) with (4 * i + 1)%nat by lia.
  replace (Z.to_nat (addr + 4 * Z.of_nat i + 2 - addr)) with (4 * i + 2)%nat by lia.
  replace (Z.to_nat (addr + 4 * Z.of_nat i + 3 - addr)) with (4 * i + 3)%nat by lia.
  apply sd_bytes_lane; [|done]. by apply Forall_nth.
Qed.
Lemma line_store_load_witness :
  line_load (line_store ∅ 0x80 [1; 2; 0xdeadbeef; 4] (fun _ => true) (4 * 4)) 0x80 4
  = [1; 2; 0xdeadbeef; 4].
Proof.
  apply (line_store_load ∅ 0x80 [1; 2; 0xdeadbeef; 4]);
    [apply mem_ok_empty | lia | by vm_compute | repeat constructor; by vm_compute].
Defined.

(** The monitor's [mem] command shows what the core would load: for a
    word-aligned kseg0/kseg1 (or low physical) address the word it returns is
    the byte-swapped lane of the line load the bus answers for that line. *)
Theorem mon_mem_rd_is_bus_lane (m : mem) (va : Z) :
  mem_ok m -> 0 <= kseg_phys va < 0x20000000 -> kseg_phys va mod 4 = 0 ->
  let line := kseg_phys va - kseg_phys va mod 16 in
  let lane := Z.to_nat ((kseg_phys va mod 16) / 4) in
  mon_mem_rd m va = Some (bswap32 (nth lane (line_load m (fst (fpga_map line)) 4) 0)).
Proof.
  intros Hm Hr Hal line lane. unfold mon_mem_rd. set (p := kseg_phys va) in *.
  assert (0 <= line < 0x20000000 /\ line mod 16 = 0 /\ p = line + 4 * Z.of_nat lane /\ (lane < 4)%nat)
    as (Hl & Hl16 & Hp & Hlane).
  { unfold line, lane. Z.to_euclidean_division_equations. lia. }
  pose proof (fold_spec_range line Hl) as Hfr. unfold FPGA_ADDRMASK in Hfr.
  assert (fold_spec line mod 16 = 0) as Hf16.
  { rewrite <- (Z.mod_mod_divide _ 0x1000 16) by (by exists 256).
    rewrite fold_spec_align, Z.mod_mod_divide by (by exists 256). done. }
  assert (fold_spec p = fold_spec line + 4 * Z.of_nat lane) as Hf.
  { rewrite Hp. apply fold_spec_page; [lia|]. Z.to_euclidean_division_equations. lia. }
  rewrite !fpga_map_eq32 by (apply is_u32_29; lia). cbn [fst].
  rewrite (proj2 (Z.ltb_ge _ _)) by (apply fold_spec_range; lia).
  rewrite (proj2 (Z.ltb_ge _ _)) by (unfold MEM_SIZE; lia). cbn [orb].
  f_equal. unfold line_load. rewrite (nth_indep _ 0 (le32 m ((fold_spec line + 4 * Z.of_nat 4) .& MEM_MASK)))
    by (rewrite length_map, length_seq; lia).
  rewrite (map_nth (fun j => le32 m ((fold_spec line + 4 * Z.of_nat j) .& MEM_MASK))), seq_nth by done.
  rewrite Nat.add_0_l, mod_window by (unfold MEM_SIZE; lia). rewrite bswap32_le32 by done. by rewrite Hf.
Qed.
Lemma mon_mem_rd_is_bus_lane_witness :
  mon_mem_rd (put_be32 ∅ 0x10c00008 0x88005960) 0xbfc00008
  = Some (bswap32 (nth 2 (line_load (put_be32 ∅ 0x10c00008 0x88005960) 0x10c00000 4) 0)).
Proof.
  apply (mon_mem_rd_is_bus_lane (put_be32 ∅ 0x10c00008 0x88005960) 0xbfc00008);
    [apply put_be32_ok; [apply mem_ok_empty|lia] | by vm_compute | reflexivity].
Defined.

(** [seed_bbram_mac] puts byte [k] of the station address in the low byte
    of the big-endian word the guest reads at 0x1fbe04e8 + 4k, and touches no
    byte of any other word. *)
Theorem seed_bbram_mac_readable (m : mem) :
  map (fun k => option_map (fun w => w .& 0xff) (mon_mem_rd (seed_bbram_mac m) (0x1fbe04e8 + 4 * k)))
      [0; 1; 2; 3; 4; 5]
  = map Some bbram_mac /\
  (forall x, ~ (0x10be04e8 <= x < 0x10be0500) -> mget (seed_bbram_mac m) x = mget m x).
Proof.
  assert (forall k, 0 <= k < 6 ->
    mget (seed_bbram_mac m) (0x10be04eb + 4 * k) = nth (Z.to_nat k) bbram_mac 0) as E.
  { intros k Hk. assert (k = 0 \/ k = 1 \/ k = 2 \/ k = 3 \/ k = 4 \/ k = 5) by lia.
    destruct_or!; subst k; rewrite seed_bbram_mac_eq; unfold mget; cbn; by simplify_map_eq. }
  split.
  - generalize dependent (seed_bbram_mac m). intros m' E.
    cbn [map]. unfold mon_mem_rd.
    repeat match goal with |- context [fpga_map ?t] =>
      let v := eval vm_compute in (fpga_map t) in change (fpga_map t) with v end.
    assert (forall k, 0 <= k < 6 -> be32 m' (0x10be04e8 + 4 * k) .& 0xff = nth (Z.to_nat k) bbram_mac 0) as L.
    { intros k Hk. specialize (E k Hk).
      replace (0x10be04eb + 4 * k) with (0x10be04e8 + 4 * k + 3) in E by lia.
      rewrite be32_low_byte, E; [done|]. rewrite E.
      assert (k = 0 \/ k = 1 \/ k = 2 \/ k = 3 \/ k = 4 \/ k = 5) by lia.
      destruct_or!; subst k; by vm_compute. }
    apply (f_equal2 cons); [apply (f_equal Some), (L 0); lia|].
    apply (f_equal2 cons); [apply (f_equal Some), (L 1); lia|].
    apply (f_equal2 cons); [apply (f_equal Some), (L 2); lia|].
    apply (f_equal2 cons); [apply (f_equal Some), (L 3); lia|].
    apply (f_equal2 cons); [apply (f_equal Some), (L 4); lia|].
    apply (f_equal2 cons); [apply (f_equal Some), (L 5); lia|done].
  - intros x Hx. rewrite seed_bbram_mac_eq, !mget_insert_ne by lia. done.
Qed.
