(* ===== verification/MemBus.v ===== *)
(** * MemBus: the two lanes of the external memory bus

    The bus servicing section of the run loop of sim/henry_tb.cpp: the
    xorshift latency model, lane 0 (CPU, 16-byte loads and masked stores) and
    lane 1 (DMA, plus 64-byte bursts), each an edge-triggered
    one-outstanding port, the magic-halt store and the mirror that keeps the
    golden ISS's memory equal to the RTL's. *)
From S2P Require Import Prelude AddressMap GuestMem.

(** ** The latency model *)

(** [memlat_next]: xorshift64 (13, 7, 17). *)
Definition memlat_next (s : Z) : Z :=
  let s := s .^ u64 (s .<< 13) in
  let s := s .^ (s .>> 7) in
  s .^ u64 (s .<< 17).
Definition memlat_seed (MEM_SEED : Z) : Z :=
  if MEM_SEED =? 0 then 88172645463325252 else MEM_SEED.

Record cfg := Cfg { MEM_LAT_MIN : Z; MEM_LAT_MAX : Z; AXI_ALIGN : bool }.
Definition MEM_LAT_SPAN (c : cfg) : Z := u64 (MEM_LAT_MAX c - MEM_LAT_MIN c + 1).

(** One draw: the advanced generator and [MIN + (int)(next % SPAN)]. *)
Definition memlat_draw (c : cfg) (s : Z) : Z * Z :=
  let s' := memlat_next s in (s', MEM_LAT_MIN c + s32 (s' mod MEM_LAT_SPAN c)).

(** ** State *)

(** The request port of a lane as the RTL drives it. *)
Record req := Req { rq_valid : bool; rq_addr : Z; rq_op : Z; rq_mask : Z; rq_sd : list Z }.

(** The locals of the run loop that belong to one lane; [reply = -1] is idle. *)
Record lane := Lane {
  l_reply : Z; l_prev : bool; l_addr : Z; l_op : Z; l_mask : Z;
  l_phys : Z; l_sd : list Z; l_bad : bool; l_is_halt : bool }.
Definition lane_init : lane := Lane (-1) false 0 0 0 0 [] false false.

(** The response port; [rs_data] keeps its value until the next load. *)
Record rsp := Rsp { rs_valid : bool; rs_bad : bool; rs_data : list Z }.

(** [g_mem] and, under --checker, the ISS's own memory. *)
Record mems := Mems { dram : mem; iss : option mem }.

Record bus := Bus {
  b_mems : mems; b_memlat : Z; b_lane0 : lane; b_lane1 : lane;
  b_rsp0 : rsp; b_rsp1 : rsp; b_halted : bool;
  b_unaligned : Z; b_lane1_ops : list Z }.

(** ** Effects of a reply *)

Definition mask_en (mask : Z) (i : nat) : bool := Z.testbit mask (Z.of_nat i).

(** [*g_ss_mem->get_raw_ptr(req_phys + i) = by] for every enabled byte: the ISS
    memory is indexed by guest physical address, unmasked. *)
Fixpoint iss_store_from (m : mem) (phys : Z) (sd : list Z) (en : nat -> bool) (i n : nat) : mem :=
  match n with
  | O => m
  | S k => iss_store_from (if en i then <[phys + Z.of_nat i := sd_byte sd i]> m else m) phys sd en (S i) k
  end.

Definition lane_store (ms : mems) (l : lane) (en : nat -> bool) (n : nat) : mems :=
  Mems (line_store (dram ms) (l_addr l) (l_sd l) en n)
       (option_map (fun im => iss_store_from im (l_phys l) (l_sd l) en 0 n) (iss ms)).

Definition halt_hit (l : lane) : bool :=
  l_is_halt l && existsb (fun i => mask_en (l_mask l) i && negb (sd_byte (l_sd l) i =? 0)) (seq 0 16).

Definition idle (l : lane) : lane :=
  Lane (-1) (l_prev l) (l_addr l) (l_op l) (l_mask l) (l_phys l) (l_sd l) (l_bad l) (l_is_halt l).
Definition set_prev (v : bool) (l : lane) : lane :=
  Lane (l_reply l) v (l_addr l) (l_op l) (l_mask l) (l_phys l) (l_sd l) (l_bad l) (l_is_halt l).

(** ** Lane 0 *)

Definition fold_or_mask (phys raw : Z) : Z * bool :=
  if FPGA_ADDRESS_MAP then fpga_map phys else (raw, false).

(** Accept on a rising edge of [mem_req_valid] while idle.  Returns the new
    generator state, the lane and the unaligned-request counter. *)
Definition lane0_accept (c : cfg) (cyc : Z) (rq : req) (memlat : Z) (l : lane) (unaligned : Z)
  : Z * lane * Z :=
  if rq_valid rq && negb (l_prev l) && (l_reply l =? -1) then
    let phys0 := rq_addr rq .& 0x1fffffff in
    let is_halt := phys0 =? HALT_PA in
    let un := negb (phys0 .& 0xf =? 0) in
    let phys := if un && AXI_ALIGN c then Z.ldiff phys0 0xf else phys0 in
    let '(addr, bad) := fold_or_mask phys (rq_addr rq .& MEM_MASK) in
    let '(memlat', lat) := memlat_draw c memlat in
    let reply := cyc + (if rq_op rq =? 4 then lat else 2 * lat) in
    (memlat', Lane reply (l_prev l) addr (rq_op rq) (rq_mask rq) phys (firstn 4 (rq_sd rq)) bad is_halt,
     if un then unaligned + 1 else unaligned)
  else (memlat, l, unaligned).

Definition lane0_reply (cyc : Z) (l : lane) (ms : mems) (p : rsp) (halted : bool)
  : mems * lane * rsp * bool :=
  if l_reply l =? cyc then
    if l_bad l then (ms, idle l, Rsp true true (rs_data p), halted)
    else if l_op l =? 4 then
      (ms, idle l, Rsp true false (line_load (dram ms) (l_addr l) 4), halted)
    else if l_op l =? 7 then
      (lane_store ms l (mask_en (l_mask l)) 16, idle l, Rsp true false (rs_data p), halted || halt_hit l)
    else (ms, idle l, Rsp true false (rs_data p), halted)
  else (ms, l, Rsp false false (rs_data p), halted).

(** ** Lane 1 *)

Definition is_burst (op : Z) : bool := (op =? 5) || (op =? 6).

Definition lane1_accept (c : cfg) (cyc : Z) (rq : req) (memlat : Z) (l : lane) (ops : list Z)
  : Z * lane * list Z :=
  if rq_valid rq && negb (l_prev l) && (l_reply l =? -1) then
    let op := rq_op rq in
    let burst := is_burst op in
    let phys := Z.ldiff (rq_addr rq .& 0x1fffffff) (if burst then 0x3f else 0xf) in
    let '(addr, bad) :=
      fold_or_mask phys (Z.ldiff (rq_addr rq .& MEM_MASK) (if burst then 0x3f else 0xf)) in
    let '(memlat', lat) := memlat_draw c memlat in
    let reply := cyc + (if (op =? 4) || (op =? 5) then lat else 2 * lat) + (if burst then 3 else 0) in
    (memlat', Lane reply (l_prev l) addr op (rq_mask rq) phys (firstn 16 (rq_sd rq)) bad false,
     alter (Z.add 1) (Z.to_nat (op .& 7)) ops)
  else (memlat, l, ops).

Definition lane1_reply (cyc : Z) (l : lane) (ms : mems) (p : rsp) : mems * lane * rsp :=
  if l_reply l =? cyc then
    let burst := is_burst (l_op l) in
    let lanes := if burst then 16%nat else 4%nat in
    if l_bad l then (ms, idle l, Rsp true true (repeat 0xa5a5a5a5 16))
    else if (l_op l =? 4) || (l_op l =? 5) then
      (ms, idle l, Rsp true false (line_load (dram ms) (l_addr l) lanes ++ repeat 0 (16 - lanes)))
    else if (l_op l =? 7) || (l_op l =? 6) then
      (lane_store ms l (fun i => burst || mask_en (l_mask l) i) (4 * lanes), idle l,
       Rsp true false (rs_data p))
    else (ms, idle l, Rsp true false (rs_data p))
  else (ms, l, Rsp false false (rs_data p)).

(** ** One cycle of bus servicing: lane 0, then lane 1 *)

Definition bus_step (c : cfg) (cyc : Z) (rqs : req * req) (b : bus) : bus :=
  let '(rq0, rq1) := rqs in
  let '(memlat1, l0, un) := lane0_accept c cyc rq0 (b_memlat b) (b_lane0 b) (b_unaligned b) in
  let '(ms1, l0', p0, halted) := lane0_reply cyc l0 (b_mems b) (b_rsp0 b) (b_halted b) in
  let '(memlat2, l1, ops) := lane1_accept c cyc rq1 memlat1 (b_lane1 b) (b_lane1_ops b) in
  let '(ms2, l1', p1) := lane1_reply cyc l1 ms1 (b_rsp1 b) in
  Bus ms2 memlat2 (set_prev (rq_valid rq0) l0') (set_prev (rq_valid rq1) l1') p0 p1 halted un ops.

(** [n] cycles from [cyc], the request ports driven by [inp]. *)
Fixpoint bus_run (c : cfg) (inp : Z -> req * req) (n : nat) (cyc : Z) (b : bus) : bus :=
  match n with
  | O => b
  | S k => bus_run c inp k (cyc + 1) (bus_step c cyc (inp cyc) b)
  end.

Definition bus_init (ms : mems) (seed : Z) : bus :=
  Bus ms (memlat_seed seed) lane_init lane_init (Rsp false false []) (Rsp false false []) false 0 (repeat 0 8).

(** The save gate of the checkpoint code: no transaction in flight. *)
Definition bus_quiescent (b : bus) : bool :=
  (l_reply (b_lane0 b) =? -1) && negb (l_prev (b_lane0 b)) &&
  (l_reply (b_lane1 b) =? -1) && negb (l_prev (b_lane1 b)).

(** ** The generator *)

Lemma lxor_zero_eq a b : a .^ b = 0 -> a = b.
Proof. apply Z.lxor_eq. Qed.

(** A left shift by [k > 0] has no nonzero fixed point within 64 bits. *)
Lemma shiftl_fixpoint_zero x k : is_u 64 x -> 0 < k -> x = u64 (x .<< k) -> x = 0.
Proof.
  intros Hx Hk E. apply Z.bits_inj'. intros i Hi. rewrite Z.bits_0.
  refine (Z_lt_induction (fun i => 0 <= i -> Z.testbit x i = false) _ i Hi Hi).
  clear i Hi. intros i IH Hi. rewrite E. unfold u64. change 0x10000000000000000 with (2 ^ 64).
  destruct (decide (i < 64)).
  - rewrite Z.mod_pow2_bits_low, Z.shiftl_spec by lia.
    destruct (decide (i < k)); [apply Z.testbit_neg_r; lia|]. apply IH; lia.
  - apply Z.mod_pow2_bits_high. lia.
Qed.
Lemma shiftr_fixpoint_zero x k : 0 <= x -> 0 < k -> x = x .>> k -> x = 0.
Proof.
  intros Hx Hk E. rewrite Z.shiftr_div_pow2 in E by lia.
  destruct (decide (x = 0)); [done|]. exfalso.
  assert (x / 2 ^ k < x); [|lia]. apply Z.div_lt; [lia|].
  change 1 with (2 ^ 0). apply Z.pow_lt_mono_r; lia.
Qed.
Lemma is_u64_u64 x : is_u 64 (u64 x).
Proof. unfold is_u. apply u64_range. Qed.
Lemma shiftr_is_u w x k : 0 <= w -> is_u w x -> 0 <= k -> is_u w (x .>> k).
Proof.
  unfold is_u. intros Hw Hx Hk. rewrite Z.shiftr_div_pow2 by lia.
  assert (0 < 2 ^ k) by (apply Z.pow_pos_nonneg; lia).
  split; [apply Z.div_pos; lia|]. apply Z.le_lt_trans with x; [|lia].
  apply Z.div_le_upper_bound; nia.
Qed.
#[export] Hint Resolve is_u64_u64 : hw.

Definition memlat_ok (s : Z) : Prop := is_u 64 s /\ s <> 0.

Lemma memlat_next_ok s : memlat_ok s -> memlat_ok (memlat_next s).
Proof.
  unfold memlat_next. intros [H1 H2].
  assert (memlat_ok (s .^ u64 (s .<< 13))) as [H3 H4].
  { split; [apply lxor_bound; auto with hw; lia|]. intros E.
    apply H2, (shiftl_fixpoint_zero s 13); [done|lia|by apply lxor_zero_eq]. }
  set (s1 := s .^ u64 (s .<< 13)) in *.
  assert (memlat_ok (s1 .^ (s1 .>> 7))) as [H5 H6].
  { split; [apply lxor_bound; [lia|done|apply shiftr_is_u; done || lia]|]. intros E.
    apply H4, (shiftr_fixpoint_zero s1 7); [apply H3|lia|by apply lxor_zero_eq]. }
  set (s2 := s1 .^ (s1 .>> 7)) in *.
  split; [apply lxor_bound; auto with hw; lia|]. intros E.
  apply H6, (shiftl_fixpoint_zero s2 17); [done|lia|by apply lxor_zero_eq].
Qed.
Lemma memlat_seed_ok seed : is_u 32 seed -> memlat_ok (memlat_seed seed).
Proof.
  unfold memlat_seed. intros Hs. case_test; bool_props; [by vm_compute|].
  unfold memlat_ok, is_u in *. lia.
Qed.

(** The configurations the harness is meant for. *)
Definition cfg_ok (c : cfg) : Prop := 0 <= MEM_LAT_MIN c <= MEM_LAT_MAX c /\ MEM_LAT_MAX c < 0x40000000.

Lemma memlat_draw_bounds c s :
  cfg_ok c -> MEM_LAT_MIN c <= snd (memlat_draw c s) <= MEM_LAT_MAX c.
Proof.
  intros [H1 H2]. unfold memlat_draw, MEM_LAT_SPAN; cbn [snd].
  rewrite u64_small by lia.
  pose proof (Z.mod_pos_bound (memlat_next s) (MEM_LAT_MAX c - MEM_LAT_MIN c + 1) ltac:(lia)).
  unfold s32. rewrite u32_small by lia. case_test; bool_props; lia.
Qed.

(** ** Lanes are edge triggered and answer on time *)

(** Invariant of a lane after the step of cycle [cyc]: idle, or the reply is
    still to come within [bound] cycles. *)
Definition lane_inv (bound cyc : Z) (l : lane) : Prop :=
  l_reply l = -1 \/ cyc < l_reply l <= cyc + bound.

Definition bound (c : cfg) : Z := 2 * MEM_LAT_MAX c + 3.

Lemma lane0_accept_reply c cyc rq s l un s' l' un' :
  cfg_ok c -> lane0_accept c cyc rq s l un = (s', l', un') ->
  l_prev l' = l_prev l /\
  ((rq_valid rq && negb (l_prev l) && (l_reply l =? -1) = true /\
    cyc + MEM_LAT_MIN c <= l_reply l' <= cyc + 2 * MEM_LAT_MAX c) \/
   (rq_valid rq && negb (l_prev l) && (l_reply l =? -1) = false /\ l' = l /\ s' = s /\ un' = un)).
Proof.
  intros Hc. unfold lane0_accept.
  pose proof (memlat_draw_bounds c s Hc) as Hd. destruct Hc as [Hc _].
  destruct (rq_valid rq && _ && _) eqn:E; [|intros [= <- <- <-]; split; [done|by right]].
  destruct (fold_or_mask _ _), (memlat_draw c s) as [s1 lat]; cbn [snd] in Hd.
  intros [= <- <- <-]. split; [done|]. left. split; [done|]. cbn [l_reply].
  destruct (rq_op rq =? 4); lia.
Qed.
Lemma lane1_accept_reply c cyc rq s l ops s' l' ops' :
  cfg_ok c -> lane1_accept c cyc rq s l ops = (s', l', ops') ->
  l_prev l' = l_prev l /\
  ((rq_valid rq && negb (l_prev l) && (l_reply l =? -1) = true /\
    cyc + MEM_LAT_MIN c <= l_reply l' <= cyc + bound c) \/
   (rq_valid rq && negb (l_prev l) && (l_reply l =? -1) = false /\ l' = l /\ s' = s /\ ops' = ops)).
Proof.
  intros Hc. unfold lane1_accept, bound.
  pose proof (memlat_draw_bounds c s Hc) as Hd. destruct Hc as [Hc _].
  destruct (rq_valid rq && _ && _) eqn:E; [|intros [= <- <- <-]; split; [done|by right]].
  destruct (fold_or_mask _ _), (memlat_draw c s) as [s1 lat]; cbn [snd] in Hd.
  intros [= <- <- <-]. split; [done|]. left. split; [done|]. cbn [l_reply].
  destruct ((rq_op rq =? 4) || (rq_op rq =? 5)), (is_burst (rq_op rq)); lia.
Qed.

Lemma lane0_reply_shape cyc l ms p h ms' l' p' h' :
  lane0_reply cyc l ms p h = (ms', l', p', h') ->
  (l_reply l = cyc /\ l' = idle l /\ rs_valid p' = true) \/
  (l_reply l <> cyc /\ l' = l /\ rs_valid p' = false /\ ms' = ms /\ h' = h /\ rs_bad p' = false).
Proof.
  unfold lane0_reply. destruct (l_reply l =? cyc) eqn:E; bool_props.
  - destruct (l_bad l), (l_op l =? 4), (l_op l =? 7); intros [= <- <- <- <-]; left; by split_and!.
  - intros [= <- <- <- <-]. right. by split_and!.
Qed.
Lemma lane1_reply_shape cyc l ms p ms' l' p' :
  lane1_reply cyc l ms p = (ms', l', p') ->
  (l_reply l = cyc /\ l' = idle l /\ rs_valid p' = true) \/
  (l_reply l <> cyc /\ l' = l /\ rs_valid p' = false /\ ms' = ms /\ rs_bad p' = false).
Proof.
  unfold lane1_reply. destruct (l_reply l =? cyc) eqn:E; bool_props.
  - destruct (l_bad l), ((l_op l =? 4) || (l_op l =? 5)), ((l_op l =? 7) || (l_op l =? 6));
      intros [= <- <- <-]; left; by split_and!.
  - intros [= <- <- <-]. right. by split_and!.
Qed.

(** What one step does to the reply counters, response flags and edge bits. *)
Lemma bus_step_lane0 c cyc rqs b :
  cfg_ok c ->
  let acc := rq_valid (fst rqs) && negb (l_prev (b_lane0 b)) && (l_reply (b_lane0 b) =? -1) in
  let b' := bus_step c cyc rqs b in
  l_prev (b_lane0 b') = rq_valid (fst rqs) /\
  exists r, (if acc then cyc + MEM_LAT_MIN c <= r <= cyc + 2 * MEM_LAT_MAX c else r = l_reply (b_lane0 b)) /\
    (if r =? cyc then l_reply (b_lane0 b') = -1 /\ rs_valid (b_rsp0 b') = true
     else l_reply (b_lane0 b') = r /\ rs_valid (b_rsp0 b') = false).
Proof.
  intros Hc acc b'. unfold b', bus_step. destruct rqs as [rq0 rq1]; cbn [fst] in *.
  destruct (lane0_accept _ _ _ _ _ _) as [[m1 l0] un] eqn:A0.
  destruct (lane0_reply _ _ _ _ _) as [[[ms1 l0'] p0] hl] eqn:R0.
  destruct (lane1_accept _ _ _ _ _ _) as [[m2 l1] ops] eqn:A1.
  destruct (lane1_reply _ _ _ _) as [[ms2 l1'] p1] eqn:R1.
  cbn [b_lane0 b_rsp0]. split; [done|].
  apply lane0_accept_reply in A0 as [_ A0]; [|done].
  apply lane0_reply_shape in R0. fold acc in A0. exists (l_reply l0). split.
  - destruct A0 as [[-> ?]|[-> [-> _]]]; [lia|done].
  - destruct R0 as [(E & -> & Ev)|(E & -> & Ev & _)].
    + rewrite E, Z.eqb_refl. done.
    + rewrite (proj2 (Z.eqb_neq _ _)) by done. done.
Qed.
Lemma bus_step_inv0 c cyc rqs b :
  cfg_ok c -> 0 <= cyc -> lane_inv (bound c) (cyc - 1) (b_lane0 b) ->
  lane_inv (bound c) cyc (b_lane0 (bus_step c cyc rqs b)).
Proof.
  intros Hc Hcyc Hinv. destruct (bus_step_lane0 c cyc rqs b Hc) as (_ & r & Hr & Hs).
  unfold lane_inv, bound, cfg_ok in *. case_test; bool_props; [lia|]. case_test; lia.
Qed.

(** A pending reply is delivered at its cycle and not before. *)
Lemma bus_run_wait0 c inp n cyc b r :
  cfg_ok c -> 0 <= cyc -> l_reply (b_lane0 b) = r -> cyc <= r -> (n <= Z.to_nat (r - cyc))%nat ->
  l_reply (b_lane0 (bus_run c inp n cyc b)) = r /\
  ((0 < n)%nat -> rs_valid (b_rsp0 (bus_run c inp n cyc b)) = false).
Proof.
  intros Hc. revert cyc b; induction n as [|n IH]; intros cyc b Hcyc Hr Hle Hn; cbn [bus_run].
  { split; [done|lia]. }
  destruct (bus_step_lane0 c cyc (inp cyc) b Hc) as (_ & r' & Hr' & Hs).
  rewrite Hr, (proj2 (Z.eqb_neq r (-1))), andb_false_r in Hr' by lia. subst r'.
  rewrite (proj2 (Z.eqb_neq r cyc)) in Hs by lia. destruct Hs as [Hs Hv].
  destruct (IH (cyc + 1) (bus_step c cyc (inp cyc) b) ltac:(lia) Hs ltac:(lia) ltac:(lia)) as [H1 H2].
  split; [done|]. intros _. destruct n as [|n]; [done|]. apply H2. lia.
Qed.
Lemma bus_run_app c inp n m cyc b :
  bus_run c inp (n + m) cyc b = bus_run c inp m (cyc + Z.of_nat n) (bus_run c inp n cyc b).
Proof.
  revert cyc b; induction n as [|n IH]; intros; cbn [bus_run Nat.add]; [by rewrite Z.add_0_r|].
  rewrite IH. f_equal. lia.
Qed.

(** An idle lane answers nothing while its request line does not rise. *)
Definition no_edge0 (inp : Z -> req * req) (from to : Z) : Prop :=
  forall i, from < i < to -> rq_valid (fst (inp i)) = true -> rq_valid (fst (inp (i - 1))) = true.
Lemma bus_run_quiet0 c inp n cyc b :
  cfg_ok c -> 0 <= cyc -> l_reply (b_lane0 b) = -1 ->
  ((0 < n)%nat -> rq_valid (fst (inp cyc)) = true -> l_prev (b_lane0 b) = true) ->
  no_edge0 inp cyc (cyc + Z.of_nat n) ->
  l_reply (b_lane0 (bus_run c inp n cyc b)) = -1 /\ ((0 < n)%nat -> rs_valid (b_rsp0 (bus_run c inp n cyc b)) = false).
Proof.
  intros Hc. revert cyc b; induction n as [|n IH]; intros cyc b Hcyc Hr Hp He; cbn [bus_run]; [split; [done|lia]|].
  destruct (bus_step_lane0 c cyc (inp cyc) b Hc) as (Hprev & r' & Hr' & Hs).
  assert (rq_valid (fst (inp cyc)) && negb (l_prev (b_lane0 b)) = false) as Hno.
  { destruct (rq_valid (fst (inp cyc))); [|done]. by rewrite Hp by (done || lia). }
  rewrite Hno in Hr'. cbn [andb] in Hr'. subst r'. rewrite Hr, (proj2 (Z.eqb_neq (-1) cyc)) in Hs by lia. destruct Hs as [Hs Hv].
  destruct (IH (cyc + 1) (bus_step c cyc (inp cyc) b) ltac:(lia) Hs) as [H1 H2].
  - rewrite Hprev. intros Hn Hv1. rewrite <- (Z.add_simpl_r cyc 1). apply He; [lia|done].
  - intros i Hi. apply He. lia.
  - split; [done|]. intros _. destruct n as [|n]; [done|]. apply H2. lia.
Qed.

(** Responses and rising edges of lane 0 over a run. *)
Fixpoint responses0 (c : cfg) (inp : Z -> req * req) (n : nat) (cyc : Z) (b : bus) : Z :=
  match n with
  | O => 0
  | S k => let b' := bus_step c cyc (inp cyc) b in
           (if rs_valid (b_rsp0 b') then 1 else 0) + responses0 c inp k (cyc + 1) b'
  end.
Fixpoint edges0 (inp : Z -> req * req) (prev : bool) (n : nat) (cyc : Z) : Z :=
  match n with
  | O => 0
  | S k => let v := rq_valid (fst (inp cyc)) in
           (if v && negb prev then 1 else 0) + edges0 inp v k (cyc + 1)
  end.
Definition pending0 (b : bus) : Z := if l_reply (b_lane0 b) =? -1 then 0 else 1.

(** ** The ISS mirror *)

(** Guest physical addresses outside the second 128 MB of Low Local Memory,
    where the fold is injective. *)
Definition unaliased (p : Z) : Prop := 0 <= p < 0x10000000 \/ 0x18000000 <= p < 0x20000000.
Definition coherent (ms : mems) : Prop :=
  forall im p, iss ms = Some im -> unaliased p -> mget im p = mget (dram ms) (fold_spec p).
Definition lane_wf (len : Z) (l : lane) : Prop :=
  l_reply l = -1 \/ (unaliased (l_phys l) /\ l_phys l mod len = 0 /\ l_addr l = fold_spec (l_phys l)).

Lemma fold_spec_inj p q : unaliased p -> unaliased q -> fold_spec p = fold_spec q -> p = q.
Proof. unfold unaliased, fold_spec. intros. repeat case_test; bool_props; lia. Qed.

Lemma iss_store_from_spec m phys sd en i n x :
  mget (iss_store_from m phys sd en i n) x =
  if (phys + Z.of_nat i <=? x) && (x <? phys + Z.of_nat (i + n)) && en (Z.to_nat (x - phys))
  then sd_byte sd (Z.to_nat (x - phys)) else mget m x.
Proof.
  revert m i; induction n as [|n IH]; intros m i; cbn [iss_store_from].
  - destruct (_ <=? x) eqn:E1, (x <? _) eqn:E2; cbn; bool_props; try done; lia.
  - rewrite IH. replace (S i + n)%nat with (i + S n)%nat by lia.
    destruct (decide (x = phys + Z.of_nat i)) as [->|Hne].
    + replace (Z.to_nat (phys + Z.of_nat i - phys)) with i by lia.
      rewrite (proj2 (Z.leb_gt _ _)) by lia. rewrite Z.leb_refl, (proj2 (Z.ltb_lt _ _)) by lia.
      cbn. destruct (en i); [apply mget_insert_eq|done].
    + assert (mget (if en i then <[phys + Z.of_nat i := sd_byte sd i]> m else m) x = mget m x) as ->.
      { destruct (en i); [apply mget_insert_ne; lia|done]. }
      destruct (phys + Z.of_nat (S i) <=? x) eqn:E1, (phys + Z.of_nat i <=? x) eqn:E2;
        cbn; bool_props; try done; lia.
Qed.

Lemma coherent_store ms l en n len :
  coherent ms -> unaliased (l_phys l) -> l_phys l mod len = 0 -> l_addr l = fold_spec (l_phys l) ->
  Z.of_nat n = len -> (len = 16 \/ len = 64) -> coherent (lane_store ms l en n).
Proof.
  intros Hco Hu Hal Ha Hn Hlen im p Him Hp. unfold lane_store in *. cbn [iss dram] in *.
  destruct (iss ms) as [im0|] eqn:Hi; [|done]. cbn in Him. injection Him as <-.
  set (q := l_phys l) in *.
  assert (forall j, 0 <= j < len -> fold_spec (q + j) = fold_spec q + j /\ unaliased (q + j)) as Hline.
  { intros j Hj. assert (0 <= q < 0x20000000) by (unfold unaliased in Hu; lia). split.
    - apply fold_spec_page; [lia|]. destruct Hlen as [-> | ->]; Z.to_euclidean_division_equations; lia.
    - unfold unaliased in *. destruct Hlen as [-> | ->]; Z.to_euclidean_division_equations; lia. }
  assert (0 <= fold_spec q <= FPGA_ADDRMASK) as Hfr.
  { apply fold_spec_range. unfold unaliased in Hu; lia. }
  unfold FPGA_ADDRMASK in Hfr.
  rewrite iss_store_from_spec, line_store_exact by (unfold MEM_SIZE; lia).
  rewrite Ha, Z.add_0_r, Nat.add_0_l, Hn.
  destruct ((q <=? p) && (p <? q + len)) eqn:Ein; bool_props.
  - destruct (Hline (p - q)) as [Hf _]; [lia|]. replace (q + (p - q)) with p in Hf by lia.
    rewrite Hf, (proj2 (Z.leb_le _ _)), (proj2 (Z.ltb_lt _ _)) by lia. cbn [andb].
    replace (fold_spec q + (p - q) - fold_spec q) with (p - q) by lia.
    destruct (en _); [done|]. rewrite <- Hf. by apply Hco.
  - cbn [andb]. destruct ((fold_spec q <=? fold_spec p) && (fold_spec p <? fold_spec q + len)) eqn:Eo;
      bool_props; cbn [andb]; [exfalso|by apply Hco].
    destruct (Hline (fold_spec p - fold_spec q)) as [Hf Hu']; [lia|].
    assert (p = q + (fold_spec p - fold_spec q)) by (apply fold_spec_inj; [done..|lia]).
    apply andb_false_iff in Ein as [E|E]; bool_props; lia.
Qed.

Definition req_unaliased (rq : req) : Prop := unaliased (rq_addr rq .& 0x1fffffff).
Definition req_aligned (c : cfg) (rq : req) : Prop := AXI_ALIGN c = true \/ rq_addr rq mod 16 = 0.

Lemma ldiff_align p k : 0 <= p -> 0 <= k -> Z.ldiff p (2 ^ k - 1) = p - p mod 2 ^ k.
Proof. intros. by apply ldiff_ones_align. Qed.

Lemma unaliased_align p k : 0 <= k <= 16 -> unaliased p -> unaliased (p - p mod 2 ^ k).
Proof.
  intros Hk Hp. pose proof (Z.mod_pos_bound p (2 ^ k) ltac:(apply Z.pow_pos_nonneg; lia)).
  assert (2 ^ k <= 2 ^ 16) by (apply Z.pow_le_mono_r; lia).
  assert (exists m, 0x18000000 = m * 2 ^ k) as [m Hm].
  { exists (0x1800 * 2 ^ (16 - k)). rewrite <- Z.mul_assoc, <- Z.pow_add_r by lia.
    by replace (16 - k + k) with 16 by lia. }
  pose proof (Z.div_mod p (2 ^ k) ltac:(apply Z.pow_nonzero; lia)) as Hd.
  unfold unaliased in *. destruct Hp as [Hp|Hp]; [left; split; [|lia]|right; split; [|lia]].
  - pose proof (Z.div_pos p (2 ^ k)). nia.
  - assert (m <= p / 2 ^ k) by (apply Z.div_le_lower_bound; nia). nia.
Qed.

Lemma land_f x : x .& 0xf = x mod 16.
Proof. exact (land_ones_mod x 4 ltac:(lia)). Qed.

Lemma align_range p n : 0 <= p < 0x20000000 -> 0 <= n -> 0 <= Z.ldiff p (2 ^ n - 1) < 0x20000000.
Proof.
  intros Hp Hn. rewrite ldiff_ones_align by done. assert (0 < 2 ^ n) by (apply Z.pow_pos_nonneg; lia).
  pose proof (Z.mod_pos_bound p (2 ^ n) ltac:(lia)). pose proof (Z.mod_le p (2 ^ n) ltac:(lia) ltac:(lia)). lia.
Qed.
Lemma low29 x : 0 <= x .& 0x1fffffff < 0x20000000.
Proof. rewrite land_1fffffff. apply Z.mod_pos_bound. lia. Qed.
Lemma fold_or_mask_eq p raw : 0 <= p < 0x20000000 -> fold_or_mask p raw = (fold_spec p, FPGA_ADDRMASK <? fold_spec p).
Proof. intros Hp. unfold fold_or_mask, FPGA_ADDRESS_MAP. by rewrite fpga_map_eq32 by auto with hw. Qed.
Lemma phys0_range x (b : bool) :
  0 <= (if b then Z.ldiff (x .& 0x1fffffff) 0xf else x .& 0x1fffffff) < 0x20000000.
Proof. pose proof (low29 x) as Hp. destruct b; [exact (align_range _ 4 Hp ltac:(lia))|done]. Qed.
Lemma phys1_range x (b : bool) : 0 <= Z.ldiff (x .& 0x1fffffff) (if b then 0x3f else 0xf) < 0x20000000.
Proof. pose proof (low29 x) as Hp. destruct b; [exact (align_range _ 6 Hp ltac:(lia))|exact (align_range _ 4 Hp ltac:(lia))]. Qed.

Lemma lane0_accept_wf c cyc rq s l un s' l' un' :
  req_unaliased rq -> req_aligned c rq -> lane_wf 16 l ->
  lane0_accept c cyc rq s l un = (s', l', un') -> lane_wf 16 l'.
Proof.
  unfold req_unaliased, lane0_accept. intros Hu Ha Hl. case_test; [|by intros [= <- <- <-]].
  rewrite fold_or_mask_eq by apply phys0_range. set (p := rq_addr rq .& 0x1fffffff) in *. rewrite land_f.
  destruct (memlat_draw c s).
  intros [= <- <- <-]. right. cbn [l_phys l_addr].
  destruct (p mod 16 =? 0) eqn:Ep; bool_props; cbn [negb andb]; [done|].
  destruct (AXI_ALIGN c) eqn:Eal.
  - change 0xf with (2 ^ 4 - 1). rewrite ldiff_align by (unfold unaliased in Hu; lia).
    split; [by apply unaliased_align|]. split; [|done].
    change (2 ^ 4) with 16. Z.to_euclidean_division_equations; lia.
  - exfalso. destruct Ha as [Ha|Ha]; [congruence|]. apply Ep. unfold p. rewrite land_1fffffff.
    Z.to_euclidean_division_equations; lia.
Qed.
Lemma lane1_accept_wf c cyc rq s l ops s' l' ops' :
  req_unaliased rq -> lane_wf (if is_burst (l_op l) then 64 else 16) l ->
  lane1_accept c cyc rq s l ops = (s', l', ops') -> lane_wf (if is_burst (l_op l') then 64 else 16) l'.
Proof.
  unfold req_unaliased, lane1_accept. intros Hu Hl. case_test; [|by intros [= <- <- <-]].
  rewrite fold_or_mask_eq by apply phys1_range. set (p := rq_addr rq .& 0x1fffffff) in *.
  destruct (memlat_draw c s).
  intros [= <- <- <-]. right. cbn [l_phys l_addr l_op].
  assert (0 <= p) by (unfold unaliased in Hu; lia).
  destruct (is_burst (rq_op rq)).
  - change 0x3f with (2 ^ 6 - 1). rewrite ldiff_align by lia. split; [by apply unaliased_align|].
    split; [|done]. change (2 ^ 6) with 64. Z.to_euclidean_division_equations; lia.
  - change 0xf with (2 ^ 4 - 1). rewrite ldiff_align by lia. split; [by apply unaliased_align|].
    split; [|done]. change (2 ^ 4) with 16. Z.to_euclidean_division_equations; lia.
Qed.

Definition bus_coherent (b : bus) : Prop :=
  coherent (b_mems b) /\ lane_wf 16 (b_lane0 b) /\
  lane_wf (if is_burst (l_op (b_lane1 b)) then 64 else 16) (b_lane1 b) /\
  0 <= l_reply (b_lane0 b) + 1 /\ 0 <= l_reply (b_lane1 b) + 1.

Lemma lane0_reply_coherent cyc l ms p h ms' l' p' h' :
  0 <= cyc -> coherent ms -> lane_wf 16 l -> lane0_reply cyc l ms p h = (ms', l', p', h') ->
  coherent ms' /\ lane_wf 16 l'.
Proof.
  unfold lane0_reply. intros Hc Hco Hl. destruct (l_reply l =? cyc) eqn:E; bool_props.
  - destruct Hl as [Hl|(Hu & Hal & Ha)]; [lia|].
    destruct (l_bad l), (l_op l =? 4), (l_op l =? 7); intros [= <- <- <- <-];
      (split; [|by left]); try done.
    eapply coherent_store; eauto.
  - by intros [= <- <- <- <-].
Qed.
Lemma lane1_reply_coherent cyc l ms p ms' l' p' :
  0 <= cyc -> coherent ms -> lane_wf (if is_burst (l_op l) then 64 else 16) l ->
  lane1_reply cyc l ms p = (ms', l', p') ->
  coherent ms' /\ lane_wf (if is_burst (l_op l') then 64 else 16) l'.
Proof.
  unfold lane1_reply. intros Hc Hco Hl. destruct (l_reply l =? cyc) eqn:E; bool_props.
  - destruct Hl as [Hl|(Hu & Hal & Ha)]; [lia|].
    destruct (l_bad l), ((l_op l =? 4) || (l_op l =? 5)), ((l_op l =? 7) || (l_op l =? 6));
      intros [= <- <- <-]; (split; [|by left]); try done.
    destruct (is_burst (l_op l)); eapply coherent_store; eauto.
  - by intros [= <- <- <-].
Qed.

Lemma bus_step_coherent c cyc rq0 rq1 b :
  cfg_ok c -> 0 <= cyc -> req_unaliased rq0 -> req_unaliased rq1 -> req_aligned c rq0 ->
  bus_coherent b -> bus_coherent (bus_step c cyc (rq0, rq1) b).
Proof.
  intros Hc Hcyc Hu0 Hu1 Ha0 (Hco & H0 & H1 & Hr0 & Hr1). unfold bus_step.
  destruct (lane0_accept _ _ _ _ _ _) as [[m1 l0] un] eqn:A0.
  destruct (lane0_reply _ _ _ _ _) as [[[ms1 l0'] p0] hl] eqn:R0.
  destruct (lane1_accept _ _ _ _ _ _) as [[m2 l1] ops] eqn:A1.
  destruct (lane1_reply _ _ _ _) as [[ms2 l1'] p1] eqn:R1.
  pose proof (lane0_accept_wf _ _ _ _ _ _ _ _ _ Hu0 Ha0 H0 A0) as W0.
  pose proof (lane1_accept_wf _ _ _ _ _ _ _ _ _ Hu1 H1 A1) as W1.
  apply lane0_accept_reply in A0 as [_ A0]; [|done]. apply lane1_accept_reply in A1 as [_ A1]; [|done].
  pose proof (lane0_reply_coherent _ _ _ _ _ _ _ _ _ Hcyc Hco W0 R0) as [C0 W0'].
  pose proof (lane1_reply_coherent _ _ _ _ _ _ _ Hcyc C0 W1 R1) as [C1 W1'].
  apply lane0_reply_shape in R0. apply lane1_reply_shape in R1.
  unfold bus_coherent; cbn [b_mems b_lane0 b_lane1 set_prev l_op l_reply].
  split; [done|]. split; [exact W0'|]. split; [exact W1'|]. unfold cfg_ok in Hc.
  split.
  - destruct R0 as [(_ & -> & _)|(_ & -> & _)]; cbn [idle l_reply]; [lia|].
    destruct A0 as [[_ ?]|(_ & -> & _)]; lia.
  - destruct R1 as [(_ & -> & _)|(_ & -> & _)]; cbn [idle l_reply]; [lia|].
    destruct A1 as [[_ ?]|(_ & -> & _)]; lia.
Qed.

(** ** Checkpoint transparency *)

(** Lanes that differ only in the latches of a finished request. *)
Definition lane_eqv (l l' : lane) : Prop :=
  l_reply l = l_reply l' /\ l_prev l = l_prev l' /\ (l_reply l <> -1 -> l = l').
Definition bus_eqv (b b' : bus) : Prop :=
  b_mems b = b_mems b' /\ b_memlat b = b_memlat b' /\ lane_eqv (b_lane0 b) (b_lane0 b') /\
  lane_eqv (b_lane1 b) (b_lane1 b') /\ b_rsp0 b = b_rsp0 b' /\ b_rsp1 b = b_rsp1 b' /\
  b_halted b = b_halted b'.

#[export] Instance lane_eqv_equiv : Equivalence lane_eqv.
Proof.
  split.
  - by intros l.
  - intros l l' (H1 & H2 & H3). split_and!; [done..|]. intros. symmetry. apply H3. congruence.
  - intros l l' l'' (H1 & H2 & H3) (H4 & H5 & H6). split_and!; [congruence..|].
    intros. rewrite H3 by done. apply H6. congruence.
Qed.
#[export] Instance bus_eqv_equiv : Equivalence bus_eqv.
Proof.
  split.
  - intros b. by split_and!.
  - intros b b' (?&?&?&?&?&?&?). split_and!; by symmetry.
  - intros b b' b'' (?&?&?&?&?&?&?) (?&?&?&?&?&?&?). split_and!; by etrans.
Qed.

Lemma set_prev_eqv v l l' : lane_eqv l l' -> lane_eqv (set_prev v l) (set_prev v l').
Proof. intros (H1 & H2 & H3). split_and!; cbn; [done..|]. intros. by rewrite H3. Qed.

Lemma lane0_accept_eqv c cyc rq s l l' un un' :
  lane_eqv l l' ->
  let '(s1, l1, _) := lane0_accept c cyc rq s l un in
  let '(s2, l2, _) := lane0_accept c cyc rq s l' un' in
  s1 = s2 /\ lane_eqv l1 l2.
Proof.
  intros Heq. pose proof Heq as (H1 & H2 & H3). unfold lane0_accept. rewrite <- H1, <- H2.
  case_test; [|done]. destruct (fold_or_mask _ _), (memlat_draw c s). done.
Qed.
Lemma lane1_accept_eqv c cyc rq s l l' ops ops' :
  lane_eqv l l' ->
  let '(s1, l1, _) := lane1_accept c cyc rq s l ops in
  let '(s2, l2, _) := lane1_accept c cyc rq s l' ops' in
  s1 = s2 /\ lane_eqv l1 l2.
Proof.
  intros Heq. pose proof Heq as (H1 & H2 & H3). unfold lane1_accept. rewrite <- H1, <- H2.
  case_test; [|done]. destruct (fold_or_mask _ _), (memlat_draw c s). done.
Qed.
Lemma lane0_reply_eqv cyc l l' ms p h :
  0 <= cyc -> lane_eqv l l' ->
  let '(ms1, l1, p1, h1) := lane0_reply cyc l ms p h in
  let '(ms2, l2, p2, h2) := lane0_reply cyc l' ms p h in
  ms1 = ms2 /\ lane_eqv l1 l2 /\ p1 = p2 /\ h1 = h2.
Proof.
  intros Hcyc Heq. pose proof Heq as (H1 & H2 & H3).
  destruct (decide (l_reply l = -1)) as [E|E]; [|rewrite <- H3 by done; by repeat case_match].
  unfold lane0_reply. rewrite <- H1, E, (proj2 (Z.eqb_neq _ _)) by lia. done.
Qed.
Lemma lane1_reply_eqv cyc l l' ms p :
  0 <= cyc -> lane_eqv l l' ->
  let '(ms1, l1, p1) := lane1_reply cyc l ms p in
  let '(ms2, l2, p2) := lane1_reply cyc l' ms p in
  ms1 = ms2 /\ lane_eqv l1 l2 /\ p1 = p2.
Proof.
  intros Hcyc Heq. pose proof Heq as (H1 & H2 & H3).
  destruct (decide (l_reply l = -1)) as [E|E]; [|rewrite <- H3 by done; by repeat case_match].
  unfold lane1_reply. rewrite <- H1, E, (proj2 (Z.eqb_neq _ _)) by lia. done.
Qed.

Lemma bus_step_eqv c cyc rqs b b' :
  0 <= cyc -> bus_eqv b b' -> bus_eqv (bus_step c cyc rqs b) (bus_step c cyc rqs b').
Proof.
  intros Hcyc (E1 & E2 & E3 & E4 & E5 & E6 & E7). unfold bus_step. destruct rqs as [rq0 rq1].
  rewrite <- E1, <- E2, <- E5, <- E6, <- E7.
  pose proof (lane0_accept_eqv c cyc rq0 (b_memlat b) _ _ (b_unaligned b) (b_unaligned b') E3) as A0.
  destruct (lane0_accept c cyc rq0 _ (b_lane0 b) _) as [[m1 l0] un].
  destruct (lane0_accept c cyc rq0 _ (b_lane0 b') _) as [[m1' l0'] un']. destruct A0 as [-> A0].
  pose proof (lane0_reply_eqv cyc l0 l0' (b_mems b) (b_rsp0 b) (b_halted b) Hcyc A0) as R0.
  destruct (lane0_reply cyc l0 _ _ _) as [[[ms l0r] p0] h].
  destruct (lane0_reply cyc l0' _ _ _) as [[[ms' l0r'] p0'] h']. destruct R0 as (-> & R0 & -> & ->).
  pose proof (lane1_accept_eqv c cyc rq1 m1' _ _ (b_lane1_ops b) (b_lane1_ops b') E4) as A1.
  destruct (lane1_accept c cyc rq1 m1' (b_lane1 b) _) as [[m2 l1] ops].
  destruct (lane1_accept c cyc rq1 m1' (b_lane1 b') _) as [[m2' l1'] ops']. destruct A1 as [-> A1].
  pose proof (lane1_reply_eqv cyc l1 l1' ms' (b_rsp1 b) Hcyc A1) as R1.
  destruct (lane1_reply cyc l1 _ _) as [[ms2 l1r] p1].
  destruct (lane1_reply cyc l1' _ _) as [[ms2' l1r'] p1']. destruct R1 as (-> & R1 & ->).
  split_and!; cbn; try done; by apply set_prev_eqv.
Qed.
Lemma bus_run_eqv c inp n cyc b b' :
  0 <= cyc -> bus_eqv b b' -> bus_eqv (bus_run c inp n cyc b) (bus_run c inp n cyc b').
Proof.
  revert cyc b b'; induction n as [|n IH]; intros; cbn; [done|]. apply IH; [lia|]. by apply bus_step_eqv.
Qed.

(** What a restore rebuilds: DRAM, the generator state and the model's ports
    come from the file, the run loop's own locals are fresh. *)
Definition bus_restore (saved : bus) : bus :=
  Bus (Mems (dram (b_mems saved)) None) (b_memlat saved) lane_init lane_init
      (b_rsp0 saved) (b_rsp1 saved) false 0 (repeat 0 8).

(** ** Properties *)

(** The xorshift state never reaches 0 (where every later latency would be
    MEM_LAT_MIN) and never leaves 64 bits, for any --MEM_SEED and any number of
    draws. *)
Theorem memlat_never_degenerates (seed : Z) (n : nat) :
  is_u 32 seed -> memlat_ok (Nat.iter n memlat_next (memlat_seed seed)).
Proof. intros Hs. induction n; cbn; [by apply memlat_seed_ok|by apply memlat_next_ok]. Qed.
Lemma memlat_never_degenerates_witness : memlat_ok (Nat.iter 3 memlat_next (memlat_seed 0)).
Proof. apply (memlat_never_degenerates 0 3). by vm_compute. Defined.

(** The first answer to a request, and the edge bit it leaves. *)
Lemma lane0_first_answer c inp cyc b :
  cfg_ok c -> 0 <= cyc -> l_reply (b_lane0 b) = -1 -> l_prev (b_lane0 b) = false ->
  rq_valid (fst (inp cyc)) = true ->
  exists r : Z,
    cyc + MEM_LAT_MIN c <= r <= cyc + 2 * MEM_LAT_MAX c /\
    let after := fun k => bus_run c inp k cyc b in
    rs_valid (b_rsp0 (after (S (Z.to_nat (r - cyc))))) = true /\
    l_reply (b_lane0 (after (S (Z.to_nat (r - cyc))))) = -1 /\
    (forall k, (0 < k <= Z.to_nat (r - cyc))%nat -> rs_valid (b_rsp0 (after k)) = false) /\
    l_prev (b_lane0 (after (S (Z.to_nat (r - cyc))))) = rq_valid (fst (inp r)).
Proof.
  intros Hc Hcyc Hr Hp Hv.
  destruct (bus_step_lane0 c cyc (inp cyc) b Hc) as (Hpv & r & Hr' & Hs).
  rewrite Hv, Hp, Hr in Hr'. cbn in Hr'. exists r. split; [done|]. unfold cfg_ok in Hc. cbn zeta.
  destruct (r =? cyc) eqn:E; bool_props.
  - subst r. rewrite Z.sub_diag. cbn. destruct Hs. split_and!; [done..|lia|done].
  - destruct Hs as [Hs Hv']. set (b1 := bus_step c cyc (inp cyc) b) in *.
    assert (forall k, (k <= Z.to_nat (r - (cyc + 1)))%nat ->
              l_reply (b_lane0 (bus_run c inp k (cyc + 1) b1)) = r /\
              ((0 < k)%nat -> rs_valid (b_rsp0 (bus_run c inp k (cyc + 1) b1)) = false)) as W.
    { intros k Hk. apply bus_run_wait0; [done|lia|done|lia|done]. }
    set (m := Z.to_nat (r - (cyc + 1))) in *.
    replace (Z.to_nat (r - cyc)) with (S m) by lia.
    assert (bus_run c inp (S (S m)) cyc b = bus_step c r (inp r) (bus_run c inp m (cyc + 1) b1)) as ->.
    { cbn [bus_run]. fold b1. change (bus_run c inp m (cyc + 1 + 1) _) with (bus_run c inp (1 + m) (cyc + 1) b1).
      rewrite (Nat.add_comm 1 m), bus_run_app. cbn [bus_run].
      replace (cyc + 1 + Z.of_nat m) with r by lia. done. }
    destruct (W m (Nat.le_refl m)) as [Wm _].
    destruct (bus_step_lane0 c r (inp r) (bus_run c inp m (cyc + 1) b1) Hc) as (Hpv2 & r2 & Hr2 & Hs2).
    rewrite Wm, (proj2 (Z.eqb_neq r (-1))), andb_false_r in Hr2 by lia. subst r2.
    rewrite Z.eqb_refl in Hs2. destruct Hs2 as [Hs2 Hv2]. split_and!; [done|done| |done].
    intros k Hk. destruct k as [|k]; [lia|]. cbn [bus_run]. fold b1.
    destruct k as [|k]; [done|]. apply W; lia.
Qed.
(** C14.  Liveness of lane 0: a request presented on a rising edge while the
    lane is idle is answered exactly once, between MEM_LAT_MIN and
    2*MEM_LAT_MAX cycles later, with no response flag before that cycle,
    whatever the two request ports do meanwhile, and none after it until the request
    line rises again: a request that is held, and one that rose while the lane was
    busy, are not served again. *)
Theorem lane0_answers_request (c : cfg) (inp : Z -> req * req) (cyc : Z) (b : bus) :
  cfg_ok c -> 0 <= cyc -> l_reply (b_lane0 b) = -1 -> l_prev (b_lane0 b) = false ->
  rq_valid (fst (inp cyc)) = true ->
  exists r : Z,
    cyc + MEM_LAT_MIN c <= r <= cyc + 2 * MEM_LAT_MAX c /\
    let after := fun k => bus_run c inp k cyc b in
    rs_valid (b_rsp0 (after (S (Z.to_nat (r - cyc))))) = true /\
    l_reply (b_lane0 (after (S (Z.to_nat (r - cyc))))) = -1 /\
    (forall k, (0 < k <= Z.to_nat (r - cyc))%nat -> rs_valid (b_rsp0 (after k)) = false) /\
    (forall k, (S (Z.to_nat (r - cyc)) < k)%nat -> no_edge0 inp r (cyc + Z.of_nat k) -> rs_valid (b_rsp0 (after k)) = false).
Proof.
  intros Hc Hcyc Hr Hp Hv.
  destruct (lane0_first_answer c inp cyc b Hc Hcyc Hr Hp Hv) as (r & Hb & H1 & H2 & H3 & H4).
  exists r. split; [done|]. cbv zeta. split; [done|]. split; [done|]. split; [done|]. intros k Hk He.
  assert (0 <= MEM_LAT_MIN c) by (unfold cfg_ok in Hc; lia).
  set (m := S (Z.to_nat (r - cyc))) in *. replace k with (m + (k - m))%nat by lia. rewrite bus_run_app.
  replace (cyc + Z.of_nat m) with (r + 1) by lia.
  apply bus_run_quiet0; [done|lia|done| | |lia].
  - intros _ Hv1. rewrite H4. rewrite <- (Z.add_simpl_r r 1). apply He; [lia|done].
  - intros i Hi. apply He. lia.
Qed.
Definition demo_req (v : bool) (a op : Z) : req := Req v a op 0xffff [1; 2; 3; 4].
Definition demo_inp (cyc : Z) : req * req := (demo_req (cyc =? 5) 0x08000040 4, demo_req false 0 0).
(** The same request, held. *)
Definition held_inp (cyc : Z) : req * req := (demo_req (5 <=? cyc) 0x08000040 4, demo_req false 0 0).
Lemma lane0_answers_request_witness :
  exists r : Z, 5 + 1 <= r <= 5 + 2 * 16 /\
    rs_valid (b_rsp0 (bus_run (Cfg 1 16 false) held_inp (S (Z.to_nat (r - 5))) 5 (bus_init (Mems ∅ None) 1))) = true /\
    rs_valid (b_rsp0 (bus_run (Cfg 1 16 false) held_inp 1000 5 (bus_init (Mems ∅ None) 1))) = false.
Proof.
  destruct (lane0_answers_request (Cfg 1 16 false) held_inp 5 (bus_init (Mems ∅ None) 1)) as (r & H1 & H2 & _ & _ & H3).
  - by vm_compute.
  - lia.
  - done.
  - done.
  - done.
  - exists r. cbn [MEM_LAT_MIN MEM_LAT_MAX] in H1. split; [exact H1|]. split; [exact H2|]. apply H3; [lia|].
    intros i Hi _. cbn. apply Z.leb_le. lia.
Defined.

(** The ports are edge triggered: over any run from any state, lane 0
    never answers more often than its request line rose (plus the transaction
    that was already pending), so a request held high is served once. *)
Theorem lane0_one_response_per_edge (c : cfg) (inp : Z -> req * req) (n : nat) (cyc : Z) (b : bus) :
  cfg_ok c -> 0 <= cyc ->
  responses0 c inp n cyc b + pending0 (bus_run c inp n cyc b)
    <= edges0 inp (l_prev (b_lane0 b)) n cyc + pending0 b.
Proof.
  intros Hc. revert cyc b; induction n as [|n IH]; intros cyc b Hcyc; cbn [responses0 edges0 bus_run]; [lia|].
  specialize (IH (cyc + 1) (bus_step c cyc (inp cyc) b) ltac:(lia)).
  destruct (bus_step_lane0 c cyc (inp cyc) b Hc) as (Hp & r & Hr & Hs).
  rewrite Hp in IH. unfold pending0 in *. unfold cfg_ok in Hc.
  destruct (r =? cyc) eqn:E; bool_props; destruct Hs as [Hs ->]; rewrite Hs in IH;
    destruct (rq_valid (fst (inp cyc)) && negb (l_prev (b_lane0 b)));
    cbn [andb] in Hr; repeat case_test; bool_props; lia.
Qed.
Lemma lane0_one_response_per_edge_witness :
  responses0 (Cfg 0 4 false) demo_inp 20 3 (bus_init (Mems ∅ None) 7)
    + pending0 (bus_run (Cfg 0 4 false) demo_inp 20 3 (bus_init (Mems ∅ None) 7)) <= 1.
Proof. apply (lane0_one_response_per_edge (Cfg 0 4 false) demo_inp 20 3); [by vm_compute|lia]. Defined.

(** C15.  The checker's mirror works: as long as the guest stays out of the
    second 128 MB of Low Local Memory (where two physical addresses share DRAM)
    and lane 0 requests are aligned, every cycle of bus traffic keeps the ISS
    memory, indexed by physical address, equal to [g_mem] behind the fold. *)
Theorem bus_run_coherent (c : cfg) (inp : Z -> req * req) (n : nat) (cyc : Z) (b : bus) :
  cfg_ok c -> 0 <= cyc -> bus_coherent b ->
  (forall k, req_unaliased (fst (inp k)) /\ req_unaliased (snd (inp k)) /\ req_aligned c (fst (inp k))) ->
  bus_coherent (bus_run c inp n cyc b).
Proof.
  intros Hc Hcyc Hb Hin. revert cyc b Hcyc Hb; induction n as [|n IH]; intros; cbn; [done|].
  apply IH; [lia|]. specialize (Hin cyc). destruct (inp cyc) as [rq0 rq1], Hin as (?&?&?).
  by apply bus_step_coherent.
Qed.
Definition demo_store (cyc : Z) : req * req :=
  (demo_req (cyc =? 2) 0x1fc00010 7, demo_req (cyc =? 3) 0x08000040 6).
Lemma bus_run_coherent_witness :
  bus_coherent (bus_run (Cfg 1 3 false) demo_store 40 0 (bus_init (Mems ∅ (Some ∅)) 1)).
Proof.
  apply (bus_run_coherent (Cfg 1 3 false) demo_store 40 0); [by vm_compute|lia| |].
  - split_and!; [|by left|by left|done|done]. intros im p [= <-] _. by rewrite !mget_empty.
  - intros k. split_and!; [right; cbn; by vm_compute|left; cbn; by vm_compute|by right].
Defined.

(** Saving at the quiescence gate is transparent: from a quiescent bus
    state, the run that a restore starts with fresh run-loop locals has, for any
    future requests and any number of cycles, the same memory, generator state,
    responses and halt flag as the run that was never interrupted. *)
Theorem restore_transparent (c : cfg) (inp : Z -> req * req) (n : nat) (cyc : Z) (b : bus) :
  0 <= cyc -> bus_quiescent b = true -> iss (b_mems b) = None -> b_halted b = false ->
  bus_eqv (bus_run c inp n cyc b) (bus_run c inp n cyc (bus_restore b)).
Proof.
  intros Hcyc Hq Hi Hh. apply bus_run_eqv; [done|]. unfold bus_quiescent in Hq. bool_props.
  destruct b as [[d i] ml [r0 v0 ? ? ? ? ? ? ?] [r1 v1 ? ? ? ? ? ? ?] ? ? ? ? ?]; cbn in *. subst.
  split_and!; cbn; try done; split_and!; cbn; done.
Qed.
Lemma restore_transparent_witness :
  let b := bus_run (Cfg 1 3 false) demo_store 40 0 (bus_init (Mems ∅ None) 1) in
  bus_eqv (bus_run (Cfg 1 3 false) demo_inp 10 40 b) (bus_run (Cfg 1 3 false) demo_inp 10 40 (bus_restore b)).
Proof. apply restore_transparent; [lia | by vm_compute | by vm_compute | by vm_compute]. Defined.

(** The gate is needed: with a transaction in flight the restored run
    drops it -- the interrupted run answers, the restored one never does. *)
Theorem restore_in_flight_drops :
  let b := bus_run (Cfg 3 3 false) demo_inp 1 5 (bus_init (Mems ∅ None) 1) in
  bus_quiescent b = false /\
  rs_valid (b_rsp0 (bus_run (Cfg 3 3 false) demo_inp 3 6 b)) = true /\
  responses0 (Cfg 3 3 false) demo_inp 200 6 (bus_restore b) = 0.
Proof. by vm_compute. Qed.

(** ** Typing of the bus state *)

Definition words_ok : list Z -> Prop := Forall (is_u 32).
Definition mems_typed (ms : mems) : Prop := mem_ok (dram ms) /\ forall im, iss ms = Some im -> mem_ok im.
Definition lane_typed (l : lane) : Prop := 0 <= l_addr l < MEM_SIZE.
Definition bus_typed (b : bus) : Prop :=
  mems_typed (b_mems b) /\ memlat_ok (b_memlat b) /\ lane_typed (b_lane0 b) /\ lane_typed (b_lane1 b) /\
  words_ok (rs_data (b_rsp0 b)) /\ words_ok (rs_data (b_rsp1 b)).

Lemma line_load_words m a n : mem_ok m -> words_ok (line_load m a n).
Proof.
  intros Hm. unfold words_ok, line_load. apply Forall_map, Forall_true. intros i. rewrite le32_val by done.
  pose proof (le_val_bound _ (mget_bytes_ok m ((a + 4 * Z.of_nat i) .& MEM_MASK) 4 Hm)) as H.
  rewrite length_mget_bytes in H. exact H.
Qed.
Lemma iss_store_ok m phys sd en i n : mem_ok m -> mem_ok (iss_store_from m phys sd en i n).
Proof. revert m i; induction n as [|n IH]; intros m i Hm; cbn; [done|]. apply IH. destruct (en i); auto with hw. Qed.
Lemma lane_store_typed ms l en n : mems_typed ms -> mems_typed (lane_store ms l en n).
Proof.
  intros [Hd Hi]. split; [by apply line_store_ok|]. intros im. unfold lane_store. cbn [iss].
  destruct (iss ms) as [im0|]; [|done]. intros [= <-]. by apply iss_store_ok, Hi.
Qed.
Lemma fold_or_mask_typed p raw : 0 <= p < 0x20000000 -> 0 <= fst (fold_or_mask p raw) < MEM_SIZE.
Proof.
  intros Hp. rewrite fold_or_mask_eq by done. cbn [fst].
  pose proof (fold_spec_range p Hp). unfold FPGA_ADDRMASK, MEM_SIZE in *. lia.
Qed.
Lemma memlat_draw_ok c s : memlat_ok s -> memlat_ok (fst (memlat_draw c s)).
Proof. apply memlat_next_ok. Qed.
Lemma lane0_accept_typed c cyc rq s l un :
  memlat_ok s -> lane_typed l ->
  let '(s', l', _) := lane0_accept c cyc rq s l un in memlat_ok s' /\ lane_typed l'.
Proof.
  intros Hs Hl. unfold lane0_accept. destruct (_ && _ && _); [|done].
  set (p := rq_addr rq .& 0x1fffffff). set (q := if _ && _ then Z.ldiff p 0xf else p).
  assert (0 <= q < 0x20000000) as Hq.
  { pose proof (low29 (rq_addr rq)) as Hp. unfold q. case_match; [exact (align_range p 4 Hp ltac:(lia))|done]. }
  pose proof (fold_or_mask_typed q (rq_addr rq .& MEM_MASK) Hq) as Hf. destruct (fold_or_mask q _) as [a bad].
  pose proof (memlat_draw_ok c s Hs) as Hd. by destruct (memlat_draw c s).
Qed.
Lemma lane1_accept_typed c cyc rq s l ops :
  memlat_ok s -> lane_typed l ->
  let '(s', l', _) := lane1_accept c cyc rq s l ops in memlat_ok s' /\ lane_typed l'.
Proof.
  intros Hs Hl. unfold lane1_accept. destruct (_ && _ && _); [|done].
  set (q := Z.ldiff (rq_addr rq .& 0x1fffffff) _).
  assert (0 <= q < 0x20000000) as Hq.
  { pose proof (low29 (rq_addr rq)) as H. unfold q.
    destruct (is_burst (rq_op rq)); [exact (align_range _ 6 H ltac:(lia))|exact (align_range _ 4 H ltac:(lia))]. }
  match goal with |- context [fold_or_mask q ?r] => pose proof (fold_or_mask_typed q r Hq) as Hf;
    destruct (fold_or_mask q r) as [a bad] end.
  pose proof (memlat_draw_ok c s Hs) as Hd. by destruct (memlat_draw c s).
Qed.
Lemma lane0_reply_typed cyc l ms p h :
  mems_typed ms -> lane_typed l -> words_ok (rs_data p) ->
  let '(ms', l', p', _) := lane0_reply cyc l ms p h in mems_typed ms' /\ lane_typed l' /\ words_ok (rs_data p').
Proof.
  intros Hm Hl Hp. unfold lane0_reply. destruct (_ =? cyc); [|done]. destruct (l_bad l); [done|].
  destruct (l_op l =? 4); [split; [done|split; [done|apply (line_load_words _ _ _ (proj1 Hm))]]|].
  destruct (l_op l =? 7); [split; [by apply lane_store_typed|done]|done].
Qed.
Lemma repeat_words n w : is_u 32 w -> words_ok (repeat w n).
Proof. intros Hw. induction n; cbn; [apply Forall_nil_2|by apply Forall_cons_2]. Qed.
Lemma lane1_reply_typed cyc l ms p :
  mems_typed ms -> lane_typed l -> words_ok (rs_data p) ->
  let '(ms', l', p') := lane1_reply cyc l ms p in mems_typed ms' /\ lane_typed l' /\ words_ok (rs_data p').
Proof.
  intros Hm Hl Hp. unfold lane1_reply. destruct (_ =? cyc); [|done].
  destruct (l_bad l); [split; [done|split; [done|apply repeat_words; by vm_compute]]|].
  destruct ((l_op l =? 4) || (l_op l =? 5)).
  { split; [done|split; [done|]]. apply Forall_app_2; [apply (line_load_words _ _ _ (proj1 Hm))|apply repeat_words; by vm_compute]. }
  destruct ((l_op l =? 7) || (l_op l =? 6)); [split; [by apply lane_store_typed|done]|done].
Qed.
Lemma bus_step_typed c cyc rqs b : bus_typed b -> bus_typed (bus_step c cyc rqs b).
Proof.
  intros (Hm & Hs & H0 & H1 & Hr0 & Hr1). destruct rqs as [rq0 rq1]. unfold bus_step.
  pose proof (lane0_accept_typed c cyc rq0 _ _ (b_unaligned b) Hs H0) as A0.
  destruct (lane0_accept _ _ _ _ _ _) as [[s1 l0] un]. destruct A0 as [Hs1 Hl0].
  pose proof (lane0_reply_typed cyc l0 _ _ (b_halted b) Hm Hl0 Hr0) as R0.
  destruct (lane0_reply _ _ _ _ _) as [[[ms1 l0'] p0] h]. destruct R0 as (Hm1 & Hl0' & Hp0).
  pose proof (lane1_accept_typed c cyc rq1 _ _ (b_lane1_ops b) Hs1 H1) as A1.
  destruct (lane1_accept _ _ _ _ _ _) as [[s2 l1] ops]. destruct A1 as [Hs2 Hl1].
  pose proof (lane1_reply_typed cyc l1 _ _ Hm1 Hl1 Hr1) as R1.
  destruct (lane1_reply _ _ _ _) as [[ms2 l1'] p1]. by destruct R1 as (Hm2 & Hl1' & Hp1).
Qed.

(** C17.  From the initial state, for any requests (any address, any
    opcode, any store data) and any latency setting, after every cycle the DRAM
    and the ISS memory hold bytes, every response lane is a 32-bit word, every
    address a lane holds lies inside the DRAM array, and the latency generator is
    a non-zero 64-bit value. *)
Theorem bus_run_typed (c : cfg) (inp : Z -> req * req) (n : nat) (cyc : Z) (ms : mems) (seed : Z) :
  mems_typed ms -> is_u 32 seed -> bus_typed (bus_run c inp n cyc (bus_init ms seed)).
Proof.
  intros Hm Hs.
  assert (bus_typed (bus_init ms seed)) as Hi.
  { split; [done|]. split; [by apply memlat_seed_ok|]. unfold lane_typed, words_ok, MEM_SIZE; cbn.
    split; [lia|]. split; [lia|]. split; apply Forall_nil_2. }
  revert Hi. generalize (bus_init ms seed). intros b Hb. clear - Hb. revert cyc b Hb.
  induction n as [|n IH]; intros cyc b Hb; cbn [bus_run]; [done|]. by apply IH, bus_step_typed.
Qed.
Lemma bus_run_typed_witness :
  bus_typed (bus_run (Cfg 1 9 true) (fun _ => (Req true (-5) 7 0xffff [1; -7; 0; 0x123456789], Req true 0xfffffffff 5 0 []))
    40 0 (bus_init (Mems ∅ (Some ∅)) 0)).
Proof.
  apply bus_run_typed; [|by vm_compute]. split; [apply mem_ok_empty|]. intros im [= <-]. apply mem_ok_empty.
Defined.
