(* ===== verification/BusWatch.v ===== *)
(** * BusWatch: the watchpoints of the memory bus

    The prints of the bus section of sim/henry_tb.cpp's main loop: unaligned requests,
    PAGEWATCH, faulting addresses, MEMWATCH on line loads and masked stores of lane 0,
    DESCWATCH and LOWPA.  A print is the tuple of its values, in the order of one bus
    cycle.  [req_owner] is a constant of the source and is left out. *)
From S2P Require Import Prelude AddressMap GuestMem MemBus.

(** PAGEWATCH, MEMWATCH, LOWPA (0 = off) and DESCWATCH. *)
Record bw_cfg := BwCfg { w_page : Z; w_mem : Z; w_low : Z; w_desc : bool }.
(** LOWPA=1 stands for the alias threshold; [None] is an unset variable. *)
Definition lowpa_knob (v : option Z) : Z :=
  match v with Some x => if 1 <? x then x else 0x08000000 | None => 0 end.
Record bw_st := BwSt { bw_rd_n : Z; bw_mw_n : Z; bw_lp_n : Z }.
Definition bw_init : bw_st := BwSt 0 0 0.
Inductive bus_line :=
  | BlUnaligned (cyc phys op mask : Z) (axi_align : bool)
  | BlPage (cyc phys op mask : Z) (sd : list Z)
  | BlBad (cyc phys op mask : Z) | BlBad1 (cyc phys op : Z)
  | BlRead (cyc addr phys : Z) (data : list Z)
  | BlDesc (cyc addr mask : Z) (sd : list Z)
  | BlLow (cyc phys addr mask d : Z) | BlLowCount (n : Z)
  | BlWrite (cyc addr phys mask : Z) (sd : list Z).

Definition same_line (a b : Z) : bool := Z.ldiff a 63 =? Z.ldiff b 63.

(** At the accept of a lane-0 request. *)
Definition accept0_lines (c : cfg) (k : bw_cfg) (cyc : Z) (rq : req) (l : lane) (unaligned : Z) : list bus_line :=
  if rq_valid rq && negb (l_prev l) && (l_reply l =? -1) then
    let phys0 := rq_addr rq .& 0x1fffffff in
    let un := negb (phys0 .& 0xf =? 0) in
    let phys := if un && AXI_ALIGN c then Z.ldiff phys0 0xf else phys0 in
    (if un && (unaligned + 1 <=? 8) then [BlUnaligned cyc phys0 (rq_op rq) (rq_mask rq) (AXI_ALIGN c)] else []) ++
    (if negb (w_page k =? 0) && (Z.ldiff phys 0xfff =? Z.ldiff (w_page k) 0xfff)
     then [BlPage cyc phys (rq_op rq) (rq_mask rq) (firstn 4 (rq_sd rq))] else []) ++
    (if snd (fold_or_mask phys (rq_addr rq .& MEM_MASK)) then [BlBad cyc phys (rq_op rq) (rq_mask rq)] else [])
  else [].
(** The LOWPA counter of a store. *)
Definition low_lines (k : bw_cfg) (cyc : Z) (l : lane) (n : Z) : Z * list bus_line :=
  if negb (w_low k =? 0) && (l_phys l <? w_low k) then
    let n := n + 1 in
    (n, if n <=? 20 then [BlLow cyc (l_phys l) (l_addr l .& MEM_MASK) (l_mask l) (nth 0 (l_sd l) 0)]
        else if n mod 100000 =? 0 then [BlLowCount n] else [])
  else (n, []).
(** At the reply of lane 0; [m] is DRAM before it. *)
Definition reply0_lines (k : bw_cfg) (cyc : Z) (l : lane) (m : mem) (s : bw_st) : bw_st * list bus_line :=
  let addr := l_addr l .& MEM_MASK in
  let hit := negb (w_mem k =? 0) && same_line addr (w_mem k) in
  if negb (l_reply l =? cyc) || l_bad l then (s, [])
  else if l_op l =? 4 then
    if hit then
      (BwSt (bw_rd_n s + 1) (bw_mw_n s) (bw_lp_n s),
       if bw_rd_n s + 1 <=? 2000 then [BlRead cyc addr (l_phys l) (line_load m (l_addr l) 4)] else [])
    else (s, [])
  else if l_op l =? 7 then
    let la := u32 (addr .& 0x0ffffff0) in
    let desc := if w_desc k && ((la =? 0x003e4000) || (la =? 0x083e4000) || (nth 0 (l_sd l) 0 =? 0x883e4800))
                then [BlDesc cyc addr (l_mask l) (l_sd l)] else [] in
    let '(lp, low) := low_lines k cyc l (bw_lp_n s) in
    if hit then
      (BwSt (bw_rd_n s) (bw_mw_n s + 1) lp,
       desc ++ low ++ (if bw_mw_n s + 1 <=? 2000 then [BlWrite cyc addr (l_phys l) (l_mask l) (l_sd l)] else []))
    else (BwSt (bw_rd_n s) (bw_mw_n s) lp, desc ++ low)
  else (s, []).
(** A faulting lane-1 request. *)
Definition accept1_lines (cyc : Z) (rq : req) (l : lane) : list bus_line :=
  if rq_valid rq && negb (l_prev l) && (l_reply l =? -1) then
    let mask := if is_burst (rq_op rq) then 0x3f else 0xf in
    let phys := Z.ldiff (rq_addr rq .& 0x1fffffff) mask in
    if snd (fold_or_mask phys (Z.ldiff (rq_addr rq .& MEM_MASK) mask)) then [BlBad1 cyc phys (rq_op rq)] else []
  else [].
(** One bus cycle, as [bus_step] goes through it. *)
Definition watch_step (c : cfg) (k : bw_cfg) (cyc : Z) (rqs : req * req) (b : bus) (s : bw_st) : bw_st * list bus_line :=
  let '(rq0, rq1) := rqs in
  let '(_, l0, _) := lane0_accept c cyc rq0 (b_memlat b) (b_lane0 b) (b_unaligned b) in
  let '(s, rep) := reply0_lines k cyc l0 (dram (b_mems b)) s in
  (s, accept0_lines c k cyc rq0 (b_lane0 b) (b_unaligned b) ++ rep ++ accept1_lines cyc rq1 (b_lane1 b)).
(** The services of an iteration come before its bus cycle and write DRAM directly:
    the staging rings of SCSI, Ethernet and GIO are in it ([io.stg]). *)
Definition with_dram (h : mem -> mem) (b : bus) : bus :=
  Bus (Mems (h (dram (b_mems b))) (iss (b_mems b))) (b_memlat b) (b_lane0 b) (b_lane1 b) (b_rsp0 b) (b_rsp1 b)
    (b_halted b) (b_unaligned b) (b_lane1_ops b).
Fixpoint watch_run (c : cfg) (k : bw_cfg) (host : Z -> mem -> mem) (inp : Z -> req * req) (n : nat) (cyc : Z) (b : bus)
    (s : bw_st) : bw_st * list bus_line * bus :=
  match n with
  | O => (s, [], b)
  | S m => let b := with_dram (host cyc) b in
           let '(s, ls) := watch_step c k cyc (inp cyc) b s in
           let '(s, ls', b) := watch_run c k host inp m (cyc + 1) (bus_step c cyc (inp cyc) b) s in (s, ls ++ ls', b)
  end.

(** ** Lemmas *)

(** A byte after a printed write, and after a transcript. *)
Definition wrote (x : Z) (v : Z) (e : bus_line) : Z :=
  match e with
  | BlWrite _ addr _ mask sd =>
      if (addr <=? x) && (x <? addr + 16) && mask_en mask (Z.to_nat (x - addr)) then sd_byte sd (Z.to_nat (x - addr)) else v
  | _ => v
  end.
Definition replay (x : Z) (ls : list bus_line) (v : Z) : Z := fold_left (wrote x) ls v.
(** Lines that are not writes of the watched line. *)
Definition silent (ls : list bus_line) : Prop := forall x v, replay x ls v = v.
Lemma replay_app x a b v : replay x (a ++ b) v = replay x b (replay x a v).
Proof. apply fold_left_app. Qed.
Lemma silent_app a b : silent a -> silent b -> silent (a ++ b).
Proof. intros Ha Hb x v. by rewrite replay_app, Ha, Hb. Qed.
Lemma silent_if (b : bool) e : (forall x v, wrote x v e = v) -> silent (if b then [e] else []).
Proof. intros H x v. destruct b; [apply H|done]. Qed.
Lemma silent_accept0 c k cyc rq l un : silent (accept0_lines c k cyc rq l un).
Proof. unfold accept0_lines. destruct (_ && _ && _); [|by intros ? ?]. by repeat apply silent_app; apply silent_if. Qed.
Lemma silent_accept1 cyc rq l : silent (accept1_lines cyc rq l).
Proof. unfold accept1_lines. destruct (_ && _ && _); [|by intros ? ?]. by apply silent_if. Qed.
Lemma silent_low k cyc l n : silent (snd (low_lines k cyc l n)).
Proof. unfold low_lines. destruct (_ && _); [|by intros ? ?]. cbn [snd]. destruct (_ <=? 20); [by intros ? ?|by apply silent_if]. Qed.
Lemma ldiff63 a : 0 <= a -> Z.ldiff a 63 = a - a mod 64.
Proof. intros H. exact (ldiff_align a 6 H ltac:(lia)). Qed.

Section Watch.
Variable c : cfg.
Variable k : bw_cfg.
Variable x : Z.
Hypothesis Hmem : 0 < w_mem k.
Hypothesis Hx : 0 <= x < MEM_SIZE.
Hypothesis Hline : same_line x (w_mem k) = true.

(** What keeps the watch exact: aligned lines on lane 0, no stores on lane 1. *)
Definition lane0_al (l : lane) : Prop := lane_typed l /\ l_addr l mod 16 = 0.
Definition lane1_ro (l : lane) : Prop := l_op l <> 6 /\ l_op l <> 7.

Lemma fold_align16 p : 0 <= p < 0x20000000 -> fold_spec p mod 16 = p mod 16.
Proof. intros Hp. unfold fold_spec. repeat case_test; Z.to_euclidean_division_equations; lia. Qed.
Lemma accept0_al cyc rq s l un : rq_addr rq mod 16 = 0 -> lane0_al l ->
  lane0_al (snd (fst (lane0_accept c cyc rq s l un))).
Proof.
  intros Ha Hl. unfold lane0_accept. destruct (_ && _ && _); [|done].
  pose proof (low29 (rq_addr rq)) as Hp. assert ((rq_addr rq .& 0x1fffffff) mod 16 = 0) as Hp16.
  { rewrite land_1fffffff. revert Ha. Z.to_euclidean_division_equations. lia. }
  set (p := rq_addr rq .& 0x1fffffff) in *. rewrite land_f, Hp16. cbn [Z.eqb negb andb].
  rewrite fold_or_mask_eq by done. destruct (memlat_draw c s). cbn [fst snd].
  split; unfold lane_typed; cbn [l_addr].
  - pose proof (fold_spec_range p Hp). unfold FPGA_ADDRMASK, MEM_SIZE in *. lia.
  - by rewrite fold_align16.
Qed.
Lemma accept1_ro cyc rq s l ops : rq_op rq <> 6 -> rq_op rq <> 7 -> lane1_ro l ->
  lane1_ro (snd (fst (lane1_accept c cyc rq s l ops))).
Proof.
  intros H6 H7 Hl. unfold lane1_accept. destruct (_ && _ && _); [|done]. destruct (fold_or_mask _ _). by destruct (memlat_draw c s).
Qed.
Lemma reply1_ro cyc l ms p : lane1_ro l -> let '(ms', l', _) := lane1_reply cyc l ms p in ms' = ms /\ lane1_ro l'.
Proof.
  intros [H6 H7]. unfold lane1_reply. destruct (_ =? cyc); [|done]. destruct (l_bad l); [done|].
  destruct (_ || (l_op l =? 5)); [done|]. by replace ((l_op l =? 7) || (l_op l =? 6)) with false by lia.
Qed.
(** The reply of lane 0: DRAM's byte is the old one with the printed write. *)
Lemma reply0_watch cyc l ms p h s : lane0_al l ->
  let '(ms', l', _, _) := lane0_reply cyc l ms p h in
  let '(s', ls) := reply0_lines k cyc l (dram ms) s in
  bw_mw_n s <= bw_mw_n s' /\ lane0_al l' /\
  (bw_mw_n s' <= 2000 -> mget (dram ms') x = replay x ls (mget (dram ms) x)).
Proof.
  intros [Ht Ha]. unfold lane0_reply, reply0_lines. cbv zeta. pose proof (mod_window (l_addr l) Ht) as ->.
  replace (w_mem k =? 0) with false by lia. cbn [negb andb].
  destruct (l_reply l =? cyc); cbn [negb orb]; [|split; [lia|split; [by split|done]]].
  destruct (l_bad l); [split; [cbn; lia|split; [by split|done]]|].
  destruct (l_op l =? 4).
  { destruct (same_line (l_addr l) (w_mem k)); [|split; [cbn; lia|split; [by split|done]]]. split; [cbn; lia|split; [by split|]]. intros _. by destruct (_ <=? 2000). }
  destruct (l_op l =? 7); [|split; [cbn; lia|split; [by split|done]]].
  pose proof (silent_low k cyc l (bw_lp_n s)) as Hlow. destruct (low_lines _ _ _ _) as [lp low]. cbn [snd] in Hlow.
  match goal with |- context [if ?b then [BlDesc ?q ?w ?e ?r] else []] => pose proof (silent_if b (BlDesc q w e r) ltac:(done)) as Hdesc;
    set (desc := if b then [BlDesc q w e r] else []) in * end.
  assert (mget (line_store (dram ms) (l_addr l) (l_sd l) (mask_en (l_mask l)) 16) x
    = wrote x (mget (dram ms) x) (BlWrite cyc (l_addr l) (l_phys l) (l_mask l) (l_sd l))) as Hs.
  { rewrite line_store_exact; [done|apply Ht|]. unfold lane_typed, MEM_SIZE in *. revert Ha. Z.to_euclidean_division_equations. lia. }
  destruct (same_line (l_addr l) (w_mem k)) eqn:E; (split; [cbn; lia|split; [by split|]]); cbn [bw_mw_n]; intros Hn.
  - replace (bw_mw_n s + 1 <=? 2000) with true by lia. rewrite !replay_app, Hdesc, Hlow. exact Hs.
  - rewrite !replay_app, Hdesc, Hlow. cbn [lane_store dram]. rewrite Hs. cbn [wrote].
    assert ((l_addr l <=? x) && (x <? l_addr l + 16) = false) as ->; [|done].
    unfold same_line in *. apply Z.eqb_eq in Hline. apply Z.eqb_neq in E. rewrite <- Hline in E.
    rewrite !ldiff63 in E by (unfold lane_typed in Ht; lia). apply andb_false_iff.
    destruct (Z.leb_spec (l_addr l) x); [right|by left]. apply Z.ltb_ge.
    destruct (Z.le_gt_cases (l_addr l + 16) x); [done|]. exfalso. apply E. revert Ha. Z.to_euclidean_division_equations. lia.
Qed.
Lemma watch_step_exact cyc rqs b s :
  rq_addr (fst rqs) mod 16 = 0 -> rq_op (snd rqs) <> 6 -> rq_op (snd rqs) <> 7 ->
  lane0_al (b_lane0 b) -> lane1_ro (b_lane1 b) ->
  let b' := bus_step c cyc rqs b in
  let '(s', ls) := watch_step c k cyc rqs b s in
  bw_mw_n s <= bw_mw_n s' /\ lane0_al (b_lane0 b') /\ lane1_ro (b_lane1 b') /\
  (bw_mw_n s' <= 2000 -> mget (dram (b_mems b')) x = replay x ls (mget (dram (b_mems b)) x)).
Proof.
  intros Ha H6 H7 Hl0 Hl1. destruct rqs as [rq0 rq1]. cbn [fst snd] in *. unfold bus_step, watch_step.
  pose proof (accept0_al cyc rq0 (b_memlat b) (b_lane0 b) (b_unaligned b) Ha Hl0) as A0.
  destruct (lane0_accept _ _ _ _ _ _) as [[m1 l0] un]. cbn [fst snd] in A0.
  pose proof (reply0_watch cyc l0 (b_mems b) (b_rsp0 b) (b_halted b) s A0) as W.
  destruct (lane0_reply _ _ _ _ _) as [[[ms1 l0'] p0] hl]. destruct (reply0_lines _ _ _ _ _) as [s1 rep]. destruct W as (W1 & W2 & W3).
  pose proof (accept1_ro cyc rq1 m1 (b_lane1 b) (b_lane1_ops b) H6 H7 Hl1) as A1.
  destruct (lane1_accept _ _ _ _ _ _) as [[m2 l1] ops]. cbn [fst snd] in A1.
  pose proof (reply1_ro cyc l1 ms1 (b_rsp1 b) A1) as R1. destruct (lane1_reply _ _ _ _) as [[ms2 l1'] p1]. destruct R1 as [-> R1].
  cbn [b_lane0 b_lane1 b_mems set_prev]. split_and!; [done|by destruct W2|by destruct R1|].
  intros Hn. rewrite !replay_app, silent_accept0, silent_accept1. by apply W3.
Qed.
End Watch.

(** ** Property *)


(** ** Examples *)

Definition watch_cfg : bw_cfg := BwCfg 0 0x100 0 false.
Definition quick : cfg := Cfg 1 1 false.
Definition no_req : req := Req false 0 0 0 [].
(** A masked store of the CPU to 0x110, and a service that writes a staging slot. *)
Definition cpu_store (c : Z) : req * req :=
  (if c =? 0 then Req true 0x110 7 0x0003 [0x2211; 0; 0; 0] else no_req, no_req).
Definition stage_write (i : Z) (m : mem) : mem := <[0x18000000 + i := 0x55]> m.
Lemma stage_write_off i m y : 0 <= i -> same_line y 0x100 = true -> mget (stage_write i m) y = mget m y.
Proof.
  intros Hi Hy. apply mget_insert_ne. intros <-. unfold same_line in Hy. apply Z.eqb_eq in Hy.
  rewrite !ldiff63 in Hy by lia. revert Hy. Z.to_euclidean_division_equations. lia.
Qed.
Definition stage_from_0 (i : Z) (m : mem) : mem := if 0 <=? i then stage_write i m else m.
(** A burst of the DMA engine to the watched line is not printed. *)
Definition dma_burst (c : Z) : req * req :=
  (no_req, if c =? 0 then Req true 0x100 6 0 (repeat 0x44332211 16) else no_req).
Definition no_host (i : Z) (m : mem) : mem := m.
Theorem memwatch_misses_lane1 :
  let '(_, ls, b') := watch_run quick watch_cfg no_host dma_burst 7 0 (bus_init (Mems ∅ None) 1) bw_init in
  ls = [] /\ mget (dram (b_mems b')) 0x100 = 0x11.
Proof. by vm_compute. Qed.
(** A watched address in the second 128 MB of memory is compared with another line's
    offset: the CPU's own stores to it are not printed, while a store to the PROM shadow
    at 0x1f000100 is. *)
Definition high_store (a c : Z) : req * req :=
  (if c =? 0 then Req true a 7 0x0003 [0x2211; 0; 0; 0] else no_req, no_req).
Theorem memwatch_misses_folded :
  let k := BwCfg 0 0x10000100 0 false in
  (let '(_, ls, b') := watch_run quick k no_host (high_store 0x10000100) 4 0 (bus_init (Mems ∅ None) 1) bw_init in
   ls = [] /\ mget (dram (b_mems b')) (fst (fpga_map 0x10000100)) = 0x11) /\
  (let '(_, ls, _) := watch_run quick k no_host (high_store 0x1f000100) 4 0 (bus_init (Mems ∅ None) 1) bw_init in
   ls = [BlWrite 2 0x10000100 0x1f000100 0x0003 [0x2211; 0; 0; 0]]).
Proof. by vm_compute. Qed.
