(* ===== verification/TraceCodec.v ===== *)
(** * TraceCodec: the DRAM control-flow trace, code and validating decoder

    rtl/dram_trace.sv encodes every in-filter retire PC as a seed, a
    "sequential" bit or a zigzag-LEB128 delta and packs the codes LSB first
    into 128-bit beats; the TRACE_VALIDATE section of sim/henry_tb.cpp decodes
    the ring from [g_mem[0x18000000]] and compares it with the retire PCs it
    captured.  This file holds the combinational code and pack logic, the
    capture and the decoder; the clocked engine is [TraceEngine].  Bit streams
    are [list bool], first bit first. *)
From S2P Require Import Prelude AddressMap GuestMem.

(** ** Capture filter *)

Record retire := Retire { rt_valid : bool; rt_pc : Z; rt_reg_valid : bool; rt_op : Z; rt_val : Z; rt_addr : Z }.

(** [tb_is_load]: opcodes of uop.vh's [is_load]. *)
Definition tb_is_load (op : Z) : bool :=
  existsb (Z.eqb op) [44; 45; 46; 47; 48; 61; 62; 88; 101; 106; 107; 111].

Definition tb_user (r : retire) : bool := rt_valid r && ((rt_pc r .>> 31) =? 0).
Definition TRACE_CAP : nat := Z.to_nat 2000000.
(** One cycle of [g_trace_ref] capture, head then next-head. *)
Definition trace_capture (ref : list Z) (r0 r1 : retire) : list Z :=
  if (length ref <? TRACE_CAP)%nat then
    let ref := if tb_user r0 then ref ++ [u32 (rt_pc r0)] else ref in
    if tb_user r1 then ref ++ [u32 (rt_pc r1)] else ref
  else ref.
(** One cycle of [g_trace_ref_lv] capture: (pc, val, addr) of every user load. *)
Definition lv_rec (r : retire) : Z * Z * Z := (u32 (rt_pc r), u32 (rt_val r), u32 (rt_addr r)).
Definition lv_capture (ref : list (Z * Z * Z)) (r0 r1 : retire) : list (Z * Z * Z) :=
  if (length ref <? TRACE_CAP)%nat then
    let ref := if tb_user r0 && rt_reg_valid r0 && tb_is_load (rt_op r0) then ref ++ [lv_rec r0] else ref in
    if tb_user r1 && rt_reg_valid r1 && tb_is_load (rt_op r1) then ref ++ [lv_rec r1] else ref
  else ref.

(** [w_rN_user] of the RTL with its ASID and PC-range filters. *)
Record filter_cfg := FilterCfg { filter_en : bool; target_asid : Z; pc_range_en : bool }.
Definition BE_LO : Z := 0x0e000000.
Definition BE_HI : Z := 0x10200000.
Definition rtl_user (f : filter_cfg) (asid : Z) (r : retire) : bool :=
  let asid_ok := negb (filter_en f) || (asid =? target_asid f) in
  let pc32 := u32 (rt_pc r) in
  let inrange := negb (pc_range_en f) || ((BE_LO <=? pc32) && (pc32 <? BE_HI)) in
  rt_valid r && ((rt_pc r .>> 31) =? 0) && asid_ok && inrange.

(** ** Encoder (rtl/dram_trace.sv) *)

(** The low [len] bits of a code word, LSB first. *)
Definition bits_of (code : Z) (len : nat) : list bool := map (fun i => Z.testbit code (Z.of_nat i)) (seq 0 len).

Definition slice (x lo n : Z) : Z := (x .>> lo) .& (2 ^ n - 1).
Definition w_d (last pc : Z) : Z := pc -32 (last +32 4).
Definition w_zz (d : Z) : Z := (d .<< 1) .^ (if Z.testbit d 31 then 2 ^ 33 - 1 else 0).
Definition w_nb (zz : Z) : Z :=
  if negb (slice zz 28 5 =? 0) then 5 else if negb (slice zz 21 7 =? 0) then 4
  else if negb (slice zz 14 7 =? 0) then 3 else if negb (slice zz 7 7 =? 0) then 2 else 1.
Definition b2z (b : bool) : Z := if b then 1 else 0.
(** One LEB byte: continuation bit over seven data bits. *)
Definition leb_byte (cont : bool) (v : Z) : Z := (b2z cont .<< 7) .| v.
Definition w_leb (zz : Z) : Z :=
  let nb := w_nb zz in
  (leb_byte false (slice zz 28 5) .<< 32) .| (leb_byte (4 <? nb) (slice zz 21 7) .<< 24)
  .| (leb_byte (3 <? nb) (slice zz 14 7) .<< 16) .| (leb_byte (2 <? nb) (slice zz 7 7) .<< 8)
  .| leb_byte (1 <? nb) (slice zz 0 7).
(** [(w_code, w_len)] of one retire, [None] = not seeded. *)
Definition w_code (last : option Z) (pc : Z) : Z * nat :=
  match last with
  | None => (pc, 32%nat)
  | Some l =>
      let d := w_d l pc in
      if d =? 0 then (1, 1%nat)
      else (w_leb (w_zz d) .<< 1, S (8 * Z.to_nat (w_nb (w_zz d))))
  end.
Definition code_bits (last : option Z) (pc : Z) : list bool :=
  let '(code, len) := w_code last pc in bits_of code len.

Fixpoint encode_from (last : option Z) (pcs : list Z) : list bool :=
  match pcs with
  | [] => []
  | pc :: t => code_bits last pc ++ encode_from (Some pc) t
  end.
Definition encode (pcs : list Z) : list bool := encode_from None pcs.

(** The packer: a 256-bit accumulator holding [nbits] < 128 bits takes an
    append of up to 82 bits and emits a 128-bit beat when full. *)
Definition pack_step (acc : Z) (nbits : nat) (append : Z) (len : nat) : option Z * Z * nat :=
  let merged := acc .| (append .<< Z.of_nat nbits) in
  let total := (nbits + len)%nat in
  if (128 <=? total)%nat then (Some (merged .& (2 ^ 128 - 1)), merged .>> 128, (total - 128)%nat)
  else (None, merged, total).
(** The append of one cycle: retiree 0's code low, retiree 1's above it. *)
Definition w_append (last : option Z) (u0 u1 : option Z) : Z * nat * option Z :=
  let '(c0, n0) := match u0 with Some pc => w_code last pc | None => (0, 0%nat) end in
  let last0 := match u0 with Some pc => Some pc | None => last end in
  let '(c1, n1) := match u1 with Some pc => w_code last0 pc | None => (0, 0%nat) end in
  ((c1 .<< Z.of_nat n0) .| c0, (n0 + n1)%nat, match u1 with Some pc => Some pc | None => last0 end).

(** ** Decoder (sim/henry_tb.cpp, TRACE_VALIDATE) *)

Definition TRACE_BASE : Z := 0x18000000.
(** Bit [i] of the ring is [(g_mem[BASE + (i>>3)] >> (i&7)) & 1], [i < 8*wbytes]. *)
Definition ring_bits (m : mem) (wbytes : nat) : list bool :=
  map (fun i => Z.testbit (mget m (TRACE_BASE + Z.of_nat (i / 8))) (Z.of_nat (i mod 8))) (seq 0 (8 * wbytes)).

(** [getbits(nb)]: [v |= b << i], stopping early when the stream ends. *)
Fixpoint getbits_from (v : Z) (i : Z) (nb : nat) (s : list bool) : Z * list bool :=
  match nb with
  | O => (v, s)
  | S k => match s with
           | [] => (v, [])
           | b :: t => getbits_from (v .| (b2z b .<< i)) (i + 1) k t
           end
  end.
Definition getbits (nb : nat) (s : list bool) : Z * list bool := getbits_from 0 0 nb s.

(** [getleb()]; at most ten rounds since [sh > 63] stops the loop. *)
Fixpoint getleb_from (fuel : nat) (u sh : Z) (s : list bool) : Z * list bool :=
  match fuel with
  | O => (u, s)
  | S k =>
      let '(by8, s') := getbits 8 s in
      let u' := u .| u64 ((by8 .& 0x7f) .<< sh) in
      let sh' := sh + 7 in
      if (by8 .& 0x80 =? 0) || (63 <? sh') || (match s' with [] => true | _ => false end)
      then (u', s') else getleb_from k u' sh' s'
  end.
Definition getleb (s : list bool) : Z * list bool := getleb_from 10 0 0 s.

Definition unzigzag (zz : Z) : Z :=
  if Z.testbit zz 0 then - (u64 (zz + 1) .>> 1) else zz .>> 1.

(** The [while] loop; [n] counts the records still wanted ([dec.size() <
    ref.size()]), so it is the fuel. *)
Fixpoint decode_loop (n : nat) (pc : Z) (s : list bool) : list Z :=
  match n with
  | O => []
  | S k =>
      match s with
      | [] => []
      | true :: t => let pc' := pc +32 4 in pc' :: decode_loop k pc' t
      | false :: t =>
          let '(zz, t') := getleb t in
          let pc' := u32 (pc + 4 + unzigzag zz) in
          pc' :: decode_loop k pc' t'
      end
  end.
Definition decode (refn : nat) (s : list bool) : list Z :=
  if (32 <=? length s)%nat && (0 <? refn)%nat then
    let '(pc, t) := getbits 32 s in pc :: decode_loop (refn - 1) pc t
  else [].

(** The comparison: records compared, mismatches, first mismatch. *)
Fixpoint count_mism (dec ref : list Z) : nat * nat :=
  match dec, ref with
  | d :: dt, r :: rt => let '(n, k) := count_mism dt rt in (S n, if d =? r then k else S k)
  | _, _ => (0%nat, 0%nat)
  end.
Definition trace_val (m : mem) (wbytes : nat) (ref : list Z) : nat * nat :=
  count_mism (decode (length ref) (ring_bits m wbytes)) ref.
Definition trace_pass (r : nat * nat) : bool := (snd r =? 0)%nat && (0 <? fst r)%nat.

(** ** loadval mode *)
Definition rd32 (m : mem) (off : Z) : Z := le32 m (TRACE_BASE + off).
Definition lv_match (m : mem) (i : nat) (r : Z * Z * Z) : bool :=
  let '(pc, val, addr) := r in
  (rd32 m (Z.of_nat i * 16) =? pc) && (rd32 m (Z.of_nat i * 16 + 4) =? val)
  && (rd32 m (Z.of_nat i * 16 + 8) =? addr).
Definition loadval_val (m : mem) (wbytes : nat) (ref : list (Z * Z * Z)) : nat * nat :=
  let n := Nat.min (wbytes / 16) (length ref) in
  (n, length (filter (fun i => lv_match m i (nth i ref (0, 0, 0)) = false) (seq 0 n))).
(** [w_ldbeat]: [{32'd0, addr, val, pc}]. *)
Definition lv_beat (r : Z * Z * Z) : Z :=
  let '(pc, val, addr) := r in (addr .<< 64) .| (val .<< 32) .| pc.

(** ** Bit lists *)

Lemma length_bits_of c n : length (bits_of c n) = n.
Proof. unfold bits_of. by rewrite length_map, length_seq. Qed.
#[export] Hint Rewrite length_bits_of : hw.

Lemma bits_of_S c n : bits_of c (S n) = Z.testbit c 0 :: bits_of (c / 2) n.
Proof.
  unfold bits_of. cbn [seq map]. f_equal. rewrite <- seq_shift, map_map. apply map_ext.
  intros i. rewrite <- Z.div2_div, Z.div2_spec, Z.shiftr_spec by lia. f_equal. lia.
Qed.
Lemma bits_of_mod c n : bits_of (c mod 2 ^ Z.of_nat n) n = bits_of c n.
Proof.
  apply map_ext_in. intros i Hi%in_seq. apply Z.mod_pow2_bits_low. lia.
Qed.
(** A code of [n] bits under one of [m] bits. *)
Lemma bits_of_app lo hi n m :
  0 <= lo < 2 ^ Z.of_nat n -> bits_of (lo + hi * 2 ^ Z.of_nat n) (n + m) = bits_of lo n ++ bits_of hi m.
Proof.
  revert lo hi; induction n as [|n IH]; intros lo hi Hlo; cbn [Nat.add].
  - change (2 ^ Z.of_nat 0) with 1 in *. replace lo with 0 by lia. cbn. f_equal. lia.
  - rewrite !bits_of_S. rewrite Nat2Z.inj_succ, Z.pow_succ_r in * by lia.
    replace (lo + hi * (2 * 2 ^ Z.of_nat n)) with (lo + (hi * 2 ^ Z.of_nat n) * 2) by lia.
    rewrite Z.div_add by lia. cbn [app]. f_equal.
    + rewrite !Z.bit0_odd, (Z.mul_comm _ 2). apply Z.odd_add_mul_2.
    + apply IH. Z.to_euclidean_division_equations; lia.
Qed.

Lemma testbit0_b2z c : b2z (Z.testbit c 0) = c mod 2.
Proof. rewrite Z.bit0_odd, Zmod_odd. by destruct (Z.odd c). Qed.

Lemma getbits_from_bits_of v i n c rest :
  0 <= i -> 0 <= v < 2 ^ i ->
  getbits_from v i n (bits_of c n ++ rest) = (v + (c mod 2 ^ Z.of_nat n) * 2 ^ i, rest).
Proof.
  revert v i c; induction n as [|n IH]; intros v i c Hi Hv.
  - change (2 ^ Z.of_nat 0) with 1. rewrite Z.mod_1_r. cbn. f_equal; lia.
  - rewrite bits_of_S. cbn [app getbits_from].
    assert (v .| (b2z (Z.testbit c 0) .<< i) = v + (c mod 2) * 2 ^ i) as ->.
    { rewrite Z.lor_comm, lor_shiftl_add, testbit0_b2z by lia. lia. }
    assert (0 < 2 ^ i) by (apply Z.pow_pos_nonneg; lia).
    rewrite IH by (rewrite ?Z.pow_add_r by lia; Z.to_euclidean_division_equations; nia).
    f_equal. rewrite Nat2Z.inj_succ, Z.pow_succ_r, Z.pow_add_r by lia.
    rewrite (Z.rem_mul_r c 2) by (try apply Z.pow_pos_nonneg; lia). lia.
Qed.
Lemma getbits_bits_of n c rest :
  0 <= c < 2 ^ Z.of_nat n -> getbits n (bits_of c n ++ rest) = (c, rest).
Proof.
  intros Hc. unfold getbits. rewrite getbits_from_bits_of by lia.
  rewrite Z.mod_small by lia. f_equal. lia.
Qed.

(** ** LEB128 *)

Lemma slice_arith x lo n : 0 <= n -> 0 <= lo -> slice x lo n = (x / 2 ^ lo) mod 2 ^ n.
Proof. intros. unfold slice. rewrite land_ones_mod, Z.shiftr_div_pow2 by lia. done. Qed.
Lemma leb_byte_arith cont v : 0 <= v < 128 -> leb_byte cont v = b2z cont * 128 + v.
Proof. intros. unfold leb_byte. by rewrite lor_shiftl_add by lia. Qed.

Lemma getleb_step f u sh cont g rest :
  0 <= sh -> sh <= 56 -> 0 <= u < 2 ^ sh -> 0 <= g < 128 -> (cont = true -> rest <> []) ->
  getleb_from (S f) u sh (bits_of (leb_byte cont g) 8 ++ rest) =
  if cont then getleb_from f (u + g * 2 ^ sh) (sh + 7) rest else (u + g * 2 ^ sh, rest).
Proof.
  intros Hsh Hsh' Hu Hg Hrest. rewrite leb_byte_arith by done. cbn [getleb_from].
  rewrite getbits_bits_of by (destruct cont; cbn; lia).
  assert ((b2z cont * 128 + g) .& 0x7f = g) as ->.
  { change 0x7f with (2 ^ 7 - 1). rewrite land_ones_mod by lia. change (2 ^ 7) with 128.
    rewrite Z.add_comm, Z.mod_add, Z.mod_small by lia. done. }
  assert (((b2z cont * 128 + g) .& 0x80 =? 0) = negb cont) as ->.
  { destruct cont; [apply Z.eqb_neq|apply Z.eqb_eq]; cbn [b2z].
    - intros E. apply (f_equal (fun z => Z.testbit z 7)) in E.
      rewrite Z.land_spec, Z.bits_0 in E. change (Z.testbit 0x80 7) with true in E.
      rewrite andb_true_r, Z.testbit_eqb in E by lia. change (2 ^ 7) with 128 in E.
      apply Z.eqb_neq in E. apply E. Z.to_euclidean_division_equations; lia.
    - rewrite Z.mul_0_l, Z.add_0_l, Z.land_comm. exact (land_shiftl_low 1 g 7 ltac:(lia) ltac:(lia)). }
  assert (0 < 2 ^ sh) by (apply Z.pow_pos_nonneg; lia).
  assert (2 ^ sh * 128 <= 2 ^ 63).
  { change 128 with (2 ^ 7). rewrite <- Z.pow_add_r by lia. apply Z.pow_le_mono_r; lia. }
  assert (u .| u64 (g .<< sh) = u + g * 2 ^ sh) as ->.
  { rewrite u64_small by (rewrite Z.shiftl_mul_pow2 by lia; change (2 ^ 63) with 0x8000000000000000 in *; nia).
    rewrite Z.lor_comm, lor_shiftl_add by lia. lia. }
  rewrite (proj2 (Z.ltb_ge 63 (sh + 7))) by lia. rewrite orb_false_r.
  destruct cont; cbn [negb orb]; [|done]. destruct rest; [by specialize (Hrest eq_refl)|done].
Qed.

(** The groups of [zz] and the number of bytes the encoder emits for it. *)
Definition group (zz : Z) (k : Z) : Z := (zz / 128 ^ k) mod 128.
Lemma group_range zz k : 0 <= group zz k < 128.
Proof. apply Z.mod_pos_bound. lia. Qed.
Lemma slice_group zz k : 0 <= k -> slice zz (7 * k) 7 = group zz k.
Proof. intros. rewrite slice_arith by lia. unfold group. change 128 with (2 ^ 7). by rewrite <- Z.pow_mul_r by lia. Qed.
Lemma slice_top zz : 0 <= zz < 2 ^ 33 -> slice zz 28 5 = group zz 4.
Proof. intros. rewrite slice_arith by lia. unfold group. Z.to_euclidean_division_equations; lia. Qed.

Definition wleb_sum (zz nb : Z) : Z :=
  let B k := leb_byte (k + 1 <? nb) (group zz k) in
  B 0 + (B 1 + (B 2 + (B 3 + B 4 * 256) * 256) * 256) * 256.
Lemma leb_byte_range c g : 0 <= g < 128 -> 0 <= leb_byte c g < 256.
Proof. intros. rewrite leb_byte_arith by done. destruct c; cbn; lia. Qed.

Lemma lor_bytes x y k : 0 <= k -> 0 <= y < 256 -> (x .<< (k + 8)) .| (y .<< k) = (x * 256 + y) .<< k.
Proof.
  intros. rewrite Z.add_comm, <- Z.shiftl_shiftl, <- Z.shiftl_lor by lia.
  by rewrite lor_shiftl_add by lia.
Qed.

Lemma w_nb_range zz : 1 <= w_nb zz <= 5.
Proof. unfold w_nb. repeat case_test; lia. Qed.
Lemma w_leb_sum zz : 0 <= zz < 2 ^ 33 -> w_leb zz = wleb_sum zz (w_nb zz).
Proof.
  intros Hz. unfold w_leb, wleb_sum. cbn zeta. set (nb := w_nb zz).
  rewrite slice_top by done.
  change (slice zz 21 7) with (slice zz (7 * 3) 7). change (slice zz 14 7) with (slice zz (7 * 2) 7).
  change (slice zz 7 7) with (slice zz (7 * 1) 7). change (slice zz 0 7) with (slice zz (7 * 0) 7).
  rewrite !slice_group by lia.
  assert ((4 + 1 <? nb) = false) as -> by (apply Z.ltb_ge; pose proof (w_nb_range zz); unfold nb; lia).
  change (3 + 1) with 4. change (2 + 1) with 3. change (1 + 1) with 2. change (0 + 1) with 1.
  pose proof (leb_byte_range (4 <? nb) (group zz 3) (group_range zz 3)).
  pose proof (leb_byte_range (3 <? nb) (group zz 2) (group_range zz 2)).
  pose proof (leb_byte_range (2 <? nb) (group zz 1) (group_range zz 1)).
  pose proof (leb_byte_range (1 <? nb) (group zz 0) (group_range zz 0)).
  generalize dependent (leb_byte (4 <? nb) (group zz 3)). generalize dependent (leb_byte (3 <? nb) (group zz 2)).
  generalize dependent (leb_byte (2 <? nb) (group zz 1)). generalize dependent (leb_byte (1 <? nb) (group zz 0)).
  generalize (leb_byte false (group zz 4)). intros b4 b0 H0 b1 H1 b2 H2 b3 H3.
  change 32 with (24 + 8). rewrite (lor_bytes b4 b3 24) by lia.
  change 24 with (16 + 8). rewrite (lor_bytes _ b2 16) by lia.
  change 16 with (8 + 8). rewrite (lor_bytes _ b1 8) by lia.
  rewrite lor_shiftl_add by lia. change (2 ^ 8) with 256. lia.
Qed.
Lemma w_nb_spec zz : 0 <= zz < 2 ^ 33 -> 128 ^ (w_nb zz - 1) <= zz \/ w_nb zz = 1.
Proof.
  intros Hz. unfold w_nb. rewrite slice_top by done.
  change (slice zz 21 7) with (slice zz (7 * 3) 7). change (slice zz 14 7) with (slice zz (7 * 2) 7).
  change (slice zz 7 7) with (slice zz (7 * 1) 7). rewrite !slice_group by lia. unfold group.
  change (128 ^ 4) with 268435456. change (128 ^ 3) with 2097152.
  change (128 ^ 2) with 16384. change (128 ^ 1) with 128.
  repeat case_test; bool_props; (by right) ||
    (left; match goal with |- ?p <= _ => let v := eval vm_compute in p in change p with v end;
     Z.to_euclidean_division_equations; lia).
Qed.
Lemma w_nb_bound zz : 0 <= zz < 2 ^ 33 -> zz < 128 ^ w_nb zz.
Proof.
  intros Hz. unfold w_nb. rewrite slice_top by done.
  change (slice zz 21 7) with (slice zz (7 * 3) 7). change (slice zz 14 7) with (slice zz (7 * 2) 7).
  change (slice zz 7 7) with (slice zz (7 * 1) 7). rewrite !slice_group by lia. unfold group.
  change (128 ^ 5) with 34359738368. change (128 ^ 4) with 268435456. change (128 ^ 3) with 2097152.
  change (128 ^ 2) with 16384. change (128 ^ 1) with 128.
  repeat case_test; bool_props; cbn; Z.to_euclidean_division_equations; lia.
Qed.


(** The byte string of a [nb]-byte LEB128 number. *)
Fixpoint leb_spec (nb : nat) (zz : Z) : list bool :=
  match nb with
  | O => []
  | S k => bits_of (leb_byte (negb (k =? 0)%nat) (zz mod 128)) 8 ++ leb_spec k (zz / 128)
  end.
Lemma getleb_spec f nb u sh zz rest :
  (0 < nb <= f)%nat -> 0 <= sh -> sh + 7 * Z.of_nat nb <= 63 -> 0 <= u < 2 ^ sh ->
  0 <= zz < 128 ^ Z.of_nat nb ->
  getleb_from f u sh (leb_spec nb zz ++ rest) = (u + zz * 2 ^ sh, rest).
Proof.
  revert f u sh zz; induction nb as [|nb IH]; intros [|f] u sh zz Hnb Hsh Hsh' Hu Hz; try lia.
  cbn [leb_spec]. rewrite <- app_assoc.
  assert (0 < 2 ^ sh) by (apply Z.pow_pos_nonneg; lia).
  pose proof (Z.mod_pos_bound zz 128 ltac:(lia)).
  rewrite getleb_step; try lia.
  2: { intros E. destruct nb; [done|]. cbn [leb_spec]. rewrite <- app_assoc. intros E2%(f_equal length).
       rewrite length_app, length_bits_of in E2. cbn in E2. lia. }
  destruct nb as [|nb]; cbn [Nat.eqb negb].
  - change (128 ^ Z.of_nat 1) with 128 in Hz. rewrite Z.mod_small by lia. done.
  - rewrite Nat2Z.inj_succ, Z.pow_succ_r in Hz by lia.
    rewrite IH; try lia.
    + f_equal. rewrite Z.pow_add_r by lia. change (2 ^ 7) with 128.
      pose proof (Z.div_mod zz 128 ltac:(lia)). nia.
    + rewrite Z.pow_add_r by lia. change (2 ^ 7) with 128. nia.
    + split; [apply Z.div_pos; lia|apply Z.div_lt_upper_bound; lia].
Qed.

(** The encoder's five-byte word, least significant group first. *)
Fixpoint wsum (fuel : nat) (nb zz : Z) : Z :=
  match fuel with
  | O => 0
  | S k => leb_byte (1 <? nb) (zz mod 128) + wsum k (nb - 1) (zz / 128) * 256
  end.
Lemma wleb_sum_wsum zz nb : nb <= 5 -> wleb_sum zz nb = wsum 5 nb zz.
Proof.
  intros Hnb. unfold wleb_sum. cbn [wsum]. rewrite Z.mul_0_l, Z.add_0_r.
  rewrite !Z.div_div by lia. unfold group. cbn zeta.
  change (128 ^ 0) with 1. rewrite Z.div_1_r. change (128 ^ 1) with 128.
  change (128 ^ 2) with (128 * 128). change (128 ^ 3) with (128 * (128 * 128)).
  change (128 ^ 4) with (128 * (128 * (128 * 128))).
  assert (forall k, (k + 1 <? nb) = (1 <? nb - k)) as E by (intros; apply eq_bool_prop_intro; rewrite !Is_true_true, !Z.ltb_lt; lia).
  rewrite !E, Z.sub_0_r, <- !Z.sub_add_distr. reflexivity.
Qed.
Lemma bits_of_wsum fuel nb zz :
  (nb <= fuel)%nat -> bits_of (wsum fuel (Z.of_nat nb) zz) (8 * nb) = leb_spec nb zz.
Proof.
  revert nb zz; induction fuel as [|fuel IH]; intros [|nb] zz Hnb; try lia; try done.
  replace (8 * S nb)%nat with (8 + 8 * nb)%nat by lia. cbn [wsum leb_spec].
  change 256 with (2 ^ Z.of_nat 8). rewrite bits_of_app by (apply leb_byte_range, Z.mod_pos_bound; lia).
  replace (Z.of_nat (S nb) - 1) with (Z.of_nat nb) by lia. rewrite IH by lia.
  replace (1 <? Z.of_nat (S nb)) with (negb (nb =? 0)%nat); [done|].
  destruct (Nat.eqb_spec nb 0) as [->|]; [done|]. symmetry. apply Z.ltb_lt. lia.
Qed.
Lemma bits_of_w_leb zz :
  0 <= zz < 2 ^ 33 -> bits_of (w_leb zz) (8 * Z.to_nat (w_nb zz)) = leb_spec (Z.to_nat (w_nb zz)) zz.
Proof.
  intros Hz. pose proof (w_nb_range zz).
  rewrite w_leb_sum, wleb_sum_wsum by (done || lia).
  rewrite <- (Z2Nat.id (w_nb zz)) at 1 by lia. apply bits_of_wsum. lia.
Qed.
Lemma getleb_w_leb zz rest :
  0 <= zz < 2 ^ 33 -> getleb (bits_of (w_leb zz) (8 * Z.to_nat (w_nb zz)) ++ rest) = (zz, rest).
Proof.
  intros Hz. rewrite bits_of_w_leb by done. pose proof (w_nb_range zz). pose proof (w_nb_bound zz Hz).
  unfold getleb. rewrite getleb_spec by (rewrite ?Z2Nat.id by lia; lia).
  f_equal. lia.
Qed.

(** ** Zigzag *)

Lemma w_zz_spec d : 0 <= d < 2 ^ 32 -> w_zz d = if d <? 2 ^ 31 then 2 * d else 2 ^ 33 - 1 - 2 * d.
Proof.
  intros Hd. unfold w_zz. rewrite Z.testbit_eqb by lia. rewrite Z.shiftl_mul_pow2 by lia. change (2 ^ 1) with 2.
  case_test; bool_props.
  - rewrite (proj2 (Z.ltb_ge d (2 ^ 31))) by word_lia.
    replace (d * 2) with (Z.land (d * 2) (Z.ones 33)) by (rewrite Z.land_ones by lia; apply Z.mod_small; lia).
    change (2 ^ 33 - 1) with (Z.ones 33) at 1.
    replace (Z.lxor (Z.land (d * 2) (Z.ones 33)) (Z.ones 33)) with (Z.ldiff (Z.ones 33) (d * 2)).
    + rewrite <- Z.sub_nocarry_ldiff; [rewrite Z.ones_equiv; lia|].
      apply Z.bits_inj'. intros i Hi. rewrite Z.ldiff_spec, Z.bits_0.
      destruct (decide (i < 33)); [by rewrite Z.ones_spec_low, andb_false_r by lia|].
      by rewrite (testbit_above _ 33) by lia.
    + apply Z.bits_inj'. intros i Hi. rewrite Z.ldiff_spec, Z.lxor_spec, Z.land_spec.
      by destruct (Z.testbit (d * 2) i), (Z.testbit (Z.ones 33) i).
  - rewrite Z.lxor_0_r. rewrite (proj2 (Z.ltb_lt d (2 ^ 31))) by word_lia. lia.
Qed.
Lemma w_zz_range d : 0 <= d < 2 ^ 32 -> 0 <= w_zz d < 2 ^ 33.
Proof. intros. rewrite w_zz_spec by done. case_test; bool_props; lia. Qed.
Lemma unzigzag_w_zz d : 0 <= d < 2 ^ 32 -> u32 (unzigzag (w_zz d)) = d.
Proof.
  intros Hd. rewrite w_zz_spec by done. unfold unzigzag. rewrite Z.bit0_odd.
  destruct (d <? 2 ^ 31) eqn:Hlt; bool_props.
  - rewrite Z.odd_mul. change (Z.odd 2) with false. cbn [andb]. rewrite Z.shiftr_div_pow2 by lia. word_lia.
  - replace (2 ^ 33 - 1 - 2 * d) with (1 + 2 * (2 ^ 32 - 1 - d)) by lia. rewrite Z.odd_add_mul_2.
    change (Z.odd 1) with true. cbv iota.
    rewrite u64_small by lia. rewrite Z.shiftr_div_pow2 by lia. word_lia.
Qed.

(** ** One code at a time *)

Lemma w_d_range l pc : 0 <= w_d l pc < 2 ^ 32.
Proof. apply u32_range. Qed.
Lemma w_d_add l pc : is_u 32 pc -> u32 (l + 4 + w_d l pc) = pc.
Proof. unfold w_d. word_lia. Qed.
Lemma code_bits_seed pc : code_bits None pc = bits_of pc 32.
Proof. done. Qed.
Lemma code_bits_next l pc :
  code_bits (Some l) pc =
  if w_d l pc =? 0 then [true]
  else false :: bits_of (w_leb (w_zz (w_d l pc))) (8 * Z.to_nat (w_nb (w_zz (w_d l pc)))).
Proof.
  unfold code_bits, w_code. case_test; [done|]. rewrite bits_of_S.
  rewrite Z.shiftl_mul_pow2 by lia. change (2 ^ 1) with 2. rewrite Z.div_mul by lia.
  by rewrite Z.bit0_odd, Z.odd_mul, andb_false_r.
Qed.
(** One round of the decoder reads back one code. *)
Lemma decode_loop_step n l pc rest :
  is_u 32 pc -> decode_loop (S n) l (code_bits (Some l) pc ++ rest) = pc :: decode_loop n pc rest.
Proof.
  intros Hpc. rewrite code_bits_next. pose proof (w_d_add l pc Hpc) as Hd.
  pose proof (w_d_range l pc) as Hr. case_test; bool_props.
  - cbn [app decode_loop]. rewrite E, Z.add_0_r in Hd. by rewrite Hd.
  - cbn [app decode_loop]. rewrite getleb_w_leb by (apply w_zz_range; done).
    pose proof (unzigzag_w_zz _ Hr) as Hz.
    replace (u32 (l + 4 + unzigzag (w_zz (w_d l pc)))) with pc; [done|].
    etransitivity; [exact (eq_sym Hd)|]. rewrite <- Hz at 1. unfold u32. apply Zplus_mod_idemp_r.
Qed.
Lemma decode_loop_codes l pcs rest :
  Forall (is_u 32) pcs -> decode_loop (length pcs) l (encode_from (Some l) pcs ++ rest) = pcs.
Proof.
  intros H. revert l; induction H as [|pc t Hpc _ IH]; intros l; [done|].
  cbn [length encode_from]. rewrite <- app_assoc, decode_loop_step by done. by rewrite IH.
Qed.
Lemma decode_seed pc (t : list Z) rest :
  is_u 32 pc -> decode (S (length t)) (bits_of pc 32 ++ rest) = pc :: decode_loop (length t) pc rest.
Proof.
  intros Hpc. unfold decode. rewrite length_app, length_bits_of.
  rewrite (proj2 (Nat.leb_le _ _)), (proj2 (Nat.ltb_lt _ _)) by lia. cbn [andb].
  rewrite getbits_bits_of by done. do 2 f_equal; lia.
Qed.
Lemma decode_encode pcs rest : Forall (is_u 32) pcs -> decode (length pcs) (encode pcs ++ rest) = pcs.
Proof.
  destruct 1 as [|pc t Hpc Ht]; [unfold decode; cbn [length Nat.ltb Nat.leb]; by rewrite andb_false_r|].
  unfold encode. cbn [encode_from length]. rewrite code_bits_seed, <- app_assoc, decode_seed by done.
  by rewrite decode_loop_codes.
Qed.

(** A truncated stream loses at most its last code: [dec] is a prefix of the
    reference followed by at most one record. *)
Definition prefix_but_one (dec pcs : list Z) : Prop :=
  exists k junk, dec = firstn k pcs ++ junk /\ (length junk <= 1)%nat /\ (k + length junk <= length pcs)%nat.
Lemma prefix_but_one_cons pc dec pcs : prefix_but_one dec pcs -> prefix_but_one (pc :: dec) (pc :: pcs).
Proof. intros (k & junk & -> & Hj & Hk). exists (S k), junk. cbn. split; [done|]. lia. Qed.

Lemma decode_loop_nil n pc : decode_loop n pc [] = [].
Proof. by destruct n. Qed.
Lemma getbits_from_short v i nb s : (length s <= nb)%nat -> snd (getbits_from v i nb s) = [].
Proof.
  revert v i nb; induction s as [|b s IH]; intros v i [|nb] Hs; cbn in *; try done; try lia.
  apply IH. lia.
Qed.
Lemma getleb_from_short f u sh s : (length s <= 8)%nat -> snd (getleb_from (S f) u sh s) = [].
Proof.
  intros Hs. cbn [getleb_from]. pose proof (getbits_from_short 0 0 8 s Hs) as E.
  change (getbits_from 0 0 8 s) with (getbits 8 s) in E.
  destruct (getbits 8 s) as [by8 s']; cbn in E; subst s'. by rewrite orb_true_r.
Qed.
Lemma length_leb_spec nb zz : length (leb_spec nb zz) = (8 * nb)%nat.
Proof.
  revert zz; induction nb as [|nb IH]; intros zz; [done|].
  cbn [leb_spec]. rewrite length_app, length_bits_of, IH. lia.
Qed.
(** A LEB128 number cut short consumes what is left of the stream. *)
Lemma getleb_spec_short f nb u sh zz k :
  (nb <= f)%nat -> (k < 8 * nb)%nat -> 0 <= sh -> sh + 7 * Z.of_nat nb <= 63 -> 0 <= u < 2 ^ sh ->
  snd (getleb_from f u sh (firstn k (leb_spec nb zz))) = [].
Proof.
  revert f u sh zz k; induction nb as [|nb IH]; intros [|f] u sh zz k Hf Hk Hsh Hsh' Hu; try lia.
  destruct (decide (k <= 8)%nat) as [Hk8|Hk8].
  { apply getleb_from_short. rewrite length_firstn. lia. }
  destruct nb as [|nb]; [lia|].
  cbn [leb_spec Nat.eqb negb]. rewrite firstn_app, length_bits_of, firstn_all2 by (rewrite length_bits_of; lia).
  pose proof (Z.mod_pos_bound zz 128 ltac:(lia)). assert (0 < 2 ^ sh) by (apply Z.pow_pos_nonneg; lia).
  change (bits_of (leb_byte _ _) 8 ++ leb_spec nb (zz / 128 / 128)) with (leb_spec (S nb) (zz / 128)).
  rewrite getleb_step; try lia.
  - apply IH; try lia. rewrite Z.pow_add_r by lia. change (2 ^ 7) with 128. nia.
  - intros _ E%(f_equal length). rewrite length_firstn, length_leb_spec in E. cbn [length] in E. lia.
Qed.

Lemma decode_loop_prefix l pcs k :
  Forall (is_u 32) pcs ->
  prefix_but_one (decode_loop (length pcs) l (firstn k (encode_from (Some l) pcs))) pcs.
Proof.
  intros H. revert l k; induction H as [|pc t Hpc _ IH]; intros l k.
  { exists 0%nat, []. cbn. split; [done|]. lia. }
  cbn [encode_from length]. rewrite firstn_app.
  destruct (decide (length (code_bits (Some l) pc) <= k)%nat) as [Hk|Hk].
  - rewrite firstn_all2 by done. rewrite decode_loop_step by done. apply prefix_but_one_cons, IH.
  - replace (k - _)%nat with 0%nat by lia. cbn [firstn]. rewrite app_nil_r. clear IH.
    destruct k as [|k]; [exists 0%nat, []; cbn; split; [done|]; lia|].
    rewrite code_bits_next in *. pose proof (w_zz_range _ (w_d_range l pc)) as Hz.
    case_test; cbn [length] in Hk; [lia|]. cbn [firstn decode_loop].
    rewrite bits_of_w_leb in * by done. rewrite length_leb_spec in Hk.
    pose proof (w_nb_range (w_zz (w_d l pc))) as Hn.
    pose proof (getleb_spec_short 10 (Z.to_nat (w_nb (w_zz (w_d l pc)))) 0 0 (w_zz (w_d l pc)) k
      ltac:(lia) ltac:(lia) ltac:(lia) ltac:(lia) ltac:(lia)) as E0.
    unfold getleb. destruct (getleb_from _ _ _ _) as [zz s']. cbn in E0. subst s'.
    rewrite decode_loop_nil. eexists 0%nat, [_]. cbn. split; [done|]. lia.
Qed.
Lemma decode_prefix pcs k :
  Forall (is_u 32) pcs -> prefix_but_one (decode (length pcs) (firstn k (encode pcs))) pcs.
Proof.
  destruct 1 as [|pc t Hpc Ht].
  { exists 0%nat, []. unfold decode. cbn [length Nat.ltb Nat.leb]. rewrite andb_false_r. split; [done|]. cbn. lia. }
  destruct (decide (32 <= k)%nat) as [Hk|Hk].
  - unfold encode. cbn [encode_from length]. rewrite code_bits_seed, firstn_app, length_bits_of.
    rewrite firstn_all2 by (rewrite length_bits_of; lia). rewrite decode_seed by done.
    by apply prefix_but_one_cons, decode_loop_prefix.
  - exists 0%nat, []. unfold decode. rewrite (proj2 (Nat.leb_gt _ _)) by (rewrite length_firstn; lia).
    split; [done|]. cbn. lia.
Qed.

(** The reference length only bounds how far the decoder goes. *)
Lemma decode_loop_take j n pc s : (j <= n)%nat -> decode_loop j pc s = take j (decode_loop n pc s).
Proof.
  revert n pc s; induction j as [|j IH]; intros [|n] pc s Hj; try done; [lia|].
  cbn [decode_loop]. destruct s as [|[|] s]; [done|cbn [take]; f_equal; apply IH; lia|].
  destruct (getleb s) as [zz s']. cbn [take]. f_equal. apply IH. lia.
Qed.
Lemma decode_take j n s : (j <= n)%nat -> decode j s = take j (decode n s).
Proof.
  intros Hj. unfold decode. destruct (32 <=? length s)%nat; cbn [andb]; [|by rewrite take_nil].
  destruct j as [|j]; [done|]. destruct n as [|n]; [lia|]. change (0 <? S j)%nat with true. change (0 <? S n)%nat with true.
  cbv iota. destruct (getbits 32 s) as [pc t]. rewrite !Nat.sub_succ, !Nat.sub_0_r.
  cbn [take]. f_equal. apply decode_loop_take. lia.
Qed.
Lemma prefix_but_one_take j dec pcs : prefix_but_one dec pcs -> prefix_but_one (take j dec) (take j pcs).
Proof.
  intros (k & junk & -> & Hj & Hk). destruct (decide (j <= k)%nat) as [H|H].
  - exists j, []. rewrite take_app_le by (rewrite length_take; lia). rewrite take_take, Nat.min_l, app_nil_r by lia.
    rewrite take_take, Nat.min_id. rewrite length_take. cbn [length]. split; [done|]. lia.
  - exists k, (take (j - k) junk). rewrite take_app, length_take, Nat.min_l by lia.
    rewrite (take_ge (take k pcs)) by (rewrite length_take; lia). rewrite take_take, Nat.min_l by lia.
    rewrite !length_take. split; [done|]. lia.
Qed.

Lemma count_mism_refl ref rest : count_mism ref (ref ++ rest) = (length ref, 0%nat).
Proof.
  induction ref as [|r ref IH]; [by destruct rest|]. cbn [app count_mism]. rewrite IH, Z.eqb_refl. done.
Qed.
Lemma count_mism_prefix dec pcs : prefix_but_one dec pcs -> (snd (count_mism dec pcs) <= 1)%nat.
Proof.
  intros (k & junk & -> & Hj & Hk). revert pcs Hk; induction k as [|k IH]; intros pcs Hk.
  - cbn [firstn app]. destruct junk as [|d [|]]; cbn in Hj; try lia; [by destruct pcs|].
    destruct pcs as [|p pcs]; cbn; [lia|]. destruct (d =? p); cbn; lia.
  - destruct pcs as [|p pcs]; cbn [firstn app length] in *; [lia|].
    cbn [count_mism]. specialize (IH pcs ltac:(lia)). rewrite Z.eqb_refl.
    by destruct (count_mism (firstn k pcs ++ junk) pcs).
Qed.

(** ** The packer emits the code stream *)

Lemma is_u_bits_lor a b n m :
  is_u (Z.of_nat n) a -> is_u (Z.of_nat m) b ->
  a .| (b .<< Z.of_nat n) = a + b * 2 ^ Z.of_nat n /\ is_u (Z.of_nat (n + m)) (a + b * 2 ^ Z.of_nat n).
Proof.
  unfold is_u. intros Ha Hb. rewrite Z.lor_comm, lor_shiftl_add by lia. split; [lia|].
  rewrite Nat2Z.inj_add, Z.pow_add_r by lia. nia.
Qed.
Lemma wsum_bound fuel nb zz :
  0 <= zz < 128 ^ Z.max nb 0 -> 0 <= wsum fuel nb zz < 256 ^ Z.max nb 0.
Proof.
  revert nb zz; induction fuel as [|fuel IH]; intros nb zz Hz; cbn [wsum].
  { pose proof (Z.pow_pos_nonneg 256 (Z.max nb 0)). lia. }
  destruct (decide (nb <= 0)) as [Hn|Hn].
  - rewrite Z.max_r in * by lia. change (128 ^ 0) with 1 in Hz. assert (zz = 0) as -> by lia.
    specialize (IH (nb - 1) 0). rewrite Z.max_r in IH by lia. specialize (IH ltac:(by vm_compute)).
    rewrite (proj2 (Z.ltb_ge 1 nb)) by lia. change (256 ^ 0) with 1 in *.
    change (0 / 128) with 0. change (leb_byte false (0 mod 128)) with 0. lia.
  - specialize (IH (nb - 1) (zz / 128)). rewrite !Z.max_l in * by lia.
    assert (forall b, b ^ nb = b * b ^ (nb - 1)) as Hpow by (intros; rewrite <- Z.pow_succ_r by lia; f_equal; lia).
    rewrite Hpow in Hz |- *.
    pose proof (leb_byte_range (1 <? nb) (zz mod 128) ltac:(apply Z.mod_pos_bound; lia)).
    specialize (IH ltac:(split; [apply Z.div_pos; lia|apply Z.div_lt_upper_bound; lia])). lia.
Qed.
Lemma w_code_fits last pc :
  is_u 32 pc -> is_u (Z.of_nat (snd (w_code last pc))) (fst (w_code last pc)) /\ (snd (w_code last pc) <= 41)%nat.
Proof.
  intros Hpc. destruct last as [l|]; cbn [w_code]; [|cbn; split; [done|lia]].
  case_test; [cbn; split; [by vm_compute|lia]|]. cbn [fst snd].
  pose proof (w_zz_range _ (w_d_range l pc)) as Hz. set (zz := w_zz (w_d l pc)) in *.
  pose proof (w_nb_range zz) as Hr. pose proof (w_nb_bound zz Hz) as Hb. split; [|lia].
  rewrite w_leb_sum, wleb_sum_wsum by (done || lia).
  pose proof (wsum_bound 5 (w_nb zz) zz ltac:(rewrite Z.max_l; lia)) as Hs. rewrite Z.max_l in Hs by lia.
  rewrite Z.shiftl_mul_pow2 by lia. unfold is_u. rewrite Nat2Z.inj_succ, Z.pow_succ_r by lia.
  replace (Z.of_nat (8 * Z.to_nat (w_nb zz))) with (8 * w_nb zz) by lia.
  rewrite Z.pow_mul_r by lia. change (2 ^ 8) with 256. lia.
Qed.

Definition opt_bits (last u : option Z) : list bool :=
  match u with Some pc => code_bits last pc | None => [] end.
Definition opt_last (last u : option Z) : option Z :=
  match u with Some pc => Some pc | None => last end.
Definition opt_list (u : option Z) : list Z := match u with Some pc => [pc] | None => [] end.
Lemma encode_from_opt last u rest :
  encode_from last (opt_list u ++ rest) = opt_bits last u ++ encode_from (opt_last last u) rest.
Proof. by destruct u. Qed.

Lemma w_append_spec last u0 u1 app len last' :
  Forall (is_u 32) (opt_list u0 ++ opt_list u1) ->
  w_append last u0 u1 = (app, len, last') ->
  bits_of app len = encode_from last (opt_list u0 ++ opt_list u1) /\
  is_u (Z.of_nat len) app /\ (len <= 82)%nat /\ last' = opt_last (opt_last last u0) u1.
Proof.
  intros [H0 H1]%Forall_app.
  assert (forall last u, Forall (is_u 32) (opt_list u) ->
    exists c n, (match u with Some pc => w_code last pc | None => (0, 0%nat) end) = (c, n) /\
      bits_of c n = opt_bits last u /\ is_u (Z.of_nat n) c /\ (n <= 41)%nat) as Hopt.
  { intros l [pc|] Hu; [|exists 0, 0%nat; split_and!; (done || lia || by vm_compute)].
    inversion_clear Hu as [|? ? Hpc _]. pose proof (w_code_fits l pc Hpc) as [? ?].
    exists (fst (w_code l pc)), (snd (w_code l pc)). unfold opt_bits, code_bits.
    destruct (w_code l pc). by split_and!. }
  unfold w_append. destruct (Hopt last u0 H0) as (c0 & n0 & -> & B0 & F0 & L0).
  change (match u0 with Some pc => Some pc | None => last end) with (opt_last last u0).
  destruct (Hopt (opt_last last u0) u1 H1) as (c1 & n1 & -> & B1 & F1 & L1).
  intros [= <- <- <-]. destruct (is_u_bits_lor c0 c1 n0 n1 F0 F1) as [E F].
  rewrite Z.lor_comm, E. split; [|split; [done|split; [lia|by destruct u1]]].
  rewrite bits_of_app by done. rewrite encode_from_opt, B0, B1.
  rewrite <- (app_nil_r (opt_list u1)), encode_from_opt. cbn [encode_from]. by rewrite app_nil_r.
Qed.

Definition beat_bits (beats : list Z) : list bool := concat (map (fun b => bits_of b 128) beats).

Lemma pack_step_spec acc n app len beat acc' n' :
  is_u (Z.of_nat n) acc -> is_u (Z.of_nat len) app -> (n < 128)%nat -> (len <= 82)%nat ->
  pack_step acc n app len = (beat, acc', n') ->
  beat_bits (opt_list beat) ++ bits_of acc' n' = bits_of acc n ++ bits_of app len /\
  is_u (Z.of_nat n') acc' /\ (n' < 128)%nat /\ Forall (is_u 128) (opt_list beat).
Proof.
  intros Ha Hb Hn Hl. unfold pack_step. destruct (is_u_bits_lor acc app n len Ha Hb) as [-> F].
  rewrite <- bits_of_app by done. set (m := acc + app * 2 ^ Z.of_nat n) in *. clearbody m.
  destruct (128 <=? n + len)%nat eqn:E; intros [= <- <- <-]; [|apply Nat.leb_gt in E; by split_and!].
  apply Nat.leb_le in E. rewrite land_ones_mod, Z.shiftr_div_pow2 by lia.
  unfold is_u in *. pose proof (Z.mod_pos_bound m (2 ^ 128) ltac:(lia)).
  split_and!; [|apply Z.div_pos; lia| |lia|by apply Forall_singleton].
  - unfold beat_bits; cbn [opt_list map concat]. rewrite app_nil_r.
    rewrite <- bits_of_app by done. replace (128 + (n + len - 128))%nat with (n + len)%nat by lia.
    f_equal. change (Z.of_nat 128) with 128. pose proof (Z.div_mod m (2 ^ 128) ltac:(lia)). lia.
  - apply Z.div_lt_upper_bound; [lia|]. rewrite <- Z.pow_add_r by lia.
    replace (128 + Z.of_nat (n + len - 128)) with (Z.of_nat (n + len)) by lia. lia.
Qed.

Lemma encode_from_app l xs ys :
  encode_from l (xs ++ ys) = encode_from l xs ++ encode_from (match list.last xs with Some x => Some x | None => l end) ys.
Proof.
  revert l; induction xs as [|x xs IH]; intros l; [done|].
  cbn [app encode_from]. rewrite IH, app_assoc. f_equal. f_equal.
  destruct xs as [|y xs]; [done|]. change (list.last (x :: y :: xs)) with (list.last (y :: xs)).
  by destruct (list.last (y :: xs)) eqn:E; [|apply last_None in E].
Qed.
Lemma last_app_opt (xs : list Z) u : list.last (xs ++ opt_list u) = opt_last (list.last xs) u.
Proof. destruct u as [x|]; cbn; [by rewrite last_snoc|by rewrite app_nil_r]. Qed.

(** ** From beats to the ring and back *)

Lemma bits_of_le_bytes n c : bits_of c (8 * n) = concat (map (fun b => bits_of b 8) (le_bytes n c)).
Proof.
  revert c; induction n as [|n IH]; intros c; [done|]. cbn [le_bytes map concat]. rewrite <- IH.
  replace (8 * S n)%nat with (8 + 8 * n)%nat by lia.
  rewrite <- bits_of_app by (apply (Z.mod_pos_bound c 256); lia). f_equal.
  change (2 ^ Z.of_nat 8) with 256. pose proof (Z.div_mod c 256). lia.
Qed.
Lemma fun_seq_shift a n : seq a n = map (fun i => a + i)%nat (seq 0 n).
Proof.
  revert a; induction n as [|n IH]; intros a; [done|]. cbn [seq map]. f_equal; [lia|].
  rewrite (IH (S a)), (IH 1%nat), map_map. apply map_ext. intros; lia.
Qed.
Lemma ring_bits_bytes m n :
  ring_bits m n = concat (map (fun b => bits_of b 8) (mget_bytes m TRACE_BASE n)).
Proof.
  induction n as [|n IH]; [done|].
  assert (mget_bytes m TRACE_BASE (S n) = mget_bytes m TRACE_BASE n ++ [mget m (TRACE_BASE + Z.of_nat n)]) as ->.
  { clear IH. generalize TRACE_BASE as a. induction n as [|n IH]; intros a; [cbn; by rewrite Z.add_0_r|].
    change (mget_bytes m a (S (S n))) with (mget m a :: mget_bytes m (a + 1) (S n)).
    rewrite IH. cbn [mget_bytes app]. do 3 f_equal. f_equal. lia. }
  rewrite map_app, concat_app, <- IH. cbn [map concat]. rewrite app_nil_r.
  unfold ring_bits. replace (8 * S n)%nat with (8 * n + 8)%nat by lia.
  rewrite seq_app, map_app. f_equal. unfold bits_of.
  change (0 + 8 * n)%nat with (8 * n)%nat. rewrite (fun_seq_shift (8 * n) 8), map_map. apply map_ext_in. intros i Hi%in_seq.
  rewrite (Nat.add_comm (8 * n)), (Nat.mul_comm 8), Nat.Div0.mod_add, Nat.div_add, Nat.div_small, Nat.mod_small by lia.
  done.
Qed.
(** A ring whose bytes are those of [beats]. *)
Lemma ring_bits_beats m beats :
  mget_bytes m TRACE_BASE (16 * length beats) = concat (map (le_bytes 16) beats) ->
  ring_bits m (16 * length beats) = beat_bits beats.
Proof.
  intros E. rewrite ring_bits_bytes, E, concat_map, map_map. unfold beat_bits.
  clear E. induction beats as [|b t IH]; [done|]. cbn [map concat].
  rewrite concat_app, IH. f_equal. symmetry. apply (bits_of_le_bytes 16).
Qed.

(** ** Load records *)

Definition lv_ok (r : Z * Z * Z) : Prop :=
  let '(pc, val, addr) := r in is_u 32 pc /\ is_u 32 val /\ is_u 32 addr.
Lemma lv_beat_bytes r :
  lv_ok r -> le_bytes 16 (lv_beat r) =
    let '(pc, val, addr) := r in le_bytes 4 pc ++ le_bytes 4 val ++ le_bytes 4 addr ++ le_bytes 4 0.
Proof.
  destruct r as [[pc val] addr]. intros (Hp & Hv & Ha). unfold lv_beat, is_u in *.
  change 64 with (32 + 32). rewrite <- Z.shiftl_shiftl, <- Z.shiftl_lor, !lor_shiftl_add by lia.
  change 16%nat with (4 + (4 + (4 + 4)))%nat.
  rewrite (Z.add_comm _ pc), le_bytes_app by lia. f_equal.
  rewrite (Z.add_comm _ val), le_bytes_app by lia. f_equal.
  pose proof (le_bytes_app 4 4 addr 0 ltac:(exact Ha)) as E. by rewrite Z.mul_0_l, Z.add_0_r in E.
Qed.
Lemma lv_match_bytes m i r :
  mem_ok m -> lv_ok r ->
  mget_bytes m (TRACE_BASE + Z.of_nat i * 16) 16 = le_bytes 16 (lv_beat r) -> lv_match m i r = true.
Proof.
  intros Hm Hr E. rewrite lv_beat_bytes in E by done. destruct r as [[pc val] addr]. destruct Hr as (Hp & Hv & Ha).
  change 16%nat with (4 + (4 + (4 + 4)))%nat in E. rewrite !mget_bytes_app in E.
  apply app_inj_1 in E as [E0 E]; [|by rewrite length_mget_bytes, length_le_bytes].
  apply app_inj_1 in E as [E1 E]; [|by rewrite length_mget_bytes, length_le_bytes].
  apply app_inj_1 in E as [E2 _]; [|by rewrite length_mget_bytes, length_le_bytes].
  unfold lv_match, rd32. rewrite !le32_val by done.
  replace (TRACE_BASE + (Z.of_nat i * 16 + 4)) with (TRACE_BASE + Z.of_nat i * 16 + Z.of_nat 4) by lia.
  replace (TRACE_BASE + (Z.of_nat i * 16 + 8)) with (TRACE_BASE + Z.of_nat i * 16 + Z.of_nat 4 + Z.of_nat 4) by lia.
  rewrite E0, E1, E2.
  by rewrite !le_val_le_bytes, !Z.eqb_refl by done.
Qed.

(** ** Properties *)

(** C10.  The validating decoder inverts the hardware's delta/LEB128 code: for
    every sequence of 32-bit PCs (backward jumps, wrap-around and the
    sequential case included), whatever bits follow in the ring. *)
Theorem trace_codec_roundtrip (pcs : list Z) (rest : list bool) :
  Forall (is_u 32) pcs -> decode (length pcs) (encode pcs ++ rest) = pcs.
Proof. apply decode_encode. Qed.
Lemma trace_codec_roundtrip_witness :
  decode 4 (encode [0x400100; 0x400104; 0x400000; 0xfffffff0] ++ [true; false]) =
  [0x400100; 0x400104; 0x400000; 0xfffffff0].
Proof. apply (trace_codec_roundtrip [0x400100; 0x400104; 0x400000; 0xfffffff0]). repeat constructor; done. Defined.
