(* ===== verification/TraceEngine.v ===== *)
(** * TraceEngine: the clocked DRAM trace engine and its end-to-end check

    rtl/dram_trace.sv cycle by cycle: the registered append stage, the beat
    packer, the two-bank 64-beat FIFO that drops (and latches an overflow) when
    full, and the drain that stores one beat at a time into the reserved ring.
    The ring's memory holds a beat once its store is answered; nothing else
    writes the region, which the address map reserves.  The engine is in builds
    with ENABLE_DRAM_TRACE; user PCs only, as without TRACE_ALL_PC.  The harness
    side (capture, decode, comparison) is [TraceCodec]'s. *)
From S2P Require Import Prelude AddressMap GuestMem TraceCodec.

(** ** One clock of inputs *)

(** [ti_arm] is [~reset & arm]; [ti_rsp] is [trace_rsp_valid]. *)
Record tin := Tin { ti_arm : bool; ti_asid : Z; ti_r0 : retire; ti_r1 : retire; ti_rsp : bool }.
Definition w_user (f : filter_cfg) (i : tin) : option Z * option Z :=
  let sel r := if rtl_user f (ti_asid i) r then Some (u32 (rt_pc r)) else None in
  (sel (ti_r0 i), sel (ti_r1 i)).
(** [w_rN_ld] (the [loadval_mode] term is [ld_beats]'s caller). *)
Definition w_ld (f : filter_cfg) (asid : Z) (r : retire) : bool :=
  rtl_user f asid r && rt_reg_valid r && tb_is_load (rt_op r).
(** [(w_nld, w_ldA, w_ldB)] *)
Definition ld_beats (f : filter_cfg) (i : tin) : nat * Z * Z :=
  let ld0 := w_ld f (ti_asid i) (ti_r0 i) in
  let ld1 := w_ld f (ti_asid i) (ti_r1 i) in
  let b0 := lv_beat (lv_rec (ti_r0 i)) in
  let b1 := lv_beat (lv_rec (ti_r1 i)) in
  (((if ld0 then 1 else 0) + (if ld1 then 1 else 0))%nat, if ld0 then b0 else b1, b1).

(** ** Encode and pack *)

(** [r_last_pc]/[r_seeded], the registered append, the accumulator. *)
Record packer := Packer { pk_last : option Z; pk_app : Z; pk_len : nat; pk_acc : Z; pk_nbits : nat }.
Definition packer_init : packer := Packer None 0 0 0 0.
(** Stage 1 registers this cycle's append while stage 2 packs the one
    registered the cycle before; load mode holds the accumulator. *)
Definition packer_step (lv : bool) (p : packer) (u : option Z * option Z) : packer * option Z :=
  let '(app, len, last') := w_append (pk_last p) (fst u) (snd u) in
  let '(beat, acc', n') :=
    if lv then (None, pk_acc p, pk_nbits p) else pack_step (pk_acc p) (pk_nbits p) (pk_app p) (pk_len p) in
  (Packer last' app len acc' n', beat).

(** ** FIFO and drain *)

Definition FIFO_N : Z := 64.
Definition BANK_N : nat := 32.
Definition MAX_REQ_WAIT : Z := 2048.
(** [TRACE_SIZE] of rtl/henry_soc.sv. *)
Definition RING_SIZE : Z := 0x7000000.
(** A [FIFO_LG:0] counter. *)
Definition u7 (x : Z) : Z := x mod 128.
Record ring := Ring {
  q_b0 : list Z; q_b1 : list Z; q_wr : Z; q_rd : Z; q_ovf : bool;
  d_req : bool; d_woff : Z; d_bytes : Z; d_wait : Z }.
Definition ring_init : ring := Ring (replicate BANK_N 0) (replicate BANK_N 0) 0 0 false false 0 0 0.
Definition w_cnt (q : ring) : Z := u7 (q_wr q - q_rd q).
Definition w_room (q : ring) : Z := u7 (FIFO_N - w_cnt q).
Definition slot (s : Z) : nat := Z.to_nat ((s .>> 1) .& 31).
(** The beat of sequence number [s]: bank [s[0]], slot [s[5:1]]. *)
Definition fifo_at (b0 b1 : list Z) (s : Z) : Z := nth (slot s) (if Z.testbit s 0 then b1 else b0) 0.
Definition w_rd_data (q : ring) : Z := fifo_at (q_b0 q) (q_b1 q) (q_rd q).
(** The beats waiting, oldest first. *)
Definition fifo_beats (q : ring) : list Z :=
  map (fun k => fifo_at (q_b0 q) (q_b1 q) (u7 (q_rd q + Z.of_nat k))) (seq 0 (Z.to_nat (w_cnt q))).
(** Up to two beats enter: [(banks, n_wr, w_drop)]. *)
Definition fifo_push (q : ring) (n : nat) (A B : Z) : list Z * list Z * Z * bool :=
  let room := w_room q in
  let wA := (1 <=? n)%nat && (1 <=? room) in
  let wB := (n =? 2)%nat && (2 <=? room) in
  let drop := ((1 <=? n)%nat && (room <? 1)) || ((n =? 2)%nat && (room <? 2)) in
  let sA := q_wr q in
  let sB := u7 (q_wr q + 1) in
  let A0 := wA && negb (Z.testbit sA 0) in
  let B0 := wB && negb (Z.testbit sB 0) in
  let A1 := wA && Z.testbit sA 0 in
  let B1 := wB && Z.testbit sB 0 in
  let b0 := if A0 || B0 then <[slot (if A0 then sA else sB) := if A0 then A else B]> (q_b0 q) else q_b0 q in
  let b1 := if A1 || B1 then <[slot (if A1 then sA else sB) := if A1 then A else B]> (q_b1 q) else q_b1 q in
  (b0, b1, u7 (q_wr q + b2z wA + b2z wB), drop).
(** One clock of FIFO and drain; the answered store is in memory. *)
Definition ring_step (n : nat) (A B : Z) (rsp : bool) (s : ring * mem) : ring * mem :=
  let '(q, m) := s in
  let '(b0, b1, wr, drop) := fifo_push q n A B in
  let ovf := q_ovf q || drop in
  let wait := if d_req q && negb rsp
              then (if MAX_REQ_WAIT <=? d_wait q then d_wait q else d_wait q + 1) else 0 in
  if negb (d_req q) then (Ring b0 b1 wr (q_rd q) ovf (negb (w_cnt q =? 0)) (d_woff q) (d_bytes q) wait, m)
  else if rsp then
    (Ring b0 b1 wr (u7 (q_rd q + 1)) ovf false
       (if RING_SIZE <=? d_woff q + 16 then 0 else d_woff q + 16) (u32 (d_bytes q + 16)) wait,
     mput_bytes m (TRACE_BASE + d_woff q) (le_bytes 16 (w_rd_data q)))
  else (Ring b0 b1 wr (q_rd q) ovf true (d_woff q) (d_bytes q) wait, m).
(** [trace_stall]: high water, released when the drain is stuck. *)
Definition trace_stall (throttle_en : bool) (q : ring) : bool :=
  throttle_en && (FIFO_N - 16 <=? w_cnt q) && negb (MAX_REQ_WAIT <=? d_wait q).

(** ** The engine *)

Record engine := Engine { e_pk : packer; e_ring : ring }.
Definition engine_init : engine := Engine packer_init ring_init.
(** The beats the cycle offers to the FIFO. *)
Definition offered (f : filter_cfg) (lv : bool) (p : packer) (i : tin) : nat * Z * Z :=
  if lv then ld_beats f i
  else match snd (packer_step lv p (w_user f i)) with Some b => (1%nat, b, 0) | None => (0%nat, 0, 0) end.
Definition engine_step (f : filter_cfg) (lv : bool) (s : engine * mem) (i : tin) : engine * mem :=
  let '(e, m) := s in
  let '(n, A, B) := offered f lv (e_pk e) i in
  let '(q, m) := ring_step n A B (ti_rsp i) (e_ring e, m) in
  if ti_arm i then (Engine (fst (packer_step lv (e_pk e) (w_user f i))) q, m)
  else (Engine packer_init (Ring (q_b0 (e_ring e)) (q_b1 (e_ring e)) 0 0 false false 0 0 0), m).
Definition engine_run (f : filter_cfg) (lv : bool) (m : mem) (ins : list tin) : engine * mem :=
  fold_left (engine_step f lv) ins (engine_init, m).
(** The cycles since the engine was last armed. *)
Definition since_arm (ins : list tin) : list tin :=
  fold_left (fun t i => if ti_arm i then t ++ [i] else []) ins [].
(** The PCs and load records the engine is to record. *)
Definition user_pcs (f : filter_cfg) (ins : list tin) : list Z :=
  concat (map (fun i => opt_list (fst (w_user f i)) ++ opt_list (snd (w_user f i))) ins).
Definition user_lds (f : filter_cfg) (ins : list tin) : list (Z * Z * Z) :=
  concat (map (fun i => map lv_rec (List.filter (w_ld f (ti_asid i)) [ti_r0 i; ti_r1 i])) ins).

(** ** FIFO lemmas *)

Lemma u7_small x : 0 <= x < 128 -> u7 x = x.
Proof. apply Z.mod_small. Qed.
Lemma u7_u7_add a b : u7 (u7 a + b) = u7 (a + b).
Proof. apply Zplus_mod_idemp_l. Qed.
Lemma testbit_u7 (n : nat) : Z.testbit (u7 (Z.of_nat n)) 0 = Nat.odd n.
Proof.
  rewrite Z.bit0_odd. unfold u7. rewrite Z.mod_eq by lia. rewrite Z.odd_sub, Z.odd_mul. cbn [Z.odd andb].
  rewrite xorb_false_r. destruct (Nat.Even_or_Odd n) as [[k ->]|[k ->]].
  - rewrite Nat.odd_even, Nat2Z.inj_mul, Z.odd_mul. done.
  - rewrite Nat.odd_odd, Nat2Z.inj_add, Nat2Z.inj_mul, Z.odd_add, Z.odd_mul. done.
Qed.
Lemma slot_u7 (n : nat) : slot (u7 (Z.of_nat n)) = (n / 2 mod 32)%nat.
Proof.
  unfold slot, u7. change 31 with (2 ^ 5 - 1). rewrite land_ones_mod, Z.shiftr_div_pow2 by lia.
  change (2 ^ 1) with 2. change (2 ^ 5) with 32.
  assert (((Z.of_nat n mod 128) / 2) mod 32 = Z.of_nat (n / 2 mod 32)) as ->; [|by rewrite Nat2Z.id].
  change 128 with (2 * 64). rewrite Z.rem_mul_r by lia. rewrite (Z.mul_comm 2), Z.div_add by lia.
  rewrite (Z.div_small (_ mod 2)) by (apply Z.mod_pos_bound; lia). rewrite Z.add_0_l.
  change 64 with (32 * 2). rewrite Z.rem_mul_r by lia. rewrite (Z.mul_comm 32), Z.mod_add, Z.mod_mod by lia.
  by rewrite Nat2Z.inj_mod, Nat2Z.inj_div.
Qed.

(** [ps] are the beats pushed so far, [d] of them drained. *)
Record fifo_inv (ps : list Z) (d : nat) (b0 b1 : list Z) (wr rd : Z) : Prop := FifoInv {
  fi_le : (d <= length ps <= d + 64)%nat;
  fi_rd : rd = u7 (Z.of_nat d);
  fi_wr : wr = u7 (Z.of_nat (length ps));
  fi_b0 : length b0 = 32%nat;
  fi_b1 : length b1 = 32%nat;
  fi_at : forall n x, (d <= n)%nat -> ps !! n = Some x -> nth (n / 2 mod 32) (if Nat.odd n then b1 else b0) 0 = x }.
Lemma fifo_inv_cnt ps d b0 b1 wr rd :
  fifo_inv ps d b0 b1 wr rd -> u7 (wr - rd) = Z.of_nat (length ps - d).
Proof. intros [Hle -> -> _ _ _]. unfold u7. Z.to_euclidean_division_equations; lia. Qed.
Lemma nth_insert (l : list Z) i j x :
  (j < length l)%nat -> nth i (<[j := x]> l) 0 = if decide (i = j) then x else nth i l 0.
Proof.
  intros Hj. rewrite !nth_lookup. destruct (decide (i = j)) as [->|Hne].
  - by rewrite list_lookup_insert_eq.
  - by rewrite list_lookup_insert_ne.
Qed.
Lemma fifo_inv_pop ps d b0 b1 wr rd :
  fifo_inv ps d b0 b1 wr rd -> (d < length ps)%nat -> fifo_inv ps (S d) b0 b1 wr (u7 (rd + 1)).
Proof.
  intros [Hle -> -> ? ? Hat] Hd. constructor; try done; [lia| |intros n x Hn; apply Hat; lia].
  rewrite u7_u7_add. f_equal. lia.
Qed.
(** One write, to the bank and slot of [r_wr]. *)
Definition put (x : Z) (b0 b1 : list Z) (wr : Z) : list Z * list Z * Z :=
  (if Z.testbit wr 0 then b0 else <[slot wr := x]> b0, if Z.testbit wr 0 then <[slot wr := x]> b1 else b1, u7 (wr + 1)).
Lemma fifo_inv_put ps d b0 b1 wr rd x b0' b1' wr' :
  fifo_inv ps d b0 b1 wr rd -> (length ps < d + 64)%nat -> put x b0 b1 wr = (b0', b1', wr') ->
  fifo_inv (ps ++ [x]) d b0' b1' wr' rd.
Proof.
  intros [Hle -> -> L0 L1 Hat] Hr. unfold put. rewrite testbit_u7, slot_u7. set (N := length ps) in *. intros [= <- <- <-].
  assert (N / 2 mod 32 < 32)%nat by (apply Nat.mod_upper_bound; lia).
  constructor; try done.
  - rewrite length_app. cbn [length]. lia.
  - rewrite u7_u7_add, length_app. cbn [length]. f_equal. lia.
  - by destruct (Nat.odd N); rewrite ?length_insert.
  - by destruct (Nat.odd N); rewrite ?length_insert.
  - intros n y Hn [Hy|[Hy Hl]]%lookup_app_Some.
    + assert (n < N)%nat by (by eapply lookup_lt_Some). specialize (Hat n y Hn Hy). rewrite <- Hat.
      assert (Nat.odd n = Nat.odd N -> n / 2 mod 32 <> N / 2 mod 32)%nat as Hne.
      { intros Ho E. pose proof (Nat.div2_odd n) as E1. pose proof (Nat.div2_odd N) as E2. rewrite Ho in E1.
        rewrite Nat.div2_div in E1, E2.
        pose proof (Nat.div_mod_eq (n / 2) 32). pose proof (Nat.div_mod_eq (N / 2) 32). lia. }
      destruct (Nat.odd n), (Nat.odd N); try done; rewrite nth_insert by lia; rewrite decide_False; auto.
    + apply list_lookup_singleton_Some in Hl as [E <-]. assert (n = N) as -> by (fold N in Hy; lia).
      destruct (Nat.odd N); rewrite nth_insert by lia; by rewrite decide_True.
Qed.

(** What the cycle pushes when nothing is dropped. *)
Definition new_beats (n : nat) (A B : Z) : list Z := take n [A; B].
Lemma testbit_u7_succ x : Z.testbit (u7 (x + 1)) 0 = negb (Z.testbit x 0).
Proof.
  rewrite !Z.bit0_odd. unfold u7. rewrite Z.mod_eq by lia. rewrite Z.odd_sub, Z.odd_mul. cbn [Z.odd andb].
  rewrite xorb_false_r, Z.odd_add. by destruct (Z.odd x).
Qed.
Lemma fifo_inv_push ps d q n A B b0 b1 wr :
  fifo_inv ps d (q_b0 q) (q_b1 q) (q_wr q) (q_rd q) -> (n <= 2)%nat ->
  fifo_push q n A B = (b0, b1, wr, false) -> fifo_inv (ps ++ new_beats n A B) d b0 b1 wr (q_rd q).
Proof.
  intros Hi Hn. pose proof (fifo_inv_cnt _ _ _ _ _ _ Hi) as Hc. pose proof (fi_le _ _ _ _ _ _ Hi) as Hle.
  assert (w_room q = 64 - Z.of_nat (length ps - d)) as Er.
  { unfold w_room, w_cnt, FIFO_N. rewrite Hc. apply u7_small. lia. }
  assert (q_wr q = u7 (q_wr q)) as Ew by (symmetry; rewrite (fi_wr _ _ _ _ _ _ Hi); apply Z.mod_mod; lia).
  unfold fifo_push. rewrite Er, testbit_u7_succ. intros [= <- <- <- Hd].
  destruct n as [|[|[|n]]]; [| | |lia]; cbn [Nat.leb Nat.eqb andb orb] in Hd |- *; unfold new_beats; cbn [take].
  - rewrite app_nil_r, !Z.add_0_r, <- Ew. exact Hi.
  - rewrite orb_false_r in Hd. apply Z.ltb_ge in Hd. rewrite (proj2 (Z.leb_le 1 _)) by lia. cbn [b2z andb orb].
    rewrite !orb_false_r, Z.add_0_r. eapply fifo_inv_put; [exact Hi|lia|]. unfold put. rewrite Z.bit0_odd. by destruct (Z.odd (q_wr q)).
  - apply orb_false_iff in Hd as [_ Hd]. apply Z.ltb_ge in Hd.
    rewrite (proj2 (Z.leb_le 1 _)), (proj2 (Z.leb_le 2 _)) by lia. cbn [b2z andb orb].
    change [A; B] with ([A] ++ [B]). rewrite app_assoc.
    destruct (put A (q_b0 q) (q_b1 q) (q_wr q)) as [[c0 c1] w] eqn:E1.
    eapply fifo_inv_put; [eapply fifo_inv_put; [exact Hi|lia|exact E1]|rewrite length_app; cbn [length]; lia|].
    unfold put in E1 |- *. injection E1 as <- <- <-. rewrite testbit_u7_succ, u7_u7_add.
    rewrite !Z.bit0_odd. rewrite <- ?Z.add_assoc. by destruct (Z.odd (q_wr q)).
Qed.
Lemma fifo_inv_beats ps d q :
  fifo_inv ps d (q_b0 q) (q_b1 q) (q_wr q) (q_rd q) -> fifo_beats q = drop d ps.
Proof.
  intros Hi. unfold fifo_beats, w_cnt. rewrite (fifo_inv_cnt _ _ _ _ _ _ Hi), Nat2Z.id.
  destruct Hi as [Hle Erd _ _ _ Hat]. apply list_eq. intros k. rewrite lookup_drop.
  destruct (decide (k < length ps - d)%nat) as [Hk|Hk].
  - rewrite list_lookup_fmap, lookup_seq_lt by lia. cbn [fmap option_fmap option_map].
    destruct (lookup_lt_is_Some_2 ps (d + k)) as [x Hx]; [clear -Hk; lia|]. rewrite Hx. f_equal.
    rewrite Erd, u7_u7_add. replace (Z.of_nat d + Z.of_nat (0 + k)) with (Z.of_nat (d + k)) by lia.
    unfold fifo_at. rewrite testbit_u7, slot_u7. apply Hat; [lia|exact Hx].
  - rewrite lookup_ge_None_2 by (rewrite length_map, length_seq; lia). symmetry. apply lookup_ge_None_2. lia.
Qed.

(** The ring's memory holds the [d] drained beats from its base. *)
Record ring_inv (ps : list Z) (s : ring * mem) (d : nat) : Prop := RingInv {
  ri_fifo : fifo_inv ps d (q_b0 (fst s)) (q_b1 (fst s)) (q_wr (fst s)) (q_rd (fst s));
  ri_woff : d_woff (fst s) = if 16 * Z.of_nat d =? RING_SIZE then 0 else 16 * Z.of_nat d;
  ri_bytes : d_bytes (fst s) = 16 * Z.of_nat d;
  ri_req : d_req (fst s) = true -> (d < length ps)%nat;
  ri_mem : mget_bytes (snd s) TRACE_BASE (16 * d) = concat (map (le_bytes 16) (take d ps)) }.
Lemma ring_inv_reset b0 b1 m : length b0 = 32%nat -> length b1 = 32%nat -> ring_inv [] (Ring b0 b1 0 0 false false 0 0 0, m) 0.
Proof.
  intros L0 L1. constructor; try done. constructor; try done. cbn. lia.
Qed.
Lemma take_new (ps new : list Z) d : (d <= length ps)%nat -> take d (ps ++ new) = take d ps.
Proof. intros. by rewrite take_app_le. Qed.

Lemma ring_step_inv ps q m d n A B rsp q' m' :
  ring_inv ps (q, m) d -> (n <= 2)%nat -> 16 * Z.of_nat (length (ps ++ new_beats n A B)) <= RING_SIZE ->
  ring_step n A B rsp (q, m) = (q', m') -> q_ovf q' = false ->
  exists d', ring_inv (ps ++ new_beats n A B) (q', m') d'.
Proof.
  intros [Hf Hw Hb Hr Hm] Hn Hsz E Ho. cbn [fst snd] in *. unfold ring_step in E.
  destruct (fifo_push q n A B) as [[[b0 b1] wr] drop] eqn:Ep.
  assert (drop = false) as -> by (destruct (d_req q), rsp; cbn in E; injection E as <- <-; cbn in Ho; apply orb_false_iff in Ho; tauto).
  pose proof (fifo_inv_push _ _ _ _ _ _ _ _ _ Hf Hn Ep) as Hf'. pose proof (fi_le _ _ _ _ _ _ Hf) as Hle.
  assert (length ps <= length (ps ++ new_beats n A B))%nat as Hlen by (rewrite length_app; lia).
  destruct (d_req q) eqn:Ereq; cbn [negb] in E; [destruct rsp|]; apply pair_equal_spec in E as [<- <-].
  - specialize (Hr eq_refl). exists (S d). unfold RING_SIZE in *.
    rewrite (proj2 (Z.eqb_neq _ _)) in Hw by lia.
    destruct (lookup_lt_is_Some_2 ps d Hr) as [x Hx].
    assert (w_rd_data q = x) as Ex.
    { unfold w_rd_data. rewrite (fi_rd _ _ _ _ _ _ Hf). unfold fifo_at. rewrite testbit_u7, slot_u7.
      apply (fi_at _ _ _ _ _ _ Hf); [lia|exact Hx]. }
    constructor; cbn [fst snd q_b0 q_b1 q_wr q_rd d_req d_woff d_bytes].
    + apply fifo_inv_pop; [done|lia].
    + rewrite Hw. change RING_SIZE with 0x7000000.
      destruct (Z.leb_spec 0x7000000 (16 * Z.of_nat d + 16)), (Z.eqb_spec (16 * Z.of_nat (S d)) 0x7000000); lia.
    + rewrite Hb. rewrite u32_small by lia. lia.
    + done.
    + rewrite Hw, Ex. replace (16 * S d)%nat with (16 * d + 16)%nat by lia. rewrite mget_bytes_app.
      rewrite mget_bytes_mput_disj by lia. rewrite Hm, take_new by lia.
      replace (TRACE_BASE + Z.of_nat (16 * d)) with (TRACE_BASE + 16 * Z.of_nat d) by lia.
      pose proof (mget_bytes_mput m (TRACE_BASE + 16 * Z.of_nat d) (le_bytes 16 x)) as E.
      rewrite length_le_bytes in E. rewrite E, (take_S_r _ _ _ Hx), map_app, concat_app. cbn [map concat]. by rewrite app_nil_r.
  - exists d. constructor; cbn [fst snd q_b0 q_b1 q_wr q_rd d_req d_woff d_bytes]; try done; [intros _; specialize (Hr eq_refl); lia|].
    by rewrite take_new by lia.
  - exists d. constructor; cbn [fst snd q_b0 q_b1 q_wr q_rd d_req d_woff d_bytes]; try done.
    + unfold w_cnt. rewrite (fifo_inv_cnt _ _ _ _ _ _ Hf). intros E%negb_true_iff%Z.eqb_neq. lia.
    + by rewrite take_new by lia.
Qed.
Lemma ring_inv_length ps s d : ring_inv ps s d -> (d <= length ps <= d + 64)%nat /\ length (q_b0 (fst s)) = 32%nat /\ length (q_b1 (fst s)) = 32%nat.
Proof. intros [[] _ _ _ _]. done. Qed.
(** What the invariant says of the bits. *)
Lemma ring_inv_bits ps s d :
  ring_inv ps s d -> d_bytes (fst s) = 16 * Z.of_nat d /\
  ring_bits (snd s) (16 * d) ++ beat_bits (fifo_beats (fst s)) = beat_bits ps /\ ring_bits (snd s) (16 * d) = beat_bits (take d ps).
Proof.
  intros [Hf _ Hb _ Hm]. pose proof (fi_le _ _ _ _ _ _ Hf).
  assert (ring_bits (snd s) (16 * d) = beat_bits (take d ps)) as E.
  { pose proof (ring_bits_beats (snd s) (take d ps)) as E. rewrite length_take, Nat.min_l in E by lia. by apply E. }
  split; [done|]. split; [|done]. rewrite E, (fifo_inv_beats _ _ _ Hf). unfold beat_bits.
  by rewrite <- concat_app, <- map_app, take_drop.
Qed.

(** ** Runs *)

Lemma since_arm_snoc ins i : since_arm (ins ++ [i]) = if ti_arm i then since_arm ins ++ [i] else [].
Proof. unfold since_arm. by rewrite fold_left_app. Qed.
Lemma since_arm_armed ins : Forall (fun i => ti_arm i = true) ins -> since_arm ins = ins.
Proof.
  induction ins as [|i ins IH] using rev_ind; [done|]. rewrite since_arm_snoc. intros [H1 H2]%Forall_app.
  inversion_clear H2. by rewrite IH, H.
Qed.
Lemma engine_run_snoc f lv m ins i : engine_run f lv m (ins ++ [i]) = engine_step f lv (engine_run f lv m ins) i.
Proof. unfold engine_run. by rewrite fold_left_app. Qed.
Lemma ring_step_banks n A B rsp q m :
  length (q_b0 q) = 32%nat -> length (q_b1 q) = 32%nat ->
  let q' := fst (ring_step n A B rsp (q, m)) in length (q_b0 q') = 32%nat /\ length (q_b1 q') = 32%nat.
Proof.
  intros L0 L1. cbv zeta. unfold ring_step, fifo_push. cbv zeta.
  destruct (d_req q); cbn [negb]; [destruct rsp|]; cbn [fst q_b0 q_b1]; split; case_test; by rewrite ?length_insert.
Qed.
Lemma ring_step_ovf n A B rsp q m :
  q_ovf (fst (ring_step n A B rsp (q, m))) = true -> (n <= 1)%nat -> q_ovf q = true \/ w_cnt q = 64.
Proof.
  unfold ring_step, fifo_push. cbv zeta. intros H Hn.
  assert (q_ovf q || ((1 <=? n)%nat && (w_room q <? 1) || (n =? 2)%nat && (w_room q <? 2)) = true) as E
    by (destruct (d_req q); [destruct rsp|]; exact H).
  rewrite (proj2 (Nat.eqb_neq n 2)) in E by lia. cbn [andb] in E. rewrite orb_false_r in E.
  apply orb_true_iff in E as [E|[_ E%Z.ltb_lt]%andb_true_iff]; [by left|right].
  unfold w_room, w_cnt, FIFO_N, u7 in *. Z.to_euclidean_division_equations; lia.
Qed.
Lemma ring_step_sticky n A B rsp q m :
  q_ovf (fst (ring_step n A B rsp (q, m))) = false -> q_ovf q = false.
Proof.
  unfold ring_step, fifo_push. cbv zeta. intros H.
  destruct (d_req q); cbn [negb] in H; [destruct rsp|]; cbn [fst q_ovf] in H; by apply orb_false_iff in H as [-> _].
Qed.

Section Run.
Context (f : filter_cfg) (lv : bool).
(** [P] relates the packer, the beats pushed and the cycles since arming. *)
Context (P : packer -> list Z -> list tin -> Prop) (fits : list tin -> Prop).
Context (P_init : P packer_init [] []).
Context (P_step : forall p ps t i n A B, P p ps t -> offered f lv p i = (n, A, B) ->
  (n <= 2)%nat /\ P (fst (packer_step lv p (w_user f i))) (ps ++ new_beats n A B) (t ++ [i])).
Context (P_fits : forall p ps t, P p ps t -> fits t -> 16 * Z.of_nat (length ps) <= RING_SIZE).
Context (fits_snoc : forall t i, fits (t ++ [i]) -> fits t).

Lemma engine_run_inv m ins :
  let '(e, m') := engine_run f lv m ins in
  (length (q_b0 (e_ring e)) = 32%nat /\ length (q_b1 (e_ring e)) = 32%nat) /\
  (q_ovf (e_ring e) = false -> fits (since_arm ins) ->
   exists ps d, P (e_pk e) ps (since_arm ins) /\ ring_inv ps (e_ring e, m') d).
Proof using P_init P_step P_fits fits_snoc.
  induction ins as [|i ins IH] using rev_ind.
  { cbn. split; [done|]. intros _ _. exists [], 0%nat. split; [exact P_init|by apply ring_inv_reset]. }
  rewrite engine_run_snoc, since_arm_snoc. destruct (engine_run f lv m ins) as [e m1]. destruct IH as [[L0 L1] IH].
  unfold engine_step. destruct (offered f lv (e_pk e) i) as [[n A] B] eqn:Eo.
  pose proof (ring_step_banks n A B (ti_rsp i) (e_ring e) m1 L0 L1) as HL.
  pose proof (ring_step_sticky n A B (ti_rsp i) (e_ring e) m1) as Hs.
  destruct (ring_step n A B (ti_rsp i) (e_ring e, m1)) as [q m'] eqn:Er. cbn [fst] in HL, Hs.
  destruct (ti_arm i); cbn [e_ring e_pk].
  - split; [exact HL|]. intros Ho Hfit. destruct (IH (Hs Ho) (fits_snoc _ _ Hfit)) as (ps & d & HP & HR).
    destruct (P_step _ _ _ _ _ _ _ HP Eo) as [Hn HP']. exists (ps ++ new_beats n A B).
    destruct (ring_step_inv ps (e_ring e) m1 d n A B (ti_rsp i) q m' HR Hn (P_fits _ _ _ HP' Hfit) Er Ho) as (d' & HR').
    by exists d'.
  - split; [done|]. intros _ _. exists [], 0%nat. split; [exact P_init|by apply ring_inv_reset].
Qed.
End Run.

(** ** The code stream *)

Definition packer_ok (p : packer) (ps pcs : list Z) : Prop :=
  beat_bits ps ++ bits_of (pk_acc p) (pk_nbits p) ++ bits_of (pk_app p) (pk_len p) = encode pcs /\
  (is_u (Z.of_nat (pk_nbits p)) (pk_acc p) /\ (pk_nbits p < 128)%nat) /\
  (is_u (Z.of_nat (pk_len p)) (pk_app p) /\ (pk_len p <= 82)%nat) /\ pk_last p = list.last pcs.
Lemma beat_bits_app xs ys : beat_bits (xs ++ ys) = beat_bits xs ++ beat_bits ys.
Proof. unfold beat_bits. by rewrite map_app, concat_app. Qed.
Lemma length_beat_bits bs : length (beat_bits bs) = (128 * length bs)%nat.
Proof.
  unfold beat_bits. induction bs as [|b bs IH]; [done|]. cbn [map concat length]. rewrite length_app, length_bits_of, IH. lia.
Qed.
Lemma packer_step_ok p ps pcs u :
  packer_ok p ps pcs -> Forall (is_u 32) (opt_list (fst u) ++ opt_list (snd u)) ->
  packer_ok (fst (packer_step false p u)) (ps ++ opt_list (snd (packer_step false p u)))
            (pcs ++ opt_list (fst u) ++ opt_list (snd u)).
Proof.
  intros (Hbits & [Hacc Hn] & [Happ Hlen] & Hlast) Hu. unfold packer_step.
  destruct (w_append (pk_last p) (fst u) (snd u)) as [[app len] last'] eqn:Ea.
  destruct (w_append_spec _ _ _ _ _ _ Hu Ea) as (Hb & Hf & Hl & ->).
  destruct (pack_step (pk_acc p) (pk_nbits p) (pk_app p) (pk_len p)) as [[beat acc'] n'] eqn:Ep.
  destruct (pack_step_spec _ _ _ _ _ _ _ Hacc Happ Hn Hlen Ep) as (Hb' & Hacc' & Hn' & Hbeat).
  unfold packer_ok; cbn [fst snd pk_app pk_len pk_acc pk_nbits pk_last]. split_and!; try done.
  - rewrite beat_bits_app, <- app_assoc, (app_assoc (beat_bits (opt_list beat))), Hb', (app_assoc (beat_bits ps)), Hbits, Hb.
    unfold encode. rewrite (encode_from_app None pcs), Hlast. by destruct (list.last pcs).
  - rewrite app_assoc, !last_app_opt. by rewrite Hlast.
Qed.
Lemma user_pcs_app f xs ys : user_pcs f (xs ++ ys) = user_pcs f xs ++ user_pcs f ys.
Proof. unfold user_pcs. by rewrite map_app, concat_app. Qed.
Lemma user_pcs_one f i : user_pcs f [i] = opt_list (fst (w_user f i)) ++ opt_list (snd (w_user f i)).
Proof. unfold user_pcs. cbn [map concat]. apply app_nil_r. Qed.
Lemma w_user_u32 f i : Forall (is_u 32) (opt_list (fst (w_user f i)) ++ opt_list (snd (w_user f i))).
Proof.
  assert (forall r, Forall (is_u 32) (opt_list (if rtl_user f (ti_asid i) r then Some (u32 (rt_pc r)) else None))) as Ho.
  { intros r. case_test; constructor; [apply u32_range|done]. }
  apply Forall_app. split; apply Ho.
Qed.
Lemma user_pcs_u32 f ins : Forall (is_u 32) (user_pcs f ins).
Proof.
  induction ins as [|i ins IH]; [done|]. change (i :: ins) with ([i] ++ ins). rewrite user_pcs_app, user_pcs_one.
  apply Forall_app. split; [apply w_user_u32|done].
Qed.
Lemma encode_app xs ys : exists r, encode (xs ++ ys) = encode xs ++ r.
Proof. unfold encode. rewrite encode_from_app. by eexists. Qed.
(** The code of a run fits the ring without wrapping. *)
Definition code_fits (f : filter_cfg) (t : list tin) : Prop := Z.of_nat (length (encode (user_pcs f t))) <= 8 * RING_SIZE.
Lemma code_fits_snoc f t i : code_fits f (t ++ [i]) -> code_fits f t.
Proof.
  unfold code_fits. rewrite user_pcs_app. destruct (encode_app (user_pcs f t) (user_pcs f [i])) as [r ->].
  rewrite length_app. lia.
Qed.

Lemma codec_run_inv f m ins :
  let '(e, m') := engine_run f false m ins in
  q_ovf (e_ring e) = false -> code_fits f (since_arm ins) ->
  exists ps d, packer_ok (e_pk e) ps (user_pcs f (since_arm ins)) /\ ring_inv ps (e_ring e, m') d.
Proof.
  pose proof (engine_run_inv f false (fun p ps t => packer_ok p ps (user_pcs f t)) (code_fits f)) as H.
  specialize (H ltac:(unfold packer_ok; split_and!; first [reflexivity | by vm_compute | cbn; lia])).
  assert (forall p ps t, packer_ok p ps (user_pcs f t) -> code_fits f t -> 16 * Z.of_nat (length ps) <= RING_SIZE) as Hfit.
  { intros p ps t (E & _) Hf. unfold code_fits in Hf. rewrite <- E, length_app, length_beat_bits in Hf. lia. }
  specialize (fun Hs => H Hs Hfit (code_fits_snoc f) m ins).
  destruct (engine_run f false m ins) as [e m']. apply H.
  intros p ps t i n A B HP. unfold offered. pose proof (packer_step_ok _ _ _ _ HP (w_user_u32 f i)) as HP'.
  rewrite user_pcs_app, user_pcs_one.
  destruct (snd (packer_step false p (w_user f i))) as [b|]; intros [= <- <- <-]; split; (lia || exact HP').
Qed.

(** ** Load records *)

Lemma user_lds_app f xs ys : user_lds f (xs ++ ys) = user_lds f xs ++ user_lds f ys.
Proof. unfold user_lds. by rewrite map_app, concat_app. Qed.
Lemma ld_beats_new f i n A B :
  ld_beats f i = (n, A, B) -> (n <= 2)%nat /\ new_beats n A B = map lv_beat (user_lds f [i]).
Proof.
  unfold ld_beats, user_lds. cbn [map concat List.filter]. rewrite app_nil_r.
  destruct (w_ld f (ti_asid i) (ti_r0 i)), (w_ld f (ti_asid i) (ti_r1 i)); intros [= <- <- <-]; (split; [lia|done]).
Qed.
Definition lds_fit (f : filter_cfg) (t : list tin) : Prop := 16 * Z.of_nat (length (user_lds f t)) <= RING_SIZE.
Lemma load_run_inv f m ins :
  let '(e, m') := engine_run f true m ins in
  q_ovf (e_ring e) = false -> lds_fit f (since_arm ins) ->
  exists d, ring_inv (map lv_beat (user_lds f (since_arm ins))) (e_ring e, m') d.
Proof.
  pose proof (engine_run_inv f true (fun _ ps t => ps = map lv_beat (user_lds f t)) (lds_fit f) eq_refl) as H.
  assert (forall (p : packer) ps t i n A B, ps = map lv_beat (user_lds f t) -> offered f true p i = (n, A, B) ->
    (n <= 2)%nat /\ ps ++ new_beats n A B = map lv_beat (user_lds f (t ++ [i]))) as Hs.
  { intros p ps t i n A B -> (Hn & ->)%ld_beats_new. by rewrite user_lds_app, map_app. }
  specialize (H Hs). specialize (H ltac:(intros p ps t -> Hf; rewrite length_map; exact Hf)).
  assert (forall t i, lds_fit f (t ++ [i]) -> lds_fit f t) as Hf.
  { intros t i. unfold lds_fit. rewrite user_lds_app, length_app. lia. }
  specialize (H Hf m ins). destruct (engine_run f true m ins) as [e m']. destruct H as [_ H].
  intros Ho Hfit. destruct (H Ho Hfit) as (ps & d & -> & HR). by exists d.
Qed.
Lemma user_lds_ok f ins : Forall lv_ok (user_lds f ins).
Proof.
  unfold user_lds. apply Forall_concat, Forall_map, Forall_true. intros i. apply Forall_map, Forall_true.
  intros r. unfold lv_ok, lv_rec. split_and!; apply u32_range.
Qed.
Lemma engine_run_mem_ok f lv m ins : mem_ok m -> mem_ok (snd (engine_run f lv m ins)).
Proof.
  intros Hm. induction ins as [|i ins IH] using rev_ind; [done|]. rewrite engine_run_snoc.
  destruct (engine_run f lv m ins) as [e m1]. cbn [snd] in IH. unfold engine_step.
  destruct (offered f lv (e_pk e) i) as [[n A] B].
  assert (mem_ok (snd (ring_step n A B (ti_rsp i) (e_ring e, m1)))) as H.
  { unfold ring_step. destruct (fifo_push (e_ring e) n A B) as [[[b0 b1] wr] drop].
    destruct (negb (d_req (e_ring e))); [exact IH|]. destruct (ti_rsp i); [|exact IH]. cbn [snd].
    apply mem_ok_mput; [exact IH|apply le_bytes_ok]. }
  destruct (ring_step n A B (ti_rsp i) (e_ring e, m1)) as [q m']. by destruct (ti_arm i).
Qed.
(** Record [i] of a drained ring. *)
Lemma ring_inv_beat ps s d i b :
  ring_inv ps s d -> (i < d)%nat -> ps !! i = Some b ->
  mget_bytes (snd s) (TRACE_BASE + Z.of_nat i * 16) 16 = le_bytes 16 b.
Proof.
  intros [Hf _ _ _ Hm] Hi Hb. pose proof (fi_le _ _ _ _ _ _ Hf) as Hle.
  replace (16 * d)%nat with (16 * i + (16 + 16 * (d - S i)))%nat in Hm by lia.
  rewrite !mget_bytes_app in Hm. rewrite <- (take_drop i (take d ps)), take_take, Nat.min_l in Hm by lia.
  assert (drop i (take d ps) = b :: drop (S i) (take d ps)) as E.
  { apply drop_S. by rewrite lookup_take_lt by lia. }
  rewrite E, map_app, concat_app in Hm. cbn [map concat] in Hm.
  assert (forall l, length (concat (map (le_bytes 16) l)) = 16 * length l)%nat as HL.
  { induction l as [|x l IH]; [done|]. cbn [map concat length]. rewrite length_app, length_le_bytes, IH. lia. }
  apply app_inj_1 in Hm as [_ Hm]; [|rewrite length_mget_bytes, HL, length_take; lia].
  apply app_inj_1 in Hm as [Hm _]; [|by rewrite length_mget_bytes, length_le_bytes].
  rewrite <- Hm. f_equal. lia.
Qed.

(** ** The harness's captures *)

Definition capture_run (cs : list tin) : list Z := fold_left (fun ref i => trace_capture ref (ti_r0 i) (ti_r1 i)) cs [].
Definition lv_capture_run (cs : list tin) : list (Z * Z * Z) := fold_left (fun ref i => lv_capture ref (ti_r0 i) (ti_r1 i)) cs [].
Lemma rtl_user_off f asid r : filter_en f = false -> pc_range_en f = false -> rtl_user f asid r = tb_user r.
Proof. intros Hf Hr. unfold rtl_user, tb_user. rewrite Hf, Hr. cbn [negb orb]. by rewrite !andb_true_r. Qed.
Lemma trace_capture_eq f ref i :
  filter_en f = false -> pc_range_en f = false ->
  trace_capture ref (ti_r0 i) (ti_r1 i) = if (length ref <? TRACE_CAP)%nat then ref ++ user_pcs f [i] else ref.
Proof.
  intros Hf Hr. rewrite user_pcs_one. unfold trace_capture, w_user. cbn [fst snd]. rewrite !rtl_user_off by done.
  destruct (length ref <? TRACE_CAP)%nat; [|done].
  destruct (tb_user (ti_r0 i)), (tb_user (ti_r1 i)); cbn [opt_list app]; by rewrite ?app_nil_r, <- ?app_assoc.
Qed.
Lemma lv_capture_eq f ref i :
  filter_en f = false -> pc_range_en f = false ->
  lv_capture ref (ti_r0 i) (ti_r1 i) = if (length ref <? TRACE_CAP)%nat then ref ++ user_lds f [i] else ref.
Proof.
  intros Hf Hr. unfold lv_capture, user_lds, w_ld. cbn [map concat List.filter]. rewrite !rtl_user_off, app_nil_r by done.
  destruct (length ref <? TRACE_CAP)%nat; [|done].
  destruct (tb_user (ti_r0 i) && _ && _), (tb_user (ti_r1 i) && _ && _); cbn [map app]; by rewrite ?app_nil_r, <- ?app_assoc.
Qed.
(** Capture stops for good at the cap: what it holds is a prefix. *)
Lemma capture_prefix {A} (step : list A -> tin -> list A) (new : list tin -> list A) cs :
  (forall ref i, step ref i = if (length ref <? TRACE_CAP)%nat then ref ++ new [i] else ref) ->
  new [] = [] -> (forall xs ys, new (xs ++ ys) = new xs ++ new ys) ->
  fold_left step cs [] `prefix_of` new cs.
Proof.
  intros Hs H0 Ha.
  assert (fold_left step cs [] = new cs \/ (TRACE_CAP <= length (fold_left step cs []))%nat /\ fold_left step cs [] `prefix_of` new cs) as [->|[_ H]];
    [|done|exact H].
  induction cs as [|c cs IH] using rev_ind; [by left|]. rewrite fold_left_app. cbn [fold_left]. rewrite Hs, Ha.
  destruct (Nat.ltb_spec (length (fold_left step cs [])) TRACE_CAP).
  - destruct IH as [->|[? _]]; [by left|lia].
  - right. split; [done|]. destruct IH as [->|[_ H']]; [by apply prefix_app_r|by apply prefix_app_r].
Qed.
Lemma capture_run_prefix f cs :
  filter_en f = false -> pc_range_en f = false -> capture_run cs `prefix_of` user_pcs f cs.
Proof.
  intros Hf Hr. apply (capture_prefix _ (user_pcs f)); [intros; by apply trace_capture_eq|done|apply user_pcs_app].
Qed.
Lemma lv_capture_run_prefix f cs :
  filter_en f = false -> pc_range_en f = false -> lv_capture_run cs `prefix_of` user_lds f cs.
Proof.
  intros Hf Hr. apply (capture_prefix _ (user_lds f)); [intros; by apply lv_capture_eq|done|apply user_lds_app].
Qed.

(** ** Decoding a prefix of the stream *)

Lemma trace_val_prefix m wb (pcs ref : list Z) r :
  Forall (is_u 32) pcs -> ring_bits m wb ++ r = encode pcs -> ref `prefix_of` pcs ->
  let dec := decode (length ref) (ring_bits m wb) in
  (snd (trace_val m wb ref) <= 1)%nat /\
  (forall k, (k <= length ref)%nat -> (length (encode (take k ref)) <= 8 * wb)%nat -> take k dec = take k ref) /\
  (r = [] -> trace_val m wb ref = (length ref, 0%nat)).
Proof.
  intros Hu Hr [tl ->]. cbv zeta. rewrite Forall_app in Hu. destruct Hu as [Hu Htl].
  assert (length (ring_bits m wb) = 8 * wb)%nat as Hlen by (unfold ring_bits; by rewrite length_map, length_seq).
  assert (forall k, (k <= length ref)%nat -> (length (encode (take k ref)) <= 8 * wb)%nat ->
    take k (decode (length ref) (ring_bits m wb)) = take k ref) as Hk.
  { intros k Hk Hl. rewrite <- decode_take by done.
    destruct (encode_app (take k ref) (drop k ref ++ tl)) as [r2 E2]. rewrite app_assoc, take_drop in E2.
    rewrite E2 in Hr. rewrite <- Hlen in Hl.
    apply (f_equal (take (length (ring_bits m wb)))) in Hr. rewrite take_app_length, take_app, (take_ge (encode _)) in Hr by done.
    rewrite Hr. replace k with (length (take k ref)) at 1 by (rewrite length_take; lia).
    apply decode_encode. by apply Forall_take. }
  split_and!; [|exact Hk|].
  - unfold trace_val. apply count_mism_prefix. rewrite (decode_take _ (length (ref ++ tl))) by (rewrite length_app; lia).
    assert (ring_bits m wb = firstn (length (ring_bits m wb)) (encode (ref ++ tl))) as E by (by rewrite <- Hr, take_app_length).
    pose proof (prefix_but_one_take (length ref) _ _ (decode_prefix (ref ++ tl) (length (ring_bits m wb)) ltac:(by apply Forall_app))) as Hp.
    by rewrite <- E, take_app_length in Hp.
  - intros ->. rewrite app_nil_r in Hr. destruct (encode_app ref tl) as [r2 E2].
    specialize (Hk (length ref) (le_n _)). rewrite (take_ge ref), <- decode_take in Hk by done.
    unfold trace_val. rewrite Hk by (rewrite <- Hlen, Hr, E2, length_app; lia).
    pose proof (count_mism_refl ref []) as Hm. by rewrite app_nil_r in Hm.
Qed.

(** ** The engine's stream *)

Lemma code_stream f m ins :
  let '(e, m') := engine_run f false m ins in
  let p := e_pk e in let q := e_ring e in
  q_ovf q = false -> code_fits f (since_arm ins) ->
  ring_bits m' (Z.to_nat (d_bytes q)) ++ beat_bits (fifo_beats q)
    ++ bits_of (pk_acc p) (pk_nbits p) ++ bits_of (pk_app p) (pk_len p) = encode (user_pcs f (since_arm ins)) /\
  (pk_nbits p < 128)%nat /\ (pk_len p <= 82)%nat /\ w_cnt q <= FIFO_N.
Proof.
  pose proof (codec_run_inv f m ins) as Hi. destruct (engine_run f false m ins) as [e m'].
  cbv zeta. intros Ho Hf. destruct (Hi Ho Hf) as (ps & d & (Hb & [_ Hn] & [_ Hl] & _) & HR).
  destruct (ring_inv_bits _ _ _ HR) as (Hby & Hbits & _). cbn [fst snd] in *. rewrite Hby.
  replace (Z.to_nat (16 * Z.of_nat d)) with (16 * d)%nat by lia. split_and!; [|done|done|].
  - rewrite app_assoc, Hbits. exact Hb.
  - unfold w_cnt, FIFO_N. pose proof (ri_fifo _ _ _ HR) as Hq. cbn [fst] in Hq.
    pose proof (fi_le _ _ _ _ _ _ Hq). rewrite (fifo_inv_cnt _ _ _ _ _ _ Hq). lia.
Qed.
Lemma overflow_full f m ins :
  q_ovf (e_ring (fst (engine_run f false m ins))) = true ->
  exists pre, pre `prefix_of` ins /\ w_cnt (e_ring (fst (engine_run f false m pre))) = FIFO_N.
Proof.
  induction ins as [|i ins IH] using rev_ind; [done|]. rewrite engine_run_snoc.
  destruct (engine_run f false m ins) as [e1 m1] eqn:E1. unfold engine_step.
  destruct (offered f false (e_pk e1) i) as [[n A] B] eqn:Eo.
  pose proof (ring_step_ovf n A B (ti_rsp i) (e_ring e1) m1) as Hs.
  destruct (ring_step n A B (ti_rsp i) (e_ring e1, m1)) as [q m2].
  destruct (ti_arm i); cbn [fst e_ring]; [|done]. intros Ho.
  assert (n <= 1)%nat as Hn by (unfold offered in Eo; destruct (snd _); injection Eo as <- <- <-; lia).
  destruct (Hs Ho Hn) as [H|H].
  - destruct (IH H) as (pre & Hp & Hc). exists pre. split; [by apply prefix_app_r|done].
  - exists ins. rewrite E1. split; [by apply prefix_app_r|done].
Qed.

(** ** Properties *)

(** C11.  The trace engine loses, duplicates and reorders nothing until it
    says so: from any state, as long as the overflow flag is clear and the run's
    code fits the 112 MB ring, the bytes counted by [r_bytes] in the ring's
    memory, the beats in the FIFO, the accumulator and the registered append
    are, in this order, exactly the code stream of the retired user PCs that
    pass the filters since the engine was armed; fewer than 128 bits wait in
    the accumulator, at most 82 in the append register and at most 64 beats in
    the FIFO.  The flag is only set after the FIFO was full.  Control-flow mode
    (not load-value mode); the drain is answered at any rate, a beat is in memory
    once its store is answered, and nothing else writes the ring. *)
Theorem engine_emits_code_stream (f : filter_cfg) (m : mem) (ins : list tin) :
  let '(e, m') := engine_run f false m ins in
  let p := e_pk e in let q := e_ring e in let pcs := user_pcs f (since_arm ins) in
  (q_ovf q = false -> code_fits f (since_arm ins) ->
     ring_bits m' (Z.to_nat (d_bytes q)) ++ beat_bits (fifo_beats q)
       ++ bits_of (pk_acc p) (pk_nbits p) ++ bits_of (pk_app p) (pk_len p) = encode pcs /\
     (pk_nbits p < 128)%nat /\ (pk_len p <= 82)%nat /\ w_cnt q <= FIFO_N) /\
  (q_ovf q = true -> exists pre, pre `prefix_of` ins /\ w_cnt (e_ring (fst (engine_run f false m pre))) = FIFO_N).
Proof.
  pose proof (code_stream f m ins) as Hi. pose proof (overflow_full f m ins) as Ho.
  destruct (engine_run f false m ins) as [e m']. split; [exact Hi|exact Ho].
Qed.

Definition no_retire : retire := Retire false 0 false 0 0 0.
Definition tidle : tin := Tin true 0 no_retire no_retire true.
Definition tretire (pc : Z) : tin := Tin true 0 (Retire true pc false 0 0 0) (Retire true (pc + 4) false 0 0 0) true.
Definition filters_off : filter_cfg := FilterCfg false 0 false.
(** A seed and 96 sequential retires: 128 bits, one beat. *)
Definition one_beat_run : list tin :=
  map (fun k => tretire (0x400000 + 8 * Z.of_nat k)) (seq 0 48) ++
  [Tin true 0 (Retire true 0x400180 false 0 0 0) no_retire true] ++ replicate 5 tidle.
(** Eight user retires, with taken branches, drained: one complete beat. *)
Definition branchy_run : list tin := map tretire [0x400100; 0x10400200; 0x300000; 0x10] ++ replicate 5 tidle.

Lemma engine_emits_code_stream_witness :
  let '(e, m') := engine_run filters_off false ∅ (Tin false 0 no_retire no_retire false :: branchy_run) in
  ring_bits m' (Z.to_nat (d_bytes (e_ring e))) ++ beat_bits (fifo_beats (e_ring e))
    ++ bits_of (pk_acc (e_pk e)) (pk_nbits (e_pk e)) ++ bits_of (pk_app (e_pk e)) (pk_len (e_pk e)) =
  encode [0x400100; 0x400104; 0x10400200; 0x10400204; 0x300000; 0x300004; 0x10; 0x14] /\
  d_bytes (e_ring e) = 16 /\ pk_nbits (e_pk e) = 23%nat.
Proof.
  pose proof (engine_emits_code_stream filters_off ∅ (Tin false 0 no_retire no_retire false :: branchy_run)) as H.
  set (r := engine_run _ _ _ _) in *.
  assert (q_ovf (e_ring (fst r)) = false) as Ho by (vm_compute; reflexivity).
  assert (d_bytes (e_ring (fst r)) = 16 /\ pk_nbits (e_pk (fst r)) = 23%nat) as Hd by (vm_compute; split; reflexivity).
  assert (code_fits filters_off (since_arm (Tin false 0 no_retire no_retire false :: branchy_run))) as Hf
    by (apply Z.leb_le; vm_compute; reflexivity).
  destruct r as [e m']. split; [|exact Hd]. destruct H as [H _]. destruct (H Ho Hf) as [H1 _].
  etransitivity; [exact H1|]. vm_compute. reflexivity.
Defined.

(** C9.  End to end, ASID and range filters off: however the stores are
    answered, the harness's capture, the engine, the ring and TRACE-VAL's
    decode disagree on at most one record, every captured PC whose code is
    drained is decoded and equal, and all captured PCs are when nothing is
    pending (no beat waiting, accumulator and append register empty, no user
    retire in the last cycle).  Provided the engine reports no overflow, the
    code fits the ring and nothing else writes it; the engine clocks the retire
    ports of cycle n at edge n+1, so the harness has seen one cycle more
    ([lst]) and, in the arming cycle [i0], nothing retired. *)
Theorem trace_validate_end_to_end (f : filter_cfg) (m : mem) (ins cs : list tin) (i0 lst : tin) :
  filter_en f = false -> pc_range_en f = false ->
  since_arm ins = i0 :: cs -> user_pcs f [i0] = [] ->
  let '(e, m') := engine_run f false m ins in
  let p := e_pk e in let q := e_ring e in
  q_ovf q = false -> code_fits f cs ->
  let ref := capture_run (cs ++ [lst]) in
  let wbytes := Z.to_nat (d_bytes q) in
  let dec := decode (length ref) (ring_bits m' wbytes) in
  (snd (trace_val m' wbytes ref) <= 1)%nat /\
  (forall k, (k <= length ref)%nat -> (length (encode (take k ref)) <= 8 * wbytes)%nat -> take k dec = take k ref) /\
  (w_cnt q = 0 -> pk_nbits p = 0%nat -> pk_len p = 0%nat -> user_pcs f [lst] = [] ->
     trace_val m' wbytes ref = (length ref, 0%nat)).
Proof.
  intros Hf Hr Hin H0. pose proof (code_stream f m ins) as Hs. rewrite Hin in Hs.
  destruct (engine_run f false m ins) as [e m']. cbv zeta in *.
  change (i0 :: cs) with ([i0] ++ cs) in Hs. unfold code_fits in *. rewrite user_pcs_app, H0 in Hs. cbn [app] in Hs.
  intros Ho Hfit. destruct (Hs Ho Hfit) as (E & _).
  destruct (encode_app (user_pcs f cs) (user_pcs f [lst])) as [r Er].
  rewrite <- user_pcs_app, <- E, <- app_assoc in Er. symmetry in Er.
  destruct (trace_val_prefix m' _ _ _ _ (user_pcs_u32 f (cs ++ [lst])) Er (capture_run_prefix f _ Hf Hr)) as (H1 & H2 & _).
  split_and!; [exact H1|exact H2|]. intros Hc Hn Hl Hlast.
  rewrite Hn, Hl in E. unfold fifo_beats in E. rewrite Hc in E. cbn in E. rewrite user_pcs_app, Hlast, !app_nil_r in Er.
  pose proof (capture_run_prefix f (cs ++ [lst]) Hf Hr) as Hp. rewrite user_pcs_app, Hlast, app_nil_r in Hp.
  apply (trace_val_prefix m' _ _ _ [] (user_pcs_u32 f cs) E Hp). done.
Qed.
Lemma trace_validate_end_to_end_witness :
  let '(e, m') := engine_run filters_off false ∅ (tidle :: one_beat_run) in
  trace_val m' (Z.to_nat (d_bytes (e_ring e))) (capture_run (one_beat_run ++ [tidle])) = (97%nat, 0%nat).
Proof.
  assert (since_arm (tidle :: one_beat_run) = tidle :: one_beat_run) as Ha
    by (apply since_arm_armed, (bool_decide_unpack _); vm_compute; reflexivity).
  pose proof (trace_validate_end_to_end filters_off ∅ (tidle :: one_beat_run) one_beat_run tidle tidle eq_refl eq_refl Ha eq_refl) as H.
  set (r := engine_run _ _ _ _) in *.
  assert (q_ovf (e_ring (fst r)) = false /\ w_cnt (e_ring (fst r)) = 0 /\ pk_nbits (e_pk (fst r)) = 0%nat /\ pk_len (e_pk (fst r)) = 0%nat)
    as (Ho & Hc & Hn & Hl) by (vm_compute; split_and!; reflexivity).
  assert (code_fits filters_off one_beat_run) as Hf by (apply Z.leb_le; vm_compute; reflexivity).
  destruct r as [e m']. destruct (H Ho Hf) as (_ & _ & H3). etransitivity; [exact (H3 Hc Hn Hl eq_refl)|].
  vm_compute. reflexivity.
Defined.

(** The last drained beat may cut a code in the middle; the decoder then
    reads the fragment as a complete LEB128 number and TRACE-VAL prints FAIL on
    a faultless run: the eight user retires of [branchy_run] yield one complete
    beat, seven decoded PCs and one mismatch. *)
Theorem trace_validate_spurious_fail :
  let '(e, m') := engine_run filters_off false ∅ (tidle :: branchy_run) in
  q_ovf (e_ring e) = false /\
  trace_pass (trace_val m' (Z.to_nat (d_bytes (e_ring e))) (capture_run (branchy_run ++ [tidle]))) = false.
Proof. vm_compute. split; reflexivity. Qed.

(** Load-value mode is exact: the drained records equal the captured ones,
    record by record, until the engine reports an overflow. *)
Theorem loadval_validate_end_to_end (f : filter_cfg) (m : mem) (ins cs : list tin) (i0 lst : tin) :
  mem_ok m -> filter_en f = false -> pc_range_en f = false ->
  since_arm ins = i0 :: cs -> user_lds f [i0] = [] ->
  let '(e, m') := engine_run f true m ins in
  let ref := lv_capture_run (cs ++ [lst]) in
  q_ovf (e_ring e) = false -> lds_fit f cs ->
  exists d, d_bytes (e_ring e) = 16 * Z.of_nat d /\
    loadval_val m' (Z.to_nat (d_bytes (e_ring e))) ref = (Nat.min d (length ref), 0%nat).
Proof.
  intros Hm Hf Hr Hin H0. pose proof (load_run_inv f m ins) as Hs. rewrite Hin in Hs.
  pose proof (engine_run_mem_ok f true m ins Hm) as Hm'. destruct (engine_run f true m ins) as [e m']. cbn [snd] in Hm'.
  cbv zeta in *. change (i0 :: cs) with ([i0] ++ cs) in Hs. unfold lds_fit in *. rewrite user_lds_app, H0 in Hs. cbn [app] in Hs.
  intros Ho Hfit. destruct (Hs Ho Hfit) as (d & HR). exists d. pose proof (ri_bytes _ _ _ HR) as Hb. cbn [fst] in Hb.
  split; [exact Hb|]. unfold loadval_val. rewrite Hb. replace (Z.to_nat (16 * Z.of_nat d) / 16)%nat with d
    by (replace (Z.to_nat (16 * Z.of_nat d)) with (d * 16)%nat by lia; by rewrite Nat.div_mul by lia).
  f_equal. apply length_zero_iff_nil, elem_of_nil_inv. intros i [Hi Hseq]%list_elem_of_filter.
  apply list_elem_of_In, in_seq in Hseq.
  destruct (lv_capture_run_prefix f (cs ++ [lst]) Hf Hr) as [tl Etl]. rewrite user_lds_app in Etl.
  pose proof (fi_le _ _ _ _ _ _ (ri_fifo _ _ _ HR)) as Hle. rewrite length_map in Hle.
  destruct (lookup_lt_is_Some_2 (user_lds f cs) i) as [r Hx]; [lia|].
  assert (lv_capture_run (cs ++ [lst]) !! i = Some r) as Hc.
  { rewrite <- (lookup_app_l _ tl) by lia. rewrite <- Etl. by rewrite lookup_app_l by lia. }
  rewrite (nth_lookup_Some _ _ _ _ Hc), lv_match_bytes in Hi; [done|done| |].
  - exact (proj1 (Forall_lookup _ _) (user_lds_ok f cs) i r Hx).
  - eapply (ring_inv_beat _ (e_ring e, m')); [exact HR|lia|]. by rewrite list_lookup_fmap, Hx.
Qed.
Definition load_run : list tin :=
  [Tin true 0 (Retire true 0x400100 true 44 0xdeadbeef 0x7fff0000) (Retire true 0x400104 true 62 7 0x10) true] ++ replicate 6 tidle.
Lemma loadval_validate_end_to_end_witness :
  let '(e, m') := engine_run filters_off true ∅ (tidle :: load_run) in
  loadval_val m' (Z.to_nat (d_bytes (e_ring e))) (lv_capture_run (load_run ++ [tidle])) = (2%nat, 0%nat).
Proof.
  pose proof (loadval_validate_end_to_end filters_off ∅ (tidle :: load_run) load_run tidle tidle mem_ok_empty eq_refl eq_refl eq_refl eq_refl) as H.
  set (r := engine_run _ _ _ _) in *.
  assert (q_ovf (e_ring (fst r)) = false /\ d_bytes (e_ring (fst r)) = 32) as (Ho & Hb) by (vm_compute; split; reflexivity).
  assert (lds_fit filters_off load_run) as Hf by (apply Z.leb_le; vm_compute; reflexivity).
  destruct r as [e m']. destruct (H Ho Hf) as (d & Hd & ->). cbn [fst] in Hb. assert (d = 2%nat) as -> by lia. reflexivity.
Defined.
