(* ===== verification/Checkpoint.v ===== *)
(** * Checkpoint: the resume file, the page loaders and the verify pass

    [cp_header]/[cp_page], [load_checkpoint], [load_cimg],
    [verify_against_checkpoint], [setup_verify] and the DPI seed functions
    [loadgpr] .. [loadtlb] of sim/henry_tb.cpp.  A file is its list of bytes;
    an [fread] consumes a prefix of it.  [int64_t] fields are kept as their
    64-bit pattern.  The golden ISS's memory is PA-indexed and present only
    under --checker, hence [option mem]. *)
From S2P Require Import Prelude AddressMap GuestMem.

(** ** The packed structs *)

Record cp_tlb := CpTlb { entry_hi : Z; entry_lo0 : Z; entry_lo1 : Z; page_mask : Z; tlb_pad : Z }.
Record cp_header := CpHeader {
  cp_magic : Z; cp_pc : Z; cp_gpr : list Z; cp_hi : Z; cp_lo : Z;
  cp_cpr0 : list Z; cp_cpr0_64 : list Z; cp_cpr1 : list Z; cp_fcr1 : list Z;
  cp_tlbs : list cp_tlb; cp_icnt : Z; cp_num_pages : Z }.
Record cp_page := CpPage { pg_va : Z; pg_data : list Z }.
Definition CKPT_MAGIC : Z := 0x6d697073f5f5d005.
Definition PAGE : nat := 4096.
(** [sizeof(cp_header)] and [sizeof(cp_page)] (both packed). *)
Definition HDR_SIZE : nat := 2496.
Definition PG_SIZE : nat := 4 + PAGE.

(** Field access through the little-endian host's view of the struct. *)
Definition rd (n : nat) (s : list Z) : Z * list Z := (le_val (take n s), drop n s).
Fixpoint rd_arr (n k : nat) (s : list Z) : list Z * list Z :=
  match k with
  | O => ([], s)
  | S j => let '(v, s) := rd n s in let '(vs, s) := rd_arr n j s in (v :: vs, s)
  end.
Fixpoint rd_tlbs (k : nat) (s : list Z) : list cp_tlb * list Z :=
  match k with
  | O => ([], s)
  | S j =>
      let '(hi, s) := rd 8 s in let '(l0, s) := rd 8 s in let '(l1, s) := rd 8 s in
      let '(pm, s) := rd 4 s in let '(pd, s) := rd 4 s in
      let '(ts, s) := rd_tlbs j s in (CpTlb hi l0 l1 pm pd :: ts, s)
  end.
Definition header_of (s : list Z) : cp_header :=
  let '(magic, s) := rd 8 s in
  let '(pc, s) := rd 8 s in
  let '(gpr, s) := rd_arr 8 32 s in
  let '(hi, s) := rd 8 s in
  let '(lo, s) := rd 8 s in
  let '(cpr0, s) := rd_arr 4 32 s in
  let '(cpr0_64, s) := rd_arr 8 32 s in
  let '(cpr1, s) := rd_arr 8 32 s in
  let '(fcr1, s) := rd_arr 4 5 s in
  let '(tlb, s) := rd_tlbs 48 s in
  let '(icnt, s) := rd 8 s in
  let '(num_pages, s) := rd 4 s in
  CpHeader magic pc gpr hi lo cpr0 cpr0_64 cpr1 fcr1 tlb icnt num_pages.

(** [fread(p, n, 1, f)]: [None] when fewer than [n] bytes remain. *)
Definition fread (n : nat) (f : list Z) : option (list Z * list Z) :=
  if (n <=? length f)%nat then Some (take n f, drop n f) else None.
Definition page_of (s : list Z) : cp_page := CpPage (le_val (take 4 s)) (drop 4 s).

(** [get_raw_ptr(va)] memory of the ISS, when there is one. *)
Definition iss_put (ss : option mem) (a : Z) (bs : list Z) : option mem :=
  match ss with Some m => Some (mput_bytes m a bs) | None => None end.
Definition put_page (g : mem) (p : cp_page) : mem :=
  let '(off, bad) := fpga_map (pg_va p) in if bad then g else mput_bytes g off (pg_data p).

Inductive load_error := CannotOpen | BadCheckpoint | ShortCheckpoint | BadCimg.

(** ** The loaders *)

Fixpoint load_pages (n : nat) (f : list Z) (g : mem) (ss : option mem) : load_error + mem * option mem :=
  match n with
  | O => inr (g, ss)
  | S k =>
      match fread PG_SIZE f with
      | None => inl ShortCheckpoint
      | Some (b, f') => let p := page_of b in load_pages k f' (put_page g p) (iss_put ss (pg_va p) (pg_data p))
      end
  end.
Definition load_checkpoint (f : list Z) (g : mem) (ss : option mem) : load_error + cp_header * mem * option mem :=
  match fread HDR_SIZE f with
  | None => inl BadCheckpoint
  | Some (b, f') =>
      let h := header_of b in
      if negb (cp_magic h =? CKPT_MAGIC) then inl BadCheckpoint
      else match load_pages (Z.to_nat (cp_num_pages h)) f' g ss with
           | inl e => inl e
           | inr (g, ss) => inr (h, g, ss)
           end
  end.

(** [load_cimg]: a short page ends the loop instead of the program; returns
    [base_icnt], the [loaded] count and the memories. *)
Fixpoint cimg_pages (n : nat) (f : list Z) (loaded : Z) (g : mem) (ss : option mem) : Z * mem * option mem :=
  match n with
  | O => (loaded, g, ss)
  | S k =>
      match fread PG_SIZE f with
      | None => (loaded, g, ss)
      | Some (b, f') =>
          let p := page_of b in
          let loaded := if snd (fpga_map (pg_va p)) then loaded else loaded + 1 in
          cimg_pages k f' loaded (put_page g p) (iss_put ss (pg_va p) (pg_data p))
      end
  end.
Definition load_cimg (f : list Z) (g : mem) (ss : option mem) : load_error + Z * (Z * mem * option mem) :=
  match fread 8 f with
  | None => inl BadCimg
  | Some (b, f) =>
      match fread 4 f with
      | None => inl BadCimg
      | Some (b', f) => inr (le_val b, cimg_pages (Z.to_nat (le_val b')) f 0 g ss)
      end
  end.

(** ** Verification against an independent checkpoint *)

Record vcounts := VCounts { rtl_ok : Z; rtl_bad : Z; iss_ok : Z; iss_bad : Z }.
Definition page_eq (m : mem) (a : Z) (bs : list Z) : bool := bool_decide (mget_bytes m a (length bs) = bs).
Definition verify_page (g : mem) (ss : option mem) (p : cp_page) (c : vcounts) : vcounts :=
  let '(off, bad) := fpga_map (pg_va p) in
  let c := if bad then c
           else if page_eq g off (pg_data p) then VCounts (rtl_ok c + 1) (rtl_bad c) (iss_ok c) (iss_bad c)
           else VCounts (rtl_ok c) (rtl_bad c + 1) (iss_ok c) (iss_bad c) in
  match ss with
  | None => c
  | Some m => if page_eq m (pg_va p) (pg_data p) then VCounts (rtl_ok c) (rtl_bad c) (iss_ok c + 1) (iss_bad c)
              else VCounts (rtl_ok c) (rtl_bad c) (iss_ok c) (iss_bad c + 1)
  end.
Fixpoint verify_pages (n : nat) (f : list Z) (g : mem) (ss : option mem) (c : vcounts) : vcounts :=
  match n with
  | O => c
  | S k => match fread PG_SIZE f with
           | None => c
           | Some (b, f') => verify_pages k f' g ss (verify_page g ss (page_of b) c)
           end
  end.
Definition verify_against_checkpoint (f : list Z) (g : mem) (ss : option mem) : option vcounts :=
  match fread HDR_SIZE f with
  | None => None
  | Some (b, f') =>
      let h := header_of b in
      if negb (cp_magic h =? CKPT_MAGIC) then None
      else Some (verify_pages (Z.to_nat (cp_num_pages h)) f' g ss (VCounts 0 0 0 0))
  end.
(** [setup_verify]: [(g_verify_icnt_y, g_verify_target)], or [None] when the
    compare is disabled. *)
Definition setup_verify (f : list Z) (base_icnt : Z) : option (Z * Z) :=
  match fread HDR_SIZE f with
  | None => None
  | Some (b, _) =>
      let vh := header_of b in
      if (cp_magic vh =? CKPT_MAGIC) && (base_icnt <? cp_icnt vh)
      then Some (cp_icnt vh, cp_icnt vh - base_icnt) else None
  end.

(** ** DPI seeds *)

Section Seeds.
Variable ck : option cp_header.   (** [g_ckpt] when [g_have_ckpt] *)
Definition seed {A} (get : cp_header -> A) (dflt : A) : A := match ck with Some h => get h | None => dflt end.
Definition loadgpr (regid : Z) : Z := seed (fun h => nth (Z.to_nat (regid .& 31)) (cp_gpr h) 0) 0.
Definition loadfpr (regid : Z) : Z := seed (fun h => nth (Z.to_nat (regid .& 31)) (cp_cpr1 h) 0) 0.
Definition have_checkpoint : Z := seed (fun _ => 1) 0.
Definition loadcp0 (reg : Z) : Z := seed (fun h => nth (Z.to_nat (reg .& 31)) (cp_cpr0 h) 0) 0.
Definition loadcp0_64 (reg : Z) : Z := seed (fun h => nth (Z.to_nat (reg .& 31)) (cp_cpr0_64 h) 0) 0.
Definition loadhilo (half : Z) : Z := seed (fun h => if half =? 0 then cp_lo h else cp_hi h) 0.
Definition loadfcsr : Z := seed (fun h => nth 4 (cp_fcr1 h) 0) 0.
Definition loadtlb (entry field : Z) : Z :=
  seed (fun h =>
    match nth_error (cp_tlbs h) (Z.to_nat (entry mod 48)) with
    | Some t => if field .& 3 =? 0 then entry_hi t else if field .& 3 =? 1 then entry_lo0 t
                else if field .& 3 =? 2 then entry_lo1 t else page_mask t
    | None => 0
    end) 0.
End Seeds.

(** ** The file format, written out *)

Definition arr_bytes (n : nat) (vs : list Z) : list Z := concat (map (le_bytes n) vs).
Definition tlb_bytes (t : cp_tlb) : list Z :=
  le_bytes 8 (entry_hi t) ++ le_bytes 8 (entry_lo0 t) ++ le_bytes 8 (entry_lo1 t)
  ++ le_bytes 4 (page_mask t) ++ le_bytes 4 (tlb_pad t).
Definition header_bytes (h : cp_header) : list Z :=
  le_bytes 8 (cp_magic h) ++ le_bytes 8 (cp_pc h) ++ arr_bytes 8 (cp_gpr h) ++
  le_bytes 8 (cp_hi h) ++ le_bytes 8 (cp_lo h) ++ arr_bytes 4 (cp_cpr0 h) ++
  arr_bytes 8 (cp_cpr0_64 h) ++ arr_bytes 8 (cp_cpr1 h) ++ arr_bytes 4 (cp_fcr1 h) ++
  concat (map tlb_bytes (cp_tlbs h)) ++ le_bytes 8 (cp_icnt h) ++ le_bytes 4 (cp_num_pages h).
Definition page_bytes (p : cp_page) : list Z := le_bytes 4 (pg_va p) ++ pg_data p.
Definition ckpt_bytes (h : cp_header) (ps : list cp_page) : list Z := header_bytes h ++ concat (map page_bytes ps).
Definition cimg_bytes (icnt : Z) (ps : list cp_page) : list Z :=
  le_bytes 8 icnt ++ le_bytes 4 (Z.of_nat (length ps)) ++ concat (map page_bytes ps).

Definition tlb_ok (t : cp_tlb) : Prop :=
  is_u 64 (entry_hi t) /\ is_u 64 (entry_lo0 t) /\ is_u 64 (entry_lo1 t) /\ is_u 32 (page_mask t) /\ is_u 32 (tlb_pad t).
Record header_ok (h : cp_header) : Prop := HeaderOk {
  ok_magic : is_u 64 (cp_magic h); ok_pc : is_u 64 (cp_pc h); ok_hi : is_u 64 (cp_hi h); ok_lo : is_u 64 (cp_lo h);
  ok_icnt : is_u 64 (cp_icnt h); ok_pages : is_u 32 (cp_num_pages h);
  ok_gpr : length (cp_gpr h) = 32%nat /\ Forall (is_u 64) (cp_gpr h);
  ok_cpr0 : length (cp_cpr0 h) = 32%nat /\ Forall (is_u 32) (cp_cpr0 h);
  ok_cpr0_64 : length (cp_cpr0_64 h) = 32%nat /\ Forall (is_u 64) (cp_cpr0_64 h);
  ok_cpr1 : length (cp_cpr1 h) = 32%nat /\ Forall (is_u 64) (cp_cpr1 h);
  ok_fcr1 : length (cp_fcr1 h) = 5%nat /\ Forall (is_u 32) (cp_fcr1 h);
  ok_tlbs : length (cp_tlbs h) = 48%nat /\ Forall tlb_ok (cp_tlbs h) }.
Definition page_ok (p : cp_page) : Prop := is_u 32 (pg_va p) /\ length (pg_data p) = PAGE.

(** ** Reading back what was written *)

Lemma rd_le n v s : 0 <= v < 256 ^ Z.of_nat n -> rd n (le_bytes n v ++ s) = (v, s).
Proof.
  intros Hv. unfold rd. rewrite take_app_length', drop_app_length' by (by rewrite length_le_bytes).
  by rewrite le_val_le_bytes.
Qed.
Lemma rd8 v s : is_u 64 v -> rd 8 (le_bytes 8 v ++ s) = (v, s).
Proof. exact (rd_le 8 v s). Qed.
Lemma rd4 v s : is_u 32 v -> rd 4 (le_bytes 4 v ++ s) = (v, s).
Proof. exact (rd_le 4 v s). Qed.
Lemma rd_arr_bytes n vs s :
  Forall (fun v => 0 <= v < 256 ^ Z.of_nat n) vs -> rd_arr n (length vs) (arr_bytes n vs ++ s) = (vs, s).
Proof.
  unfold arr_bytes. induction 1 as [|v vs Hv _ IH]; [done|].
  cbn [map concat length rd_arr]. rewrite <- app_assoc, rd_le by done. by rewrite IH.
Qed.
Lemma rd_arr8 k vs s : length vs = k /\ Forall (is_u 64) vs -> rd_arr 8 k (arr_bytes 8 vs ++ s) = (vs, s).
Proof. intros [<- H]. apply rd_arr_bytes. exact H. Qed.
Lemma rd_arr4 k vs s : length vs = k /\ Forall (is_u 32) vs -> rd_arr 4 k (arr_bytes 4 vs ++ s) = (vs, s).
Proof. intros [<- H]. apply rd_arr_bytes. exact H. Qed.
Lemma rd_tlbs_bytes k ts s :
  length ts = k /\ Forall tlb_ok ts -> rd_tlbs k (concat (map tlb_bytes ts) ++ s) = (ts, s).
Proof.
  intros [<- H]. induction H as [|t ts (H1 & H2 & H3 & H4 & H5) _ IH]; [done|].
  cbn [map concat length rd_tlbs]. unfold tlb_bytes at 1.
  rewrite <- !app_assoc, !rd8, !rd4 by done. rewrite IH. by destruct t.
Qed.

Lemma header_of_bytes h s : header_ok h -> header_of (header_bytes h ++ s) = h.
Proof.
  intros []. unfold header_bytes, header_of. rewrite <- !app_assoc.
  rewrite !rd8 by done. rewrite rd_arr8 by done. rewrite !rd8 by done.
  rewrite rd_arr4 by done. rewrite !rd_arr8 by done. rewrite rd_arr4 by done.
  rewrite rd_tlbs_bytes by done. rewrite rd8 by done. rewrite rd4 by done. by destruct h.
Qed.

Lemma length_concat_map {A B} (f : A -> list B) (l : list A) n :
  (forall x, In x l -> length (f x) = n) -> length (concat (map f l)) = (length l * n)%nat.
Proof.
  induction l as [|x l IH]; intros H; [done|]. cbn [map concat length].
  rewrite length_app, (H x), IH; [lia| |by left]. intros; apply H; by right.
Qed.
Lemma length_arr_bytes n vs : length (arr_bytes n vs) = (length vs * n)%nat.
Proof. apply length_concat_map. intros; apply length_le_bytes. Qed.
Lemma length_header_bytes h : header_ok h -> length (header_bytes h) = HDR_SIZE.
Proof.
  intros [_ _ _ _ _ _ [? _] [? _] [? _] [? _] [? _] [? _]]. unfold header_bytes.
  rewrite !length_app, !length_arr_bytes, !length_le_bytes.
  rewrite (length_concat_map tlb_bytes _ 32) by done.
  repeat match goal with H : length _ = _ |- _ => rewrite H; clear H end. done.
Qed.
Lemma fread_app n bs s : length bs = n -> fread n (bs ++ s) = Some (bs, s).
Proof.
  intros <-. unfold fread. rewrite length_app. rewrite (proj2 (Nat.leb_le _ _)) by lia.
  by rewrite take_app_length, drop_app_length.
Qed.
Lemma fread_short n s : (length s < n)%nat -> fread n s = None.
Proof. intros. unfold fread. by rewrite (proj2 (Nat.leb_gt _ _)). Qed.
Lemma page_of_bytes p : page_ok p -> page_of (page_bytes p) = p.
Proof.
  intros [Hv Hl]. unfold page_of, page_bytes.
  rewrite take_app_length', drop_app_length' by (by rewrite length_le_bytes).
  rewrite le_val_le_bytes by done. by destruct p.
Qed.
Lemma length_page_bytes p : page_ok p -> length (page_bytes p) = PG_SIZE.
Proof. intros [_ Hl]. unfold page_bytes. rewrite length_app, length_le_bytes, Hl. done. Qed.

(** What the loaders do to the two memories, page by page. *)
Definition put_pages (g : mem) (ps : list cp_page) : mem := fold_left put_page ps g.
Definition iss_put_pages (ss : option mem) (ps : list cp_page) : option mem :=
  fold_left (fun s p => iss_put s (pg_va p) (pg_data p)) ps ss.

Lemma load_pages_bytes ps s g ss :
  Forall page_ok ps ->
  load_pages (length ps) (concat (map page_bytes ps) ++ s) g ss = inr (put_pages g ps, iss_put_pages ss ps).
Proof.
  intros H. revert g ss; induction H as [|p ps Hp _ IH]; intros g ss; [done|].
  cbn [map concat length load_pages]. rewrite <- app_assoc, fread_app by (by apply length_page_bytes).
  rewrite page_of_bytes by done. apply IH.
Qed.
Lemma cimg_pages_bytes ps s n g ss :
  Forall page_ok ps ->
  snd (fst (cimg_pages (length ps) (concat (map page_bytes ps) ++ s) n g ss)) = put_pages g ps /\
  snd (cimg_pages (length ps) (concat (map page_bytes ps) ++ s) n g ss) = iss_put_pages ss ps.
Proof.
  intros H. revert n g ss; induction H as [|p ps Hp _ IH]; intros n g ss; [done|].
  cbn [map concat length cimg_pages]. rewrite <- app_assoc, fread_app by (by apply length_page_bytes).
  rewrite page_of_bytes by done. apply IH.
Qed.
Lemma verify_pages_bytes ps s g ss c :
  Forall page_ok ps ->
  verify_pages (length ps) (concat (map page_bytes ps) ++ s) g ss c = fold_left (fun c p => verify_page g ss p c) ps c.
Proof.
  intros H. revert c; induction H as [|p ps Hp _ IH]; intros c; [done|].
  cbn [map concat length verify_pages]. rewrite <- app_assoc, fread_app by (by apply length_page_bytes).
  rewrite page_of_bytes by done. apply IH.
Qed.
Lemma load_pages_short ps k s g ss :
  Forall page_ok ps -> (length s < PG_SIZE)%nat -> (length ps < k)%nat ->
  load_pages k (concat (map page_bytes ps) ++ s) g ss = inl ShortCheckpoint.
Proof.
  intros H Hs. revert k g ss; induction H as [|p ps Hp _ IH]; intros [|k] g ss Hk; cbn [length] in Hk; try lia.
  - cbn [map concat app load_pages]. by rewrite fread_short.
  - cbn [map concat load_pages]. rewrite <- app_assoc, fread_app by (by apply length_page_bytes).
    rewrite page_of_bytes by done. apply IH. lia.
Qed.

(** A page always lands inside DRAM, at [fold_spec va], and nowhere else. *)
Lemma put_page_get g p x :
  page_ok p ->
  mget (put_page g p) x =
  let off := fold_spec (pg_va p) in
  if (off <=? FPGA_ADDRMASK) && (off <=? x) && (x <? off + 4096)
  then nth (Z.to_nat (x - off)) (pg_data p) 0 else mget g x.
Proof.
  intros [Hv Hl]. unfold put_page. rewrite fpga_map_eq32 by done. cbv zeta.
  destruct (FPGA_ADDRMASK <? fold_spec (pg_va p)) eqn:E; bool_props.
  - rewrite (proj2 (Z.leb_gt (fold_spec _) _)) by done. done.
  - rewrite (proj2 (Z.leb_le (fold_spec _) _)) by done. cbn [andb]. case_test; bool_props.
    + apply mget_mput_in. rewrite Hl. unfold PAGE. lia.
    + apply mget_mput_out. rewrite Hl. unfold PAGE.
      apply andb_false_iff in E0 as [E0|E0]; bool_props; lia.
Qed.

Definition in_dram (p : cp_page) : Prop := fold_spec (pg_va p) <= FPGA_ADDRMASK.
#[export] Instance in_dram_dec p : Decision (in_dram p).
Proof. unfold in_dram. apply _. Defined.
(** Two pages that claim no common DRAM byte. *)
Definition disjoint_pages (p q : cp_page) : Prop :=
  fold_spec (pg_va p) + 4096 <= fold_spec (pg_va q) \/ fold_spec (pg_va q) + 4096 <= fold_spec (pg_va p).
Definition holds_page (g : mem) (p : cp_page) : Prop :=
  mget_bytes g (fold_spec (pg_va p)) PAGE = pg_data p.
#[export] Instance holds_page_dec g p : Decision (holds_page g p).
Proof. unfold holds_page. apply _. Defined.

Lemma put_page_holds g p : page_ok p -> in_dram p -> holds_page (put_page g p) p.
Proof.
  intros [Hv Hl] Hd. unfold holds_page, put_page, in_dram in *. rewrite fpga_map_eq32 by done.
  rewrite (proj2 (Z.ltb_ge _ _)) by done. rewrite <- Hl. apply mget_bytes_mput.
Qed.
Lemma put_page_keeps g p q : page_ok p -> disjoint_pages p q -> holds_page g q -> holds_page (put_page g p) q.
Proof.
  unfold holds_page, disjoint_pages. intros Hp Hd <-. apply mget_bytes_ext. intros x Hx.
  rewrite put_page_get by done. cbv zeta. unfold PAGE in Hx. case_test; [|done]. bool_props. lia.
Qed.
Lemma put_pages_hold ps g :
  Forall page_ok ps -> ForallOrdPairs disjoint_pages ps ->
  forall p, In p ps -> in_dram p -> holds_page (put_pages g ps) p.
Proof.
  intros Hok Hdis. revert g; induction Hdis as [|q ps Hq _ IH]; intros g p Hin Hd; [done|].
  inversion_clear Hok as [|? ? Hqok Hok']. destruct Hin as [->|Hin].
  - unfold put_pages; cbn [fold_left].
    assert (holds_page (put_page g p) p) as H by (by apply put_page_holds).
    clear IH. revert H. generalize (put_page g p) as m. clear g.
    induction ps as [|q ps IHps]; intros m H; [done|]. cbn [fold_left].
    inversion_clear Hq as [|? ? Hpq Hq']. inversion_clear Hok' as [|? ? Hqo Hoks].
    apply IHps; [done|done|]. apply put_page_keeps; [done| |done].
    unfold disjoint_pages in *. lia.
  - by apply (IH Hok' (put_page g q)).
Qed.

Lemma page_eq_holds g p : length (pg_data p) = PAGE -> page_eq g (fold_spec (pg_va p)) (pg_data p) = true <-> holds_page g p.
Proof. intros Hl. unfold page_eq, holds_page. rewrite Hl. apply bool_decide_eq_true. Qed.
(** The RTL half of [verify_page], counted. *)
Lemma verify_rtl_counts g ss ps c :
  Forall page_ok ps ->
  let c' := fold_left (fun c p => verify_page g ss p c) ps c in
  rtl_ok c' + rtl_bad c' = rtl_ok c + rtl_bad c + Z.of_nat (length (filter in_dram ps)) /\
  rtl_bad c <= rtl_bad c' /\
  (rtl_bad c' = rtl_bad c <-> forall p, In p ps -> in_dram p -> holds_page g p).
Proof.
  intros Hok. revert c; induction Hok as [|p ps Hp _ IH]; intros c; cbv zeta; [change (filter in_dram []) with (@nil cp_page); cbn [fold_left length]; repeat split; (lia || done)|].
  cbn [fold_left]. specialize (IH (verify_page g ss p c)) as (Hsum & Hmono & Hiff).
  assert (exists a b, verify_page g ss p c = VCounts
    (rtl_ok c + if decide (in_dram p /\ holds_page g p) then 1 else 0)
    (rtl_bad c + if decide (in_dram p /\ ~ holds_page g p) then 1 else 0) a b) as (a & b & E).
  { unfold verify_page. rewrite fpga_map_eq32 by apply Hp. pose proof (page_eq_holds g p (proj2 Hp)) as Heq.
    assert ((FPGA_ADDRMASK <? fold_spec (pg_va p)) = negb (bool_decide (in_dram p))) as ->.
    { unfold in_dram. rewrite Z.ltb_antisym. f_equal. apply eq_bool_prop_intro.
      by rewrite bool_decide_spec, Is_true_true, Z.leb_le. }
    assert (page_eq g (fold_spec (pg_va p)) (pg_data p) = bool_decide (holds_page g p)) as ->.
    { apply eq_bool_prop_intro. by rewrite bool_decide_spec, Is_true_true. }
    clear Heq Hsum Hmono Hiff. repeat case_bool_decide; cbn [negb];
      repeat case_decide; try (exfalso; tauto); destruct c, ss; cbn -[page_eq]; try case_test;
      rewrite ?Z.add_0_r; eexists _, _; reflexivity. }
  rewrite E in Hsum, Hmono, Hiff |- *. cbn [rtl_ok rtl_bad] in Hsum, Hmono, Hiff.
  rewrite filter_cons.
  assert (forall P, (forall q, In q (p :: ps) -> in_dram q -> P q) <->
                    (in_dram p -> P p) /\ (forall q, In q ps -> in_dram q -> P q)) as Hall.
  { intros P. cbn [In]. split; [intros H; split; [apply H; by left|intros; apply H; [by right|done]]|].
    intros [H1 H2] q [->|Hq]; auto. }
  rewrite (Hall (holds_page g)). clear Hall E.
  repeat case_decide; try (exfalso; tauto); cbn [length] in *; rewrite ?Z.add_0_r in *;
    split; try lia; split; try lia; first [tauto | split; [intros; exfalso; lia | tauto]].
Qed.

(** ** Properties *)

(** The happy path of [load_checkpoint]. *)
Lemma load_checkpoint_bytes h ps tail g ss :
  header_ok h -> cp_magic h = CKPT_MAGIC -> Forall page_ok ps -> cp_num_pages h = Z.of_nat (length ps) ->
  load_checkpoint (ckpt_bytes h ps ++ tail) g ss = inr (h, put_pages g ps, iss_put_pages ss ps).
Proof.
  intros Hh Hm Hps Hn. unfold load_checkpoint, ckpt_bytes. rewrite <- app_assoc.
  rewrite fread_app by (by apply length_header_bytes).
  rewrite <- (app_nil_r (header_bytes h)), header_of_bytes, Hm by done.
  change (negb (CKPT_MAGIC =? CKPT_MAGIC)) with false.
  by rewrite Hn, Nat2Z.id, load_pages_bytes.
Qed.

(** C21.  [load_checkpoint] reads back exactly what the checkpoint format holds:
    every header field, and the pages in file order into DRAM and into the
    ISS's memory; bytes after the last page are ignored, and a file cut inside
    a page is refused. *)
Theorem load_checkpoint_roundtrip (h : cp_header) (ps : list cp_page) (tail : list Z) (g : mem) (ss : option mem) :
  header_ok h -> cp_magic h = CKPT_MAGIC -> Forall page_ok ps ->
  (cp_num_pages h = Z.of_nat (length ps) ->
     load_checkpoint (ckpt_bytes h ps ++ tail) g ss = inr (h, put_pages g ps, iss_put_pages ss ps)) /\
  (Z.of_nat (length ps) < cp_num_pages h -> (length tail < PG_SIZE)%nat ->
     load_checkpoint (ckpt_bytes h ps ++ tail) g ss = inl ShortCheckpoint).
Proof.
  intros Hh Hm Hps. split; [by apply load_checkpoint_bytes|]. intros Hn Ht.
  unfold load_checkpoint, ckpt_bytes. rewrite <- app_assoc, fread_app by (by apply length_header_bytes).
  rewrite <- (app_nil_r (header_bytes h)), header_of_bytes, Hm by done.
  change (negb (CKPT_MAGIC =? CKPT_MAGIC)) with false.
  by rewrite load_pages_short by (done || lia).
Qed.
Definition sample_header (npages : Z) : cp_header :=
  CpHeader CKPT_MAGIC 0x8801964c (map Z.of_nat (seq 0 32)) 7 9 (repeat 0 32) (repeat 0 32) (repeat 0 32)
    (repeat 0 5) (repeat (CpTlb 0x2000 0x40 0x41 0 0) 48) 123456 npages.
Definition sample_page (va b : Z) : cp_page := CpPage va (repeat b PAGE).
Lemma sample_header_ok npages : is_u 32 npages -> header_ok (sample_header npages).
Proof.
  intros Hn. constructor; cbn [sample_header cp_magic cp_pc cp_hi cp_lo cp_icnt cp_num_pages cp_gpr cp_cpr0
    cp_cpr0_64 cp_cpr1 cp_fcr1 cp_tlbs]; try done; (split; [by rewrite ?length_map, ?length_seq, ?repeat_length|]);
    apply List.Forall_forall; intros x Hx; try (apply repeat_spec in Hx; by subst).
  apply in_map_iff in Hx as (i & <- & Hi). apply in_seq in Hi. unfold is_u. lia.
Qed.
Lemma sample_page_ok va b : is_u 32 va -> page_ok (sample_page va b).
Proof. intros. split; [done|apply repeat_length]. Qed.
Lemma sample_pages_ok : Forall page_ok [sample_page 0x08001000 1; sample_page 0x1fc00000 2].
Proof. constructor; [|constructor; [|constructor]]; apply sample_page_ok; by vm_compute. Qed.
Lemma load_checkpoint_roundtrip_witness :
  load_checkpoint (ckpt_bytes (sample_header 2) [sample_page 0x08001000 1; sample_page 0x1fc00000 2]) ∅ None =
  inr (sample_header 2, put_pages ∅ [sample_page 0x08001000 1; sample_page 0x1fc00000 2], None).
Proof.
  rewrite <- (app_nil_r (ckpt_bytes _ _)).
  refine (proj1 (load_checkpoint_roundtrip (sample_header 2) [sample_page 0x08001000 1; sample_page 0x1fc00000 2]
            [] ∅ None (sample_header_ok 2 ltac:(by vm_compute)) eq_refl sample_pages_ok) eq_refl).
Defined.

(** The preamble path seeds memory exactly like the checkpoint path: the
    .cimg of a checkpoint's pages leaves DRAM and the ISS's memory identical to
    [load_checkpoint], and records the same base instruction count. *)
Theorem load_cimg_equiv_checkpoint (h : cp_header) (ps : list cp_page) (g : mem) (ss : option mem) :
  header_ok h -> cp_magic h = CKPT_MAGIC -> Forall page_ok ps -> cp_num_pages h = Z.of_nat (length ps) ->
  exists loaded g' ss',
    load_cimg (cimg_bytes (cp_icnt h) ps) g ss = inr (cp_icnt h, (loaded, g', ss')) /\
    load_checkpoint (ckpt_bytes h ps) g ss = inr (h, g', ss').
Proof.
  intros Hh Hm Hps Hn.
  rewrite <- (app_nil_r (ckpt_bytes h ps)), load_checkpoint_bytes by done.
  unfold load_cimg, cimg_bytes. rewrite fread_app by apply length_le_bytes.
  rewrite fread_app by apply length_le_bytes.
  rewrite !le_val_le_bytes by (first [apply (ok_icnt h Hh) | rewrite <- Hn; apply (ok_pages h Hh)]).
  rewrite Nat2Z.id. destruct (cimg_pages_bytes ps [] 0 g ss Hps) as [E1 E2].
  rewrite app_nil_r in E1, E2. destruct (cimg_pages _ _ _ _ _) as [[n g'] ss'].
  cbn [fst snd] in E1, E2. subst. eauto.
Qed.
Lemma load_cimg_equiv_checkpoint_witness :
  exists loaded g' ss',
    load_cimg (cimg_bytes 123456 [sample_page 0x08001000 1]) ∅ (Some ∅) = inr (123456, (loaded, g', ss')) /\
    load_checkpoint (ckpt_bytes (sample_header 1) [sample_page 0x08001000 1]) ∅ (Some ∅) =
      inr (sample_header 1, g', ss').
Proof.
  apply (load_cimg_equiv_checkpoint (sample_header 1) [sample_page 0x08001000 1] ∅ (Some ∅)
    (sample_header_ok 1 ltac:(by vm_compute)) eq_refl); [|reflexivity].
  constructor; [|constructor]. apply sample_page_ok. by vm_compute.
Defined.

(** C22.  The echo-free compare is exact: every in-range page is counted once,
    no MISMATCH is reported iff DRAM holds every in-range page byte for byte,
    and right after loading a checkpoint whose pages do not overlap in DRAM the
    compare against that same file is clean. *)
Theorem verify_against_checkpoint_exact (h : cp_header) (ps : list cp_page) (g : mem) (ss : option mem) :
  header_ok h -> cp_magic h = CKPT_MAGIC -> Forall page_ok ps -> cp_num_pages h = Z.of_nat (length ps) ->
  exists c, verify_against_checkpoint (ckpt_bytes h ps) g ss = Some c /\
    rtl_ok c + rtl_bad c = Z.of_nat (length (filter in_dram ps)) /\
    (rtl_bad c = 0 <-> forall p, In p ps -> in_dram p -> holds_page g p) /\
    (forall g0, ForallOrdPairs disjoint_pages ps -> g = put_pages g0 ps -> rtl_bad c = 0).
Proof.
  intros Hh Hm Hps Hn. unfold verify_against_checkpoint, ckpt_bytes.
  rewrite fread_app by (by apply length_header_bytes).
  rewrite <- (app_nil_r (header_bytes h)), header_of_bytes, Hm by done.
  change (negb (CKPT_MAGIC =? CKPT_MAGIC)) with false. rewrite Hn, Nat2Z.id.
  rewrite <- (app_nil_r (concat _)), verify_pages_bytes by done.
  destruct (verify_rtl_counts g ss ps (VCounts 0 0 0 0) Hps) as (Hsum & _ & Hiff).
  eexists. split; [done|]. split; [rewrite Hsum; done|]. split; [done|].
  intros g0 Hdis ->. apply Hiff. intros p Hp Hd. by apply put_pages_hold.
Qed.
Lemma verify_against_checkpoint_exact_witness :
  exists c, verify_against_checkpoint (ckpt_bytes (sample_header 2) [sample_page 0x08001000 1; sample_page 0x1fc00000 2])
      (put_pages ∅ [sample_page 0x08001000 1; sample_page 0x1fc00000 2]) None = Some c /\ rtl_bad c = 0.
Proof.
  destruct (verify_against_checkpoint_exact (sample_header 2) [sample_page 0x08001000 1; sample_page 0x1fc00000 2]
    (put_pages ∅ [sample_page 0x08001000 1; sample_page 0x1fc00000 2]) None
    (sample_header_ok 2 ltac:(by vm_compute)) eq_refl sample_pages_ok eq_refl) as (c & Hc & _ & _ & Hz).
  exists c. split; [exact Hc|]. apply (Hz ∅); [|reflexivity].
  constructor; [constructor; [|constructor]|constructor; [constructor|constructor]].
  left. apply Z.leb_le. vm_compute. reflexivity.
Defined.

(** The checkpoint loaders skip the System Memory Alias that the core's
    memory path (and [load_elf_be32]/[load_blob]) applies: a page of the low
    512 KB leaves unchanged every byte the core reads when it accesses that
    page. *)
Theorem checkpoint_low_page_unseen (g : mem) (p : cp_page) (i : Z) :
  page_ok p -> 0 <= i -> pg_va p + i < 0x80000 -> pg_va p + 4096 <= 0x80000 ->
  let core := fst (fpga_map (memory_alias (pg_va p + i))) in
  core = 0x08000000 + pg_va p + i /\ mget (put_page g p) core = mget g core.
Proof.
  intros Hp Hi Hlow Hpg. destruct Hp as [Hv Hl]. unfold is_u in Hv. cbv zeta.
  rewrite memory_alias_spec by lia. rewrite (proj2 (Z.ltb_lt _ _)) by lia. rewrite fpga_map_spec by (apply is_u32_29; lia).
  assert (fold_spec (pg_va p + i + 0x08000000) = 0x08000000 + pg_va p + i) as -> by fold_cases.
  split; [done|]. rewrite put_page_get by done. cbv zeta.
  assert (fold_spec (pg_va p) = pg_va p) as -> by fold_cases.
  case_test; [|done]. bool_props. lia.
Qed.
Lemma checkpoint_low_page_unseen_witness :
  mget (put_page ∅ (sample_page 0 5)) 0x08000180 = 0.
Proof.
  exact (proj2 (checkpoint_low_page_unseen ∅ (sample_page 0 5) 0x180
    (sample_page_ok 0 5 ltac:(by vm_compute)) ltac:(done) ltac:(done) ltac:(done))).
Defined.
