(* ===== verification/StoreCheck.v ===== *)
(** * StoreCheck: the committed-store comparison of the lockstep checker

    [wr_log], [drain_store_check] and the per-cycle use of [g_store_diverged]
    in sim/henry_tb.cpp.  The two deques are lists, front first; the printed
    reports are the [sc_event]s. *)
From S2P Require Import Prelude.

Record store_rec := StoreRec { st_pc : Z; st_addr : Z; st_data : Z }.
#[export] Instance store_rec_eq_dec : EqDecision store_rec.
Proof. solve_decision. Defined.

(** [((uint32_t)i.pc) == ((uint32_t)r.pc) && i.addr == r.addr && i.data == r.data] *)
Definition store_agree (i r : store_rec) : bool :=
  (u32 (st_pc i) =? u32 (st_pc r)) && (st_addr i =? st_addr r) && (st_data i =? st_data r).

Inductive sc_event :=
  | RootStoreDivergence (i r : store_rec) (iss_depth rtl_depth : nat)
  | ReportsCapped (n : Z)
  | StoreDivergence.

Record sc_state := ScState {
  iss_stores : list store_rec; rtl_stores : list store_rec;
  store_diverged : bool;
  sc_n : Z; sc_next : Z;        (** function statics of [drain_store_check] *)
  sc_lines : Z }.               (** the static [n] of the "[STORE-CHECK] store divergence" line *)
Definition sc_init : sc_state := ScState [] [] false 0 1000000 0.

(** [wr_log]'s push; [g_checker] gates it. *)
Definition wr_log (checker : bool) (s : store_rec) (st : sc_state) : sc_state :=
  if checker then ScState (iss_stores st) (rtl_stores st ++ [s]) (store_diverged st) (sc_n st) (sc_next st) (sc_lines st)
  else st.
(** A store executed by the ISS. *)
Definition iss_store (s : store_rec) (st : sc_state) : sc_state :=
  ScState (iss_stores st ++ [s]) (rtl_stores st) (store_diverged st) (sc_n st) (sc_next st) (sc_lines st).

(** The pop loop: equal fronts are popped; a mismatch leaves them in place. *)
Fixpoint drain_fronts (iq rq : list store_rec) : list store_rec * list store_rec * option (store_rec * store_rec) :=
  match iq, rq with
  | i :: iq', r :: rq' => if store_agree i r then drain_fronts iq' rq' else (iq, rq, Some (i, r))
  | _, _ => (iq, rq, None)
  end.

Section Drain.
Variable sc_max : Z.          (** SCMAX, default 200 *)
Variable no_sc_stop : bool.   (** NOSTORECHECK *)

Definition drain_store_check (st : sc_state) : sc_state * list sc_event :=
  let '(iq, rq, mis) := drain_fronts (iss_stores st) (rtl_stores st) in
  match mis with
  | None => (ScState iq rq (store_diverged st) (sc_n st) (sc_next st) (sc_lines st), [])
  | Some (i, r) =>
      let n := sc_n st + 1 in
      if sc_max <? n then
        if sc_next st <=? n
        then (ScState iq rq true n (sc_next st + 1000000) (sc_lines st), [ReportsCapped n])
        else (ScState iq rq true n (sc_next st) (sc_lines st), [])
      else (ScState iq rq true n (sc_next st) (sc_lines st), [RootStoreDivergence i r (length iq) (length rq)])
  end.

(** The main loop's reaction: [true] means [break]. *)
Definition store_check_cycle (st : sc_state) : sc_state * list sc_event * bool :=
  let '(st, ev) := drain_store_check st in
  if store_diverged st then
    let n := if no_sc_stop then sc_lines st + 1 else sc_lines st in
    let line := if negb no_sc_stop || (n <=? 200) then [StoreDivergence] else [] in
    if negb no_sc_stop then (ScState (iss_stores st) (rtl_stores st) true (sc_n st) (sc_next st) n, ev ++ line, true)
    else (ScState (iss_stores st) (rtl_stores st) false (sc_n st) (sc_next st) n, ev ++ line, false)
  else (st, ev, false).
End Drain.

(** ** Schedules *)

Inductive sc_op := PushIss (s : store_rec) | PushRtl (s : store_rec) | Drain.
Definition sc_step (sc_max : Z) (no_sc_stop : bool) (st : sc_state * bool) (op : sc_op) : sc_state * bool :=
  let '(s, stopped) := st in
  if stopped then st else
  match op with
  | PushIss x => (iss_store x s, false)
  | PushRtl x => (wr_log true x s, false)
  | Drain => let '(s', _, stop) := store_check_cycle sc_max no_sc_stop s in (s', stop)
  end.
Definition sc_run (sc_max : Z) (no_sc_stop : bool) (ops : list sc_op) : sc_state * bool :=
  fold_left (sc_step sc_max no_sc_stop) ops (sc_init, false).
Definition iss_pushes (ops : list sc_op) : list store_rec :=
  omap (fun op => match op with PushIss s => Some s | _ => None end) ops.
Definition rtl_pushes (ops : list sc_op) : list store_rec :=
  omap (fun op => match op with PushRtl s => Some s | _ => None end) ops.

Definition drains (ops : list sc_op) : nat := length (omap (fun op => match op with Drain => Some tt | _ => None end) ops).

(** Specification: two records describe the same store; the two program-order
    streams disagree at some position both have reached. *)
Definition same_store (i r : store_rec) : Prop :=
  st_pc i mod 2 ^ 32 = st_pc r mod 2 ^ 32 /\ st_addr i = st_addr r /\ st_data i = st_data r.
Definition streams_disagree (I R : list store_rec) : Prop :=
  exists k i r, I !! k = Some i /\ R !! k = Some r /\ ~ same_store i r.
Lemma store_agree_spec i r : store_agree i r = true <-> same_store i r.
Proof. unfold store_agree, same_store, u32. rewrite !andb_true_iff, !Z.eqb_eq. tauto. Qed.
Lemma store_agree_false i r : store_agree i r = false <-> ~ same_store i r.
Proof. rewrite <- store_agree_spec. by destruct (store_agree i r). Qed.

Lemma drain_fronts_spec iq rq iq' rq' mis :
  drain_fronts iq rq = (iq', rq', mis) ->
  exists k, iq' = drop k iq /\ rq' = drop k rq /\ (k <= length iq)%nat /\ (k <= length rq)%nat /\
    (forall j i r, (j < k)%nat -> iq !! j = Some i -> rq !! j = Some r -> store_agree i r = true) /\
    match mis with
    | Some (i, r) => iq !! k = Some i /\ rq !! k = Some r /\ store_agree i r = false
    | None => iq' = [] \/ rq' = []
    end.
Proof.
  revert rq iq' rq' mis; induction iq as [|i iq IH]; intros [|r rq] iq' rq' mis; cbn [drain_fronts].
  1-3: intros [= <- <- <-]; exists 0%nat; split_and!; try done; try (intros; lia); try (cbn; lia); (by left) || (by right).
  destruct (store_agree i r) eqn:E.
  - intros H. destruct (IH _ _ _ _ H) as (k & -> & -> & ? & ? & Hag & Hm). exists (S k). split_and!; try done; try (cbn; lia).
    intros [|j] i0 r0 Hj; cbn; [by intros [= ->] [= ->]|]. apply Hag. lia.
  - intros [= <- <- <-]. exists 0%nat. split_and!; try done; try (cbn; lia).
Qed.

(** What the cycle does, in terms of the queues only. *)
Lemma store_check_cycle_queues sc_max nostop st st' ev stop :
  store_check_cycle sc_max nostop st = (st', ev, stop) -> store_diverged st = false ->
  exists mis, drain_fronts (iss_stores st) (rtl_stores st) = (iss_stores st', rtl_stores st', mis) /\
    stop = (negb nostop && bool_decide (is_Some mis)) /\ store_diverged st' = stop.
Proof.
  unfold store_check_cycle, drain_store_check. intros H Hd.
  destruct (drain_fronts _ _) as [[iq rq] mis]. exists mis.
  destruct mis as [[i r]|]; [|rewrite Hd in H; cbn in H; injection H as <- <- <-; by rewrite andb_false_r].
  assert (exists m n l, (if sc_max <? sc_n st + 1
     then if sc_next st <=? sc_n st + 1
       then (ScState iq rq true (sc_n st + 1) (sc_next st + 1000000) (sc_lines st), [ReportsCapped (sc_n st + 1)])
       else (ScState iq rq true (sc_n st + 1) (sc_next st) (sc_lines st), [])
     else (ScState iq rq true (sc_n st + 1) (sc_next st) (sc_lines st), [RootStoreDivergence i r (length iq) (length rq)]))
     = (ScState iq rq true m n (sc_lines st), l)) as (m & n & l & E) by (repeat case_test; eauto).
  rewrite E in H. cbn in H. destruct nostop; cbn in H; injection H as <- <- <-; done.
Qed.

(** Between drains the queues are the not-yet-compared suffixes of the streams. *)
Definition sc_inv (I R : list store_rec) (st : sc_state) (k : nat) : Prop :=
  iss_stores st = drop k I /\ rtl_stores st = drop k R /\
  (k <= length I)%nat /\ (k <= length R)%nat /\
  (forall j i r, (j < k)%nat -> I !! j = Some i -> R !! j = Some r -> store_agree i r = true).

Lemma lookup_app_agree (I R : list store_rec) k x :
  (forall j i r, (j < k)%nat -> I !! j = Some i -> R !! j = Some r -> store_agree i r = true) ->
  (k <= length I)%nat -> (k <= length R)%nat ->
  (forall j i r, (j < k)%nat -> (I ++ [x]) !! j = Some i -> R !! j = Some r -> store_agree i r = true) /\
  (forall j i r, (j < k)%nat -> I !! j = Some i -> (R ++ [x]) !! j = Some r -> store_agree i r = true).
Proof. intros H HI HR. split; intros j i r Hj; rewrite ?lookup_app_l by lia; by apply H. Qed.

Lemma sc_inv_iss I R st k xs :
  sc_inv I R st k -> sc_inv (I ++ xs) R (foldl (fun st x => iss_store x st) st xs) k.
Proof.
  revert I st; induction xs as [|x xs IH]; intros I st H; cbn [foldl]; [by rewrite app_nil_r|].
  replace (I ++ x :: xs) with ((I ++ [x]) ++ xs) by (by rewrite <- app_assoc). apply IH.
  destruct H as (HI & HR & H1 & H2 & Hag). unfold sc_inv, iss_store; cbn [iss_stores rtl_stores].
  rewrite drop_app_le, length_app, HI by done. split_and!; try done; try lia. by apply lookup_app_agree.
Qed.
Lemma sc_inv_rtl I R st k xs :
  sc_inv I R st k -> sc_inv I (R ++ xs) (foldl (fun st x => wr_log true x st) st xs) k.
Proof.
  revert R st; induction xs as [|x xs IH]; intros R st H; cbn [foldl]; [by rewrite app_nil_r|].
  replace (R ++ x :: xs) with ((R ++ [x]) ++ xs) by (by rewrite <- app_assoc). apply IH.
  destruct H as (HI & HR & H1 & H2 & Hag). unfold sc_inv, wr_log; cbn [iss_stores rtl_stores].
  rewrite drop_app_le, length_app, HR by done. split_and!; try done; try lia. by apply lookup_app_agree.
Qed.
(** A drain stops exactly on a disagreement of the streams, and otherwise keeps
    the invariant. *)
Lemma sc_inv_drain I R sc_max st k st' ev stop :
  sc_inv I R st k -> store_diverged st = false -> store_check_cycle sc_max false st = (st', ev, stop) ->
  if stop then streams_disagree I R
  else store_diverged st' = false /\ (exists k', sc_inv I R st' k') /\ ~ streams_disagree I R.
Proof.
  intros (HI & HR & Hk1 & Hk2 & Hag) Hd E.
  destruct (store_check_cycle_queues _ _ _ _ _ _ E Hd) as (mis & Hf & -> & Hd').
  destruct (drain_fronts_spec _ _ _ _ _ Hf) as (n & Hi' & Hr' & Hn1 & Hn2 & Hag' & Hm).
  rewrite HI in Hi', Hag', Hm, Hn1. rewrite HR in Hr', Hag', Hm, Hn2. rewrite length_drop in Hn1, Hn2.
  rewrite Hi', Hr' in Hm. rewrite !drop_drop in *.
  assert (Hall : forall j i r, (j < k + n)%nat -> I !! j = Some i -> R !! j = Some r -> store_agree i r = true).
  { intros j i r Hj Hji Hjr. destruct (decide (j < k)%nat); [by eapply Hag|].
    apply (Hag' (j - k)%nat); [lia| |]; rewrite lookup_drop; by replace (k + (j - k))%nat with j by lia. }
  destruct mis as [[i r]|]; cbn in Hd' |- *.
  - exists (k + n)%nat, i, r. by rewrite <- !lookup_drop, <- store_agree_false.
  - split; [done|]. split; [exists (k + n)%nat; unfold sc_inv; rewrite Hi', Hr'; split_and!; try done; lia|].
    intros (j & i & r & Hji & Hjr & Hne). apply store_agree_false in Hne.
    pose proof (lookup_lt_Some _ _ _ Hji). pose proof (lookup_lt_Some _ _ _ Hjr).
    rewrite (Hall j i r) in Hne; [done| |done|done].
    destruct Hm as [Hm|Hm]; apply (f_equal length) in Hm; rewrite length_drop in Hm; cbn in Hm; lia.
Qed.
Lemma streams_disagree_app I R I' R' : streams_disagree I R -> streams_disagree (I ++ I') (R ++ R').
Proof.
  intros (k & i & r & Hi & Hr & Ha). exists k, i, r.
  by rewrite (lookup_app_l_Some _ _ _ _ Hi), (lookup_app_l_Some _ _ _ _ Hr).
Qed.
Lemma sc_inv_init : sc_inv [] [] sc_init 0.
Proof. unfold sc_inv. cbn. split_and!; try done; lia. Qed.

Lemma sc_run_inv sc_max ops :
  let '(st, stopped) := sc_run sc_max false ops in
  if stopped then streams_disagree (iss_pushes ops) (rtl_pushes ops)
  else store_diverged st = false /\ exists k, sc_inv (iss_pushes ops) (rtl_pushes ops) st k.
Proof.
  unfold sc_run. induction ops as [|op ops IH] using rev_ind; [split; [done|]; exists 0%nat; exact sc_inv_init|].
  rewrite fold_left_app. cbn [fold_left]. destruct (fold_left _ ops _) as [st stopped].
  unfold iss_pushes, rtl_pushes in *. rewrite !omap_app.
  destruct stopped; cbn [sc_step]; [by apply streams_disagree_app|].
  destruct IH as (Hd & k & H). destruct op as [x|x|]; cbn [omap list_omap]; rewrite ?app_nil_r.
  - split; [done|]. exists k. exact (sc_inv_iss _ _ _ _ [x] H).
  - split; [done|]. exists k. exact (sc_inv_rtl _ _ _ _ [x] H).
  - destruct (store_check_cycle sc_max false st) as [[st' ev] stop] eqn:E.
    pose proof (sc_inv_drain _ _ _ _ _ _ _ _ H Hd E) as P. destruct stop; tauto.
Qed.

(** ** Properties *)

(** C6.  The store check is exact and independent of interleaving: however the
    ISS's and the RTL's stores and the drains are interleaved, a run that ends
    with a drain has stopped iff the two program-order store streams disagree
    (pc, full address or data) at some position both have reached. *)
Theorem store_check_exact (sc_max : Z) (ops : list sc_op) :
  snd (sc_run sc_max false (ops ++ [Drain])) = true <->
  streams_disagree (iss_pushes ops) (rtl_pushes ops).
Proof.
  pose proof (sc_run_inv sc_max ops) as H. unfold sc_run in *. rewrite fold_left_app. cbn [fold_left].
  destruct (fold_left _ ops _) as [st stopped]. destruct stopped; cbn [sc_step snd]; [done|].
  destruct H as (Hd & k & H). destruct (store_check_cycle sc_max false st) as [[st' ev] stop] eqn:E.
  pose proof (sc_inv_drain _ _ _ _ _ _ _ _ H Hd E) as P. cbn [snd]. destruct stop; [done|]. split; [done|tauto].
Qed.

(** Under NOSTORECHECK one divergence jams the comparison: the mismatching
    fronts are never popped, so whatever the two sides store afterwards the
    same pair stays in front, no later store is ever compared, and every drain
    counts a fresh divergence. *)
Theorem nostorecheck_jams (sc_max : Z) (i r : store_rec) (I R : list store_rec) (n nx l : Z) (ops : list sc_op) :
  store_agree i r = false ->
  let '(st, stopped) :=
    fold_left (sc_step sc_max true) ops (ScState (i :: I) (r :: R) false n nx l, false) in
  stopped = false /\
  iss_stores st = i :: I ++ iss_pushes ops /\ rtl_stores st = r :: R ++ rtl_pushes ops /\
  sc_n st = n + Z.of_nat (drains ops).
Proof.
  intros Ha. revert I R n nx l; induction ops as [|op ops IH]; intros I R n nx l.
  { cbn. rewrite !app_nil_r. split_and!; try done. lia. }
  cbn [fold_left]. destruct op as [x|x|]; cbn [sc_step].
  - specialize (IH (I ++ [x]) R n nx l). unfold iss_store; cbn [iss_stores rtl_stores store_diverged sc_n sc_next sc_lines app].
    destruct (fold_left _ ops _) as [st stopped]. destruct IH as (? & -> & -> & ->).
    by rewrite <- app_assoc.
  - specialize (IH I (R ++ [x]) n nx l). unfold wr_log; cbn [iss_stores rtl_stores store_diverged sc_n sc_next sc_lines app].
    destruct (fold_left _ ops _) as [st stopped]. destruct IH as (? & -> & -> & ->).
    by rewrite <- app_assoc.
  - assert (exists nx' l' ev, store_check_cycle sc_max true (ScState (i :: I) (r :: R) false n nx l) =
      (ScState (i :: I) (r :: R) false (n + 1) nx' l', ev, false)) as (nx' & l' & ev & E).
    { unfold store_check_cycle, drain_store_check. cbn [iss_stores rtl_stores drain_fronts]. rewrite Ha.
      cbn [sc_n sc_next sc_lines]. destruct (sc_max <? n + 1); [destruct (nx <=? n + 1)|];
        cbn [sc_n sc_next sc_lines iss_stores rtl_stores store_diverged negb]; eexists _, _, _; reflexivity. }
    rewrite E. specialize (IH I R (n + 1) nx' l').
    destruct (fold_left _ ops _) as [st stopped]. destruct IH as (? & ? & ? & ->).
    split_and!; try done. unfold drains. cbn [omap list_omap length]. lia.
Qed.
Lemma nostorecheck_jams_witness :
  let '(st, stopped) :=
    fold_left (sc_step 200 true) [Drain; PushIss (StoreRec 8 16 2); PushRtl (StoreRec 8 16 2); Drain]
      (ScState [StoreRec 4 8 1] [StoreRec 4 8 3] false 0 1000000 0, false) in
  stopped = false /\ length (iss_stores st) = 2%nat /\ sc_n st = 2.
Proof.
  pose proof (nostorecheck_jams 200 (StoreRec 4 8 1) (StoreRec 4 8 3) [] [] 0 1000000 0
    [Drain; PushIss (StoreRec 8 16 2); PushRtl (StoreRec 8 16 2); Drain] eq_refl) as H.
  revert H. generalize (fold_left (sc_step 200 true) [Drain; PushIss (StoreRec 8 16 2); PushRtl (StoreRec 8 16 2); Drain]
      (ScState [StoreRec 4 8 1] [StoreRec 4 8 3] false 0 1000000 0, false)).
  intros [st stopped] (H1 & H2 & _ & H3). rewrite H2, H3. split; [exact H1|]. split; reflexivity.
Defined.
