(* ===== verification/TlbMirror.v ===== *)
(** * TlbMirror: the RTL TLB-write hook

    [tlb_wr_log] of sim/henry_tb.cpp: the TLBWRLOG record, the TLBDUP shadow of
    the 48 entries with its duplicate scan, and the FIFO of writes the checker
    later applies to the golden ISS. *)
From S2P Require Import Prelude.

Record tlb_entry := TlbEntry { te_hi : Z; te_lo0 : Z; te_lo1 : Z }.
Record pend_tlb_t := PendTlb { pt_idx : Z; pt_ehi : Z; pt_elo0 : Z; pt_elo1 : Z; pt_pm : Z }.
Record tlbwr_rec_t := TlbwrRec { tw_cyc : Z; tw_ehi : Z; tw_elo0 : Z; tw_elo1 : Z; tw_entry : Z; tw_pm : Z }.

Definition vpn2 (e : Z) : Z := (e .>> 13) .& 0x7ffffff.
Definition rfld (e : Z) : Z := (e .>> 62) .& 3.
Definition asid (e : Z) : Z := e .& 0xff.
Definition glob (e : tlb_entry) : bool := negb (te_lo0 e .& 1 =? 0) && negb (te_lo1 e .& 1 =? 0).
Definition vld (e : tlb_entry) : bool :=
  negb ((te_lo0 e .>> 1) .& 1 =? 0) || negb ((te_lo1 e .>> 1) .& 1 =? 0).
(** The test of the scan: written entry [n] against the shadowed entry [o]. *)
Definition va_match (n o : tlb_entry) : bool :=
  (vpn2 (te_hi o) =? vpn2 (te_hi n)) && (rfld (te_hi o) =? rfld (te_hi n)).
Definition as_match (n o : tlb_entry) : bool := (asid (te_hi o) =? asid (te_hi n)) || (glob o && glob n).
Definition dup_pair (n o : tlb_entry) : bool := va_match n o && as_match n o && vld n && vld o.

(** [m_ehi]/[m_elo0]/[m_elo1]/[m_wr]: slot [j] is [None] until written. *)
Record tlb_mirror := TlbMirror {
  shadow : list (option tlb_entry); n_wr : Z;
  wr_recs : list tlbwr_rec_t;          (** the TLBWRLOG file *)
  pend_tlb : list pend_tlb_t }.        (** [g_pend_tlb], front first *)
Definition mirror_init : tlb_mirror := TlbMirror (repeat None 48) 0 [] [].

(** The slots reported as duplicates of the entry just written. *)
Definition dup_scan (m : list (option tlb_entry)) (entry : nat) (n : tlb_entry) : list nat :=
  List.filter (fun j => negb (j =? entry)%nat &&
    match m !! j with Some (Some o) => dup_pair n o | _ => false end) (seq 0 48).

Definition tlb_wr_log (wrlog tdup checker : bool) (cyc entry ehi elo0 elo1 pm : Z) (m : tlb_mirror)
    : tlb_mirror * list nat :=
  let recs := if wrlog then wr_recs m ++ [TlbwrRec cyc ehi elo0 elo1 (u32 entry) (u32 pm)] else wr_recs m in
  let '(sh, n, dups) :=
    if tdup && (0 <=? entry) && (entry <? 48) then
      let e := TlbEntry ehi elo0 elo1 in
      let sh := <[Z.to_nat entry := Some e]> (shadow m) in
      (sh, n_wr m + 1, dup_scan sh (Z.to_nat entry) e)
    else (shadow m, n_wr m, []) in
  (TlbMirror sh n recs
     (if checker then pend_tlb m ++ [PendTlb entry ehi elo0 elo1 (u32 (pm .<< 13))] else pend_tlb m), dups).

(** ** Specification: what the MIPS TLB matches *)

(** An access is a region, a VPN2 and the current ASID.  An entry matches the VPN2 bits
    its PageMask leaves: [~pagemask[11:0]] below fifteen ones. *)
Record access := Access { ac_r : Z; ac_vpn2 : Z; ac_asid : Z }.
Definition page_mask (pm : Z) : Z := Z.ldiff 0x7ffffff (pm .& 0xfff).
Definition hits (pm : Z) (e : tlb_entry) (a : access) : bool :=
  (rfld (te_hi e) =? ac_r a) && ((vpn2 (te_hi e) .^ ac_vpn2 a) .& page_mask pm =? 0) &&
  (glob e || (asid (te_hi e) =? ac_asid a)).
(** Both entries, with their masks, match some access. *)
Definition common (pn po : Z) (n o : tlb_entry) : Prop := exists a, hits pn n a = true /\ hits po o a = true.

Lemma vpn2_bits e : is_u 27 (vpn2 e).
Proof.
  unfold vpn2, is_u. change 0x7ffffff with (2 ^ 27 - 1). rewrite land_ones_mod by lia. apply Z.mod_pos_bound. lia.
Qed.
Lemma small_page_vpn2 x y : is_u 27 x -> (x .^ y) .& page_mask 0 = 0 -> x = y mod 2 ^ 27.
Proof.
  intros Hx. change (page_mask 0) with (2 ^ 27 - 1). rewrite land_ones_mod by lia. intros H.
  apply Z.bits_inj'. intros i Hi. apply (f_equal (fun z => Z.testbit z i)) in H.
  destruct (decide (i < 27)) as [Hl|Hl].
  - rewrite Z.mod_pow2_bits_low, Z.lxor_spec, Z.bits_0 in H by lia. rewrite Z.mod_pow2_bits_low by lia.
    by destruct (Z.testbit x i), (Z.testbit y i).
  - rewrite (Z.mod_pow2_bits_high y) by lia. unfold is_u in Hx. rewrite <- (Z.mod_small x (2 ^ 27)) by lia.
    apply Z.mod_pow2_bits_high. lia.
Qed.
Lemma match_common pn po n o :
  va_match n o = true -> glob n = true \/ glob o = true \/ asid (te_hi o) = asid (te_hi n) -> common pn po n o.
Proof.
  unfold va_match. rewrite andb_true_iff, !Z.eqb_eq. intros [Hv Hr] Hg.
  exists (Access (rfld (te_hi n)) (vpn2 (te_hi n)) (if glob n then asid (te_hi o) else asid (te_hi n))).
  unfold hits. cbn [ac_r ac_vpn2 ac_asid]. rewrite Hv, Hr, Z.lxor_nilpotent, !Z.eqb_refl. cbn [Z.land Z.eqb andb].
  destruct (glob n), (glob o); cbn [orb]; rewrite ?Z.eqb_refl; split; try done.
  destruct Hg as [|[|E]]; try done. by rewrite E, Z.eqb_refl.
Qed.
Lemma common_match n o :
  common 0 0 n o -> va_match n o = true /\ (glob n = true \/ glob o = true \/ asid (te_hi o) = asid (te_hi n)).
Proof.
  unfold hits, va_match. intros ([r v s] & H1 & H2). unfold hits in *. cbn [ac_r ac_vpn2 ac_asid] in *.
  rewrite !andb_true_iff, !orb_true_iff, !Z.eqb_eq in *. destruct H1 as [[R1 V1] A1], H2 as [[R2 V2] A2].
  rewrite (small_page_vpn2 _ _ (vpn2_bits _) V1), (small_page_vpn2 _ _ (vpn2_bits _) V2). intuition congruence.
Qed.

(** The mirror's shadow after a sequence of TLBDUP writes. *)
Definition tlb_writes (ws : list (Z * tlb_entry)) : tlb_mirror * list (list nat) :=
  fold_left (fun '(m, out) '(i, e) =>
    let '(m', d) := tlb_wr_log false true true 0 i (te_hi e) (te_lo0 e) (te_lo1 e) 0 m in (m', out ++ [d]))
    ws (mirror_init, []).

Lemma tlb_wr_shadow wrlog checker cyc entry ehi elo0 elo1 pm m m' d :
  0 <= entry < 48 -> tlb_wr_log wrlog true checker cyc entry ehi elo0 elo1 pm m = (m', d) ->
  shadow m' = <[Z.to_nat entry := Some (TlbEntry ehi elo0 elo1)]> (shadow m) /\
  forall j, j ∈ d <-> (j < 48)%nat /\ j <> Z.to_nat entry /\
    exists o, shadow m !! j = Some (Some o) /\ dup_pair (TlbEntry ehi elo0 elo1) o = true.
Proof.
  intros He. unfold tlb_wr_log. rewrite (proj2 (Z.leb_le _ _)), (proj2 (Z.ltb_lt _ _)) by lia. cbn [andb].
  intros [= <- <-]. cbn [shadow]. split; [done|]. intros j. unfold dup_scan.
  rewrite list_elem_of_In, filter_In, in_seq, andb_true_iff, negb_true_iff, Nat.eqb_neq.
  split.
  - intros (Hj & Hne & Hd). split; [lia|]. split; [done|].
    rewrite list_lookup_insert_ne in Hd by done.
    destruct (shadow m !! j) as [[o|]|] eqn:E; try done. eauto.
  - intros (Hj & Hne & o & Ho & Hd). split; [lia|]. split; [done|].
    rewrite list_lookup_insert_ne by done. by rewrite Ho.
Qed.

(** ** Properties *)

Definition ent (vpn asid g v : Z) : tlb_entry :=
  TlbEntry ((vpn .<< 13) .| asid) ((v .<< 1) .| g) ((v .<< 1) .| g).

(** TLBDUP asks for both entries to be global, while the architecture
    matches a global entry under every ASID: a global entry and a valid
    non-global one of the same page, both matched by the same access, go
    unreported in either write order. *)
Theorem tlbdup_misses_mixed_global :
  let g := ent 0x40 1 1 1 in let l := ent 0x40 7 0 1 in
  let a := Access 0 0x40 7 in
  hits 0 g a = true /\ hits 0 l a = true /\ vld g = true /\ vld l = true /\
  snd (tlb_writes [(3, g); (5, l)]) = [[]; []] /\ snd (tlb_writes [(5, l); (3, g)]) = [[]; []].
Proof. vm_compute. split_and!; reflexivity. Qed.
(** Two 16 KB entries (PageMask 3) for the same pages whose VPN2 differ in the masked
    bits: every access of those pages matches both, and neither order is reported. *)
Definition write_large (m : tlb_mirror) (i : Z) (e : tlb_entry) : tlb_mirror * list nat :=
  tlb_wr_log false true true 0 i (te_hi e) (te_lo0 e) (te_lo1 e) 3 m.
Theorem tlbdup_misses_large_page :
  let p := ent 0x40 7 0 1 in let q := ent 0x41 7 0 1 in
  (forall v, 0x40 <= v < 0x44 -> hits 3 p (Access 0 v 7) = true /\ hits 3 q (Access 0 v 7) = true) /\
  vld p = true /\ vld q = true /\
  snd (write_large (fst (write_large mirror_init 3 p)) 5 q) = [] /\
  snd (write_large (fst (write_large mirror_init 5 q)) 3 p) = [].
Proof.
  split; [|vm_compute; split_and!; reflexivity].
  intros v Hv. assert (v = 0x40 \/ v = 0x41 \/ v = 0x42 \/ v = 0x43) by lia. destruct_or!; subst v; by vm_compute.
Qed.
