(* ===== verification/Checker.v ===== *)
(** * Checker: the lockstep co-simulation checker

    [seed_checker], [chk_suppress], [gpr_full_check] and its PRF/RAT hooks,
    [is_device_load], [ds_is_device_load], [chk_compare], [checker_step] and the
    checker block of the main loop in sim/henry_tb.cpp.

    The golden ISS is a separate program (interp_mips); its [state_t] appears
    here with the fields the harness touches and an opaque private part [R],
    and its functions are section variables.  Integer registers are kept as
    64-bit patterns. *)
From S2P Require Import Prelude AddressMap GuestMem Checkpoint StoreCheck TlbMirror.

Record iss (R : Type) := Iss {
  i_pc : Z; i_hi : Z; i_lo : Z; i_gpr : list Z; i_cpr0 : list Z; i_cpr0_64 : list Z;
  i_cpr1 : list Z; i_fcr1 : list Z; i_tlb : list cp_tlb; i_mem : mem; i_brk : bool; i_priv : R }.
Arguments Iss {R}. Arguments i_pc {R}. Arguments i_hi {R}. Arguments i_lo {R}. Arguments i_gpr {R}.
Arguments i_cpr0 {R}. Arguments i_cpr0_64 {R}. Arguments i_cpr1 {R}. Arguments i_fcr1 {R}.
Arguments i_tlb {R}. Arguments i_mem {R}. Arguments i_brk {R}. Arguments i_priv {R}.

Definition set_pc {R} (s : iss R) (v : Z) : iss R :=
  Iss v (i_hi s) (i_lo s) (i_gpr s) (i_cpr0 s) (i_cpr0_64 s) (i_cpr1 s) (i_fcr1 s) (i_tlb s) (i_mem s) (i_brk s) (i_priv s).
Definition set_gpr {R} (s : iss R) (r v : Z) : iss R :=
  Iss (i_pc s) (i_hi s) (i_lo s) (<[Z.to_nat r := v]> (i_gpr s)) (i_cpr0 s) (i_cpr0_64 s) (i_cpr1 s) (i_fcr1 s) (i_tlb s) (i_mem s) (i_brk s) (i_priv s).
Definition set_cp0 {R} (s : iss R) (r : nat) (v v64 : Z) : iss R :=
  Iss (i_pc s) (i_hi s) (i_lo s) (i_gpr s) (<[r := v]> (i_cpr0 s)) (<[r := v64]> (i_cpr0_64 s)) (i_cpr1 s) (i_fcr1 s) (i_tlb s) (i_mem s) (i_brk s) (i_priv s).
(** A write of the 32-bit view only. *)
Definition set_cp0_32 {R} (s : iss R) (r : nat) (v : Z) : iss R :=
  Iss (i_pc s) (i_hi s) (i_lo s) (i_gpr s) (<[r := v]> (i_cpr0 s)) (i_cpr0_64 s) (i_cpr1 s) (i_fcr1 s) (i_tlb s) (i_mem s) (i_brk s) (i_priv s).
Definition gpr {R} (s : iss R) (r : Z) : Z := nth (Z.to_nat r) (i_gpr s) 0.
Definition cpr0 {R} (s : iss R) (r : nat) : Z := nth r (i_cpr0 s) 0.

(** [seed_checker]; [None] = no checkpoint. *)
Definition seed_checker {R} (ck : option cp_header) (s : iss R) : iss R :=
  match ck with
  | None => s
  | Some h => Iss (ckpt_pc_sext (cp_pc h)) (cp_hi h) (cp_lo h) (cp_gpr h) (cp_cpr0 h) (cp_cpr0_64 h) (cp_cpr1 h)
                  (cp_fcr1 h) (cp_tlbs h) (i_mem s) (i_brk s) (i_priv s)
  end.

(** ** Instruction classification *)

(** The instruction word the checker decodes: kseg0/kseg1 only, raw physical. *)
Definition kseg01 (vpc : Z) : bool := (0x80000000 <=? vpc) && (vpc <? 0xc0000000).
Definition insn_at (m : mem) (vpc : Z) : Z := be32 m (vpc .& 0x1fffffff).
Definition i_op (insn : Z) : Z := insn .>> 26.
Definition i_rs (insn : Z) : Z := (insn .>> 21) .& 0x1f.
Definition i_funct (insn : Z) : Z := insn .& 0x3f.
Definition op_is_load (op : Z) : bool :=
  ((0x20 <=? op) && (op <=? 0x27)) || (op =? 0x1a) || (op =? 0x1b) || (op =? 0x37).
Definition device_ea (ea : Z) : bool :=
  let pa := if 0x80000000 <=? ea then ea .& 0x1fffffff else ea in
  (0x1f000000 <=? pa) || ((0xa0000000 <=? ea) && (ea <? 0xc0000000)).

Definition chk_suppress (m : mem) (vpc rrp : Z) : bool :=
  if (rrp =? 26) || (rrp =? 27) then true
  else if (0x880045ac <=? vpc) && (vpc <=? 0x88004650) then true
  else if (0x88005750 <=? vpc) && (vpc <? 0x88005894) then true
  else if kseg01 vpc then
    let insn := insn_at m vpc in
    let op := i_op insn in let rs := i_rs insn in let funct := i_funct insn in
    if ((op =? 0x10) || (op =? 0x11) || (op =? 0x12)) && (rs <=? 2) then true
    else (op =? 0) && ((funct =? 0x10) || (funct =? 0x12))
  else false.

Definition is_device_load {R} (s : iss R) (vpc : Z) : bool :=
  if (vpc <? 0x80000000) || (0xc0000000 <=? vpc) then false
  else
    let insn := insn_at (i_mem s) vpc in
    if negb (op_is_load (i_op insn)) then false
    else device_ea (u32 (gpr s (i_rs insn) + s16 (insn .& 0xffff))).
(** [last_ld_va] is the ISS's [g_iss_last_ld_va]. *)
Definition ds_is_device_load {R} (s : iss R) (last_ld_va vpc : Z) : bool :=
  if (vpc <? 0x80000000) || (0xc0000000 <=? vpc) then false
  else
    let insn := insn_at (i_mem s) vpc in
    if negb (op_is_load (i_op insn)) then false
    else device_ea (u32 last_ld_va).

(** ** Reconstructed architectural registers *)

Definition GPR_PRF_MAX : Z := 8192.
(** [g_gc_prf_known[p]] holds exactly when [p] is a key of [prf]. *)
Record gpr_shadow := GprShadow { prf : gmap Z Z; rat : list Z; prf_writes : Z; rat_cyc : gmap Z Z; prf_wcyc : gmap Z Z }.
Definition shadow_init : gpr_shadow := GprShadow ∅ (map Z.of_nat (seq 0 32)) 0 ∅ ∅.
Definition prf_idx (ptr : Z) : Z := ptr .& (GPR_PRF_MAX - 1).
Definition prf_wr_log (cyc ptr val : Z) (g : gpr_shadow) : gpr_shadow :=
  let p := prf_idx ptr in
  GprShadow (<[p := val]> (prf g)) (rat g) (prf_writes g + 1) (rat_cyc g) (<[p := cyc]> (prf_wcyc g)).
Definition retire_rat_log (cyc arch ptr : Z) (g : gpr_shadow) : gpr_shadow :=
  GprShadow (prf g) (<[Z.to_nat (arch .& 31) := prf_idx ptr]> (rat g)) (prf_writes g)
    (<[arch .& 31 := cyc]> (rat_cyc g)) (prf_wcyc g).
(** [prf[retire_rat[i]]] when the physreg was ever written. *)
Definition arch_gpr (g : gpr_shadow) (i : nat) : option Z :=
  match rat g !! i with Some p => prf g !! p | None => None end.

Inductive chk_event :=
  | Diverge (pc r iss_v rtl_v : Z)
  | PcDiverge (iss_pc rtl_pc : Z)
  | TlbDelta (fpc vpc cause iss_pc : Z)
  | Clobber (r iss_v prf_v : Z) (after_commit : bool)
  | GprInert
  | Poisoned (r : Z).

(** The function statics of [gpr_full_check]. *)
Record gc_state := GcState {
  gc_n : Z; gc_recheck : bool; gc_cand : list nat; gc_cand_rtl : gmap nat Z;
  gc_reported : Z; gc_warned : bool; gc_poisoned : bool }.
Definition gc_init : gc_state := GcState 0 false [] ∅ 0 false false.

(** One register of the scan: [(now_mask, cand_rtl, reported, events)]. *)
Definition gc_scan1 (s_gpr : list Z) (g : gpr_shadow) (recheck : bool) (cand : list nat) (i : nat)
    (acc : list nat * gmap nat Z * Z * list chk_event) : list nat * gmap nat Z * Z * list chk_event :=
  let '(now, crtl, rep, ev) := acc in
  match arch_gpr g i with
  | None => acc
  | Some rtl =>
      let iss_v := nth i s_gpr 0 in
      if rtl =? iss_v then acc
      else
        let hit := recheck && bool_decide (i ∈ cand) && bool_decide (crtl !! i = Some rtl) && (rep <? 40) in
        let p := nth i (rat g) 0 in
        let after := default 0 (rat_cyc g !! Z.of_nat i) <? default 0 (prf_wcyc g !! p) in
        (now ++ [i], <[i := rtl]> crtl, if hit then rep + 1 else rep,
         if hit then ev ++ [Clobber (Z.of_nat i) iss_v rtl after] else ev)
  end.
Definition gc_scan (s_gpr : list Z) (g : gpr_shadow) (recheck : bool) (cand : list nat)
    (crtl : gmap nat Z) (rep : Z) : list nat * gmap nat Z * Z * list chk_event :=
  fold_left (fun acc i => gc_scan1 s_gpr g recheck cand i acc) (seq 1 31) ([], crtl, rep, []).

Section GprCheck.
Variables every poison_reg : Z.   (** GPRCHK, GPRCHK_POISON *)
Definition gc_poison (gc : gc_state) (g : gpr_shadow) : gc_state * gpr_shadow * list chk_event :=
  if (1 <=? poison_reg) && (poison_reg <? 32) && negb (gc_poisoned gc) && (every * 10 <? gc_n gc) then
    let pp := nth (Z.to_nat poison_reg) (rat g) 0 in
    match prf g !! pp with
    | Some v => (GcState (gc_n gc) (gc_recheck gc) (gc_cand gc) (gc_cand_rtl gc) (gc_reported gc) (gc_warned gc) true,
                 GprShadow (<[pp := v .^ 0xdeadbeef]> (prf g)) (rat g) (prf_writes g) (rat_cyc g) (prf_wcyc g),
                 [Poisoned poison_reg])
    | None => (gc, g, [])
    end
  else (gc, g, []).
Definition gpr_full_check (s_gpr : list Z) (gc : gc_state) (g : gpr_shadow) : gc_state * gpr_shadow * list chk_event :=
  if every <=? 0 then (gc, g, [])
  else
    let n := gc_n gc + 1 in
    let gc := GcState n (gc_recheck gc) (gc_cand gc) (gc_cand_rtl gc) (gc_reported gc) (gc_warned gc) (gc_poisoned gc) in
    if negb (gc_recheck gc) && negb (n mod every =? 0) then (gc, g, [])
    else if prf_writes g =? 0 then
      (GcState n (gc_recheck gc) (gc_cand gc) (gc_cand_rtl gc) (gc_reported gc) true (gc_poisoned gc), g,
       if gc_warned gc then [] else [GprInert])
    else
      let '(gc, g, evp) := gc_poison gc g in
      let '(now, crtl, rep, ev) := gc_scan s_gpr g (gc_recheck gc) (gc_cand gc) (gc_cand_rtl gc) (gc_reported gc) in
      (GcState n (negb (bool_decide (now = [])) && negb (gc_recheck gc)) now crtl rep (gc_warned gc) (gc_poisoned gc), g,
       evp ++ ev).
End GprCheck.

(** ** The checker proper *)

Record counters := Counters {
  k_insns : Z; k_diverge : Z; k_copsupp : Z; k_resync : Z; k_mapped : Z; k_kdrift : Z;
  k_tlb_shown : Z; k_pc_shown : Z }.
Definition counters_zero : counters := Counters 0 0 0 0 0 0 0 0.
Definition inc_insns (k : counters) : counters :=
  Counters (k_insns k + 1) (k_diverge k) (k_copsupp k) (k_resync k) (k_mapped k) (k_kdrift k) (k_tlb_shown k) (k_pc_shown k).
Definition inc_diverge (k : counters) : counters :=
  Counters (k_insns k) (k_diverge k + 1) (k_copsupp k) (k_resync k) (k_mapped k) (k_kdrift k) (k_tlb_shown k) (k_pc_shown k).
Definition inc_copsupp (k : counters) : counters :=
  Counters (k_insns k) (k_diverge k) (k_copsupp k + 1) (k_resync k) (k_mapped k) (k_kdrift k) (k_tlb_shown k) (k_pc_shown k).
Definition inc_resync (k : counters) : counters :=
  Counters (k_insns k) (k_diverge k) (k_copsupp k) (k_resync k + 1) (k_mapped k) (k_kdrift k) (k_tlb_shown k) (k_pc_shown k).
Definition inc_mapped (k : counters) : counters :=
  Counters (k_insns k) (k_diverge k) (k_copsupp k) (k_resync k) (k_mapped k + 1) (k_kdrift k) (k_tlb_shown k) (k_pc_shown k).
Definition inc_kdrift (k : counters) : counters :=
  Counters (k_insns k) (k_diverge k) (k_copsupp k) (k_resync k) (k_mapped k) (k_kdrift k + 1) (k_tlb_shown k) (k_pc_shown k).
Definition inc_tlb_shown (k : counters) : counters :=
  Counters (k_insns k) (k_diverge k) (k_copsupp k) (k_resync k) (k_mapped k) (k_kdrift k) (k_tlb_shown k + 1) (k_pc_shown k).
Definition inc_pc_shown (k : counters) : counters :=
  Counters (k_insns k) (k_diverge k) (k_copsupp k) (k_resync k) (k_mapped k) (k_kdrift k) (k_tlb_shown k) (k_pc_shown k + 1).

(** [c_ds] is [g_ds_pc] when [g_expect_ds]; [c_ev] collects the reports. *)
Record chk (R : Type) := Chk {
  c_ss : iss R; c_ds : option Z; c_settle : Z; c_k : counters;
  c_st : sc_state; c_gc : gc_state; c_sh : gpr_shadow; c_ev : list chk_event }.
Arguments Chk {R}. Arguments c_ss {R}. Arguments c_ds {R}. Arguments c_settle {R}. Arguments c_k {R}.
Arguments c_st {R}. Arguments c_gc {R}. Arguments c_sh {R}. Arguments c_ev {R}.

Definition with_ss {R} (c : chk R) (s : iss R) : chk R :=
  Chk s (c_ds c) (c_settle c) (c_k c) (c_st c) (c_gc c) (c_sh c) (c_ev c).
Definition with_ds {R} (c : chk R) (d : option Z) : chk R :=
  Chk (c_ss c) d (c_settle c) (c_k c) (c_st c) (c_gc c) (c_sh c) (c_ev c).
Definition with_settle {R} (c : chk R) (n : Z) : chk R :=
  Chk (c_ss c) (c_ds c) n (c_k c) (c_st c) (c_gc c) (c_sh c) (c_ev c).
Definition count {R} (c : chk R) (f : counters -> counters) : chk R :=
  Chk (c_ss c) (c_ds c) (c_settle c) (f (c_k c)) (c_st c) (c_gc c) (c_sh c) (c_ev c).
Definition report {R} (c : chk R) (e : chk_event) : chk R :=
  Chk (c_ss c) (c_ds c) (c_settle c) (c_k c) (c_st c) (c_gc c) (c_sh c) (c_ev c ++ [e]).
Definition with_st {R} (c : chk R) (st : sc_state) : chk R :=
  Chk (c_ss c) (c_ds c) (c_settle c) (c_k c) st (c_gc c) (c_sh c) (c_ev c).

(** The exception context the main loop samples from the RTL each cycle. *)
Record exc_ctx := ExcCtx { x_epc : Z; x_cause : Z; x_cause_ip : Z; x_badv : Z }.
(** One retirement: pc and the reported destination write. *)
Record ret := Ret { r_pc : Z; r_rv : bool; r_rp : Z; r_rd : Z }.

Section Step.
Context {R : Type}.
(** The ISS's entry points and its record of the last load address. *)
Variable execMips : iss R -> iss R * list store_rec.
Variable raise_int : iss R -> Z -> Z -> iss R.
Variable last_ld_va : iss R -> Z.
Variable apply_tlb_write : iss R -> pend_tlb_t -> iss R.
Variable no_mapskip : bool.             (** NOMAPSKIP *)
Variables gprchk gprchk_poison : Z.

Definition exec_one (c : chk R) : chk R :=
  let '(s, stores) := execMips (c_ss c) in
  count (with_st (with_ss c s) (foldl (fun st x => iss_store x st) (c_st c) stores)) inc_insns.

(** "trust only" *)
Definition trust (r : ret) (c : chk R) : chk R :=
  if r_rv r && negb (r_rp r =? 0) then with_ss c (set_gpr (c_ss c) (r_rp r) (r_rd r)) else c.

Definition chk_compare (r : ret) (devload : bool) (c : chk R) : chk R :=
  let vpc := u32 (r_pc r) in
  if negb (r_rv r) || (r_rp r =? 0) then c
  else
    let iss_v := gpr (c_ss c) (r_rp r) in
    let c :=
      if negb (iss_v =? r_rd r) then
        if (r_rp r =? 26) || (r_rp r =? 27) then
          count (count (with_ss c (set_gpr (c_ss c) (r_rp r) (r_rd r))) inc_kdrift) inc_copsupp
        else if (0 <? c_settle c) || devload || chk_suppress (i_mem (c_ss c)) vpc (r_rp r)
        then count c inc_copsupp
        else
          let c := if k_diverge (c_k c) <? 200 then report c (Diverge vpc (r_rp r) iss_v (r_rd r)) else c in
          count c inc_diverge
      else c in
    with_ss c (set_gpr (c_ss c) (r_rp r) (r_rd r)).

Definition exc_entry (vpc : Z) : bool :=
  (vpc =? 0x80000000) || (vpc =? 0x80000080) || (vpc =? 0x80000100) || (vpc =? 0x80000180)
  || ((0xbfc00200 <=? vpc) && (vpc <=? 0xbfc00480)).
Definition async_entry (x : exc_ctx) (vpc : Z) : bool :=
  ((vpc =? 0x80000180) || ((0xbfc00200 <=? vpc) && (vpc <=? 0xbfc00480))) && (x_cause x =? 0).

(** The PC-divergence block; the flag is [resynced]. *)
Definition pc_divergence (x : exc_ctx) (rpc : Z) (c : chk R) : chk R * bool :=
  let vpc := u32 rpc in
  if exc_entry vpc then
    if async_entry x vpc then
      (with_ss c (set_pc (raise_int (c_ss c) (x_epc x) (x_cause_ip x)) rpc), false)
    else
      let fpc := u32 (i_pc (c_ss c)) in
      let c := exec_one c in
      if u32 (i_pc (c_ss c)) =? vpc then (c, false)
      else
        let c := if k_tlb_shown (c_k c) <? 400
                 then count (report c (TlbDelta fpc vpc (x_cause x) (u32 (i_pc (c_ss c))))) inc_tlb_shown else c in
        let c := with_ss c (set_pc (c_ss c) rpc) in
        let c := with_ss c (set_cp0 (c_ss c) 14 (x_epc x) (x_epc x)) in
        (with_settle (count c inc_resync) 16, true)
  else
    let c := if k_pc_shown (c_k c) <? 200
             then count (report c (PcDiverge (u32 (i_pc (c_ss c))) vpc)) inc_pc_shown else c in
    let c := with_ss c (set_pc (c_ss c) rpc) in
    (with_settle (count c inc_resync) 16, true).

Definition run_gpr_check (c : chk R) : chk R :=
  let '(gc, sh, ev) := gpr_full_check gprchk gprchk_poison (i_gpr (c_ss c)) (c_gc c) (c_sh c) in
  Chk (c_ss c) (c_ds c) (c_settle c) (c_k c) (c_st c) gc sh (c_ev c ++ ev).

(** The executed path of [checker_step], after any PC divergence is settled. *)
Definition step_execute (r : ret) (c : chk R) (resynced : bool) : chk R :=
  let c := if 0 <? c_settle c then with_settle c (c_settle c - 1) else c in
  let devload := is_device_load (c_ss c) (u32 (r_pc r)) in
  let prev := u32 (i_pc (c_ss c)) in
  let c := exec_one c in
  let c := if negb (u32 (i_pc (c_ss c)) =? prev +32 4) then with_ds c (Some (prev +32 4)) else c in
  let c := if resynced then trust r c else chk_compare r devload c in
  run_gpr_check c.

Definition checker_step (x : exc_ctx) (r : ret) (c : chk R) : chk R :=
  if i_brk (c_ss c) then c
  else
    let vpc := u32 (r_pc r) in
    if bool_decide (c_ds c = Some vpc) then
      let c := with_ds c None in
      chk_compare r (is_device_load (c_ss c) vpc || ds_is_device_load (c_ss c) (last_ld_va (c_ss c)) vpc) c
    else
      let c := with_ds c None in
      if negb no_mapskip && ((vpc <? 0x80000000) || (0xc0000000 <=? vpc)) then
        let c := with_ss c (set_pc (c_ss c) (r_pc r)) in
        count (trust r c) inc_mapped
      else
        let '(c, resynced) :=
          if negb (u32 (i_pc (c_ss c)) =? vpc) then pc_divergence x (r_pc r) c else (c, false) in
        step_execute r c resynced.

(** ** The checker block of the main loop *)
Record rtl_cycle := RtlCycle {
  t_ret0 : option ret; t_ret1 : option ret;
  t_count : Z; t_epc : Z; t_badvaddr : Z; t_cause : Z; t_cause_ip : Z }.
Record gate := Gate { gate_active : bool; gate_pc : Z }.

Definition mirror_cp0 (t : rtl_cycle) (s : iss R) : iss R :=
  let s := set_cp0_32 s 9 (u32 (t_count t)) in
  let s := set_cp0 s 8 (u32 (t_badvaddr t)) (t_badvaddr t) in
  set_cp0_32 s 13 (Z.ldiff (cpr0 s 13) 0x0000ff00 .| ((u32 (t_cause_ip t) .& 0xff) .<< 8)).
Definition cycle_ctx (t : rtl_cycle) : exc_ctx :=
  ExcCtx (u32 (t_epc t)) (u32 (t_cause t)) (u32 (t_cause_ip t)) (t_badvaddr t).
Definition step_opt (x : exc_ctx) (r : option ret) (c : chk R) : chk R :=
  match r with Some r => checker_step x r c | None => c end.
Definition apply_pending (c : chk R) (q : list pend_tlb_t) : chk R :=
  with_ss c (fold_left apply_tlb_write q (c_ss c)).

(** One cycle: the gate, the CP0 mirror, head retire, store check, second
    retire, TLB writes.  [g_pend_tlb] is consumed; the flag is the [break] on
    a store divergence. *)
Definition checker_cycle (ck : option cp_header) (sc_max : Z) (no_sc_stop : bool)
    (t : rtl_cycle) (g : gate) (q : list pend_tlb_t) (c : chk R) : gate * list pend_tlb_t * chk R * bool :=
  let opens := negb (gate_active g) &&
    match t_ret0 t with Some r => u32 (r_pc r) =? gate_pc g | None => false end in
  let c := if opens then with_ss c (seed_checker ck (c_ss c)) else c in
  let g := if opens then Gate true (gate_pc g) else g in
  if gate_active g then
    let c := with_ss c (mirror_cp0 t (c_ss c)) in
    let x := cycle_ctx t in
    let c := step_opt x (t_ret0 t) c in
    let '(st, _, stop) := store_check_cycle sc_max no_sc_stop (c_st c) in
    let c := with_st c st in
    if stop then (g, q, c, true)
    else
      let c := step_opt x (t_ret1 t) c in
      (g, [], apply_pending c q, false)
  else (g, q, c, false).
End Step.

(** ** Lemmas *)

Lemma insert_nth_id (l : list Z) i : <[i := nth i l 0]> l = l.
Proof. revert i; induction l as [|x l IH]; intros [|i]; cbn; [done..|]. f_equal. apply IH. Qed.
Lemma set_gpr_id {R} (s : iss R) r : set_gpr s r (gpr s r) = s.
Proof. unfold set_gpr, gpr. rewrite insert_nth_id. by destruct s. Qed.
Lemma gpr_set_gpr {R} (s : iss R) r v : 0 <= r < Z.of_nat (length (i_gpr s)) -> gpr (set_gpr s r v) r = v.
Proof.
  intros Hr. unfold gpr, set_gpr; cbn [i_gpr]. apply nth_lookup_Some, list_lookup_insert_eq. lia.
Qed.
Lemma foldl_iss_store_fronts st xs : store_diverged (foldl (fun st x => iss_store x st) st xs) = store_diverged st.
Proof. revert st; induction xs as [|x xs IH]; intros st; [done|]. cbn. by rewrite IH. Qed.

Section StepLemmas.
Context {R : Type}.
Variable execMips : iss R -> iss R * list store_rec.
Variable raise_int : iss R -> Z -> Z -> iss R.
Variable last_ld_va : iss R -> Z.
Variable no_mapskip : bool.
Variables gprchk gprchk_poison : Z.
Abbreviation step := (checker_step execMips raise_int last_ld_va no_mapskip gprchk gprchk_poison).

Lemma exec_one_ss c : c_ss (exec_one execMips c) = fst (execMips (c_ss c)).
Proof. unfold exec_one. by destruct (execMips (c_ss c)). Qed.
Lemma exec_one_ds c : c_ds (exec_one execMips c) = c_ds c.
Proof. unfold exec_one. by destruct (execMips (c_ss c)). Qed.
Lemma exec_one_settle c : c_settle (exec_one execMips c) = c_settle c.
Proof. unfold exec_one. by destruct (execMips (c_ss c)). Qed.
Lemma exec_one_k c : c_k (exec_one execMips c) = inc_insns (c_k c).
Proof. unfold exec_one. by destruct (execMips (c_ss c)). Qed.
Lemma exec_one_ev c : c_ev (exec_one execMips c) = c_ev c.
Proof. unfold exec_one. by destruct (execMips (c_ss c)). Qed.
Lemma run_gpr_check_ss (c : chk R) : c_ss (run_gpr_check gprchk gprchk_poison c) = c_ss c.
Proof. unfold run_gpr_check. by destruct (gpr_full_check _ _ _ _ _) as [[? ?] ?]. Qed.
Lemma run_gpr_check_ds (c : chk R) : c_ds (run_gpr_check gprchk gprchk_poison c) = c_ds c.
Proof. unfold run_gpr_check. by destruct (gpr_full_check _ _ _ _ _) as [[? ?] ?]. Qed.
Lemma run_gpr_check_settle (c : chk R) : c_settle (run_gpr_check gprchk gprchk_poison c) = c_settle c.
Proof. unfold run_gpr_check. by destruct (gpr_full_check _ _ _ _ _) as [[? ?] ?]. Qed.
Lemma run_gpr_check_k (c : chk R) : c_k (run_gpr_check gprchk gprchk_poison c) = c_k c.
Proof. unfold run_gpr_check. by destruct (gpr_full_check _ _ _ _ _) as [[? ?] ?]. Qed.

(** Both [trust] and [chk_compare] leave the reported register at the RTL's value. *)
Definition reports (r : ret) : Prop := r_rv r = true /\ 0 < r_rp r < 32.
Definition regs_ok (s : iss R) : Prop := length (i_gpr s) = 32%nat.
Lemma set_gpr_regs s r v : regs_ok s -> regs_ok (set_gpr s r v).
Proof. unfold regs_ok, set_gpr; cbn [i_gpr]. by rewrite length_insert. Qed.
Lemma reports_test r : reports r -> r_rv r = true /\ (r_rp r =? 0) = false.
Proof. intros [? ?]. split; [done|]. apply Z.eqb_neq. lia. Qed.
Lemma trust_gpr (r : ret) (c : chk R) :
  reports r -> regs_ok (c_ss c) -> gpr (c_ss (trust r c)) (r_rp r) = r_rd r /\ regs_ok (c_ss (trust r c)).
Proof.
  intros Hr Hl. unfold trust. destruct (reports_test r Hr) as [-> ->]. cbn.
  split; [|by apply set_gpr_regs]. apply gpr_set_gpr. rewrite Hl. destruct Hr. lia.
Qed.
Lemma chk_compare_ss_shape (r : ret) dl (c : chk R) :
  reports r -> exists s, regs_ok (c_ss c) -> regs_ok s /\ c_ss (chk_compare r dl c) = set_gpr s (r_rp r) (r_rd r).
Proof.
  intros Hr. unfold chk_compare. destruct (reports_test r Hr) as [-> ->]. cbn [negb orb].
  repeat case_test; eexists; intros Hl; (split; [|reflexivity]); cbn; auto using set_gpr_regs.
Qed.
Lemma chk_compare_gpr (r : ret) dl (c : chk R) :
  reports r -> regs_ok (c_ss c) ->
  gpr (c_ss (chk_compare r dl c)) (r_rp r) = r_rd r /\ regs_ok (c_ss (chk_compare r dl c)).
Proof.
  intros Hr Hl. destruct (chk_compare_ss_shape r dl c Hr) as [s Hs]. destruct (Hs Hl) as [Hs' ->].
  split; [|by apply set_gpr_regs]. apply gpr_set_gpr. rewrite Hs'. destruct Hr. lia.
Qed.
Lemma trust_regs (r : ret) (c : chk R) : regs_ok (c_ss c) -> regs_ok (c_ss (trust r c)).
Proof. intros. unfold trust. case_test; [|done]. by apply set_gpr_regs. Qed.
Lemma chk_compare_regs (r : ret) dl (c : chk R) : regs_ok (c_ss c) -> regs_ok (c_ss (chk_compare r dl c)).
Proof. intros. unfold chk_compare. repeat case_test; cbn; auto using set_gpr_regs. Qed.

Section Regs.
Hypothesis exec_regs : forall s, regs_ok s -> regs_ok (fst (execMips s)).
Hypothesis raise_regs : forall s e i, regs_ok s -> regs_ok (raise_int s e i).
Lemma pc_divergence_regs x rpc c :
  regs_ok (c_ss c) -> regs_ok (c_ss (fst (pc_divergence execMips raise_int x rpc c))).
Proof.
  intros Hc. unfold pc_divergence. repeat (case_test; cbn [fst]);
    try (cbn; rewrite ?exec_one_ss; auto; fail).
  all: cbn; try apply (raise_regs _ _ _ Hc); rewrite ?exec_one_ss; auto; by apply exec_regs.
Qed.
Lemma step_execute_regs r c rs :
  regs_ok (c_ss c) ->
  regs_ok (c_ss (step_execute execMips gprchk gprchk_poison r c rs)) /\
  (reports r -> gpr (c_ss (step_execute execMips gprchk gprchk_poison r c rs)) (r_rp r) = r_rd r).
Proof.
  intros Hc. unfold step_execute. rewrite run_gpr_check_ss.
  set (c1 := if 0 <? c_settle c then with_settle c (c_settle c - 1) else c).
  assert (regs_ok (c_ss c1)) as H1 by (unfold c1; by case_test).
  set (c2 := exec_one execMips c1).
  assert (regs_ok (c_ss c2)) as H2 by (unfold c2; rewrite exec_one_ss; by apply exec_regs).
  set (c3 := if negb _ then _ else c2). assert (regs_ok (c_ss c3)) as H3 by (unfold c3; by case_test).
  clearbody c3. destruct rs.
  - split; [by apply trust_regs|]. intros. by apply trust_gpr.
  - split; [by apply chk_compare_regs|]. intros. by apply chk_compare_gpr.
Qed.
Lemma checker_step_regs x r c :
  regs_ok (c_ss c) -> regs_ok (c_ss (step x r c)) /\
  (i_brk (c_ss c) = false -> reports r -> gpr (c_ss (step x r c)) (r_rp r) = r_rd r).
Proof.
  intros Hc. unfold checker_step. destruct (i_brk (c_ss c)); [done|].
  case_bool_decide.
  { split; [by apply chk_compare_regs|]. intros. by apply chk_compare_gpr. }
  case_test.
  { cbn. split; [by apply trust_regs|]. intros. by apply trust_gpr. }
  destruct (if negb _ then _ else _) as [c' rs] eqn:E0. clear E.
  assert (regs_ok (c_ss c')) as Hc'.
  { revert E0. case_test; [|by intros [= <- <-]]. intros E0.
    apply (f_equal (fun p => c_ss (fst p))) in E0. cbn in E0. rewrite <- E0.
    by apply pc_divergence_regs. }
  destruct (step_execute_regs r c' rs Hc') as [H1 H2]. split; [done|]. intros _ Hr. by apply H2.
Qed.
End Regs.
End StepLemmas.

Section Lockstep.
Context {R : Type}.
Variable execMips : iss R -> iss R * list store_rec.
Variable raise_int : iss R -> Z -> Z -> iss R.
Variable last_ld_va : iss R -> Z.
Variable no_mapskip : bool.
Variables gprchk gprchk_poison : Z.
Abbreviation step := (checker_step execMips raise_int last_ld_va no_mapskip gprchk gprchk_poison).

(** Specification of an RTL that agrees with the golden model: each retirement
    is the model's next instruction, or the delay slot the model executed
    together with the branch before it, and reports the model's value. *)
Definition dest_ok (s : iss R) (r : ret) : Prop :=
  r_rv r = true -> r_rp r <> 0 -> gpr s (r_rp r) = r_rd r.
Definition next_ds (s s' : iss R) : option Z :=
  if u32 (i_pc s') =? u32 (i_pc s) +32 4 then None else Some (u32 (i_pc s) +32 4).
Definition executable (vpc : Z) : bool := no_mapskip || kseg01 vpc.
Inductive faithful : iss R -> option Z -> list ret -> iss R -> Prop :=
  | faithful_nil s ds : faithful s ds [] s
  | faithful_insn s ds r rs s' sf :
      i_brk s = false -> u32 (i_pc s) = u32 (r_pc r) -> executable (u32 (r_pc r)) = true ->
      ds <> Some (u32 (r_pc r)) ->
      fst (execMips s) = s' -> dest_ok s' r -> faithful s' (next_ds s s') rs sf ->
      faithful s ds (r :: rs) sf
  | faithful_slot s r rs sf :
      i_brk s = false -> dest_ok s r -> faithful s None rs sf ->
      faithful s (Some (u32 (r_pc r))) (r :: rs) sf.

(** The counters a correct run must not move. *)
Definition alarms (k : counters) : Z * Z * Z * Z := (k_diverge k, k_copsupp k, k_resync k, k_kdrift k).

Lemma chk_compare_agrees (r : ret) dl (c : chk R) : dest_ok (c_ss c) r -> chk_compare r dl c = c.
Proof.
  intros Hd. unfold chk_compare. destruct (r_rv r) eqn:Ev; cbn [negb orb]; [|done].
  destruct (Z.eqb_spec (r_rp r) 0) as [|Hne]; [done|].
  specialize (Hd Ev Hne). rewrite Hd, Z.eqb_refl. cbn [negb]. rewrite <- Hd, set_gpr_id. by destruct c.
Qed.
Lemma executable_test vpc :
  executable vpc = true -> negb no_mapskip && ((vpc <? 0x80000000) || (0xc0000000 <=? vpc)) = false.
Proof.
  unfold executable, kseg01. destruct no_mapskip; [done|]. cbn.
  intros [H1 H2]%andb_true_iff. bool_props. rewrite (proj2 (Z.ltb_ge _ _)), (proj2 (Z.leb_gt _ _)) by lia. done.
Qed.

(** In lockstep the step is: settle, execute, compare, scan. *)
Lemma checker_step_lockstep x r c :
  i_brk (c_ss c) = false -> u32 (i_pc (c_ss c)) = u32 (r_pc r) -> executable (u32 (r_pc r)) = true ->
  c_ds c <> Some (u32 (r_pc r)) ->
  step x r c = step_execute execMips gprchk gprchk_poison r (with_ds c None) false.
Proof.
  intros Hb Hpc He Hds. unfold checker_step. rewrite Hb, bool_decide_eq_false_2, executable_test by done.
  cbn [c_ss with_ds]. by rewrite Hpc, Z.eqb_refl.
Qed.
Lemma faithful_step_insn x r c s' :
  i_brk (c_ss c) = false -> u32 (i_pc (c_ss c)) = u32 (r_pc r) -> executable (u32 (r_pc r)) = true ->
  c_ds c <> Some (u32 (r_pc r)) -> fst (execMips (c_ss c)) = s' -> dest_ok s' r ->
  c_ss (step x r c) = s' /\ c_ds (step x r c) = next_ds (c_ss c) s' /\
  alarms (c_k (step x r c)) = alarms (c_k c).
Proof.
  intros Hb Hpc He Hds Hs Hd. rewrite checker_step_lockstep by done. unfold step_execute.
  rewrite run_gpr_check_ss, run_gpr_check_ds, run_gpr_check_k.
  set (c1 := if 0 <? _ then _ else _).
  assert (c_ss c1 = c_ss c /\ c_ds c1 = None /\ c_k c1 = c_k c) as (E1 & E2 & E3)
    by (unfold c1; cbn [c_settle with_ds]; by case_test).
  clearbody c1. rewrite !exec_one_ss, !E1, !Hs. unfold next_ds.
  set (c3 := if negb _ then _ else _).
  assert (c_ss c3 = s' /\ c_ds c3 = (if u32 (i_pc s') =? u32 (i_pc (c_ss c)) +32 4 then None
            else Some (u32 (i_pc (c_ss c)) +32 4)) /\ c_k c3 = inc_insns (c_k c)) as (F1 & F2 & F3).
  { unfold c3. destruct (u32 (i_pc s') =? _); cbn [negb with_ds c_ss c_ds c_k];
      by rewrite exec_one_ss, ?exec_one_ds, exec_one_k, E1, ?E2, E3. }
  clearbody c3. rewrite chk_compare_agrees by (by rewrite F1). by rewrite F1, F2, F3.
Qed.
Lemma run_gpr_check_st (c : chk R) : c_st (run_gpr_check gprchk gprchk_poison c) = c_st c.
Proof. unfold run_gpr_check. by destruct (gpr_full_check _ _ _ _ _) as [[? ?] ?]. Qed.
Lemma exec_one_st (c : chk R) :
  c_st (exec_one execMips c) = foldl (fun st x => iss_store x st) (c_st c) (snd (execMips (c_ss c))).
Proof. unfold exec_one. by destruct (execMips (c_ss c)). Qed.
(** The stores of the executed instruction, and nothing else, join the ISS queue. *)
Lemma faithful_step_insn_st x r c :
  i_brk (c_ss c) = false -> u32 (i_pc (c_ss c)) = u32 (r_pc r) -> executable (u32 (r_pc r)) = true ->
  c_ds c <> Some (u32 (r_pc r)) -> dest_ok (fst (execMips (c_ss c))) r ->
  c_st (step x r c) = foldl (fun st x => iss_store x st) (c_st c) (snd (execMips (c_ss c))).
Proof.
  intros Hb Hpc He Hds Hd. rewrite checker_step_lockstep by done. unfold step_execute. rewrite run_gpr_check_st.
  set (c1 := if 0 <? _ then _ else _).
  assert (c_ss c1 = c_ss c /\ c_st c1 = c_st c) as (E1 & E2) by (unfold c1; cbn [c_settle with_ds]; by case_test).
  clearbody c1. rewrite chk_compare_agrees.
  - case_test; cbn [with_ds c_st]; by rewrite exec_one_st, E1, E2.
  - case_test; cbn [with_ds c_ss]; by rewrite exec_one_ss, E1.
Qed.
Lemma faithful_step_slot x r c :
  i_brk (c_ss c) = false -> c_ds c = Some (u32 (r_pc r)) -> dest_ok (c_ss c) r ->
  step x r c = with_ds c None.
Proof.
  intros Hb Hds Hd. unfold checker_step. rewrite Hb, bool_decide_eq_true_2 by done.
  by rewrite chk_compare_agrees.
Qed.
Lemma faithful_run x rs s ds sf (c : chk R) :
  faithful s ds rs sf -> c_ss c = s -> c_ds c = ds ->
  let c' := foldl (fun c r => step x r c) c rs in
  c_ss c' = sf /\ alarms (c_k c') = alarms (c_k c).
Proof.
  intros H. revert c; induction H as [s ds|s ds r rs s' sf Hb Hpc He Hds Hs Hd _ IH|s r rs sf Hb Hd _ IH];
    intros c Ess Eds; cbv zeta; cbn [foldl]; [done| |].
  - rewrite <- Ess, <- Eds in *. destruct (faithful_step_insn x r c s' Hb Hpc He Hds Hs Hd) as (H1 & H2 & H3).
    destruct (IH _ H1 H2) as [IH1 IH2]. by rewrite IH1, IH2, H3.
  - rewrite <- Ess in *. rewrite faithful_step_slot by done. by apply (IH (with_ds c None)).
Qed.

(** ** The settle window *)
Lemma chk_compare_settled (r : ret) dl (c : chk R) :
  0 < c_settle c -> k_diverge (c_k (chk_compare r dl c)) = k_diverge (c_k c) /\
  c_settle (chk_compare r dl c) = c_settle c.
Proof.
  intros Hs. unfold chk_compare. rewrite (proj2 (Z.ltb_lt 0 _)) by done. cbn [orb]. by repeat case_test.
Qed.
Lemma trust_settled (r : ret) (c : chk R) :
  c_k (trust r c) = c_k c /\ c_settle (trust r c) = c_settle c.
Proof. unfold trust. by case_test. Qed.
Lemma pc_divergence_settle x rpc c :
  let '(c', rs) := pc_divergence execMips raise_int x rpc c in
  k_diverge (c_k c') = k_diverge (c_k c) /\ c_settle c' = if rs then 16 else c_settle c.
Proof.
  unfold pc_divergence. repeat case_test; cbn; rewrite ?exec_one_k, ?exec_one_settle; try done.
  all: split; try done; case_test; cbn; by rewrite ?exec_one_k.
Qed.
Lemma step_execute_settled r c rs :
  1 < c_settle c \/ rs = true ->
  0 < c_settle c ->
  k_diverge (c_k (step_execute execMips gprchk gprchk_poison r c rs)) = k_diverge (c_k c) /\
  c_settle (step_execute execMips gprchk gprchk_poison r c rs) = c_settle c - 1.
Proof.
  intros Hs H0. unfold step_execute. rewrite run_gpr_check_k, run_gpr_check_settle.
  rewrite (proj2 (Z.ltb_lt 0 _)) by done.
  set (c2 := exec_one execMips _).
  set (c3 := if negb _ then _ else c2).
  assert (k_diverge (c_k c3) = k_diverge (c_k c) /\ c_settle c3 = c_settle c - 1) as [E1 E2].
  { unfold c3, c2. case_test; cbn [with_ds c_k c_settle]; by rewrite exec_one_k, exec_one_settle. }
  clearbody c3. destruct rs.
  - destruct (trust_settled r c3) as [-> ->]. by rewrite E1, E2.
  - destruct Hs as [Hs|]; [|done]. destruct (chk_compare_settled r (is_device_load (c_ss (with_settle c (c_settle c - 1))) (u32 (r_pc r))) c3) as [E3 E4]; [lia|].
    cbn in E3, E4 |- *. by rewrite E3, E4, E1, E2.
Qed.
Lemma checker_step_settled x r c :
  1 < c_settle c <= 16 ->
  k_diverge (c_k (step x r c)) = k_diverge (c_k c) /\ c_settle c - 1 <= c_settle (step x r c) <= 16.
Proof.
  intros Hs. unfold checker_step. case_test; [split; [done|lia]|]. case_bool_decide.
  { destruct (chk_compare_settled r (is_device_load (c_ss (with_ds c None)) (u32 (r_pc r)) ||
      ds_is_device_load (c_ss (with_ds c None)) (last_ld_va (c_ss (with_ds c None))) (u32 (r_pc r))) (with_ds c None)) as [E1 E2];
      [cbn; lia|]. cbn in E1, E2 |- *. rewrite E1, E2. split; [done|lia]. }
  case_test.
  { unfold trust. case_test; cbn; (split; [done|lia]). }
  destruct (negb (u32 (i_pc (c_ss (with_ds c None))) =? u32 (r_pc r))).
  - pose proof (pc_divergence_settle x (r_pc r) (with_ds c None)) as H1.
    destruct (pc_divergence execMips raise_int x (r_pc r) (with_ds c None)) as [c' rs].
    destruct H1 as [H1 H2]. cbn in H1, H2. cbv beta iota.
    destruct (step_execute_settled r c' rs) as [H3 H4]; [destruct rs; [by right|left; lia]|destruct rs; lia|].
    rewrite H3, H4, H1. split; [done|]. destruct rs; lia.
  - cbv beta iota. destruct (step_execute_settled r (with_ds c None) false) as [H3 H4]; [left; cbn; lia|cbn; lia|].
    rewrite H3, H4. cbn. split; [done|lia].
Qed.
(** The step that resynchronises on a main-line PC divergence. *)
Lemma checker_step_resync x r c :
  i_brk (c_ss c) = false -> c_ds c <> Some (u32 (r_pc r)) -> executable (u32 (r_pc r)) = true ->
  u32 (i_pc (c_ss c)) <> u32 (r_pc r) -> exc_entry (u32 (r_pc r)) = false ->
  k_diverge (c_k (step x r c)) = k_diverge (c_k c) /\ c_settle (step x r c) = 15 /\
  k_resync (c_k (step x r c)) = k_resync (c_k c) + 1.
Proof.
  intros Hb Hds He Hpc Hx. unfold checker_step.
  rewrite Hb, bool_decide_eq_false_2, executable_test, (proj2 (Z.eqb_neq _ _)) by done. cbn [negb].
  unfold pc_divergence. rewrite Hx.
  set (c1 := with_settle _ 16).
  assert (k_diverge (c_k c1) = k_diverge (c_k c) /\ k_resync (c_k c1) = k_resync (c_k c) + 1) as [E1 E2]
    by (unfold c1; by case_test).
  assert (c_settle c1 = 16) as E3 by done. clearbody c1. cbv beta iota.
  destruct (step_execute_settled r c1 true) as [H1 H2]; [by right|lia|]. rewrite H1, H2, E1, E3.
  split; [done|]. split; [done|]. rewrite <- E2. unfold step_execute.
  rewrite run_gpr_check_k. rewrite (proj1 (trust_settled r _)). case_test; cbn; rewrite exec_one_k; by case_test.
Qed.
End Lockstep.

(** ** The register scan *)

Lemma gc_scan1_now s_gpr g re cand i now crtl rep ev now' crtl' rep' ev' :
  gc_scan1 s_gpr g re cand i (now, crtl, rep, ev) = (now', crtl', rep', ev') ->
  match arch_gpr g i with
  | Some rtl => if rtl =? nth i s_gpr 0 then now' = now /\ crtl' = crtl else now' = now ++ [i] /\ crtl' = <[i := rtl]> crtl
  | None => now' = now /\ crtl' = crtl
  end /\ rep <= rep' <= rep + 1 /\
  (forall e, e ∈ ev' -> e ∈ ev \/ exists a rtl, e = Clobber (Z.of_nat i) (nth i s_gpr 0) rtl a /\
     re = true /\ i ∈ cand /\ crtl !! i = Some rtl /\ arch_gpr g i = Some rtl /\ rtl <> nth i s_gpr 0) /\
  (forall e, e ∈ ev -> e ∈ ev').
Proof.
  unfold gc_scan1. destruct (arch_gpr g i) as [rtl|]; [|intros [= <- <- <- <-]; split_and!; auto; lia].
  destruct (Z.eqb_spec rtl (nth i s_gpr 0)) as [|Hne]; [intros [= <- <- <- <-]; split_and!; auto; lia|].
  destruct (re && _ && _ && _) eqn:E; intros [= <- <- <- <-]; split_and!; auto; try lia;
    try (intros e He; apply elem_of_app; by left).
  rewrite !andb_true_iff, !bool_decide_eq_true in E. destruct E as [[[? ?] ?] ?].
  intros e [?|He%list_elem_of_singleton]%elem_of_app; [by left|]. subst e. right. eauto 10.
Qed.

(** The scan of a list of register numbers. *)
Definition scan_from (s_gpr : list Z) (g : gpr_shadow) (re : bool) (cand : list nat) (ix : list nat)
    (acc : list nat * gmap nat Z * Z * list chk_event) : list nat * gmap nat Z * Z * list chk_event :=
  fold_left (fun acc i => gc_scan1 s_gpr g re cand i acc) ix acc.
Definition off (s_gpr : list Z) (g : gpr_shadow) (i : nat) : Prop :=
  exists rtl, arch_gpr g i = Some rtl /\ rtl <> nth i s_gpr 0.

Lemma scan_from_spec s_gpr g re cand ix now crtl rep ev now' crtl' rep' ev' :
  NoDup ix -> scan_from s_gpr g re cand ix (now, crtl, rep, ev) = (now', crtl', rep', ev') ->
  (forall i, i ∈ now' <-> i ∈ now \/ i ∈ ix /\ off s_gpr g i) /\
  (forall i, i ∈ ix -> off s_gpr g i -> crtl' !! i = arch_gpr g i) /\
  (forall i, i ∉ ix -> crtl' !! i = crtl !! i) /\
  rep <= rep' <= rep + Z.of_nat (length ix) /\
  (forall e, e ∈ ev' -> e ∈ ev \/ exists i a rtl, i ∈ ix /\ e = Clobber (Z.of_nat i) (nth i s_gpr 0) rtl a /\
     re = true /\ i ∈ cand /\ crtl !! i = Some rtl /\ arch_gpr g i = Some rtl /\ rtl <> nth i s_gpr 0) /\
  (forall e, e ∈ ev -> e ∈ ev').
Proof.
  revert now crtl rep ev; induction ix as [|i ix IH]; intros now crtl rep ev Hnd H.
  { injection H as <- <- <- <-. split_and!; auto; try (cbn; lia).
    - intros i. split; [by left|]. by intros [|[Hi%elem_of_nil _]].
    - by intros i Hi%elem_of_nil. }
  apply list.NoDup_cons in Hnd as [Hni Hnd]. cbn [scan_from fold_left] in H.
  destruct (gc_scan1 s_gpr g re cand i (now, crtl, rep, ev)) as [[[now1 crtl1] rep1] ev1] eqn:E1.
  destruct (gc_scan1_now _ _ _ _ _ _ _ _ _ _ _ _ _ E1) as (Hn & Hrep & He & Hmono).
  destruct (IH _ _ _ _ Hnd H) as (I1 & I2 & I3 & I4 & I5 & I6). clear IH H E1.
  assert ((forall j, j ∈ now1 <-> j ∈ now \/ j = i /\ off s_gpr g i) /\
          (off s_gpr g i -> crtl1 !! i = arch_gpr g i) /\ (forall j, j <> i -> crtl1 !! j = crtl !! j)) as (N1 & N2 & N3).
  { unfold off. destruct (arch_gpr g i) as [rtl|] eqn:Ea.
    - destruct (Z.eqb_spec rtl (nth i s_gpr 0)) as [Eq|Hne]; destruct Hn as [-> ->].
      + split_and!; auto; [|by intros (? & [= <-] & ?)].
        intros j. split; [auto|]. by intros [|(-> & ? & [= <-] & ?)].
      + split_and!.
        * intros j. rewrite elem_of_app, list_elem_of_singleton. split.
          { intros [| ->]; [by left|right]. eauto. }
          { intros [|[-> _]]; [by left|by right]. }
        * intros _. by rewrite lookup_insert_eq.
        * intros j Hj. by rewrite lookup_insert_ne.
    - destruct Hn as [-> ->]. split_and!; auto; [|by intros (? & ? & ?)].
      intros j. split; [auto|]. by intros [|(-> & ? & ? & ?)]. }
  split_and!.
  - intros j. rewrite I1, N1, elem_of_cons. split.
    + intros [[|[-> ?]]|[? ?]]; auto.
    + intros [|[[->|?] ?]]; auto.
  - intros j Hj Hoff. apply elem_of_cons in Hj as [->|Hj]; [|by apply I2]. rewrite I3 by done. by apply N2.
  - intros j [Hj Hj']%not_elem_of_cons. rewrite I3 by done. by apply N3.
  - lia.
  - cbn [length]. lia.
  - intros e [Hin|(j & a & rtl & Hj & -> & ? & ? & ? & ? & ?)]%I5.
    + destruct (He e Hin) as [?|(a & rtl & -> & ? & ? & ? & ? & ?)]; [by left|].
      right. exists i, a, rtl. split_and!; auto. by left.
    + right. exists j, a, rtl. split_and!; auto; [by right|]. rewrite <- N3; [done|]. by intros ->.
  - auto.
Qed.

(** A sampling pass reports nothing and leaves the report count alone. *)
Lemma scan_from_silent s_gpr g cand ix now crtl rep ev :
  exists now' crtl', scan_from s_gpr g false cand ix (now, crtl, rep, ev) = (now', crtl', rep, ev).
Proof.
  revert now crtl; induction ix as [|i ix IH]; intros now crtl; [by eexists _, _|].
  cbn [scan_from fold_left]. unfold gc_scan1 at 2. cbn [andb].
  destruct (arch_gpr g i); [case_test|]; apply IH.
Qed.

(** Completeness of one confirm pass. *)
Lemma scan_from_hit s_gpr g cand ix now crtl rep ev now' crtl' rep' ev' i rtl :
  NoDup ix -> scan_from s_gpr g true cand ix (now, crtl, rep, ev) = (now', crtl', rep', ev') ->
  i ∈ ix -> i ∈ cand -> crtl !! i = Some rtl -> arch_gpr g i = Some rtl -> rtl <> nth i s_gpr 0 ->
  rep + Z.of_nat (length ix) <= 40 ->
  exists a, Clobber (Z.of_nat i) (nth i s_gpr 0) rtl a ∈ ev'.
Proof.
  revert now crtl rep ev; induction ix as [|j ix IH]; intros now crtl rep ev Hnd H Hi Hc Hcr Ha Hne Hrep; [by apply elem_of_nil in Hi|].
  apply list.NoDup_cons in Hnd as [Hnj Hnd]. cbn [scan_from fold_left] in H.
  destruct (gc_scan1 s_gpr g true cand j (now, crtl, rep, ev)) as [[[now1 crtl1] rep1] ev1] eqn:E1.
  destruct (gc_scan1_now _ _ _ _ _ _ _ _ _ _ _ _ _ E1) as (Hn & Hr1 & _ & _). cbn [length] in Hrep.
  destruct (decide (i = j)) as [->|Hij].
  - destruct (scan_from_spec _ _ _ _ _ _ _ _ _ _ _ _ _ Hnd H) as (_ & _ & _ & _ & _ & Hmono).
    unfold gc_scan1 in E1. rewrite Ha, (proj2 (Z.eqb_neq _ _)) in E1 by done.
    rewrite !bool_decide_eq_true_2, (proj2 (Z.ltb_lt _ _)) in E1 by (done || lia). cbn [andb] in E1.
    injection E1 as _ _ _ <-. eexists. apply Hmono. apply elem_of_app. right. by apply list_elem_of_singleton.
  - apply elem_of_cons in Hi as [|Hi]; [done|].
    apply (IH _ _ _ _ Hnd H); auto; [|lia].
    destruct (arch_gpr g j) as [rtl'|]; [destruct (_ =? _)|]; destruct Hn as [_ ->]; rewrite ?lookup_insert_ne by done; done.
Qed.

Lemma gc_scan_from s_gpr g re cand crtl rep :
  gc_scan s_gpr g re cand crtl rep = scan_from s_gpr g re cand (seq 1 31) ([], crtl, rep, []).
Proof. unfold gc_scan, scan_from. reflexivity. Qed.

(** One call of [gpr_full_check] without fault injection: either it skips the
    scan, or it is the scan of r1..r31. *)
Lemma gpr_full_check_cases every poison s_gpr gc g gc' g' ev :
  0 < every -> poison < 1 -> gpr_full_check every poison s_gpr gc g = (gc', g', ev) ->
  g' = g /\
  (((forall e, e ∈ ev -> e = GprInert) /\ gc_recheck gc' = gc_recheck gc /\ gc_cand gc' = gc_cand gc /\
     gc_cand_rtl gc' = gc_cand_rtl gc /\
     ((gc_recheck gc = false /\ (gc_n gc + 1) mod every <> 0) \/ prf_writes g = 0)) \/
   (exists now crtl rep,
     scan_from s_gpr g (gc_recheck gc) (gc_cand gc) (seq 1 31) ([], gc_cand_rtl gc, gc_reported gc, []) = (now, crtl, rep, ev) /\
     (gc_recheck gc = true \/ (gc_n gc + 1) mod every = 0) /\ prf_writes g <> 0 /\
     gc_recheck gc' = negb (bool_decide (now = [])) && negb (gc_recheck gc) /\
     gc_cand gc' = now /\ gc_cand_rtl gc' = crtl /\ gc_reported gc' = rep)).
Proof.
  intros He Hp. unfold gpr_full_check. rewrite (proj2 (Z.leb_gt _ _)) by done. cbn [gc_recheck].
  destruct (negb (gc_recheck gc) && _) eqn:E1.
  { intros [= <- <- <-]. split; [done|left]. split_and!; try done; [by intros e ?%elem_of_nil|left].
    rewrite andb_true_iff, !negb_true_iff, Z.eqb_neq in E1. done. }
  destruct (Z.eqb_spec (prf_writes g) 0) as [E2|E2].
  { intros [= <- <- <-]. split; [done|left]. cbn [gc_cand gc_cand_rtl gc_recheck]. split_and!; try done; [|by right].
    case_test; [by intros e ?%elem_of_nil|]. by intros e ?%list_elem_of_singleton. }
  unfold gc_poison. rewrite (proj2 (Z.leb_gt 1 poison)) by done. cbn [andb].
  rewrite gc_scan_from.
  cbn [gc_recheck gc_cand gc_cand_rtl gc_reported].
  destruct (scan_from _ _ _ _ _ _) as [[[now crtl] rep] ev0] eqn:Es. cbn [app].
  intros [= <- <- <-]. split; [done|right]. exists now, crtl, rep. split_and!; try done.
  apply andb_false_iff in E1 as [E1|E1]; apply negb_false_iff in E1; [by left|right]. by apply Z.eqb_eq.
Qed.

(** A call that starts a round ([recheck] clear). *)
Lemma gpr_sample_call every poison s_gpr gc g gc' g' ev :
  0 < every -> poison < 1 -> gc_recheck gc = false -> gpr_full_check every poison s_gpr gc g = (gc', g', ev) ->
  g' = g /\ (forall r v rtl a, Clobber r v rtl a ∉ ev) /\
  ((gc_n gc + 1) mod every = 0 -> prf_writes g <> 0 -> (exists i, i ∈ seq 1 31 /\ off s_gpr g i) -> gc_recheck gc' = true) /\
  (gc_recheck gc' = true ->
     (forall i, i ∈ gc_cand gc' <-> i ∈ seq 1 31 /\ off s_gpr g i) /\
     (forall i, i ∈ seq 1 31 -> off s_gpr g i -> gc_cand_rtl gc' !! i = arch_gpr g i) /\
     gc_reported gc' = gc_reported gc).
Proof.
  intros He Hp Hr0 H.
  destruct (gpr_full_check_cases _ _ _ _ _ _ _ _ He Hp H)
    as [-> [(Hi & Hre & _ & _ & Hs)|(now & crtl & rep & Hs & Hn & Hw & Hre & -> & -> & ->)]].
  - split; [done|]. split; [intros r v rtl a Hin; by specialize (Hi _ Hin)|].
    split; [intros ? ?; destruct Hs as [[_ ?]|?]; done|congruence].
  - rewrite Hr0 in *.
    destruct (scan_from_silent s_gpr g (gc_cand gc) (seq 1 31) [] (gc_cand_rtl gc) (gc_reported gc) []) as (n2 & c2 & Hs2).
    destruct (scan_from_spec _ _ _ _ _ _ _ _ _ _ _ _ _ (NoDup_seq 1 31) Hs) as (Hnow & Hcrtl & _).
    rewrite Hs2 in Hs. injection Hs as -> -> <- <-.
    assert (forall i, i ∈ now <-> i ∈ seq 1 31 /\ off s_gpr g i) as Hnow'.
    { intros i. rewrite Hnow. split; [intros [?%elem_of_nil|?]; done|by right]. }
    split; [done|]. split; [by intros r v rtl a ?%elem_of_nil|]. split; [|done].
    intros _ _ (i & Hin). rewrite Hre, bool_decide_eq_false_2; [done|].
    intros ->. apply Hnow' in Hin. by apply elem_of_nil in Hin.
Qed.
(** The confirm call. *)
Lemma gpr_confirm_call every poison s_gpr gc g gc' g' ev :
  0 < every -> poison < 1 -> gc_recheck gc = true -> gpr_full_check every poison s_gpr gc g = (gc', g', ev) ->
  (forall i v rtl a, Clobber (Z.of_nat i) v rtl a ∈ ev ->
     i ∈ seq 1 31 /\ i ∈ gc_cand gc /\ gc_cand_rtl gc !! i = Some rtl /\ arch_gpr g i = Some rtl /\
     rtl <> nth i s_gpr 0 /\ v = nth i s_gpr 0) /\
  (forall i rtl, prf_writes g <> 0 -> i ∈ seq 1 31 -> i ∈ gc_cand gc -> gc_cand_rtl gc !! i = Some rtl ->
     arch_gpr g i = Some rtl -> rtl <> nth i s_gpr 0 -> gc_reported gc <= 9 ->
     exists a, Clobber (Z.of_nat i) (nth i s_gpr 0) rtl a ∈ ev).
Proof.
  intros He Hp Hr0 H.
  destruct (gpr_full_check_cases _ _ _ _ _ _ _ _ He Hp H)
    as [-> [(Hi & _ & _ & _ & Hs)|(now & crtl & rep & Hs & _)]].
  - split; [intros i v rtl a Hin; by specialize (Hi _ Hin)|].
    intros i rtl Hw. destruct Hs as [[? _]|?]; congruence.
  - rewrite Hr0 in Hs. split.
    + intros i v rtl a Hin.
      destruct (scan_from_spec _ _ _ _ _ _ _ _ _ _ _ _ _ (NoDup_seq 1 31) Hs) as (_ & _ & _ & _ & Hev & _).
      destruct (Hev _ Hin) as [?%elem_of_nil|(j & a' & rtl' & Hj & Heq & _ & ? & ? & ? & ?)]; [done|].
      injection Heq as Hij -> -> ->. apply Nat2Z.inj in Hij. by subst j.
    + intros i rtl _ Hin Hc Hcr Ha Hne Hrep.
      refine (scan_from_hit _ _ _ _ _ _ _ _ _ _ _ _ _ _ (NoDup_seq 1 31) Hs Hin Hc Hcr Ha Hne _).
      rewrite length_seq. lia.
Qed.

(** ** A concrete ISS for the witnesses

    Every instruction puts 7 in r2; the one at [...10] is a branch whose delay
    slot puts 9 in r3. *)
Definition toy_exec (s : iss unit) : iss unit * list store_rec :=
  if i_pc s .& 0xff =? 0x10 then (set_pc (set_gpr (set_gpr s 2 7) 3 9) (i_pc s + 0x40), [])
  else (set_pc (set_gpr s 2 7) (i_pc s + 4), []).
Definition toy_raise (s : iss unit) (_ _ : Z) : iss unit := s.
Definition toy_ld (_ : iss unit) : Z := 0.
Definition toy_iss (pc : Z) : iss unit :=
  Iss pc 0 0 (repeat 0 32) (repeat 0 32) (repeat 0 32) (repeat 0 32) (repeat 0 5) [] ∅ false tt.
Definition toy_chk (pc : Z) : chk unit := Chk (toy_iss pc) None 0 counters_zero sc_init gc_init shadow_init [].
Definition toy_ctx : exc_ctx := ExcCtx 0 0 0 0.
Lemma toy_regs s : regs_ok s -> regs_ok (fst (toy_exec s)).
Proof. intros. unfold toy_exec. case_test; cbn; by repeat apply set_gpr_regs. Qed.

Section Properties.
Context {R : Type}.
Variable execMips : iss R -> iss R * list store_rec.
Variable raise_int : iss R -> Z -> Z -> iss R.
Variable last_ld_va : iss R -> Z.
Variable no_mapskip : bool.
Variables gprchk gprchk_poison : Z.
Abbreviation step := (checker_step execMips raise_int last_ld_va no_mapskip gprchk gprchk_poison).

(** No false alarms: whatever the ISS, if every retirement is the
    model's next instruction or the delay slot it already executed, and
    reports the model's value, the checker ends in the model's own state and
    counts no divergence, no suppressed compare, no resync and no k0/k1
    drift. *)
Theorem checker_no_false_alarms (x : exc_ctx) (rs : list ret) (sf : iss R) (c : chk R) :
  faithful execMips no_mapskip (c_ss c) (c_ds c) rs sf ->
  let c' := foldl (fun c r => step x r c) c rs in
  c_ss c' = sf /\ alarms (c_k c') = alarms (c_k c).
Proof. intros H. by eapply faithful_run. Qed.

(** C5.  The trust rule: after any step on a live ISS (delay slot, mapped
    skip, interrupt entry, synchronous fault, resync or plain compare) the
    ISS holds the RTL's value in the register the retirement reports, provided
    the ISS keeps its 32 registers. *)
Theorem checker_step_trusts_rtl (x : exc_ctx) (r : ret) (c : chk R) :
  (forall s, regs_ok s -> regs_ok (fst (execMips s))) ->
  (forall s e i, regs_ok s -> regs_ok (raise_int s e i)) ->
  regs_ok (c_ss c) -> i_brk (c_ss c) = false -> reports r ->
  gpr (c_ss (step x r c)) (r_rp r) = r_rd r /\ regs_ok (c_ss (step x r c)).
Proof.
  intros He Hr Hc Hb Hrep.
  destruct (checker_step_regs execMips raise_int last_ld_va no_mapskip gprchk gprchk_poison He Hr x r c Hc) as [H1 H2].
  split; [|done]. by apply H2.
Qed.

(** C4.  Detection: in lockstep, outside the settle window, a retirement whose
    value differs from the model's is counted (and reported while fewer than
    200 were) unless the register is k0/k1, the instruction is a device load
    or it is on the suppression list. *)
Theorem checker_detects_divergence (x : exc_ctx) (r : ret) (c : chk R) :
  i_brk (c_ss c) = false -> c_ds c = None -> c_settle c = 0 ->
  u32 (i_pc (c_ss c)) = u32 (r_pc r) -> executable no_mapskip (u32 (r_pc r)) = true ->
  reports r -> r_rp r <> 26 -> r_rp r <> 27 ->
  is_device_load (c_ss c) (u32 (r_pc r)) = false ->
  let s' := fst (execMips (c_ss c)) in
  chk_suppress (i_mem s') (u32 (r_pc r)) (r_rp r) = false ->
  gpr s' (r_rp r) <> r_rd r ->
  k_diverge (c_k (step x r c)) = k_diverge (c_k c) + 1 /\
  (k_diverge (c_k c) < 200 ->
     Diverge (u32 (r_pc r)) (r_rp r) (gpr s' (r_rp r)) (r_rd r) ∈ c_ev (step x r c)).
Proof.
  intros Hb Hds Hs Hpc He Hrep H26 H27 Hdl s' Hsup Hne. unfold s' in *. clear s'.
  rewrite checker_step_lockstep by (rewrite ?Hds; done). unfold step_execute.
  rewrite run_gpr_check_k. cbn [c_settle with_ds c_ss]. rewrite Hs. change (0 <? 0) with false. cbv iota.
  cbn [c_ss with_ds]. rewrite Hdl.
  set (c3 := if negb _ then _ else _).
  assert (c_ss c3 = fst (execMips (c_ss c)) /\ c_settle c3 = 0 /\ c_k c3 = inc_insns (c_k c)) as (F1 & F2 & F3).
  { unfold c3. case_test; cbn [with_ds c_ss c_settle c_k]; by rewrite exec_one_ss, exec_one_settle, exec_one_k. }
  clearbody c3. destruct (reports_test r Hrep) as [T1 T2].
  assert (chk_compare r false c3 =
    let c4 := if k_diverge (c_k c3) <? 200 then report c3 (Diverge (u32 (r_pc r)) (r_rp r) (gpr (c_ss c3) (r_rp r)) (r_rd r)) else c3 in
    with_ss (count c4 inc_diverge) (set_gpr (c_ss c3) (r_rp r) (r_rd r))) as ->.
  { unfold chk_compare. rewrite T1, T2, F1, F2, (proj2 (Z.eqb_neq _ _) Hne), (proj2 (Z.eqb_neq _ _) H26),
      (proj2 (Z.eqb_neq _ _) H27), Hsup. cbn. by case_test; cbn; rewrite F1. }
  cbv zeta. rewrite F1, F3. cbn [k_diverge inc_insns]. split.
  - case_test; cbn; by rewrite F3.
  - intros Hlt. rewrite (proj2 (Z.ltb_lt _ _)) by done. unfold run_gpr_check.
    destruct (gpr_full_check _ _ _ _ _) as [[gc sh] ev]. cbn [c_ev with_ss count report].
    apply elem_of_app. left. apply elem_of_app. right. by apply list_elem_of_singleton.
Qed.

(** The price of a resync: after a main-line PC divergence the checker
    snaps to the RTL and no value divergence can be counted in that step or
    in the next fourteen, whatever the RTL retires. *)
Theorem resync_blinds_fourteen (x : exc_ctx) (r : ret) (rs : list ret) (c : chk R) :
  i_brk (c_ss c) = false -> c_ds c <> Some (u32 (r_pc r)) -> executable no_mapskip (u32 (r_pc r)) = true ->
  u32 (i_pc (c_ss c)) <> u32 (r_pc r) -> exc_entry (u32 (r_pc r)) = false ->
  (length rs <= 14)%nat ->
  k_resync (c_k (step x r c)) = k_resync (c_k c) + 1 /\
  k_diverge (c_k (foldl (fun c r => step x r c) c (r :: rs))) = k_diverge (c_k c).
Proof.
  intros Hb Hds He Hpc Hx Hl. cbn [foldl].
  destruct (checker_step_resync execMips raise_int last_ld_va no_mapskip gprchk gprchk_poison x r c Hb Hds He Hpc Hx)
    as (H1 & H2 & H3). split; [done|]. rewrite <- H1.
  assert (Z.of_nat (length rs) < c_settle (step x r c) <= 16) as Hs by lia. clear -Hs. revert Hs.
  generalize (step x r c) as c0. clear. induction rs as [|r rs IH]; intros c0 Hs; [done|]. cbn [foldl length] in *.
  destruct (checker_step_settled execMips raise_int last_ld_va no_mapskip gprchk gprchk_poison x r c0) as [E1 E2]; [lia|].
  rewrite <- E1. apply IH. lia.
Qed.
End Properties.

Definition sample_stream : list ret :=
  [Ret 0x8800000c true 2 7; Ret 0x88000010 true 2 7; Ret 0x88000014 true 3 9; Ret 0x88000050 true 2 7].
Lemma checker_no_false_alarms_witness :
  let c' := foldl (fun c r => checker_step toy_exec toy_raise toy_ld false 0 (-1) toy_ctx r c)
              (toy_chk 0x8800000c) sample_stream in
  i_pc (c_ss c') = 0x88000054 /\ alarms (c_k c') = (0, 0, 0, 0).
Proof.
  set (s1 := fst (toy_exec (toy_iss 0x8800000c))). set (s2 := fst (toy_exec s1)). set (s3 := fst (toy_exec s2)).
  assert (faithful toy_exec false (toy_iss 0x8800000c) None sample_stream s3) as Hf.
  { unfold sample_stream. apply (faithful_insn _ _ _ _ _ _ s1); [reflexivity..|discriminate|reflexivity|intros _ _; reflexivity|].
    apply (faithful_insn _ _ _ _ _ _ s2); [reflexivity..|discriminate|reflexivity|intros _ _; reflexivity|].
    replace (next_ds s1 s2) with (Some (u32 (r_pc (Ret 0x88000014 true 3 9)))) by reflexivity.
    apply faithful_slot; [reflexivity|intros _ _; reflexivity|].
    apply (faithful_insn _ _ _ _ _ _ s3); [reflexivity..|discriminate|reflexivity|intros _ _; reflexivity|].
    apply faithful_nil. }
  destruct (checker_no_false_alarms toy_exec toy_raise toy_ld false 0 (-1) toy_ctx sample_stream s3
              (toy_chk 0x8800000c) Hf) as [H1 H2].
  cbv zeta. rewrite H1, H2. split; reflexivity.
Defined.
Lemma checker_step_trusts_rtl_witness :
  gpr (c_ss (checker_step toy_exec toy_raise toy_ld false 0 (-1) toy_ctx (Ret 0x8800100c true 5 0xabcd) (toy_chk 0x88000000))) 5 = 0xabcd.
Proof.
  apply (checker_step_trusts_rtl toy_exec toy_raise toy_ld false 0 (-1) toy_ctx (Ret 0x8800100c true 5 0xabcd) (toy_chk 0x88000000));
    [exact toy_regs|intros; assumption|reflexivity|reflexivity|].
  split; [reflexivity|]. cbn. lia.
Defined.
Lemma checker_detects_divergence_witness :
  k_diverge (c_k (checker_step toy_exec toy_raise toy_ld false 0 (-1) toy_ctx (Ret 0x88000000 true 2 8) (toy_chk 0x88000000))) = 1.
Proof.
  refine (proj1 (checker_detects_divergence toy_exec toy_raise toy_ld false 0 (-1) toy_ctx (Ret 0x88000000 true 2 8)
    (toy_chk 0x88000000) _ _ _ _ _ _ _ _ _ _ _)); try reflexivity; try discriminate.
  split; [reflexivity|]. cbn. lia.
Defined.
Lemma resync_blinds_fourteen_witness :
  k_diverge (c_k (foldl (fun c r => checker_step toy_exec toy_raise toy_ld false 0 (-1) toy_ctx r c) (toy_chk 0x88000000)
    [Ret 0x88001000 true 2 8; Ret 0x88001004 true 2 8; Ret 0x88001008 true 2 8])) = 0.
Proof.
  refine (proj2 (resync_blinds_fourteen toy_exec toy_raise toy_ld false 0 (-1) toy_ctx (Ret 0x88001000 true 2 8)
    [Ret 0x88001004 true 2 8; Ret 0x88001008 true 2 8] (toy_chk 0x88000000) _ _ _ _ _ _)); try reflexivity; try discriminate.
  cbn. lia.
Defined.

(** The register scan confirms before it reports, and then it does
    report.  From an idle state: the sampling call reports nothing; the call
    right after it reports register [i] only if the reconstructed value is the
    same one that already differed from the ISS at the sample and still
    differs now; and a register of r1..r31 that holds such a wrong value over
    both calls is reported, below the cap of forty reports. *)
Theorem gpr_check_confirms (every poison : Z) (s1 s2 : list Z) (gc0 gc1 gc2 : gc_state) (g1 g2 : gpr_shadow)
    (ev1 ev2 : list chk_event) (i : nat) (rtl : Z) :
  0 < every -> poison < 1 -> gc_recheck gc0 = false ->
  gpr_full_check every poison s1 gc0 g1 = (gc1, g1, ev1) ->
  gpr_full_check every poison s2 gc1 g2 = (gc2, g2, ev2) ->
  let wrong (s : list Z) (g : gpr_shadow) := arch_gpr g i = Some rtl /\ rtl <> nth i s 0 in
  (forall v a, Clobber (Z.of_nat i) v rtl a ∉ ev1) /\
  (forall v a, Clobber (Z.of_nat i) v rtl a ∈ ev2 -> wrong s1 g1 /\ wrong s2 g2 /\ v = nth i s2 0) /\
  ((gc_n gc0 + 1) mod every = 0 -> prf_writes g1 <> 0 -> prf_writes g2 <> 0 -> gc_reported gc0 <= 9 ->
   (1 <= i <= 31)%nat -> wrong s1 g1 -> wrong s2 g2 ->
   exists a, Clobber (Z.of_nat i) (nth i s2 0) rtl a ∈ ev2).
Proof.
  intros He Hp Hr0 H1 H2 wrong.
  destruct (gpr_sample_call _ _ _ _ _ _ _ _ He Hp Hr0 H1) as (_ & Hsil & Hskip & Hscan). split; [done|]. split.
  - intros v a Hin. destruct (gc_recheck gc1) eqn:Hr1.
    + destruct (Hscan eq_refl) as (Hnow & Hcrtl & _).
      destruct (gpr_confirm_call _ _ _ _ _ _ _ _ He Hp Hr1 H2) as [Hs _].
      destruct (Hs i v rtl a Hin) as (Hi & Hcand & Hsame & Ha2 & Hne2 & ->).
      apply Hnow in Hcand as [_ Hoff]. rewrite (Hcrtl i Hi Hoff) in Hsame.
      destruct Hoff as (r0 & Hr & Hne1). rewrite Hr in Hsame. injection Hsame as ->. done.
    + destruct (gpr_sample_call _ _ _ _ _ _ _ _ He Hp Hr1 H2) as (_ & Hsil2 & _). by apply Hsil2 in Hin.
  - intros Hn Hw1 Hw2 Hrep Hi [Ha1 Hne1] [Ha2 Hne2].
    assert (i ∈ seq 1 31) as Hin by (apply elem_of_seq; lia).
    assert (off s1 g1 i) as Hoff by (by exists rtl).
    assert (gc_recheck gc1 = true) as Hr1 by (by apply Hskip; eauto).
    destruct (Hscan Hr1) as (Hnow & Hcrtl & Hrep1).
    destruct (gpr_confirm_call _ _ _ _ _ _ _ _ He Hp Hr1 H2) as [_ Hc].
    apply Hc; try done; [by apply Hnow|by rewrite (Hcrtl i Hin Hoff)|lia].
Qed.
Lemma gpr_check_confirms_witness :
  let g := prf_wr_log 5 4 0xbad (prf_wr_log 5 7 0x11 shadow_init) in
  let '(gc1, _, _) := gpr_full_check 1 (-1) (repeat 0 32) gc_init g in
  let '(_, _, ev2) := gpr_full_check 1 (-1) (repeat 0 32) gc1 g in
  exists a, Clobber 4 0 0xbad a ∈ ev2.
Proof.
  set (g := prf_wr_log 5 4 0xbad (prf_wr_log 5 7 0x11 shadow_init)). cbv zeta.
  destruct (gpr_full_check 1 (-1) (repeat 0 32) gc_init g) as [[gc1 ?] ev1] eqn:E1.
  destruct (gpr_full_check 1 (-1) (repeat 0 32) gc1 g) as [[gc2 ?] ev2] eqn:E2.
  assert (g0 = g) as -> by (vm_compute in E1; injection E1 as _ <- _; reflexivity).
  assert (g1 = g) as -> by (vm_compute in E1; injection E1 as <- _; vm_compute in E2; injection E2 as _ <- _; reflexivity).
  destruct (gpr_check_confirms 1 (-1) (repeat 0 32) (repeat 0 32) gc_init gc1 gc2 g g ev1 ev2 4 0xbad
    ltac:(lia) ltac:(lia) eq_refl E1 E2) as (_ & _ & H).
  assert (arch_gpr g 4 = Some 0xbad /\ 0xbad <> nth 4 (repeat 0 32) 0) as Hw by (split; [vm_compute; reflexivity|discriminate]).
  apply H; [reflexivity|vm_compute; discriminate|vm_compute; discriminate|vm_compute; discriminate|lia|exact Hw|exact Hw].
Defined.
