(* ===== verification/Scsi.v ===== *)
(** * Scsi: the harness's SCSI disk servicer

    The SCSI part of the main loop of sim/henry_tb.cpp (doorbell, chunked
    transfer, completion ring, status posting), the SCSIHASH fold,
    [scsi_read_check] and the quiescence flag that gates --save-at.

    The disk, the command decoder [scsi_service_run] and the staging ring are
    separate components (scsi_service.h, ring_service.h): section variables. *)
From S2P Require Import Prelude AddressMap GuestMem.

(** ** Data *)

Inductive completion := SCSI_DONE_COMPLETE | SCSI_DONE_PAUSE.
#[export] Instance completion_eq_dec : EqDecision completion.
Proof. solve_decision. Defined.

(** [scsi_req_t] as the TB fills it from the mailbox ports. *)
Record scsi_req := ScsiReq {
  q_seq : Z; q_nbdp : Z; q_xfer_len : Z; q_cdb : list Z; q_dest : Z; q_lun : Z; q_to_device : Z }.
(** [scsi_rsp_t]: the fields the TB posts or tests. *)
Record scsi_rsp := ScsiRsp {
  p_seq : Z; p_residual : Z; p_scsi_status : Z; p_tgt_status : Z; p_completion : completion }.
Record scsi_cqe := ScsiCqe { e_bytes : nat; e_nbdp : Z }.

(** FNV-1a as SCSIHASH folds it. *)
Definition FNV_BASIS : Z := 1469598103934665603.
Definition FNV_PRIME : Z := 1099511628211.
Definition fnv1 (h b : Z) : Z := u64 ((h .^ b) * FNV_PRIME).
Definition fnv (h : Z) (bs : list Z) : Z := foldl fnv1 h bs.
Definition fnv_key (lba : Z) (total : nat) : Z := u64 (lba .<< 16) .^ Z.of_nat (total / 512).
Definition key_bytes (k : Z) : list Z := map (fun b => (k .>> (8 * Z.of_nat b)) .& 0xff) (seq 0 8).

(** What the servicer says to the outside world. *)
Inductive scsi_out :=
  | PostRsp (r : scsi_rsp)
  | WriteHash (lba : Z) (nblk bytes hash : Z).

(** ** [scsi_read_check] *)

Record rdchk := RdChk { rd_reads : Z; rd_bytes : Z; rd_bad_reads : Z; rd_bad_bytes : Z }.
Definition rdchk_init : rdchk := RdChk 0 0 0 0.

(** The inner loop over one descriptor: [(bytes done, bad, faulted)]. *)
Fixpoint rd_bytes_loop (m : mem) (bp : Z) (cnt : nat) (i : Z) (data : list Z) (bad : Z) : list Z * Z * bool :=
  match cnt, data with
  | S c, b :: t =>
      let '(a, b1) := fpga_map (u32 (bp + i)) in
      if b1 then (data, bad, true)
      else rd_bytes_loop m bp c (i + 1) t (if mget m a =? b then bad else bad + 1)
  | _, _ => (data, bad, false)
  end.
(** The descriptor walk; [data] is what is still to be matched, [guard] the 256
    descriptors it follows at most. *)
Fixpoint rd_chain (m : mem) (guard : nat) (nbdp : Z) (data : list Z) (bad : Z) : list Z * Z :=
  match guard with
  | O => (data, bad)
  | S g =>
      match data with
      | [] => (data, bad)
      | _ :: _ =>
          let '(d, b0) := fpga_map nbdp in
          if b0 then (data, bad)
          else
            let bp := be32 m d in
            let bc := be32 m (d + 4) in
            let dp := be32 m (d + 8) in
            let '(data', bad', b2) := rd_bytes_loop m bp (Z.to_nat (bc .& 0x3fff)) 0 data bad in
            if b2 || negb (bc .& 0x80000000 =? 0) || (dp =? 0) then (data', bad')
            else rd_chain m g dp data' bad'
      end
  end.
Definition scsi_read_check (m : mem) (buf : list Z) (pos len : nat) (nbdp : Z) (c : rdchk) : rdchk :=
  let data := take len (drop pos buf) in
  let '(rest, bad) := rd_chain m 256 nbdp data 0 in
  let off := Z.of_nat (length data - length rest) in
  RdChk (rd_reads c + 1) (rd_bytes c + off)
    (if bad =? 0 then rd_bad_reads c else rd_bad_reads c + 1)
    (if bad =? 0 then rd_bad_bytes c else rd_bad_bytes c + bad).

(** ** The servicer *)

Section Service.
Context {Disk Ring : Type}.
(** [scsi_service_run]: response, buffer, direction and write LBA of a command. *)
Variable scsi_service_run : scsi_req -> Disk -> list Z -> scsi_rsp * list Z * bool * Z.
Variable block_write : Z -> list Z -> Disk -> Disk.
Variable scsi_ring_stage_read : Ring -> list Z -> Z -> Ring.
Variable scsi_ring_poll : Ring -> Z -> option scsi_cqe * Ring.
Variable scsi_ring_read_wr : Ring -> nat -> list Z * Ring.
(** [ST_SELECT_TRANSFER_SUCCESS], [TGT_GOOD], and the knob SCSIHASH. *)
Variables st_ok tgt_good : Z.
Variable scsihash : bool.

Record scsi_state := ScsiState {
  s_buf : list Z; s_to_dev : bool; s_wr_lba : Z; s_rsp : scsi_rsp;
  s_pos : nat; s_total : nat; s_active : bool;
  s_last_seq : Z; s_wait : bool; s_sring_seq : Z; s_cmd_lba : Z; s_cmd_op : Z;
  s_wh : Z; s_wh_bytes : Z; s_rdchk : rdchk }.
(** Program start: every static at its initialiser. *)
Definition rsp_zero : scsi_rsp := ScsiRsp 0 0 0 0 SCSI_DONE_COMPLETE.
Definition scsi_init : scsi_state :=
  ScsiState [] false 0 rsp_zero 0 0 false 0 false 0 0 0 0 0 rdchk_init.

Definition scsi_quiescent (s : scsi_state) : bool := negb (s_active s) && negb (s_wait s).

(** The doorbell: NEW or RESUME. *)
Definition doorbell (q : scsi_req) (d : Disk) (rg : Ring) (s : scsi_state) : scsi_state * Ring * list scsi_out :=
  let lba := (nth 2 (q_cdb q) 0 .<< 24) .| (nth 3 (q_cdb q) 0 .<< 16) .| (nth 4 (q_cdb q) 0 .<< 8) .| nth 5 (q_cdb q) 0 in
  let resume := s_active s && (s_pos s <? s_total s)%nat in
  let '(rsp, buf, to_dev, wr_lba, total, pos, active) :=
    if negb resume then
      let '(rsp, buf, to_dev, wr_lba) := scsi_service_run q d (s_buf s) in
      (rsp, buf, to_dev, wr_lba, length buf, 0%nat,
       (p_scsi_status rsp =? st_ok) && negb (bool_decide (buf = [])))
    else
      (ScsiRsp (p_seq (s_rsp s)) (p_residual (s_rsp s)) st_ok tgt_good (p_completion (s_rsp s)),
       s_buf s, s_to_dev s, s_wr_lba s, s_total s, s_pos s, s_active s) in
  let rsp := ScsiRsp (q_seq q) (p_residual rsp) (p_scsi_status rsp) (p_tgt_status rsp) (p_completion rsp) in
  let st wait sseq := ScsiState buf to_dev wr_lba rsp pos total active (q_seq q) wait sseq lba (nth 0 (q_cdb q) 0)
                        (s_wh s) (s_wh_bytes s) (s_rdchk s) in
  if active then
    (st true (q_seq q),
     if to_dev then rg else scsi_ring_stage_read rg (take (total - pos) (drop pos buf)) (q_seq q), [])
  else (st (s_wait s) (s_sring_seq s), rg, [PostRsp rsp]).

(** The sectors a write completion sends to the disk. *)
Fixpoint write_blocks (n : nat) (lba : Z) (data : list Z) (d : Disk) : Disk :=
  match n with
  | O => d
  | S k => write_blocks k (lba + 1) (drop 512 data) (block_write lba (take 512 data) d)
  end.
Definition hash_chunk (s : scsi_state) (data : list Z) : Z * Z :=
  let '(h, n) := if (s_pos s =? 0)%nat
                 then (fnv FNV_BASIS (key_bytes (fnv_key (s_wr_lba s) (s_total s))), 0)
                 else (s_wh s, s_wh_bytes s) in
  (fnv h data, n + Z.of_nat (length data)).

(** A completion-ring entry for the outstanding chain. *)
Definition complete (m : mem) (e : scsi_cqe) (d : Disk) (rg : Ring) (s : scsi_state)
    : scsi_state * Disk * Ring * list scsi_out :=
  let moved := Nat.min (e_bytes e) (s_total s - s_pos s) in
  let ck := if s_to_dev s then s_rdchk s else scsi_read_check m (s_buf s) (s_pos s) moved (e_nbdp e) (s_rdchk s) in
  let '(buf, d, rg, wh, whb) :=
    if s_to_dev s then
      let '(data, rg) := scsi_ring_read_wr rg moved in
      let buf := take (s_pos s) (s_buf s) ++ data ++ drop (s_pos s + moved) (s_buf s) in
      let d := write_blocks (moved / 512) (s_wr_lba s + Z.of_nat (s_pos s / 512)) data d in
      let '(wh, whb) := if scsihash then hash_chunk s data else (s_wh s, s_wh_bytes s) in
      (buf, d, rg, wh, whb)
    else (s_buf s, d, rg, s_wh s, s_wh_bytes s) in
  let pos := (s_pos s + moved)%nat in
  let more := (pos <? s_total s)%nat in
  let rsp := if more then ScsiRsp (p_seq (s_rsp s)) 0 (if s_to_dev s then 0x48 else 0x49) (p_tgt_status (s_rsp s)) SCSI_DONE_PAUSE
             else ScsiRsp (p_seq (s_rsp s)) 0 st_ok (p_tgt_status (s_rsp s)) SCSI_DONE_COMPLETE in
  let log := if negb more && s_to_dev s && scsihash
             then [WriteHash (s_wr_lba s) (whb / 512) whb wh] else [] in
  (ScsiState buf (s_to_dev s) (s_wr_lba s) rsp pos (s_total s) (if more then s_active s else false)
     (s_last_seq s) false (s_sring_seq s) (s_cmd_lba s) (s_cmd_op s) wh whb ck,
   d, rg, log ++ [PostRsp rsp]).

(** The SCSI section of one cycle: doorbell edge (with a disk open), then the polled
    completion.  The staging slots are part of DRAM: [g_mem] reads DRAM out of the ring. *)
Definition scsi_cycle (disk_ok : bool) (cyc : Z) (q : scsi_req) (g_mem : Ring -> mem) (d : Disk) (rg : Ring) (s : scsi_state)
    : scsi_state * Disk * Ring * list scsi_out :=
  let '(s, rg, out) :=
    if disk_ok && negb (q_seq q =? s_last_seq s) then doorbell q d rg s else (s, rg, []) in
  if s_wait s && (cyc .& 0xf =? 0) then
    let '(e, rg) := scsi_ring_poll rg (s_sring_seq s) in
    match e with
    | Some e => let '(s, d, rg, out') := complete (g_mem rg) e d rg s in (s, d, rg, out ++ out')
    | None => (s, d, rg, out)
    end
  else (s, d, rg, out).
End Service.

(** ** Lemmas *)

Lemma fnv_app h xs ys : fnv h (xs ++ ys) = fnv (fnv h xs) ys.
Proof. apply foldl_app. Qed.

(** The servicer touches the ring through its three operations only. *)
Lemma scsi_cycle_ring {Disk Ring A : Type} (P : Ring -> A) srun bw stage poll rd_wr st_ok tgt_good scsihash disk_ok
  cyc q g_mem (d : Disk) (rg : Ring) s :
  (forall r b n, P (stage r b n) = P r) -> (forall r n, P (snd (poll r n)) = P r) -> (forall r n, P (snd (rd_wr r n)) = P r) ->
  P (snd (fst (scsi_cycle srun bw stage poll rd_wr st_ok tgt_good scsihash disk_ok cyc q g_mem d rg s))) = P rg.
Proof.
  intros H1 H2 H3. unfold scsi_cycle.
  destruct (if disk_ok && _ then _ else _) as [[s1 rg1] out] eqn:E.
  assert (P rg1 = P rg) as <-.
  { destruct (disk_ok && _); [|by injection E as _ <- _]. unfold doorbell in E.
    destruct (if negb _ then _ else _) as [[[[[[rsp buf] td] wl] tot] pos] act]. destruct act; injection E as _ <- _; [|done].
    destruct td; [done|apply H1]. }
  destruct (s_wait s1 && _); [|done]. pose proof (H2 rg1 (s_sring_seq s1)) as Hp. destruct (poll rg1 _) as [[e|] rg2]; [|done].
  destruct (complete _ _ _ _ _ _ _ _ _) as [[[s2 d2] rg3] o] eqn:Ec. cbn [fst snd] in *. rewrite <- Hp. unfold complete in Ec.
  destruct (s_to_dev s1); [|by injection Ec as _ _ <- _].
  pose proof (H3 rg2 (Nat.min (e_bytes e) (s_total s1 - s_pos s1))) as Hr. destruct (rd_wr _ _) as [data rg4]. cbn [snd] in Hr.
  destruct scsihash; [destruct (hash_chunk _ _)|]; by injection Ec as _ _ <- _.
Qed.

Section ServiceLemmas.
Context {Disk Ring : Type}.
Variable scsi_service_run : scsi_req -> Disk -> list Z -> scsi_rsp * list Z * bool * Z.
Variable block_write : Z -> list Z -> Disk -> Disk.
Variable stage_read : Ring -> list Z -> Z -> Ring.
Variable ring_poll : Ring -> Z -> option scsi_cqe * Ring.
Variable read_wr : Ring -> nat -> list Z * Ring.
Variables st_ok tgt_good : Z.
Variable scsihash : bool.
(** The ring servicer delivers as many bytes as it is asked for. *)
Hypothesis read_wr_len : forall rg n, length (fst (read_wr rg n)) = n.

Abbreviation wblocks := (write_blocks block_write).
Abbreviation ring_doorbell := (doorbell scsi_service_run stage_read st_ok tgt_good).
Abbreviation ring_complete := (complete block_write read_wr st_ok scsihash).

Lemma write_blocks_app k n lba xs ys d :
  length xs = (512 * k)%nat -> wblocks (k + n) lba (xs ++ ys) d = wblocks n (lba + Z.of_nat k) ys (wblocks k lba xs d).
Proof.
  revert lba xs d; induction k as [|k IH]; intros lba xs d Hl.
  - destruct xs; [|cbn in Hl; lia]. cbn. by rewrite Z.add_0_r.
  - cbn [Nat.add write_blocks]. rewrite drop_app_le, take_app_le by lia.
    rewrite IH by (rewrite length_drop; lia). f_equal. lia.
Qed.
Lemma write_blocks_prefix k lba xs ys d :
  (512 * k <= length xs)%nat -> wblocks k lba (xs ++ ys) d = wblocks k lba xs d.
Proof.
  revert lba xs d; induction k as [|k IH]; intros lba xs d Hl; [done|].
  cbn [write_blocks]. rewrite drop_app_le, take_app_le by lia. apply IH. rewrite length_drop. lia.
Qed.

(** A transfer in progress: completions, each followed by the doorbell the
    guest rings when it got a PAUSE. *)
Fixpoint transfer (m : mem) (es : list (scsi_cqe * scsi_req)) (d : Disk) (rg : Ring) (s : scsi_state)
    : scsi_state * Disk * Ring * list scsi_out :=
  match es with
  | [] => (s, d, rg, [])
  | (e, q) :: t =>
      if s_wait s then
        let '(s, d, rg, out) := ring_complete m e d rg s in
        if s_active s then
          let '(s, rg, out') := ring_doorbell q d rg s in
          let '(s, d, rg, out'') := transfer m t d rg s in (s, d, rg, out ++ out' ++ out'')
        else (s, d, rg, out)
      else (s, d, rg, [])
  end.
Fixpoint moved_by (es : list (scsi_cqe * scsi_req)) : nat :=
  match es with [] => 0 | (e, _) :: t => e_bytes e + moved_by t end.

(** *** What a WRITE should do

    The chunks as they are delivered: the payload is the ring's bytes for each of them,
    cut to what the command still wants; each chunk but the last is answered PAUSE, with
    the sequence number of the request it belongs to. *)
Definition pause_of (seq tgt : Z) : scsi_out := PostRsp (ScsiRsp seq 0 0x48 tgt SCSI_DONE_PAUSE).
Fixpoint delivered (rg : Ring) (wanted : nat) (es : list (scsi_cqe * scsi_req)) : list Z * Ring :=
  match es with
  | [] => ([], rg)
  | (e, _) :: t =>
      let '(data, rg) := read_wr rg (Nat.min (e_bytes e) wanted) in
      if (e_bytes e <? wanted)%nat
      then let '(more, rg) := delivered rg (wanted - e_bytes e) t in (data ++ more, rg)
      else (data, rg)
  end.
(** The pauses, then the sequence number and target status of the completion. *)
Fixpoint answered (wanted : nat) (seq tgt : Z) (es : list (scsi_cqe * scsi_req)) : list scsi_out * (Z * Z) :=
  match es with
  | (e, q) :: t =>
      if (e_bytes e <? wanted)%nat
      then let '(ps, fin) := answered (wanted - e_bytes e) (q_seq q) tgt_good t in (pause_of seq tgt :: ps, fin)
      else ([], (seq, tgt))
  | [] => ([], (seq, tgt))
  end.

(** A WRITE command between chunks: what went to the disk and into the hash is
    the payload delivered so far. *)
Record write_inv (lba : Z) (total : nat) (d0 : Disk) (got : list Z) (d : Disk) (s : scsi_state) : Prop := WriteInv {
  wi_wait : s_wait s = true; wi_active : s_active s = true; wi_dev : s_to_dev s = true;
  wi_lba : s_wr_lba s = lba; wi_total : s_total s = total; wi_len : length (s_buf s) = total;
  wi_got : take (s_pos s) (s_buf s) = got;
  wi_pos : (s_pos s < total)%nat; wi_al : (s_pos s mod 512 = 0)%nat;
  wi_disk : d = wblocks (s_pos s / 512) lba got d0;
  wi_hash : scsihash = true -> (s_pos s <> 0)%nat ->
    s_wh s = fnv (fnv FNV_BASIS (key_bytes (fnv_key lba total))) got /\ s_wh_bytes s = Z.of_nat (s_pos s) }.

Lemma nat_div_add_al a b : (a mod 512 = 0)%nat -> ((a + b) / 512 = a / 512 + b / 512)%nat.
Proof.
  intros Ha. rewrite (Nat.div_mod_eq a 512) at 1. rewrite Ha, Nat.add_0_r, (Nat.mul_comm 512), Nat.div_add_l by lia. done.
Qed.

(** One write completion: [data] is what the ring delivers for it. *)
Lemma complete_write m e lba total d0 got d rg s data rg' :
  write_inv lba total d0 got d s ->
  let moved := Nat.min (e_bytes e) (total - s_pos s) in
  read_wr rg moved = (data, rg') ->
  exists buf wh whb,
    let pos := (s_pos s + moved)%nat in
    let more := (pos <? total)%nat in
    let rsp := if more then ScsiRsp (p_seq (s_rsp s)) 0 0x48 (p_tgt_status (s_rsp s)) SCSI_DONE_PAUSE
               else ScsiRsp (p_seq (s_rsp s)) 0 st_ok (p_tgt_status (s_rsp s)) SCSI_DONE_COMPLETE in
    length buf = total /\ take pos buf = got ++ data /\
    (scsihash = true -> wh = fnv (fnv FNV_BASIS (key_bytes (fnv_key lba total))) (got ++ data) /\ whb = Z.of_nat pos) /\
    ring_complete m e d rg s =
      (ScsiState buf true lba rsp pos total more (s_last_seq s) false (s_sring_seq s) (s_cmd_lba s) (s_cmd_op s) wh whb (s_rdchk s),
       wblocks (pos / 512) lba (got ++ data) d0, rg',
       (if negb more && scsihash then [WriteHash lba (whb / 512) whb wh] else []) ++ [PostRsp rsp]).
Proof.
  intros [Hw Ha Hd Hl Ht Hlen Hgot Hp Hal Hdisk Hh]. cbv zeta. unfold complete. rewrite Hd, Ht, Hl, Ha.
  set (moved := Nat.min (e_bytes e) (total - s_pos s)).
  pose proof (read_wr_len rg moved) as Hm. intros Er. rewrite Er in Hm |- *. cbn in Hm.
  assert (length got = s_pos s) as Hg by (rewrite <- Hgot, length_take; lia).
  set (buf := take (s_pos s) (s_buf s) ++ data ++ drop (s_pos s + moved) (s_buf s)).
  assert (take (s_pos s + moved) buf = got ++ data) as Htake.
  { unfold buf. rewrite Hgot, app_assoc. apply take_app_length'. rewrite length_app. lia. }
  assert (wblocks (moved / 512) (lba + Z.of_nat (s_pos s / 512)) data d = wblocks ((s_pos s + moved) / 512) lba (got ++ data) d0) as ->.
  { rewrite nat_div_add_al by done. rewrite write_blocks_app; [by rewrite <- Hdisk|].
    rewrite Hg. pose proof (Nat.div_mod_eq (s_pos s) 512). lia. }
  assert (length buf = total) as Hbuf.
  { unfold buf. rewrite !length_app, length_take, length_drop. unfold moved in *. lia. }
  destruct scsihash eqn:Es.
  - destruct (hash_chunk s data) as [wh whb] eqn:Eh. exists buf, wh, whb. split_and!; [done|done| |].
    + intros _. unfold hash_chunk in Eh. rewrite fnv_app.
      destruct (Nat.eqb_spec (s_pos s) 0) as [E0|E0].
      * injection Eh as <- <-. destruct got; [|cbn in Hg; lia]. rewrite E0, Hl, Ht, Hm. change (fnv ?h []) with h. split; [done|lia].
      * injection Eh as <- <-. destruct (Hh eq_refl E0) as [-> ->]. rewrite Hm. split; [done|lia].
    + rewrite andb_true_r. by destruct (_ <? _)%nat.
  - exists buf, (s_wh s), (s_wh_bytes s). split_and!; [done|done|done|].
    rewrite !andb_false_r. by destruct (_ <? _)%nat.
Qed.

(** The guest's answer to a PAUSE. *)
Lemma doorbell_resume q d rg s :
  s_active s = true -> (s_pos s < s_total s)%nat ->
  ring_doorbell q d rg s =
  (ScsiState (s_buf s) (s_to_dev s) (s_wr_lba s)
     (ScsiRsp (q_seq q) (p_residual (s_rsp s)) st_ok tgt_good (p_completion (s_rsp s)))
     (s_pos s) (s_total s) true (q_seq q) true (q_seq q)
     ((nth 2 (q_cdb q) 0 .<< 24) .| (nth 3 (q_cdb q) 0 .<< 16) .| (nth 4 (q_cdb q) 0 .<< 8) .| nth 5 (q_cdb q) 0)
     (nth 0 (q_cdb q) 0) (s_wh s) (s_wh_bytes s) (s_rdchk s),
   if s_to_dev s then rg else stage_read rg (take (s_total s - s_pos s) (drop (s_pos s) (s_buf s))) (q_seq q), []).
Proof. intros Ha Hp. unfold doorbell. rewrite Ha, (proj2 (Nat.ltb_lt _ _)) by done. done. Qed.

(** The outcome of a finished WRITE of [payload]. *)
Record write_done (lba : Z) (payload : list Z) (pauses : list scsi_out) (fin : Z * Z) (d0 : Disk) (s : scsi_state) (d : Disk)
    (out : list scsi_out) : Prop := WriteDone {
  wd_quiet : scsi_quiescent s = true;
  wd_buf : s_buf s = payload;
  wd_disk : d = wblocks (length payload / 512) lba payload d0;
  wd_out : out = pauses ++
    (if scsihash then [WriteHash lba (Z.of_nat (length payload) / 512) (Z.of_nat (length payload))
                         (fnv (fnv FNV_BASIS (key_bytes (fnv_key lba (length payload)))) payload)] else []) ++
    [PostRsp (ScsiRsp (fst fin) 0 st_ok (snd fin) SCSI_DONE_COMPLETE)] }.

Lemma write_transfer m es lba total d0 : forall got d rg s,
  write_inv lba total d0 got d s ->
  Forall (fun eq => (e_bytes (fst eq) mod 512 = 0)%nat) es ->
  (total <= s_pos s + moved_by es)%nat ->
  let '(s', d', rg', out) := transfer m es d rg s in
  let '(data, rgd) := delivered rg (total - s_pos s) es in
  let '(pauses, fin) := answered (total - s_pos s) (p_seq (s_rsp s)) (p_tgt_status (s_rsp s)) es in
  length (got ++ data) = total /\ rg' = rgd /\ write_done lba (got ++ data) pauses fin d0 s' d' out.
Proof.
  induction es as [|[e q] es IH]; intros got d rg s Hinv Hal Hsum; cbn [transfer delivered answered].
  { cbn in Hsum. pose proof (wi_pos _ _ _ _ _ _ Hinv). lia. }
  rewrite (wi_wait _ _ _ _ _ _ Hinv).
  destruct (read_wr rg (Nat.min (e_bytes e) (total - s_pos s))) as [data rg'] eqn:Er.
  destruct (complete_write m e lba total d0 got d rg s data rg' Hinv Er) as (buf & wh & whb & Hlen & Htk & Hh & ->).
  inversion_clear Hal as [|? ? Hal0 Hal']. cbn [fst] in Hal0. cbn [moved_by] in Hsum.
  pose proof (wi_pos _ _ _ _ _ _ Hinv) as Hp. pose proof (wi_al _ _ _ _ _ _ Hinv) as Ha.
  set (pos := (s_pos s + Nat.min (e_bytes e) (total - s_pos s))%nat) in *.
  destruct (Nat.ltb_spec (e_bytes e) (total - s_pos s)) as [Hlt|Hge].
  - assert (pos = s_pos s + e_bytes e)%nat as Epos by (unfold pos in *; lia).
    rewrite (proj2 (Nat.ltb_lt pos total)) in * by lia. cbn [s_active negb andb app].
    rewrite doorbell_resume by (done || (cbn; lia)).
    cbn [s_buf s_to_dev s_wr_lba s_rsp s_pos s_total p_residual p_completion s_wh s_wh_bytes s_rdchk].
    set (s1 := ScsiState buf true lba _ pos total true _ _ _ _ _ _ _ _).
    assert (write_inv lba total d0 (got ++ data) (wblocks (pos / 512) lba (got ++ data) d0) s1) as Hinv1.
    { constructor; try done; [cbn [s1 s_pos]; lia| |by intros Es _; apply Hh].
      cbn [s1 s_pos]. rewrite Epos, <- Nat.Div0.add_mod_idemp_l, Ha, Nat.add_0_l. done. }
    specialize (IH _ _ rg' s1 Hinv1 Hal'). cbn [s1 s_pos s_rsp p_seq p_tgt_status] in IH. fold s1 in IH.
    replace (total - s_pos s - e_bytes e)%nat with (total - pos)%nat by lia.
    destruct (transfer m es _ rg' s1) as [[[s' d'] rg''] out]. destruct (delivered rg' _ es) as [more rgd].
    destruct (answered _ _ _ es) as [ps fin]. rewrite <- app_assoc in IH.
    destruct IH as (L & R & [Q1 Q2 Q3 Q4]); [lia|]. split; [done|]. split; [done|]. constructor; try done. by rewrite Q4.
  - assert (pos = total) as Epos by (unfold pos in *; lia). rewrite Epos in *. rewrite Nat.ltb_irrefl in *.
    rewrite (firstn_all2 buf) in Htk by lia. cbn [s_active negb andb].
    assert (length (got ++ data) = total) as Hl by (by rewrite <- Htk). split; [done|]. split; [done|].
    constructor; try done; rewrite ?Hl; [done|]. cbn [fst snd app]. destruct scsihash; [|done]. destruct (Hh eq_refl) as [-> ->]. done.
Qed.
End ServiceLemmas.

(** ** Properties *)

Section Properties.
Context {Disk Ring : Type}.
Variable scsi_service_run : scsi_req -> Disk -> list Z -> scsi_rsp * list Z * bool * Z.
Variable block_write : Z -> list Z -> Disk -> Disk.
Variable stage_read : Ring -> list Z -> Z -> Ring.
Variable ring_poll : Ring -> Z -> option scsi_cqe * Ring.
Variable read_wr : Ring -> nat -> list Z * Ring.
Variables st_ok tgt_good : Z.
Variable scsihash : bool.

(** C7.  A WRITE split at descriptor-chain boundaries is one WRITE: from the doorbell that
    starts it, through any completions whose byte counts are multiples of 512 and cover
    the command, every chunk but the last is answered by one PAUSE (0x48) with the
    sequence number of the request it belongs to, the last by COMPLETE, and nothing else
    is posted.  The servicer ends quiescent with the payload in its buffer, the bytes the
    ring delivered chunk by chunk, and the disk has received exactly the payload's
    sectors, in order from the command's LBA; SCSIHASH prints one record, before the
    completion, whose hash is FNV-1a of the (lba, count) key followed by the payload,
    wherever the chunk boundaries fell.  The decoder accepts the command as a non-empty
    write, and the ring delivers as many bytes as it is asked for. *)
Theorem chunked_write_exact (m : mem) (q : scsi_req) (es : list (scsi_cqe * scsi_req))
    (d : Disk) (rg : Ring) (s : scsi_state) (rsp : scsi_rsp) (buf : list Z) (lba : Z) :
  (forall rg n, length (fst (read_wr rg n)) = n) ->
  scsi_quiescent s = true ->
  scsi_service_run q d (s_buf s) = (rsp, buf, true, lba) ->
  p_scsi_status rsp = st_ok -> buf <> [] ->
  Forall (fun eq => (e_bytes (fst eq) mod 512 = 0)%nat) es -> (length buf <= moved_by es)%nat ->
  let '(s1, rg1, out1) := doorbell scsi_service_run stage_read st_ok tgt_good q d rg s in
  let '(s', d', rg', out) :=
    transfer scsi_service_run block_write stage_read read_wr st_ok tgt_good scsihash m es d rg1 s1 in
  let '(payload, rgd) := delivered read_wr rg (length buf) es in
  let '(pauses, fin) := answered tgt_good (length buf) (q_seq q) (p_tgt_status rsp) es in
  out1 = [] /\ rg1 = rg /\ rg' = rgd /\ length payload = length buf /\
  write_done block_write st_ok scsihash lba payload pauses fin d s' d' out.
Proof.
  intros Hrd Hq Hrun Hst Hne Hal Hsum. unfold doorbell.
  unfold scsi_quiescent in Hq. rewrite andb_true_iff, !negb_true_iff in Hq. destruct Hq as [Hact Hwait].
  rewrite Hact. cbn [andb negb]. rewrite Hrun, Hst, Z.eqb_refl, bool_decide_eq_false_2 by done. cbn [andb negb].
  set (s1 := ScsiState buf true lba _ _ _ _ _ _ _ _ _ _ _ _).
  assert (write_inv block_write scsihash lba (length buf) d [] d s1) as Hinv.
  { constructor; try done. destruct buf; [done|cbn; lia]. }
  pose proof (write_transfer scsi_service_run block_write stage_read read_wr st_ok tgt_good scsihash Hrd
    m es lba (length buf) d [] d rg s1 Hinv Hal Hsum) as H. cbn [s1 s_pos s_rsp p_seq p_tgt_status] in H. fold s1 in H.
  rewrite Nat.sub_0_r in H.
  destruct (transfer _ _ _ _ _ _ _ m es d rg s1) as [[[s' d'] rg'] out].
  destruct (delivered _ _ _ es) as [data rgd]. destruct (answered _ _ _ _ es) as [ps fin]. cbn [app] in H.
  destruct H as (H1 & H2 & H3). by split_and!.
Qed.

(** --restore does not carry the doorbell sequence number: a quiescent
    harness whose last command had sequence [q_seq q <> 0] sees no doorbell
    while the ports hold still, but a freshly started one, with every static
    at its default as the save gate assumes, takes the same ports for a new
    command: it stages a transfer or posts a second response. *)
Theorem restore_replays_last_command (cyc : Z) (q : scsi_req) (g_mem : Ring -> mem) (d : Disk) (rg : Ring) (s : scsi_state) :
  scsi_quiescent s = true -> s_last_seq s = q_seq q -> q_seq q <> 0 -> cyc .& 0xf <> 0 ->
  let cycle := scsi_cycle scsi_service_run block_write stage_read ring_poll read_wr st_ok tgt_good scsihash true cyc q g_mem d rg in
  cycle s = (s, d, rg, []) /\
  let '(s', _, _, out) := cycle scsi_init in
  s_wait s' = true \/ exists r, out = [PostRsp r] /\ p_seq r = q_seq q.
Proof.
  intros Hq Hl Hnz Hcyc. cbv zeta. unfold scsi_cycle.
  unfold scsi_quiescent in Hq. rewrite andb_true_iff, !negb_true_iff in Hq. destruct Hq as [Hact Hwait].
  rewrite Hl, Z.eqb_refl. cbn [negb andb]. rewrite Hwait. split; [done|].
  cbn [scsi_init s_last_seq]. rewrite (proj2 (Z.eqb_neq _ _)) by done. cbn [negb andb].
  unfold doorbell. cbn [scsi_init s_active s_pos s_total andb negb s_buf].
  destruct (scsi_service_run q d []) as [[[rsp buf] td] lba].
  destruct (_ && _) eqn:Ea; cbn [s_wait].
  - rewrite (proj2 (Z.eqb_neq _ _) Hcyc), andb_false_r. by left.
  - cbn [andb]. right. eexists. split; [done|]. done.
Qed.
End Properties.

(** A disk that logs its writes, and a ring that hands out a fixed payload. *)
Definition log_write (lba : Z) (bs : list Z) (d : list (Z * Z)) : list (Z * Z) := d ++ [(lba, nth 0 bs 0)].
Definition fixed_run (n : nat) (st : Z) (q : scsi_req) (d : list (Z * Z)) (b : list Z) : scsi_rsp * list Z * bool * Z :=
  (ScsiRsp 0 0 st 0 SCSI_DONE_COMPLETE, repeat 0 n, true, 100).
Definition seq_ring (rg : Z) (n : nat) : list Z * Z := (repeat rg n, rg + 1).
Definition no_stage (rg : Z) (bs : list Z) (sq : Z) : Z := rg.
Definition no_poll (rg sq : Z) : option scsi_cqe * Z := (None, rg).
Definition sample_req (sq : Z) : scsi_req := ScsiReq sq 0 0 (repeat 0 16) 1 0 1.
Lemma chunked_write_exact_witness :
  let '(s1, rg1, _) := doorbell (fixed_run 1536 0x16) no_stage 0x16 0 (sample_req 1) [] 7 scsi_init in
  let '(s', d', _, out) := transfer (fixed_run 1536 0x16) log_write no_stage seq_ring 0x16 0 true ∅
     [(ScsiCqe 1024 0, sample_req 2); (ScsiCqe 4096 0, sample_req 3)] [] rg1 s1 in
  write_done log_write 0x16 true 100 (repeat 7 1024 ++ repeat 8 512) [pause_of 1 0] (2, 0) [] s' d' out.
Proof.
  pose proof (chunked_write_exact (fixed_run 1536 0x16) log_write no_stage seq_ring 0x16 0 true ∅ (sample_req 1)
     [(ScsiCqe 1024 0, sample_req 2); (ScsiCqe 4096 0, sample_req 3)] [] 7 scsi_init _ _ _
     (fun rg n => repeat_length rg n) eq_refl eq_refl eq_refl ltac:(discriminate)
     ltac:(constructor; [reflexivity|constructor; [reflexivity|constructor]]) ltac:(apply Nat.leb_le; vm_compute; reflexivity)) as H.
  destruct (doorbell _ _ _ _ _ _ _ _) as [[s1 rg1] o1].
  destruct (transfer _ _ _ _ _ _ _ _ _ _ _ _) as [[[s' d'] rg'] out].
  destruct (delivered _ _ _ _) as [pl rgd] eqn:E1. destruct (answered _ _ _ _ _) as [ps fin] eqn:E2.
  vm_compute in E1, E2. injection E1 as <- <-. injection E2 as <- <-. destruct H as (_ & _ & _ & _ & H). exact H.
Defined.
Lemma restore_replays_last_command_witness :
  let s := fst (fst (doorbell (fixed_run 0 0x42) no_stage 0x16 0 (sample_req 5) [] 7 scsi_init)) in
  let '(s', _, _, out) := scsi_cycle (fixed_run 0 0x42) log_write no_stage no_poll seq_ring 0x16 0 false true 3 (sample_req 5) (fun _ => ∅) [] 7 scsi_init in
  s_last_seq s = 5 /\ (s_wait s' = true \/ exists r, out = [PostRsp r] /\ p_seq r = 5).
Proof.
  pose proof (restore_replays_last_command (fixed_run 0 0x42) log_write no_stage no_poll seq_ring 0x16 0 false 3 (sample_req 5)
    (fun _ => ∅) [] 7 (fst (fst (doorbell (fixed_run 0 0x42) no_stage 0x16 0 (sample_req 5) [] 7 scsi_init)))
    eq_refl eq_refl ltac:(discriminate) ltac:(discriminate)) as [_ H].
  cbv zeta in *. destruct (scsi_cycle _ _ _ _ _ _ _ _ _ _ _ _ _ _ scsi_init) as [[[s' d'] rg'] out].
  split; [reflexivity|exact H].
Defined.

(** The 512-byte granularity is assumed, not checked: if a chain boundary
    falls inside a sector the remainder of each chunk is dropped and later
    sectors are taken at the wrong offset, yet the command completes with
    success.  A 1024-byte WRITE delivered as 700 + 324 bytes reaches the disk
    as a single sector. *)
Theorem unaligned_chunk_loses_sectors :
  let '(s1, rg1, _) := doorbell (fixed_run 1024 0x16) no_stage 0x16 0 (sample_req 1) [] 7 scsi_init in
  let '(s', d', _, out) := transfer (fixed_run 1024 0x16) log_write no_stage seq_ring 0x16 0 false ∅
     [(ScsiCqe 700 0, sample_req 2); (ScsiCqe 324 0, sample_req 3)] [] rg1 s1 in
  length (s_buf s') = 1024%nat /\ d' = [(100, 7)] /\ scsi_quiescent s' = true /\
  out = [PostRsp (ScsiRsp 1 0 0x48 0 SCSI_DONE_PAUSE); PostRsp (ScsiRsp 2 0 0x16 0 SCSI_DONE_COMPLETE)].
Proof. vm_compute. split_and!; reflexivity. Qed.

(** ** The read check is exact

    The specification of a descriptor chain in guest memory: segment [(bp, cnt)]
    is the descriptor at [nbdp]; the last one has EOX or no successor. *)
Fixpoint chain_at (m : mem) (nbdp : Z) (segs : list (Z * nat)) : Prop :=
  match segs with
  | [] => False
  | (bp, cnt) :: t =>
      let d := fst (fpga_map nbdp) in
      snd (fpga_map nbdp) = false /\ be32 m d = bp /\ Z.to_nat (be32 m (d + 4) .& 0x3fff) = cnt /\
      match t with
      | [] => be32 m (d + 4) .& 0x80000000 <> 0 \/ be32 m (d + 8) = 0
      | _ => be32 m (d + 4) .& 0x80000000 = 0 /\ be32 m (d + 8) <> 0 /\ chain_at m (be32 m (d + 8)) t
      end
  end.
(** The addresses a chain scatters to, in stream order. *)
Definition seg_dests (bp : Z) (i : Z) (cnt : nat) : list Z := map (fun k => u32 (bp + (i + Z.of_nat k))) (seq 0 cnt).
Definition dests (segs : list (Z * nat)) : list Z := concat (map (fun s => seg_dests (fst s) 0 (snd s)) segs).
Definition mapped (a : Z) : Prop := snd (fpga_map a) = false.
Definition differs (m : mem) (ab : Z * Z) : bool := negb (mget m (fst (fpga_map (fst ab))) =? snd ab).
Definition mism (m : mem) (abs : list (Z * Z)) : Z := Z.of_nat (length (List.filter (differs m) abs)).

Lemma seg_dests_S bp i cnt : seg_dests bp i (S cnt) = u32 (bp + i) :: seg_dests bp (i + 1) cnt.
Proof.
  unfold seg_dests. cbn [seq map]. rewrite Z.add_0_r. f_equal. rewrite <- seq_shift, map_map.
  apply map_ext. intros k. do 2 f_equal. lia.
Qed.
Lemma length_seg_dests bp i cnt : length (seg_dests bp i cnt) = cnt.
Proof. unfold seg_dests. by rewrite length_map, length_seq. Qed.
Lemma mism_cons m ab t : mism m (ab :: t) = (if differs m ab then 1 else 0) + mism m t.
Proof. unfold mism. cbn [List.filter]. destruct (differs m ab); cbn [length]; lia. Qed.
Lemma mism_app m xs ys : mism m (xs ++ ys) = mism m xs + mism m ys.
Proof. unfold mism. rewrite List.filter_app, length_app. lia. Qed.
Lemma zip_app_l {A B} (xs ys : list A) (zs : list B) :
  zip (xs ++ ys) zs = zip xs zs ++ zip ys (drop (length xs) zs).
Proof.
  revert zs; induction xs as [|x xs IH]; intros zs; cbn [app length drop]; [done|].
  destruct zs as [|z zs]; cbn; [by destruct ys|]. f_equal. apply IH.
Qed.

Lemma rd_bytes_loop_spec m bp cnt : forall i data bad,
  Forall mapped (seg_dests bp i cnt) ->
  rd_bytes_loop m bp cnt i data bad = (drop cnt data, bad + mism m (zip (seg_dests bp i cnt) data), false).
Proof.
  induction cnt as [|cnt IH]; intros i data bad H.
  - cbn. rewrite Z.add_0_r. by destruct data.
  - rewrite seg_dests_S in *. pose proof (Forall_inv H) as Ha. pose proof (Forall_inv_tail H) as Ht. destruct data as [|b t].
    + cbn [rd_bytes_loop drop zip]. cbn. by rewrite Z.add_0_r.
    + cbn [rd_bytes_loop drop zip zip_with]. unfold mapped in Ha.
      destruct (fpga_map (u32 (bp + i))) as [a f] eqn:E. cbn [snd] in Ha. subst f.
      rewrite IH by done. f_equal. f_equal. rewrite mism_cons. unfold differs. cbn [fst snd]. rewrite E. cbn [fst].
      destruct (mget m a =? b); cbn [negb]; unfold zip; lia.
Qed.
Lemma rd_chain_spec m : forall g nbdp segs data bad,
  chain_at m nbdp segs -> (length segs <= g)%nat -> Forall mapped (dests segs) ->
  rd_chain m g nbdp data bad = (drop (length (dests segs)) data, bad + mism m (zip (dests segs) data)).
Proof.
  induction g as [|g IH]; intros nbdp [|[bp cnt] t] data bad Hc Hg Hm; try done; try (cbn in Hg; lia).
  destruct data as [|b0 data']; [cbn [rd_chain]; rewrite drop_nil; destruct (dests _); cbn; by rewrite Z.add_0_r|].
  remember (b0 :: data') as data eqn:Ed. replace (rd_chain m (S g) nbdp data bad) with
    (let '(d, b0) := fpga_map nbdp in
     if b0 then (data, bad) else
       let '(data', bad', b2) := rd_bytes_loop m (be32 m d) (Z.to_nat (be32 m (d + 4) .& 0x3fff)) 0 data bad in
       if b2 || negb (be32 m (d + 4) .& 0x80000000 =? 0) || (be32 m (d + 8) =? 0) then (data', bad')
       else rd_chain m g (be32 m (d + 8)) data' bad') by (by rewrite Ed).
  cbn [chain_at] in Hc. destruct (fpga_map nbdp) as [d f]. cbn [fst snd] in Hc. destruct Hc as (-> & Hbp & Hcnt & Hn).
  change (dests ((bp, cnt) :: t)) with (seg_dests bp 0 cnt ++ dests t) in *. apply Forall_app in Hm as [Hm1 Hm2].
  rewrite Hbp, Hcnt, rd_bytes_loop_spec by done.
  rewrite zip_app_l, length_app, length_seg_dests, mism_app, Z.add_assoc, <- drop_drop.
  destruct t as [|s t].
  - replace (false || negb (be32 m (d + 4) .& 0x80000000 =? 0) || (be32 m (d + 8) =? 0)) with true.
    + cbn [dests map concat length]. rewrite drop_0. change (zip [] (drop cnt data)) with (@nil (Z * Z)).
      change (mism m []) with 0. by rewrite Z.add_0_r.
    + destruct Hn as [Hn| ->]; [|by rewrite orb_true_r]. apply Z.eqb_neq in Hn. by rewrite Hn.
  - destruct Hn as (Hx & Hd & Hn). rewrite Hx. apply Z.eqb_neq in Hd. rewrite Hd. cbn [negb orb Z.eqb].
    apply IH; [done| |done]. cbn [length] in *. lia.
Qed.
Lemma mism_zero m abs : mism m abs = 0 <-> forall k a b, abs !! k = Some (a, b) -> mget m (fst (fpga_map a)) = b.
Proof.
  unfold mism. induction abs as [|[a b] t IH]; [split; [done|reflexivity]|].
  cbn [List.filter]. unfold differs at 1. cbn [fst snd]. destruct (mget m (fst (fpga_map a)) =? b) eqn:E; cbn [negb].
  - apply Z.eqb_eq in E. rewrite IH. split.
    + intros H [|k] a' b' Hk; cbn in Hk; [injection Hk as <- <-; done|by apply (H k)].
    + intros H k. apply (H (S k)).
  - apply Z.eqb_neq in E. cbn [length]. split; [lia|]. intros H. exfalso. apply E, (H 0%nat). done.
Qed.

(** C8.  The READ self-check is exact: for a chain of at most 256 descriptors whose
    destinations are in range it compares each staged byte once with the memory
    byte its chain position lands on, counts exactly the differing ones, and
    reports none iff every byte of the stream is where the chain put it. *)
Theorem scsi_read_check_exact (m : mem) (buf : list Z) (pos len : nat) (nbdp : Z) (segs : list (Z * nat)) (c : rdchk) :
  chain_at m nbdp segs -> (length segs <= 256)%nat -> Forall mapped (dests segs) ->
  let compared := zip (dests segs) (take len (drop pos buf)) in
  let c' := scsi_read_check m buf pos len nbdp c in
  rd_reads c' = rd_reads c + 1 /\ rd_bytes c' = rd_bytes c + Z.of_nat (length compared) /\
  rd_bad_bytes c' = rd_bad_bytes c + mism m compared /\
  (rd_bad_reads c' = rd_bad_reads c <->
     forall k a b, compared !! k = Some (a, b) -> mget m (fst (fpga_map a)) = b).
Proof.
  intros Hc Hl Hm. cbv zeta. unfold scsi_read_check. rewrite (rd_chain_spec m 256 nbdp segs) by done.
  set (data := take len (drop pos buf)). rewrite Z.add_0_l, <- mism_zero.
  cbn [rd_reads rd_bytes rd_bad_bytes rd_bad_reads]. split_and!; [done| |destruct (Z.eqb_spec (mism m (zip (dests segs) data)) 0); lia|].
  - rewrite length_zip_with, length_drop. lia.
  - destruct (Z.eqb_spec (mism m (zip (dests segs) data)) 0); lia.
Qed.
Definition sample_chain : mem :=
  put_be32 (put_be32 (put_be32 (put_be32 (put_be32 (put_be32 ∅ 0x1000 0x2000) 0x1004 2) 0x1008 0x1010)
    0x1010 0x3001) 0x1014 (0x80000000 + 3)) 0x1018 0.
Definition sample_dma : mem := mput_bytes (mput_bytes sample_chain 0x2000 [1; 2]) 0x3001 [3; 9; 5].
Lemma scsi_read_check_exact_witness :
  chain_at sample_dma 0x1000 [(0x2000, 2%nat); (0x3001, 3%nat)] /\
  rd_bad_bytes (scsi_read_check sample_dma [0; 1; 2; 3; 4; 5] 1 5 0x1000 rdchk_init) = 1.
Proof.
  assert (H : chain_at sample_dma 0x1000 [(0x2000, 2%nat); (0x3001, 3%nat)]).
  { cbn [chain_at]. split_and!; try (vm_compute; reflexivity); try (vm_compute; discriminate).
    left. vm_compute. discriminate. }
  split; [exact H|].
  pose proof (scsi_read_check_exact sample_dma [0; 1; 2; 3; 4; 5] 1 5 0x1000 _ rdchk_init H
    ltac:(vm_compute; lia) ltac:(repeat (apply Forall_cons_2; [vm_compute; reflexivity|]); apply Forall_nil_2)) as (_ & _ & E & _).
  rewrite E. vm_compute. reflexivity.
Defined.
