(* ===== verification/Loader.v ===== *)
(** * Loader: kernel and firmware images, and the ARCS handoff

    [load_elf_be32], [load_blob] and [install_arcs_handoff] of
    sim/henry_tb.cpp.  A file is its list of bytes; reading past its end gives
    zeros here (the mmap's page tail), where the program may fault. *)
From Stdlib Require Import Ascii String.
From S2P Require Import Prelude AddressMap GuestMem Checkpoint.
Open Scope Z_scope.

(** ** ELF32 big-endian kernels *)

Definition fb (f : list Z) (o : Z) : Z := nth (Z.to_nat o) f 0.
Definition fbe32 (f : list Z) (o : Z) : Z :=
  (fb f o .<< 24) .| (fb f (o + 1) .<< 16) .| (fb f (o + 2) .<< 8) .| fb f (o + 3).
Definition fbe16 (f : list Z) (o : Z) : Z := (fb f o .<< 8) .| fb f (o + 1).
Definition fslice (f : list Z) (o n : Z) : list Z := map (fun i => fb f (o + Z.of_nat i)) (seq 0 (Z.to_nat n)).

Inductive elf_error := NotAnElf | NotBe32 | SegmentOutOfRam.
Record phdr := Phdr { p_type : Z; p_offset : Z; p_paddr : Z; p_filesz : Z; p_memsz : Z }.
Definition phdr_at (f : list Z) (o : Z) : phdr :=
  Phdr (fbe32 f o) (fbe32 f (o + 4)) (fbe32 f (o + 12)) (fbe32 f (o + 16)) (fbe32 f (o + 20)).

(** One program header: where a PT_LOAD segment goes, or the refusal. *)
Definition seg_pa (h : phdr) : Z := p_paddr h .& 0x1fffffff.
Definition seg_ok (h : phdr) : bool :=
  let '(off, b) := fpga_map (memory_alias (seg_pa h)) in
  negb (b || (MEM_SIZE <? u32 (off + p_memsz h))).
Definition load_segment (f : list Z) (h : phdr) (g : mem) (ss : option mem) : elf_error + mem * option mem :=
  if negb (p_type h =? 1) then inr (g, ss)
  else
    let pa := seg_pa h in
    let off := fst (fpga_map (memory_alias pa)) in
    if negb (seg_ok h) then inl SegmentOutOfRam
    else
      let bytes := fslice f (p_offset h) (p_filesz h) in
      inr (mput_bytes g off bytes, iss_put ss pa bytes).
Fixpoint load_segments (f : list Z) (hs : list phdr) (g : mem) (ss : option mem) : elf_error + mem * option mem :=
  match hs with
  | [] => inr (g, ss)
  | h :: t => match load_segment f h g ss with inl e => inl e | inr (g, ss) => load_segments f t g ss end
  end.
Definition load_elf_be32 (f : list Z) (g : mem) (ss : option mem) : elf_error + Z * mem * option mem :=
  if negb ((fb f 0 =? 0x7f) && (fb f 1 =? 0x45) && (fb f 2 =? 0x4c) && (fb f 3 =? 0x46)) then inl NotAnElf
  else if negb (fb f 4 =? 1) || negb (fb f 5 =? 2) then inl NotBe32
  else
    let e_entry := fbe32 f 24 in
    let e_phoff := fbe32 f 28 in
    let e_phentsize := fbe16 f 42 in
    let e_phnum := fbe16 f 44 in
    let hs := map (fun i => phdr_at f (e_phoff + Z.of_nat i * e_phentsize)) (seq 0 (Z.to_nat e_phnum)) in
    match load_segments f hs g ss with
    | inl e => inl e
    | inr (g, ss) => inr (e_entry, g, ss)
    end.

(** [load_blob(path, pa)]; nothing is checked. *)
Definition load_blob (f : list Z) (pa : Z) (g : mem) (ss : option mem) : mem * option mem :=
  let cpa := memory_alias (u32 pa) in
  let off := fst (fpga_map cpa) in
  (mput_bytes g off f, iss_put ss (u32 pa) f).

(** ** The ARCS/sash handoff *)

(** A C string with its NUL. *)
Definition cstr (s : string) : list Z := (chars s ++ [0])%list.
Definition argv_strs : list string :=
  ["scsi(0)disk(1)rdisk(0)partition(0)/unix"; "OSLoadOptions=auto";
   "ConsoleIn=serial(0)"; "ConsoleOut=serial(0)";
   "SystemPartition=scsi(0)disk(1)rdisk(0)partition(8)"; "OSLoader=sash";
   "OSLoadPartition=scsi(0)disk(1)rdisk(0)partition(0)"; "OSLoadFilename=/unix"]%string.
Definition envp_strs : list string :=
  ["AutoLoad=Yes"; "TimeZone=PST8PDT"; "console=d"; "diskless=0"; "dbaud=9600";
   "volume=80"; "sgilogo=y"; "autopower=y"; "eaddr=08:01:02:03:04:05";
   "ConsoleOut=serial(0)"; "ConsoleIn=serial(0)"; "cpufreq=100";
   "SystemPartition=scsi(0)disk(1)rdisk(0)partition(8)";
   "OSLoadPartition=scsi(0)disk(1)rdisk(0)partition(0)";
   "OSLoadFilename=/unix"; "OSLoader=sash";
   "kernname=scsi(0)disk(1)rdisk(0)partition(0)/unix"]%string.
Definition K : Z := 0x80000000.
Definition STUB_PA : Z := 0x08ff0000.
Definition argv_arr : Z := 0x08ff0100.
Definition envp_arr : Z := 0x08ff0400.
Definition str_base : Z := 0x08ff1000.

(** One of the two string loops: the memory and the advanced [str_pa]. *)
Fixpoint put_strs (m : mem) (arr str_pa : Z) (i : Z) (strs : list string) : mem * Z :=
  match strs with
  | [] => (m, str_pa)
  | s :: t =>
      let m := mput_bytes m str_pa (cstr s) in
      let m := put_be32 m (arr + 4 * i) (K .| str_pa) in
      put_strs m arr (Z.ldiff (str_pa + Z.of_nat (length (chars s)) + 1 + 3) 3) (i + 1) t
  end.
Fixpoint put_words (m : mem) (p : Z) (ws : list Z) : mem :=
  match ws with
  | [] => m
  | w :: t => put_words (put_be32 m p w) (p + 4) t
  end.
Definition stub_words (kentry : Z) : list Z :=
  let av := K .| argv_arr in let ev := K .| envp_arr in
  [0x34040000 .| Z.of_nat (length argv_strs);
   0x3c050000 .| (av .>> 16); 0x34a50000 .| (av .& 0xffff);
   0x3c060000 .| (ev .>> 16); 0x34c60000 .| (ev .& 0xffff);
   0x3c010000 .| (kentry .>> 16); 0x34210000 .| (kentry .& 0xffff);
   0x00200008; 0].
Definition install_arcs_handoff (kentry : Z) (m : mem) : mem * Z :=
  let nargc := Z.of_nat (length argv_strs) in
  let '(m, str_pa) := put_strs m argv_arr str_base 0 argv_strs in
  let m := put_be32 m (argv_arr + 4 * nargc) 0 in
  let '(m, str_pa) := put_strs m envp_arr str_pa 0 envp_strs in
  let m := put_be32 m (envp_arr + 4 * Z.of_nat (length envp_strs)) 0 in
  (put_words m STUB_PA (stub_words kentry), K .| STUB_PA).

(** ** Specification: the core executes the stub *)

(** The four MIPS instructions the stub uses, on 32-bit registers, with the
    branch delay slot: [mpc] is executed next, [mnpc] after it. *)
Record mips := Mips { mpc : Z; mnpc : Z; mregs : Z -> Z }.
Definition wreg (r : Z) (v : Z) (rf : Z -> Z) : Z -> Z := fun x => if (x =? r) && negb (r =? 0) then v else rf x.
(** Where the core fetches a kseg0 address from in DRAM. *)
Definition core_off (va : Z) : Z := fst (fpga_map (memory_alias (kseg_phys va))).
Definition mips_step (m : mem) (s : mips) : option mips :=
  let insn := be32 m (core_off (mpc s)) in
  let op := insn .>> 26 in
  let rs := (insn .>> 21) .& 31 in let rt := (insn .>> 16) .& 31 in
  let imm := insn .& 0xffff in
  let next npc rf := Some (Mips (mnpc s) npc rf) in
  if op =? 0x0d then next (mnpc s +32 4) (wreg rt (mregs s rs .| imm) (mregs s))
  else if op =? 0x0f then next (mnpc s +32 4) (wreg rt (imm .<< 16) (mregs s))
  else if (op =? 0) && (insn .& 0x3f =? 8) then next (mregs s rs) (mregs s)
  else if insn =? 0 then next (mnpc s +32 4) (mregs s)
  else None.
Fixpoint mips_run (n : nat) (m : mem) (s : mips) : option mips :=
  match n with
  | O => Some s
  | S k => match mips_step m s with Some s' => mips_run k m s' | None => None end
  end.
(** A NUL-terminated string at a kseg0 pointer, as the kernel reads it. *)
Fixpoint cstring (fuel : nat) (m : mem) (va : Z) : list Z :=
  match fuel with
  | O => []
  | S k => let c := mget m (core_off va) in if c =? 0 then [] else c :: cstring k m (va + 1)
  end.
Definition str_table (m : mem) (arr : Z) (n : nat) : list (list Z) :=
  map (fun i => cstring 256 m (be32 m (core_off (arr + 4 * Z.of_nat i)))) (seq 0 n).

(** ** Memory as a list of writes *)

Definition apply_ws (ws : list (Z * list Z)) (m : mem) : mem :=
  fold_left (fun m '(a, bs) => mput_bytes m a bs) ws m.
(** The last write that covers [x]. *)
Fixpoint wlookup (ws : list (Z * list Z)) (x : Z) (cur : option Z) : option Z :=
  match ws with
  | [] => cur
  | (a, bs) :: t =>
      wlookup t x (if (a <=? x) && (x <? a + Z.of_nat (length bs)) then Some (nth (Z.to_nat (x - a)) bs 0) else cur)
  end.
Lemma mget_apply_ws ws m x cur :
  mget m x = default (mget m x) cur ->
  mget (apply_ws ws m) x = default (mget m x) (wlookup ws x cur).
Proof.
  assert (forall d, mget m x = default d cur -> mget (apply_ws ws m) x = default d (wlookup ws x cur)) as H; [|auto].
  intros d. revert m cur; induction ws as [|[a bs] ws IH]; intros m cur Hc; [done|].
  cbn [apply_ws fold_left wlookup]. apply IH. case_test.
  - bool_props. by rewrite mget_mput_in by lia.
  - rewrite mget_mput_out; [done|]. apply andb_false_iff in E as [E|E]; bool_props; lia.
Qed.
Lemma mget_ws ws m x v : wlookup ws x None = Some v -> mget (apply_ws ws m) x = v.
Proof. intros H. rewrite (mget_apply_ws ws m x None) by done. by rewrite H. Qed.

Lemma be32_of_bytes m a w :
  0 <= w < 0x100000000 -> mget_bytes m a 4 = be_bytes 4 w -> be32 m a = w.
Proof.
  intros Hw H. rewrite <- (be_val_be_bytes 4 w) by (change (256 ^ Z.of_nat 4) with 0x100000000; lia).
  pose proof (be_bytes_ok 4 w) as Hok. rewrite <- H in Hok |- *. cbn [mget_bytes] in Hok |- *.
  replace (a + 1 + 1) with (a + 2) in * by lia. replace (a + 2 + 1) with (a + 3) in * by lia.
  inversion_clear Hok as [|? ? H0 Hok1]. inversion_clear Hok1 as [|? ? H1 Hok2].
  inversion_clear Hok2 as [|? ? H2 Hok3]. inversion_clear Hok3 as [|? ? H3 _].
  unfold be32, be_val. cbn [rev app le_val].
  rewrite cat32 by done. lia.
Qed.
Lemma be32_put_words m p ws i w :
  0 <= p -> p + 4 * Z.of_nat (length ws) <= MEM_SIZE -> Forall (fun w => 0 <= w < 0x100000000) ws ->
  ws !! i = Some w -> be32 (put_words m p ws) (p + 4 * Z.of_nat i) = w.
Proof.
  intros Hp Hend Hws. revert m p i Hp Hend; induction Hws as [|w0 ws Hw0 _ IH]; intros m p i Hp Hend Hi; [done|].
  cbn [put_words]. cbn [length] in Hend.
  destruct i as [|i]; cbn in Hi.
  - injection Hi as ->. rewrite Z.add_0_r. apply be32_of_bytes; [done|].
    clear IH. rewrite put_be32_bytes, (Z.mod_small p) by (unfold MEM_SIZE in *; lia).
    assert (forall m q, p + 4 <= q -> q + 4 * Z.of_nat (length ws) <= MEM_SIZE ->
      mget_bytes (put_words m q ws) p 4 = mget_bytes m p 4) as Hout.
    { clear -Hp. induction ws as [|w1 ws IH]; intros m q Hq Hend; [done|]. cbn [put_words length] in *.
      rewrite IH by lia. rewrite mget_bytes_ext with (m' := m); [done|]. intros x Hx.
      unfold put_be32. rewrite land_MEM_MASK. unfold MEM_SIZE in *.
      rewrite Z.mod_small by lia. rewrite !mget_insert_ne by lia. done. }
    rewrite Hout by lia. apply (mget_bytes_mput m p (be_bytes 4 w)).
  - replace (p + 4 * Z.of_nat (S i)) with (p + 4 + 4 * Z.of_nat i) by lia. apply IH; [lia|lia|done].
Qed.

(** The handoff's writes, in program order. *)
Fixpoint strs_ws (arr str_pa i : Z) (strs : list string) : list (Z * list Z) :=
  match strs with
  | [] => []
  | s :: t => (str_pa, cstr s) :: ((arr + 4 * i) mod MEM_SIZE, be_bytes 4 (K .| str_pa)) ::
              strs_ws arr (Z.ldiff (str_pa + Z.of_nat (length (chars s)) + 1 + 3) 3) (i + 1) t
  end.
Fixpoint strs_end (str_pa : Z) (strs : list string) : Z :=
  match strs with
  | [] => str_pa
  | s :: t => strs_end (Z.ldiff (str_pa + Z.of_nat (length (chars s)) + 1 + 3) 3) t
  end.
Fixpoint words_ws (p : Z) (ws : list Z) : list (Z * list Z) :=
  match ws with [] => [] | w :: t => (p mod MEM_SIZE, be_bytes 4 w) :: words_ws (p + 4) t end.
Lemma apply_ws_app xs ys m : apply_ws (xs ++ ys) m = apply_ws ys (apply_ws xs m).
Proof. apply fold_left_app. Qed.
Lemma put_strs_ws m arr str_pa i strs :
  0 <= str_pa -> put_strs m arr str_pa i strs = (apply_ws (strs_ws arr str_pa i strs) m, strs_end str_pa strs).
Proof.
  revert m str_pa i; induction strs as [|s t IH]; intros m str_pa i Hs; [done|].
  cbn [put_strs strs_ws strs_end]. rewrite put_be32_bytes by (apply Z.lor_nonneg; unfold K; lia).
  rewrite IH; [done|]. apply Z.ldiff_nonneg. left. lia.
Qed.
Lemma put_words_ws m p ws : Forall (fun w => 0 <= w) ws -> put_words m p ws = apply_ws (words_ws p ws) m.
Proof.
  intros H. revert m p; induction H as [|w ws Hw _ IH]; intros m p; [done|].
  cbn [put_words words_ws]. rewrite put_be32_bytes by done. apply IH.
Qed.
Definition handoff_ws (stub : list Z) : list (Z * list Z) :=
  strs_ws argv_arr str_base 0 argv_strs ++ [((argv_arr + 4 * 8) mod MEM_SIZE, be_bytes 4 0)] ++
  strs_ws envp_arr (strs_end str_base argv_strs) 0 envp_strs ++ [((envp_arr + 4 * 17) mod MEM_SIZE, be_bytes 4 0)] ++
  words_ws STUB_PA stub.

Lemma strs_end_nonneg sp strs : 0 <= sp -> 0 <= strs_end sp strs.
Proof.
  revert sp; induction strs as [|s t IH]; intros sp Hs; [done|]. cbn [strs_end]. apply IH.
  apply Z.ldiff_nonneg. left. lia.
Qed.
Lemma stub_words_range kentry : is_u 32 kentry -> Forall (fun w => 0 <= w < 0x100000000) (stub_words kentry).
Proof.
  intros Hk.
  assert (forall b x, is_u 32 b -> is_u 32 x -> 0 <= b .| x < 0x100000000) as Hlor.
  { intros b x Hb Hx. exact (lor_bound b x 32 ltac:(lia) Hb Hx). }
  unfold is_u in Hk. assert (is_u 32 (kentry .>> 16)) as H1
    by (rewrite Z.shiftr_div_pow2 by lia; unfold is_u; Z.to_euclidean_division_equations; lia).
  assert (is_u 32 (kentry .& 0xffff)) as H2
    by (change 0xffff with (2 ^ 16 - 1); rewrite land_ones_mod by lia; unfold is_u; Z.to_euclidean_division_equations; lia).
  unfold stub_words. repeat (constructor; [first [apply Hlor; [by vm_compute|done] | by vm_compute]|]). constructor.
Qed.
Lemma install_arcs_handoff_ws kentry m :
  is_u 32 kentry -> install_arcs_handoff kentry m = (apply_ws (handoff_ws (stub_words kentry)) m, K .| STUB_PA).
Proof.
  intros Hk. unfold install_arcs_handoff. rewrite put_strs_ws by done.
  rewrite put_strs_ws by (by apply strs_end_nonneg).
  rewrite put_words_ws by (eapply List.Forall_impl; [|by apply stub_words_range]; cbn; lia).
  rewrite !put_be32_bytes by done. unfold handoff_ws. rewrite !apply_ws_app. reflexivity.
Qed.

(** Reading the table and the strings out of the writes alone. *)
Definition wbe32 (ws : list (Z * list Z)) (a : Z) : option Z :=
  b3 ← wlookup ws a None; b2 ← wlookup ws (a + 1) None; b1 ← wlookup ws (a + 2) None; b0 ← wlookup ws (a + 3) None;
  Some ((b3 .<< 24) .| (b2 .<< 16) .| (b1 .<< 8) .| b0).
Fixpoint wcstring (fuel : nat) (ws : list (Z * list Z)) (va : Z) : option (list Z) :=
  match fuel with
  | O => Some []
  | S k => c ← wlookup ws (core_off va) None;
           if c =? 0 then Some [] else t ← wcstring k ws (va + 1); Some (c :: t)
  end.
Lemma wbe32_sound ws m a v : wbe32 ws a = Some v -> be32 (apply_ws ws m) a = v.
Proof.
  unfold wbe32, be32. intros H.
  destruct (wlookup ws a None) as [b3|] eqn:E3; [|discriminate]. destruct (wlookup ws (a + 1) None) as [b2|] eqn:E2; [|discriminate].
  destruct (wlookup ws (a + 2) None) as [b1|] eqn:E1; [|discriminate]. destruct (wlookup ws (a + 3) None) as [b0|] eqn:E0; [|discriminate].
  injection H as <-. by rewrite (mget_ws _ m _ _ E3), (mget_ws _ m _ _ E2), (mget_ws _ m _ _ E1), (mget_ws _ m _ _ E0).
Qed.
Lemma wcstring_sound fuel ws m va l : wcstring fuel ws va = Some l -> cstring fuel (apply_ws ws m) va = l.
Proof.
  revert va l; induction fuel as [|fuel IH]; intros va l H; cbn [wcstring cstring] in H |- *; [by injection H|].
  destruct (wlookup ws (core_off va) None) as [c|] eqn:E; [|discriminate]. cbn in H.
  rewrite (mget_ws _ m _ _ E). destruct (c =? 0); [by injection H|].
  destruct (wcstring fuel ws (va + 1)) as [t|] eqn:E2; [|discriminate]. injection H as <-. f_equal. by apply IH.
Qed.
Fixpoint wtable (ws : list (Z * list Z)) (arr : Z) (ix : list nat) : option (list (list Z)) :=
  match ix with
  | [] => Some []
  | i :: t =>
      match wbe32 ws (core_off (arr + 4 * Z.of_nat i)) with
      | None => None
      | Some p => match wcstring 256 ws p, wtable ws arr t with Some s, Some l => Some (s :: l) | _, _ => None end
      end
  end.
Lemma wtable_sound ws m arr n l : wtable ws arr (seq 0 n) = Some l -> str_table (apply_ws ws m) arr n = l.
Proof.
  unfold str_table. generalize (seq 0 n) as ix. intros ix. revert l.
  induction ix as [|i ix IH]; intros l H; cbn [wtable] in H; [by injection H|].
  destruct (wbe32 ws (core_off (arr + 4 * Z.of_nat i))) as [p|] eqn:E1; [|done].
  destruct (wcstring 256 ws p) as [s|] eqn:E2; [|done].
  destruct (wtable ws arr ix) as [l'|] eqn:E3; [|done]. injection H as <-. cbn [map].
  rewrite (wbe32_sound _ _ _ _ E1), (wcstring_sound _ _ _ _ _ E2). f_equal. by apply IH.
Qed.

(** The tables do not depend on the stub's words. *)
Lemma handoff_tables w0 w1 w2 w3 w4 w5 w6 w7 w8 :
  let ws := handoff_ws [w0; w1; w2; w3; w4; w5; w6; w7; w8] in
  wtable ws (K .| argv_arr) (seq 0 8) = Some (map chars argv_strs) /\
  wbe32 ws (core_off ((K .| argv_arr) + 32)) = Some 0 /\
  wtable ws (K .| envp_arr) (seq 0 17) = Some (map chars envp_strs) /\
  wbe32 ws (core_off ((K .| envp_arr) + 68)) = Some 0.
Proof. vm_compute. split_and!; reflexivity. Qed.

(** Decoding an I-type word built as [base | imm]. *)
Lemma itype_fields b imm :
  0 <= b -> 0 <= imm < 0x10000 ->
  let w := (b .<< 16) .| imm in
  w .>> 26 = b .>> 10 /\ (w .>> 21) .& 31 = (b .>> 5) .& 31 /\ (w .>> 16) .& 31 = b .& 31 /\ w .& 0xffff = imm.
Proof.
  intros Hb Hi. cbv zeta. rewrite lor_shiftl_add by lia.
  assert (forall k, 0 <= k -> (b * 2 ^ 16 + imm) .>> (16 + k) = b .>> k) as H.
  { intros k Hk. rewrite <- Z.shiftr_shiftr by lia. f_equal. rewrite Z.shiftr_div_pow2 by lia.
    rewrite Z.div_add_l by lia. rewrite Z.div_small by lia. lia. }
  split; [exact (H 10 ltac:(lia))|]. split; [by rewrite <- (H 5 ltac:(lia))|]. split.
  - pose proof (H 0 ltac:(lia)) as H0. rewrite Z.shiftr_0_r in H0. by rewrite <- H0 at 2.
  - change 0xffff with (2 ^ 16 - 1). rewrite land_ones_mod by lia. rewrite Z.add_comm, Z.mod_add, Z.mod_small by lia. done.
Qed.

(** The stub is the last thing written. *)
Lemma handoff_fetch kentry m i w :
  is_u 32 kentry -> stub_words kentry !! i = Some w ->
  be32 (apply_ws (handoff_ws (stub_words kentry)) m) (STUB_PA + 4 * Z.of_nat i) = w.
Proof.
  intros Hk Hi. unfold handoff_ws. rewrite !apply_ws_app.
  rewrite <- put_words_ws by (eapply List.Forall_impl; [|by apply stub_words_range]; cbn; lia).
  apply be32_put_words; [done|done| |done]. by apply stub_words_range.
Qed.

(** The three instruction forms, by their fields. *)
Section MipsSteps.
Variables (m : mem) (pc npc w rs rt imm : Z) (rf : Z -> Z).
Hypothesis fetched : be32 m (core_off pc) = w.
Lemma step_ori :
  w .>> 26 = 0x0d -> (w .>> 21) .& 31 = rs -> (w .>> 16) .& 31 = rt -> w .& 0xffff = imm ->
  mips_step m (Mips pc npc rf) = Some (Mips npc (npc +32 4) (wreg rt (rf rs .| imm) rf)).
Proof using fetched. intros Hop <- <- <-. unfold mips_step; cbn [mpc mnpc mregs]. by rewrite fetched, Hop. Qed.
Lemma step_lui :
  w .>> 26 = 0x0f -> (w .>> 16) .& 31 = rt -> w .& 0xffff = imm ->
  mips_step m (Mips pc npc rf) = Some (Mips npc (npc +32 4) (wreg rt (imm .<< 16) rf)).
Proof using fetched. intros Hop <- <-. unfold mips_step; cbn [mpc mnpc mregs]. by rewrite fetched, Hop. Qed.
Lemma step_jr :
  w .>> 26 = 0 -> w .& 0x3f = 8 -> (w .>> 21) .& 31 = rs ->
  mips_step m (Mips pc npc rf) = Some (Mips npc (rf rs) rf).
Proof using fetched. intros Hop Hf <-. unfold mips_step; cbn [mpc mnpc mregs]. by rewrite fetched, Hop, Hf. Qed.
Lemma step_nop : w = 0 -> mips_step m (Mips pc npc rf) = Some (Mips npc (npc +32 4) rf).
Proof using fetched. intros ->. unfold mips_step; cbn [mpc mnpc mregs]. by rewrite fetched. Qed.
End MipsSteps.
Lemma mips_run_S n m s s' : mips_step m s = Some s' -> mips_run (S n) m s = mips_run n m s'.
Proof. intros H. cbn [mips_run]. by rewrite H. Qed.
(** Execute one instruction with lemma [L] (fed the fetch [F]), then evaluate the next pc. *)
Tactic Notation "mips_go" uconstr(L) :=
  erewrite mips_run_S by (refine L);
  repeat match goal with |- context [?n +32 4] => let v := eval vm_compute in (n +32 4) in
    lazymatch v with Zpos _ => change (n +32 4) with v end end.

Lemma stub_runs m kentry regs :
  is_u 32 kentry -> regs 0 = 0 ->
  (forall i w, stub_words kentry !! i = Some w -> be32 m (STUB_PA + 4 * Z.of_nat i) = w) ->
  exists s, mips_run 9 m (Mips (K .| STUB_PA) ((K .| STUB_PA) + 4) regs) = Some s /\
    mpc s = kentry /\ mregs s 4 = 8 /\ mregs s 5 = K .| argv_arr /\ mregs s 6 = K .| envp_arr.
Proof.
  intros Hk Hr0 H. unfold is_u in Hk.
  assert (0 <= kentry .>> 16 < 0x10000) as Hhi.
  { rewrite Z.shiftr_div_pow2 by lia. split; [apply Z.div_pos; lia|apply Z.div_lt_upper_bound; lia]. }
  assert (0 <= kentry .& 0xffff < 0x10000) as Hlo.
  { change 0xffff with (2 ^ 16 - 1). rewrite land_ones_mod by lia. apply (Z.mod_pos_bound kentry 0x10000). lia. }
  assert (((kentry .>> 16) .<< 16) .| (kentry .& 0xffff) = kentry) as Hat.
  { change 0xffff with (2 ^ 16 - 1) in *. rewrite lor_shiftl_add by lia. rewrite land_ones_mod, Z.shiftr_div_pow2 by lia.
    pose proof (Z.div_mod kentry (2 ^ 16) ltac:(lia)). lia. }
  destruct (itype_fields 0x3c01 (kentry .>> 16) ltac:(lia) Hhi) as (A1 & _ & A3 & A4).
  destruct (itype_fields 0x3421 (kentry .& 0xffff) ltac:(lia) Hlo) as (B1 & B2 & B3 & B4).
  assert (forall i pc w, stub_words kentry !! i = Some w -> core_off pc = STUB_PA + 4 * Z.of_nat i ->
    be32 m (core_off pc) = w) as F by (intros i pc w Hi ->; by apply H).
  change (K .| STUB_PA) with 0x88ff0000. change (0x88ff0000 + 4) with 0x88ff0004.
  mips_go (step_ori m _ _ _ 0 4 8 _ (F 0%nat 0x88ff0000 _ eq_refl eq_refl) eq_refl eq_refl eq_refl eq_refl).
  mips_go (step_lui m _ _ _ 5 0x88ff _ (F 1%nat 0x88ff0004 _ eq_refl eq_refl) eq_refl eq_refl eq_refl).
  mips_go (step_ori m _ _ _ 5 5 0x0100 _ (F 2%nat 0x88ff0008 _ eq_refl eq_refl) eq_refl eq_refl eq_refl eq_refl).
  mips_go (step_lui m _ _ _ 6 0x88ff _ (F 3%nat 0x88ff000c _ eq_refl eq_refl) eq_refl eq_refl eq_refl).
  mips_go (step_ori m _ _ _ 6 6 0x0400 _ (F 4%nat 0x88ff0010 _ eq_refl eq_refl) eq_refl eq_refl eq_refl eq_refl).
  mips_go (step_lui m _ _ _ 1 _ _ (F 5%nat 0x88ff0014 _ eq_refl eq_refl) A1 A3 A4).
  mips_go (step_ori m _ _ _ 1 1 _ _ (F 6%nat 0x88ff0018 _ eq_refl eq_refl) B1 B2 B3 B4).
  mips_go (step_jr m _ _ _ 1 _ (F 7%nat 0x88ff001c _ eq_refl eq_refl) eq_refl eq_refl eq_refl).
  erewrite mips_run_S by (refine (step_nop m _ _ _ _ (F 8%nat 0x88ff0020 _ eq_refl eq_refl) eq_refl)).
  eexists. split; [reflexivity|]. cbn [mpc mnpc mregs].
  assert (forall r v rf x, wreg r v rf x = if (x =? r) && negb (r =? 0) then v else rf x) as Hw by done.
  rewrite !Hw, Hr0. cbn [andb negb Z.eqb Pos.eqb]. rewrite Hat. split_and!; reflexivity.
Qed.

(** ** Properties *)

(** C19.  The ARCS handoff hands over what it says: whatever memory held before
    and for every 32-bit kernel entry, the core that starts at the returned
    kseg0 address reaches the entry point after nine instructions with
    a0 = argc = 8, a1 and a2 pointing at the argv and envp tables, and both
    tables, read back through the core's own address path, are the
    NULL-terminated arrays of the intended strings. *)
Theorem arcs_handoff_correct (kentry : Z) (m : mem) (regs : Z -> Z) :
  is_u 32 kentry -> regs 0 = 0 ->
  let '(m', entry) := install_arcs_handoff kentry m in
  exists s, mips_run 9 m' (Mips entry (entry + 4) regs) = Some s /\
    mpc s = kentry /\ mregs s 4 = Z.of_nat (length argv_strs) /\
    str_table m' (mregs s 5) 8 = map chars argv_strs /\ be32 m' (core_off (mregs s 5 + 32)) = 0 /\
    str_table m' (mregs s 6) 17 = map chars envp_strs /\ be32 m' (core_off (mregs s 6 + 68)) = 0.
Proof.
  intros Hk Hr0. rewrite install_arcs_handoff_ws by done.
  destruct (stub_runs (apply_ws (handoff_ws (stub_words kentry)) m) kentry regs Hk Hr0) as (s & Hrun & Hpc & H4 & H5 & H6).
  { intros i w. by apply handoff_fetch. }
  exists s. rewrite H4, H5, H6. split; [done|]. split; [done|]. split; [done|].
  unfold stub_words at 1 2 3 4.
  match goal with |- context [handoff_ws [?a; ?b; ?c; ?d; ?e; ?f; ?g; ?h; ?i]] =>
    destruct (handoff_tables a b c d e f g h i) as (T1 & T2 & T3 & T4) end.
  split; [exact (wtable_sound _ m _ _ _ T1)|]. split; [exact (wbe32_sound _ m _ _ T2)|].
  split; [exact (wtable_sound _ m _ _ _ T3)|exact (wbe32_sound _ m _ _ T4)].
Qed.
Lemma arcs_handoff_correct_witness :
  let '(m', entry) := install_arcs_handoff 0x88005960 ∅ in
  exists s, mips_run 9 m' (Mips entry (entry + 4) (fun _ => 0)) = Some s /\ mpc s = 0x88005960.
Proof.
  pose proof (arcs_handoff_correct 0x88005960 ∅ (fun _ => 0) ltac:(by vm_compute) eq_refl) as H.
  destruct (install_arcs_handoff 0x88005960 ∅) as [m' entry]. destruct H as (s & H1 & H2 & _).
  exists s. split; [exact H1|exact H2].
Defined.

(** The ranges on which alias-then-fold is a translation. *)
Definition window_end (pa : Z) : Z :=
  if pa <? 0x80000 then 0x80000 else if pa <? 0x08000000 then 0x08000000 else if pa <? 0x10000000 then 0x10000000
  else if pa <? 0x18000000 then 0x18000000 else if pa <? 0x1f000000 then 0x1f000000 else 0x20000000.
Lemma alias_fold_window pa i :
  0 <= pa -> 0 <= i -> pa + i < window_end pa ->
  fold_spec (memory_alias (pa + i)) = fold_spec (memory_alias pa) + i.
Proof.
  intros Hpa Hi Hw. rewrite !memory_alias_spec by lia. unfold window_end in Hw. unfold fold_spec.
  repeat case_test; bool_props; lia.
Qed.
Lemma length_fslice f o n : length (fslice f o n) = Z.to_nat n.
Proof. unfold fslice. by rewrite length_map, length_seq. Qed.
Lemma nth_fslice f o n i : (i < Z.to_nat n)%nat -> nth i (fslice f o n) 0 = fb f (o + Z.of_nat i).
Proof.
  intros Hi. unfold fslice. apply nth_lookup_Some.
  rewrite list_lookup_fmap, lookup_seq_lt by done. done.
Qed.

(** *** The image an ELF32 file describes

    Its PT_LOAD program headers as the format lays them out: words are big-endian,
    the table is at [e_phoff], [p_paddr] is the fourth word of a header. *)
Definition elf_word (f : list Z) (o : Z) : Z := be_val (fslice f o 4).
Definition elf_half (f : list Z) (o : Z) : Z := be_val (fslice f o 2).
Definition elf_header (f : list Z) (i : nat) : Z := elf_word f 28 + Z.of_nat i * elf_half f 42.
Definition elf_table (f : list Z) : list phdr :=
  map (fun i => let o := elf_header f i in
         Phdr (elf_word f o) (elf_word f (o + 4)) (elf_word f (o + 12)) (elf_word f (o + 16)) (elf_word f (o + 20)))
      (seq 0 (Z.to_nat (elf_half f 44))).
Definition elf_segments (f : list Z) : list phdr := List.filter (fun h => p_type h =? 1) (elf_table f).
(** Where the core fetches the segment from, and where the ISS does. *)
Definition seg_core (h : phdr) : Z := fold_spec (memory_alias (p_paddr h mod 0x20000000)).
Definition seg_phys (h : phdr) : Z := p_paddr h mod 0x20000000.
Definition covers (at_ : phdr -> Z) (h : phdr) (x : Z) : Prop := at_ h <= x < at_ h + p_filesz h.
(** [m'] is [m] with the segments copied in, a later one over an earlier one. *)
Definition placed (f : list Z) (at_ : phdr -> Z) (hs : list phdr) (m m' : mem) : Prop :=
  (forall j h i, hs !! j = Some h -> 0 <= i < p_filesz h ->
     (forall j' h', (j < j')%nat -> hs !! j' = Some h' -> ~ covers at_ h' (at_ h + i)) ->
     mget m' (at_ h + i) = fb f (p_offset h + i)) /\
  (forall x, (forall j h, hs !! j = Some h -> ~ covers at_ h x) -> mget m' x = mget m x).

Lemma fb_ok f o : bytes_ok f -> is_u 8 (fb f o).
Proof.
  intros Hf. unfold fb. destruct (decide (Z.to_nat o < length f)%nat) as [H|H].
  - by apply Forall_nth.
  - rewrite nth_overflow by lia. by vm_compute.
Qed.
Lemma fslice_ok f o n : bytes_ok f -> bytes_ok (fslice f o n).
Proof. intros Hf. apply List.Forall_forall. intros x Hx. apply in_map_iff in Hx as (i & <- & _). by apply fb_ok. Qed.
Lemma fslice_2 f o : fslice f o 2 = [fb f o; fb f (o + 1)].
Proof. unfold fslice. change (Z.to_nat 2) with 2%nat. cbn [seq map]. by rewrite Z.add_0_r. Qed.
Lemma fslice_4 f o : fslice f o 4 = [fb f o; fb f (o + 1); fb f (o + 2); fb f (o + 3)].
Proof. unfold fslice. change (Z.to_nat 4) with 4%nat. cbn [seq map]. by rewrite Z.add_0_r. Qed.
Lemma fbe32_word f o : bytes_ok f -> fbe32 f o = elf_word f o.
Proof.
  intros Hf. unfold elf_word, fbe32, be_val. rewrite fslice_4. cbn [rev app le_val]. rewrite cat32 by by apply fb_ok. lia.
Qed.
Lemma fbe16_half f o : bytes_ok f -> fbe16 f o = elf_half f o.
Proof.
  intros Hf. pose proof (fb_ok f (o + 1) Hf) as H. unfold elf_half, fbe16, be_val. rewrite fslice_2. cbn [rev app le_val].
  unfold is_u in H. rewrite lor_shiftl_add by lia. lia.
Qed.
Lemma elf_word_u32 f o : bytes_ok f -> is_u 32 (elf_word f o).
Proof.
  intros Hf. unfold elf_word, be_val. pose proof (le_val_bound (rev (fslice f o 4))) as H.
  rewrite length_rev, length_fslice in H. apply H. by apply Forall_rev, fslice_ok.
Qed.
Lemma phdr_table f : bytes_ok f ->
  map (fun i => phdr_at f (fbe32 f 28 + Z.of_nat i * fbe16 f 42)) (seq 0 (Z.to_nat (fbe16 f 44))) = elf_table f.
Proof.
  intros Hf. rewrite fbe32_word, !fbe16_half by done. apply map_ext. intros i. unfold phdr_at. by rewrite !fbe32_word by done.
Qed.
Lemma elf_segments_u32 f : bytes_ok f -> Forall (fun h => is_u 32 (p_paddr h) /\ 0 <= p_filesz h) (elf_segments f).
Proof.
  intros Hf. unfold elf_segments, elf_table. apply List.Forall_forall. intros h [Hh _]%filter_In.
  apply in_map_iff in Hh as (i & <- & _). cbn [p_paddr p_filesz]. split; [by apply elf_word_u32|].
  by apply (elf_word_u32 f (elf_header f i + 16) Hf).
Qed.

(** The bound check on headers whose sizes do not wrap, and the address. *)
Definition fits (h : phdr) : Prop := seg_core h + p_memsz h <= MEM_SIZE.
#[export] Instance fits_dec h : Decision (fits h).
Proof. unfold fits. apply _. Defined.
Lemma seg_pa_phys h : seg_pa h = seg_phys h.
Proof. unfold seg_pa, seg_phys. by autorewrite with hw. Qed.
Lemma memory_alias_29 a : 0 <= a < 0x20000000 -> 0 <= memory_alias a < 0x20000000.
Proof. intros Ha. rewrite memory_alias_spec by lia. case_test; bool_props; lia. Qed.
Lemma seg_phys_29 h : 0 <= seg_phys h < 0x20000000.
Proof. apply Z.mod_pos_bound. lia. Qed.
Lemma seg_off h : fpga_map (memory_alias (seg_pa h)) = (seg_core h, false).
Proof.
  rewrite seg_pa_phys. pose proof (memory_alias_29 _ (seg_phys_29 h)) as Hr. rewrite fpga_map_eq32 by auto with hw.
  f_equal. by apply Z.ltb_ge, fold_spec_range.
Qed.
Lemma seg_core_range h : 0 <= seg_core h < MEM_SIZE.
Proof.
  pose proof (fold_spec_range _ (memory_alias_29 _ (seg_phys_29 h))). unfold seg_core, seg_phys, FPGA_ADDRMASK, MEM_SIZE in *. lia.
Qed.
Lemma seg_ok_fits h : 0 <= p_memsz h -> seg_core h + p_memsz h < 0x100000000 -> seg_ok h = bool_decide (fits h).
Proof.
  intros Hm Hw. pose proof (seg_core_range h). unfold seg_ok. rewrite seg_off, u32_small by lia. cbn [orb]. unfold fits.
  case_bool_decide; [apply negb_true_iff, Z.ltb_ge; lia|apply negb_false_iff, Z.ltb_lt; lia].
Qed.

Lemma placed_cons f at_ h hs m m' :
  placed f at_ hs (mput_bytes m (at_ h) (fslice f (p_offset h) (p_filesz h))) m' ->
  0 <= p_filesz h -> placed f at_ (h :: hs) m m'.
Proof.
  intros [H1 H2] Hs. split.
  - intros [|j] h0 i Hj Hi Hlast; cbn in Hj.
    + injection Hj as ->. rewrite H2 by (intros j h' Hj; apply (Hlast (S j)); [lia|done]).
      rewrite mget_mput_in by (rewrite length_fslice; lia). rewrite nth_fslice by lia. f_equal. lia.
    + apply (H1 j); [done|done|]. intros j' h' Hj' Hh'. apply (Hlast (S j')); [lia|done].
  - intros x Hx. rewrite H2 by (intros j h' Hj; apply (Hx (S j)); done). apply mget_mput_out. rewrite length_fslice.
    pose proof (Hx 0%nat h eq_refl) as Hn. unfold covers in Hn. lia.
Qed.
Lemma placed_nil f at_ m : placed f at_ [] m m.
Proof. split; [by intros [|]|done]. Qed.
Definition iss_placed (f : list Z) (hs : list phdr) (ss ss' : option mem) : Prop :=
  match ss, ss' with
  | Some m, Some m' => placed f seg_phys hs m m'
  | None, None => True
  | _, _ => False
  end.
(** The program headers in order: skipped, refused or copied. *)
Lemma load_segments_placed f hs : forall g ss,
  Forall (fun h => p_type h = 1 -> 0 <= p_filesz h /\ 0 <= p_memsz h /\ seg_core h + p_memsz h < 0x100000000) hs ->
  let segs := List.filter (fun h => p_type h =? 1) hs in
  (Forall fits segs -> exists g' ss', load_segments f hs g ss = inr (g', ss') /\
     placed f seg_core segs g g' /\ iss_placed f segs ss ss') /\
  (~ Forall fits segs -> load_segments f hs g ss = inl SegmentOutOfRam).
Proof.
  induction hs as [|h hs IH]; intros g ss Hw; cbn [load_segments List.filter].
  { split; [|by intros []]. intros _. exists g, ss. split; [done|]. split; [apply placed_nil|]. destruct ss; [apply placed_nil|done]. }
  inversion_clear Hw as [|? ? Hh Hw']. unfold load_segment. destruct (Z.eqb_spec (p_type h) 1) as [Ht|Ht]; cbn [negb]; [|by apply IH].
  destruct (Hh Ht) as (Hf & Hm & H32). rewrite seg_off, seg_ok_fits by done. cbn [fst].
  case_bool_decide as Hfit; cbn [negb].
  - set (bs := fslice f (p_offset h) (p_filesz h)).
    destruct (IH (mput_bytes g (seg_core h) bs) (iss_put ss (seg_pa h) bs) Hw') as [I1 I2]. split.
    + intros Hall. inversion_clear Hall as [|? ? _ Hall']. destruct (I1 Hall') as (g' & ss' & E & P & S). exists g', ss'.
      split; [done|]. split; [by apply placed_cons|]. rewrite seg_pa_phys in S.
      destruct ss as [m|], ss' as [m'|]; cbn in S |- *; try done. by apply placed_cons.
    + intros Hn. apply I2. intros Hall. apply Hn. by constructor.
  - split; [intros Hall; by inversion_clear Hall|done].
Qed.

(** C20.  [load_elf_be32] loads the image the ELF32 file describes.  A file with another
    magic, class or byte order is refused.  If every PT_LOAD header's sizes are in order
    (file size at most memory size, no wrap of the 32-bit sum), the file is refused when a
    segment's memory image ends past DRAM; otherwise the entry point is [e_entry], and
    DRAM holds byte [i] of every segment at its [p_paddr], taken to physical, aliased and
    folded as the core's fetches are, unless a later segment covers the byte, and is
    unchanged elsewhere; the ISS holds the same bytes at the unfolded physical address.
    Within one window of the map byte [i] is what the core reads at [pa + i].  The file
    is long enough for its headers and segments. *)
Theorem elf_image_loaded (f : list Z) (g : mem) (ss : option mem) :
  bytes_ok f -> let segs := elf_segments f in
  (take 4 f <> [0x7f; 0x45; 0x4c; 0x46] -> (4 <= length f)%nat -> load_elf_be32 f g ss = inl NotAnElf) /\
  (take 4 f = [0x7f; 0x45; 0x4c; 0x46] -> nth 4 f 0 <> 1 \/ nth 5 f 0 <> 2 -> load_elf_be32 f g ss = inl NotBe32) /\
  (take 6 f = [0x7f; 0x45; 0x4c; 0x46; 1; 2] ->
   Forall (fun h => p_filesz h <= p_memsz h /\ seg_core h + p_memsz h < 0x100000000) segs ->
   elf_header f (Z.to_nat (elf_half f 44)) <= Z.of_nat (length f) ->
   Forall (fun h => p_offset h + p_filesz h <= Z.of_nat (length f)) segs ->
   (~ Forall fits segs -> load_elf_be32 f g ss = inl SegmentOutOfRam) /\
   (Forall fits segs -> exists g' ss', load_elf_be32 f g ss = inr (elf_word f 24, g', ss') /\
      placed f seg_core segs g g' /\ iss_placed f segs ss ss' /\
      forall h i, In h segs -> 0 <= i < p_filesz h -> seg_phys h + p_filesz h <= window_end (seg_phys h) ->
        core_off (0x80000000 + seg_phys h + i) = seg_core h + i)).
Proof.
  intros Hf segs. unfold load_elf_be32.
  assert (forall a b c d, (4 <= length f)%nat -> (take 4 f = [a; b; c; d] <-> fb f 0 = a /\ fb f 1 = b /\ fb f 2 = c /\ fb f 3 = d)) as Hm.
  { intros a b c d Hl. destruct f as [|f0 [|f1 [|f2 [|f3 t]]]]; cbn [length] in Hl; try lia. unfold fb.
    change (Z.to_nat 0) with 0%nat. change (Z.to_nat 1) with 1%nat. change (Z.to_nat 2) with 2%nat. change (Z.to_nat 3) with 3%nat. cbn [take nth].
    split; [intros [= -> -> -> ->]|intros (-> & -> & -> & ->)]; done. }
  split; [|split].
  - intros Hne Hl. destruct (_ && _) eqn:E; [|done]. exfalso. apply Hne, Hm; [done|]. bool_props. done.
  - intros He Hc. assert (4 <= length f)%nat as Hl.
    { assert (length (take 4 f) = 4%nat) as Hl by (by rewrite He). rewrite length_take in Hl. lia. }
    
    apply Hm in He as (-> & -> & -> & ->); [|done]. cbn [Z.eqb Pos.eqb andb negb].
    assert (negb (fb f 4 =? 1) || negb (fb f 5 =? 2) = true) as ->; [|done]. unfold fb.
    change (Z.to_nat 4) with 4%nat. change (Z.to_nat 5) with 5%nat. apply orb_true_iff. rewrite !negb_true_iff, !Z.eqb_neq. done.
  - intros He Hs _ _. assert (exists t, f = [0x7f; 0x45; 0x4c; 0x46; 1; 2] ++ t) as [t Ef]
      by (exists (drop 6 f); by rewrite <- He, take_drop).
    assert (fb f 0 = 0x7f /\ fb f 1 = 0x45 /\ fb f 2 = 0x4c /\ fb f 3 = 0x46 /\ fb f 4 = 1 /\ fb f 5 = 2)
      as (-> & -> & -> & -> & -> & ->) by (by rewrite Ef).
    cbn [Z.eqb Pos.eqb andb orb negb]. rewrite phdr_table, fbe32_word by done.
    destruct (load_segments_placed f (elf_table f) g ss) as [H1 H2].
    { apply List.Forall_forall. intros h Hin Ht. pose proof (proj1 (List.Forall_forall _ _) Hs h) as Hh.
      pose proof (proj1 (List.Forall_forall _ _) (elf_segments_u32 f Hf) h) as Hu.
      assert (In h segs) as Hi by (apply filter_In; by rewrite Ht). specialize (Hh Hi) as [Hh1 Hh2]. specialize (Hu Hi) as [_ Hu]. lia. }
    change (List.filter _ (elf_table f)) with segs in H1, H2. split; [by intros ->%H2|].
    intros (g' & ss' & -> & P & S)%H1. exists g', ss'. split_and!; try done. intros h i Hin Hi Hwin.
    pose proof (seg_phys_29 h) as Hp. unfold core_off, kseg_phys.
    assert (window_end (seg_phys h) <= 0x20000000) by (unfold window_end; repeat case_test; lia).
    rewrite (proj2 (Z.leb_le _ _)), (proj2 (Z.ltb_lt _ _)) by lia. cbn [andb]. autorewrite with hw.
    replace ((0x80000000 + seg_phys h + i) mod 0x20000000) with (seg_phys h + i)
      by (rewrite <- (Z.mod_small (seg_phys h + i) 0x20000000) by lia; symmetry;
          replace (0x80000000 + seg_phys h + i) with (seg_phys h + i + 4 * 0x20000000) by lia; apply Z.mod_add; lia).
    rewrite fpga_map_spec by (apply is_u32_29, memory_alias_29; lia). unfold seg_core. fold (seg_phys h).
    apply alias_fold_window; lia.
Qed.

(** A note, and a segment linked low but loaded at kseg0 0x88002000. *)
Definition sample_elf : list Z :=
  [0x7f; 0x45; 0x4c; 0x46; 1; 2] ++ repeat 0 18 ++ be_bytes 4 0x88002000 ++ be_bytes 4 52 ++ repeat 0 10 ++
  be_bytes 2 32 ++ be_bytes 2 2 ++ repeat 0 6 ++
  concat (map (be_bytes 4) [4; 0; 0; 0; 0; 0; 0; 0]) ++
  concat (map (be_bytes 4) [1; 116; 0x1000; 0x88002000; 4; 0x100; 0; 0]) ++ [0xde; 0xad; 0xbe; 0xef].
Lemma sample_elf_ok : bytes_ok sample_elf.
Proof. vm_compute. repeat constructor; discriminate. Qed.
Lemma elf_image_loaded_witness :
  exists g' ss', load_elf_be32 sample_elf ∅ (Some ∅) = inr (0x88002000, g', ss') /\
    mget g' 0x08002001 = 0xad /\ core_off 0x88002001 = 0x08002001.
Proof.
  destruct (elf_image_loaded sample_elf ∅ (Some ∅) sample_elf_ok) as (_ & _ & H).
  destruct H as [_ H]; [reflexivity| | | |].
  - apply (bool_decide_unpack _). by vm_compute.
  - vm_compute. discriminate.
  - apply (bool_decide_unpack _). by vm_compute.
  - destruct H as (g' & ss' & E & [P _] & _ & C).
    { apply (bool_decide_unpack _). by vm_compute. }
    exists g', ss'. split; [rewrite E; f_equal|]. split.
    + exact (P 0%nat (Phdr 1 116 0x88002000 4 0x100) 1 eq_refl ltac:(cbn; lia) ltac:(intros [|j'] h' Hj Hh; [lia|by vm_compute in Hh])).
    + exact (C (Phdr 1 116 0x88002000 4 0x100) 1 ltac:(vm_compute; by left) ltac:(cbn; lia) ltac:(vm_compute; discriminate)).
Defined.

(** The "segment out of RAM" test has two holes: it bounds [p_memsz] while
    the copy uses [p_filesz], and it adds in 32 bits.  A segment with
    [p_filesz > p_memsz], and one whose [off + p_memsz] wraps, both pass it and
    make the copy run past the 512 MB window. *)
Theorem elf_bounds_check_holes :
  let small_memsz := Phdr 1 0 0x08000000 0x20000000 0 in
  let wrapping := Phdr 1 0 0x08000000 0xf8000000 0xf8000000 in
  seg_ok small_memsz = true /\ MEM_SIZE < fst (fpga_map (memory_alias (seg_pa small_memsz))) + p_filesz small_memsz /\
  seg_ok wrapping = true /\ MEM_SIZE < fst (fpga_map (memory_alias (seg_pa wrapping))) + p_filesz wrapping.
Proof. vm_compute. split_and!; reflexivity. Qed.
