(* ===== verification/Ctrace.v ===== *)
(** * Ctrace: the chunked columnar retire trace, writer and reader

    [ctrace_writer] of sim/ctrace.hh and the reader of sim/ctrace_dump.cc.
    Zstandard is a section variable: [compress] for [ZSTD_compress] and
    [decompress cap] for [ZSTD_decompress] into a [cap]-byte buffer. *)
From S2P Require Import Prelude AddressMap GuestMem Checkpoint.

(** ** Columns *)

Record ct_rec := CtRec { r_pc : Z; r_dst : Z; r_val : Z; r_flags : Z }.
Record ct_store := CtStore { s_pc : Z; s_addr : Z; s_data : Z }.
#[export] Instance ct_rec_eq_dec : EqDecision ct_rec.
Proof. solve_decision. Defined.

Definition CT_PC : Z := 0.
Definition CT_DST : Z := 1.
Definition CT_VAL : Z := 2.
Definition CT_FLAGS : Z := 3.
Definition CT_EXC_IDX : Z := 4.
Definition CT_EXC_CAU : Z := 5.
Definition CT_EXC_EPC : Z := 6.
Definition CT_EXC_BAD : Z := 7.
Definition CT_ST_PC : Z := 8.
Definition CT_ST_ADDR : Z := 9.
Definition CT_ST_DATA : Z := 10.

(** The writer's vectors, struct-of-arrays. *)
Record soa := Soa {
  c_pc : list Z; c_dst : list Z; c_val : list Z; c_flags : list Z;
  c_eidx : list Z; c_ecau : list Z; c_eepc : list Z; c_ebad : list Z;
  c_stpc : list Z; c_staddr : list Z; c_stdata : list Z }.
Definition soa_empty : soa := Soa [] [] [] [] [] [] [] [] [] [] [].

Definition MAGIC : list Z := chars "R9TRACE1".
Definition TRAILER : list Z := chars "R9TRAILR".

(** A staged column: id, element size and raw bytes. *)
Record col := Col { col_id : Z; col_esz : nat; col_raw : list Z }.
Definition put_col (id : Z) (esz : nat) (v : list Z) (cols : list col) : list col :=
  match v with [] => cols | _ => cols ++ [Col id esz (arr_bytes esz v)] end.
Definition stage (s : soa) : list col :=
  put_col CT_ST_DATA 8 (c_stdata s) (put_col CT_ST_ADDR 8 (c_staddr s) (put_col CT_ST_PC 8 (c_stpc s)
  (put_col CT_EXC_BAD 8 (c_ebad s) (put_col CT_EXC_EPC 8 (c_eepc s) (put_col CT_EXC_CAU 1 (c_ecau s)
  (put_col CT_EXC_IDX 4 (c_eidx s) (put_col CT_FLAGS 1 (c_flags s) (put_col CT_VAL 8 (c_val s)
  (put_col CT_DST 1 (c_dst s) (put_col CT_PC 8 (c_pc s) [])))))))))).

Section Format.
Variable compress : list Z -> list Z.
Variable decompress : nat -> list Z -> option (list Z).

(** ** Writer *)

Record writer := Writer {
  w_cols : soa; w_file : list Z; w_raw : list Z;
  n_chunks : Z; total_recs : Z; out_bytes : Z }.
Definition ct_open : writer := Writer soa_empty MAGIC [] 0 0 0.

Definition col_hdr (c : col) : list Z :=
  [col_id c; Z.of_nat (col_esz c)] ++ le_bytes 4 (Z.of_nat (length (col_raw c)))
  ++ le_bytes 4 (Z.of_nat (length (compress (col_raw c)))).
Definition chunk_bytes (s : soa) : list Z :=
  let cols := stage s in
  le_bytes 4 (Z.of_nat (length (c_pc s))) ++ le_bytes 4 (Z.of_nat (length cols))
  ++ concat (map col_hdr cols) ++ concat (map (fun c => compress (col_raw c)) cols).
Definition flush_chunk (w : writer) : writer :=
  let b := chunk_bytes (w_cols w) in
  Writer soa_empty (w_file w ++ b) (w_raw w) (n_chunks w + 1)
    (total_recs w + u32 (Z.of_nat (length (c_pc (w_cols w))))) (out_bytes w + Z.of_nat (length b)).

Variable chunk_recs : nat.
Definition add (r : ct_rec) (w : writer) : writer :=
  let s := w_cols w in
  let s := Soa (c_pc s ++ [r_pc r]) (c_dst s ++ [r_dst r]) (c_val s ++ [r_val r]) (c_flags s ++ [r_flags r])
               (c_eidx s) (c_ecau s) (c_eepc s) (c_ebad s) (c_stpc s) (c_staddr s) (c_stdata s) in
  let raw := w_raw w ++ le_bytes 8 (r_pc r) ++ le_bytes 8 (r_val r) ++ le_bytes 1 (r_dst r) ++ le_bytes 1 (r_flags r) in
  let w := Writer s (w_file w) raw (n_chunks w) (total_recs w) (out_bytes w) in
  if (chunk_recs <=? length (c_pc s))%nat then flush_chunk w else w.
Definition with_cols (w : writer) (s : soa) : writer :=
  Writer s (w_file w) (w_raw w) (n_chunks w) (total_recs w) (out_bytes w).
Definition add_store (x : ct_store) (w : writer) : writer :=
  let s := w_cols w in
  with_cols w (Soa (c_pc s) (c_dst s) (c_val s) (c_flags s) (c_eidx s) (c_ecau s) (c_eepc s) (c_ebad s)
                   (c_stpc s ++ [s_pc x]) (c_staddr s ++ [s_addr x]) (c_stdata s ++ [s_data x])).
Definition add_exception (cause epc badv : Z) (w : writer) : writer :=
  let s := w_cols w in
  with_cols w (Soa (c_pc s) (c_dst s) (c_val s) (c_flags s)
                   (c_eidx s ++ [u32 (Z.of_nat (length (c_pc s)))]) (c_ecau s ++ [cause]) (c_eepc s ++ [epc]) (c_ebad s ++ [badv])
                   (c_stpc s) (c_staddr s) (c_stdata s)).
(** [close()]: the file it leaves. *)
Definition ct_close (w : writer) : list Z :=
  let w := match c_pc (w_cols w) with [] => w | _ => flush_chunk w end in
  w_file w ++ le_bytes 8 (n_chunks w) ++ le_bytes 8 (total_recs w) ++ TRAILER.

Inductive ct_op := Add (r : ct_rec) | AddStore (x : ct_store) | AddException (cause epc badv : Z).
Definition ct_step (w : writer) (op : ct_op) : writer :=
  match op with
  | Add r => add r w
  | AddStore x => add_store x w
  | AddException c e b => add_exception c e b w
  end.
Definition ct_run (ops : list ct_op) : writer := fold_left ct_step ops ct_open.

(** ** Reader *)

Inductive dump_error := BadMagic | ShortHeader | DecompressFail | PcColumnSize.
Record colinfo := ColInfo { ci_id : Z; ci_esz : Z; ci_raw : Z; ci_comp : Z }.
(** The columns a chunk's body fills in. *)
Record rcols := RCols {
  q_pc : list Z; q_val : list Z; q_dst : list Z; q_flags : list Z;
  q_stpc : list Z; q_staddr : list Z; q_stdata : list Z; q_excs : Z }.
Definition rcols_empty : rcols := RCols [] [] [] [] [] [] [] 0.
Definition words8 (bs : list Z) : list Z := fst (rd_arr 8 (length bs / 8) bs).
Definition assign_col (id : Z) (b : list Z) (q : rcols) : rcols :=
  if id =? CT_PC then RCols (words8 b) (q_val q) (q_dst q) (q_flags q) (q_stpc q) (q_staddr q) (q_stdata q) (q_excs q)
  else if id =? CT_VAL then RCols (q_pc q) (words8 b) (q_dst q) (q_flags q) (q_stpc q) (q_staddr q) (q_stdata q) (q_excs q)
  else if id =? CT_DST then RCols (q_pc q) (q_val q) b (q_flags q) (q_stpc q) (q_staddr q) (q_stdata q) (q_excs q)
  else if id =? CT_FLAGS then RCols (q_pc q) (q_val q) (q_dst q) b (q_stpc q) (q_staddr q) (q_stdata q) (q_excs q)
  else if id =? CT_EXC_IDX then RCols (q_pc q) (q_val q) (q_dst q) (q_flags q) (q_stpc q) (q_staddr q) (q_stdata q) (q_excs q + Z.of_nat (length b / 4))
  else if id =? CT_ST_PC then RCols (q_pc q) (q_val q) (q_dst q) (q_flags q) (words8 b) (q_staddr q) (q_stdata q) (q_excs q)
  else if id =? CT_ST_ADDR then RCols (q_pc q) (q_val q) (q_dst q) (q_flags q) (q_stpc q) (words8 b) (q_stdata q) (q_excs q)
  else if id =? CT_ST_DATA then RCols (q_pc q) (q_val q) (q_dst q) (q_flags q) (q_stpc q) (q_staddr q) (words8 b) (q_excs q)
  else q.
Fixpoint rd_cols (nc : nat) (f : list Z) : option (list colinfo * list Z) :=
  match nc with
  | O => Some ([], f)
  | S k =>
      match fread 10 f with
      | None => None
      | Some (b, f) =>
          match rd_cols k f with
          | None => None
          | Some (cs, f) =>
              Some (ColInfo (nth 0 b 0) (nth 1 b 0) (le_val (take 4 (drop 2 b))) (le_val (take 4 (drop 6 b))) :: cs, f)
          end
      end
  end.
Inductive body := BodyOk (q : rcols) (f : list Z) | BodyTruncated (q : rcols) | BodyBad.
Fixpoint rd_body (cs : list colinfo) (f : list Z) (q : rcols) : body :=
  match cs with
  | [] => BodyOk q f
  | c :: t =>
      match fread (Z.to_nat (ci_comp c)) f with
      | None => BodyTruncated q
      | Some (b, f) =>
          match decompress (Z.to_nat (ci_raw c)) b with
          | None => BodyBad
          | Some raw =>
              if Z.of_nat (length raw) =? ci_raw c then rd_body t f (assign_col (ci_id c) raw q) else BodyBad
          end
      end
  end.

(** What the reader accumulates: chunk and exception counts, the records and
    the store triples of the complete chunks, in order. *)
Record summary := Summary {
  d_chunks : Z; d_recs : list ct_rec; d_excs : Z; d_stores : list ct_store;
  d_trailer : option (Z * Z); d_truncated : bool }.
Definition recs_of (n : nat) (q : rcols) : list ct_rec :=
  map (fun i => CtRec (nth i (q_pc q) 0) (nth i (q_dst q) 0) (nth i (q_val q) 0) (nth i (q_flags q) 0)) (seq 0 n).
(** [k < staddr.size() && k < stpc.size() && k < stdata.size()] *)
Definition stores_of (q : rcols) : list ct_store :=
  map (fun k => CtStore (nth k (q_stpc q) 0) (nth k (q_staddr q) 0) (nth k (q_stdata q) 0))
      (seq 0 (Nat.min (length (q_staddr q)) (Nat.min (length (q_stpc q)) (length (q_stdata q))))).
Definition rd_trailer (f : list Z) : option (Z * Z) :=
  match fread 24 f with
  | Some (b, _) => if bool_decide (drop 16 b = TRAILER) then Some (le_val (take 8 b), le_val (take 8 (drop 8 b))) else None
  | None => None
  end.
Fixpoint dump_loop (fuel : nat) (f : list Z) (s : summary) : dump_error + summary :=
  let fin (f : list Z) (tr : bool) :=
    inr (Summary (d_chunks s) (d_recs s) (d_excs s) (d_stores s) (rd_trailer f) tr) in
  match fuel with
  | O => fin f false
  | S k =>
      match fread 4 f with
      | None => fin [] false
      | Some (bn, f1) =>
          match fread 4 f1 with
          | None => fin [] false
          | Some (bnc, f2) =>
              let n := le_val bn in let nc := le_val bnc in
              if (nc =? 0) || (16 <? nc) then fin f false
              else
                match rd_cols (Z.to_nat nc) f2 with
                | None => inl ShortHeader
                | Some (cs, f3) =>
                    match rd_body cs f3 rcols_empty with
                    | BodyBad => inl DecompressFail
                    | BodyTruncated q =>
                        inr (Summary (d_chunks s) (d_recs s) (d_excs s + q_excs q) (d_stores s) None true)
                    | BodyOk q f4 =>
                        if negb (Z.of_nat (length (q_pc q)) =? n) then inl PcColumnSize
                        else dump_loop k f4
                               (Summary (d_chunks s + 1) (d_recs s ++ recs_of (Z.to_nat n) q) (d_excs s + q_excs q)
                                        (d_stores s ++ stores_of q) None false)
                    end
                end
          end
      end
  end.
Definition ctrace_dump (f : list Z) : dump_error + summary :=
  match fread 8 f with
  | Some (m, f') => if bool_decide (m = MAGIC) then dump_loop (S (length f')) f' (Summary 0 [] 0 [] None false) else inl BadMagic
  | None => inl BadMagic
  end.
(** [--addr]: the stores in the 64-byte region of [want]. *)
Definition stores_at (want : Z) (s : summary) : list ct_store :=
  List.filter (fun x => Z.ldiff (s_addr x) 63 =? Z.ldiff want 63) (d_stores s).
(** [--raw]: mismatches against the sidecar; a short sidecar ends the compare. *)
Fixpoint raw_mismatches (raw : list Z) (rs : list ct_rec) : Z :=
  match rs with
  | [] => 0
  | r :: t =>
      match fread 18 raw with
      | None => 0
      | Some (b, raw) =>
          let '(pc, b) := rd 8 b in let '(v, b) := rd 8 b in let '(d, b) := rd 1 b in let '(fl, _) := rd 1 b in
          (if (pc =? r_pc r) && (v =? r_val r) && (d =? r_dst r) && (fl =? r_flags r) then 0 else 1) + raw_mismatches raw t
      end
  end.
End Format.

(** ** Lemmas *)

Lemma words8_arr v : Forall (is_u 64) v -> words8 (arr_bytes 8 v) = v.
Proof.
  intros H. unfold words8. rewrite length_arr_bytes, Nat.div_mul by lia.
  rewrite <- (app_nil_r (arr_bytes 8 v)). by rewrite rd_arr_bytes.
Qed.
Lemma arr_bytes1 v : Forall (is_u 8) v -> arr_bytes 1 v = v.
Proof.
  unfold arr_bytes. induction 1 as [|x v Hx _ IH]; [done|]. cbn [map concat].
  rewrite IH. change (le_bytes 1 x) with [x mod 256]. cbn [app]. f_equal. unfold is_u in Hx. apply Z.mod_small. lia.
Qed.
Lemma arr_bytes_nil n v : (0 < n)%nat -> arr_bytes n v = [] -> v = [].
Proof. destruct n; [lia|]. by destruct v. Qed.

(** [assign_col] for a column that may be absent. *)
Definition assign0 (id : Z) (b : list Z) (q : rcols) : rcols := match b with [] => q | _ => assign_col id b q end.
Lemma assign0_id id b q : assign_col id [] q = q -> assign0 id b q = assign_col id b q.
Proof. by destruct b. Qed.
Definition assign_all (cols : list col) : rcols :=
  fold_left (fun q c => assign_col (col_id c) (col_raw c) q) cols rcols_empty.
Lemma assign_all_put id esz v cols :
  (0 < esz)%nat -> assign_all (put_col id esz v cols) = assign0 id (arr_bytes esz v) (assign_all cols).
Proof.
  intros He. unfold put_col, assign0. destruct v as [|x v]; [done|].
  unfold assign_all at 1. rewrite fold_left_app. cbn [fold_left col_id col_raw].
  destruct (arr_bytes esz (x :: v)) eqn:E; [by apply arr_bytes_nil in E|done].
Qed.

Record soa_ok (s : soa) : Prop := SoaOk {
  so_pc : Forall (is_u 64) (c_pc s); so_val : Forall (is_u 64) (c_val s);
  so_dst : Forall (is_u 8) (c_dst s); so_flags : Forall (is_u 8) (c_flags s);
  so_stpc : Forall (is_u 64) (c_stpc s); so_staddr : Forall (is_u 64) (c_staddr s);
  so_stdata : Forall (is_u 64) (c_stdata s) }.
(** Apply the innermost [assign0], whose column is still empty. *)
Ltac assign_step id :=
  rewrite (assign0_id id) by reflexivity;
  unfold assign_col at 1; cbn [q_pc q_val q_dst q_flags q_stpc q_staddr q_stdata q_excs];
  repeat match goal with |- context [if ?x =? ?y then _ else _] =>
    let b := eval vm_compute in (x =? y) in change (x =? y) with b; cbv iota end.
Lemma assign_all_stage s :
  soa_ok s ->
  assign_all (stage s) = RCols (c_pc s) (c_val s) (c_dst s) (c_flags s) (c_stpc s) (c_staddr s) (c_stdata s)
                               (Z.of_nat (length (c_eidx s))).
Proof.
  intros []. unfold stage. rewrite !assign_all_put by lia. unfold assign_all, rcols_empty. cbn [fold_left].
  assign_step CT_PC. rewrite words8_arr by done.
  assign_step CT_DST. rewrite (arr_bytes1 (c_dst s)) by done.
  assign_step CT_VAL. rewrite words8_arr by done.
  assign_step CT_FLAGS. rewrite (arr_bytes1 (c_flags s)) by done.
  assign_step CT_EXC_IDX. rewrite length_arr_bytes, Nat.div_mul, Z.add_0_l by lia.
  assign_step CT_EXC_CAU. assign_step CT_EXC_EPC. assign_step CT_EXC_BAD.
  assign_step CT_ST_PC. rewrite words8_arr by done.
  assign_step CT_ST_ADDR. rewrite words8_arr by done.
  assign_step CT_ST_DATA. by rewrite words8_arr by done.
Qed.

(** What a chunk holds, as the program's callers see it. *)
Record gchunk := GChunk { g_recs : list ct_rec; g_exc : list (Z * Z * Z * Z); g_st : list ct_store }.
Definition soa_of (g : gchunk) : soa :=
  Soa (map r_pc (g_recs g)) (map r_dst (g_recs g)) (map r_val (g_recs g)) (map r_flags (g_recs g))
      (map (fun e => fst (fst (fst e))) (g_exc g)) (map (fun e => snd (fst (fst e))) (g_exc g))
      (map (fun e => snd (fst e)) (g_exc g)) (map snd (g_exc g))
      (map s_pc (g_st g)) (map s_addr (g_st g)) (map s_data (g_st g)).
Definition rec_ok (r : ct_rec) : Prop := is_u 64 (r_pc r) /\ is_u 8 (r_dst r) /\ is_u 64 (r_val r) /\ is_u 8 (r_flags r).
Definition store_ok (x : ct_store) : Prop := is_u 64 (s_pc x) /\ is_u 64 (s_addr x) /\ is_u 64 (s_data x).
(** [CHUNK_MAX] bounds the number of entries a chunk may gather: column sizes
    then fit the 32-bit header fields. *)
Definition CHUNK_MAX : Z := 0x10000000.
Record gchunk_ok (g : gchunk) : Prop := GChunkOk {
  gk_recs : Forall rec_ok (g_recs g); gk_st : Forall store_ok (g_st g);
  gk_size : Z.of_nat (length (g_recs g) + length (g_exc g) + length (g_st g)) < CHUNK_MAX }.

Lemma soa_of_ok g : gchunk_ok g -> soa_ok (soa_of g).
Proof.
  intros [Hr Hs _].
  constructor; cbn [soa_of c_pc c_val c_dst c_flags c_stpc c_staddr c_stdata]; apply Forall_map;
    (eapply List.Forall_impl; [|eassumption]); intros ? H; unfold rec_ok, store_ok in H; tauto.
Qed.
Lemma recs_of_map rs q :
  q_pc q = map r_pc rs -> q_dst q = map r_dst rs -> q_val q = map r_val rs -> q_flags q = map r_flags rs ->
  recs_of (length rs) q = rs.
Proof.
  unfold recs_of. intros -> -> -> ->. induction rs as [|r rs IH]; [done|]. cbn [length seq map nth].
  rewrite <- seq_shift, map_map. cbn [nth]. rewrite IH. by destruct r.
Qed.
Lemma stores_of_map xs q :
  q_stpc q = map s_pc xs -> q_staddr q = map s_addr xs -> q_stdata q = map s_data xs -> stores_of q = xs.
Proof.
  unfold stores_of. intros -> -> ->. rewrite !length_map, !Nat.min_id.
  induction xs as [|x xs IH]; [done|]. cbn [length seq map nth].
  rewrite <- seq_shift, map_map. cbn [nth]. rewrite IH. by destruct x.
Qed.

Definition col_ok (c : col) : Prop :=
  is_u 8 (col_id c) /\ (col_esz c <= 8)%nat /\ Z.of_nat (length (col_raw c)) < 0x80000000.
Lemma put_col_ok id esz v cols :
  is_u 8 id -> (esz <= 8)%nat -> Z.of_nat (length v) < CHUNK_MAX -> Forall col_ok cols -> Forall col_ok (put_col id esz v cols).
Proof.
  intros Hid He Hv Hc. unfold put_col. destruct v as [|x v]; [done|]. apply Forall_app. split; [done|].
  constructor; [|done]. split; [done|]. split; [done|]. cbn [col_raw]. rewrite length_arr_bytes.
  unfold CHUNK_MAX in Hv. nia.
Qed.
Lemma stage_ok g : gchunk_ok g -> Forall col_ok (stage (soa_of g)).
Proof.
  intros [_ _ Hs]. unfold stage.
  repeat (apply put_col_ok; [by vm_compute|lia|cbn [soa_of c_pc c_dst c_val c_flags c_eidx c_ecau c_eepc c_ebad c_stpc c_staddr c_stdata];
    rewrite length_map; lia|]). done.
Qed.
Lemma length_put_col id esz v cols : (length (put_col id esz v cols) <= S (length cols))%nat.
Proof. unfold put_col. destruct v; [lia|]. rewrite length_app. cbn; lia. Qed.
Lemma length_put_col_ge id esz v cols : (length cols <= length (put_col id esz v cols))%nat.
Proof. unfold put_col. destruct v; [lia|]. rewrite length_app. cbn; lia. Qed.
Lemma length_stage s : c_pc s <> [] -> (1 <= length (stage s) <= 11)%nat.
Proof.
  intros H. unfold stage. split.
  - do 10 (etransitivity; [|apply length_put_col_ge]). unfold put_col. by destruct (c_pc s).
  - do 11 (etransitivity; [apply length_put_col|]; apply le_n_S). done.
Qed.

Section FormatLemmas.
Variable compress : list Z -> list Z.
Variable decompress : nat -> list Z -> option (list Z).
(** Zstandard: lossless, and [ZSTD_compressBound] keeps frames below 4 GB. *)
Hypothesis zstd_inverse : forall b, decompress (length b) (compress b) = Some b.
Hypothesis zstd_bound : forall b, Z.of_nat (length b) < 0x80000000 -> Z.of_nat (length (compress b)) < 0x100000000.
Abbreviation hdr := (col_hdr compress).
Abbreviation loop := (dump_loop decompress).

Definition info (c : col) : colinfo :=
  ColInfo (col_id c) (Z.of_nat (col_esz c)) (Z.of_nat (length (col_raw c))) (Z.of_nat (length (compress (col_raw c)))).
Lemma length_col_hdr c : length (hdr c) = 10%nat.
Proof. unfold col_hdr. by rewrite !length_app, !length_le_bytes. Qed.
Lemma rd_cols_hdrs cols rest :
  Forall col_ok cols -> rd_cols (length cols) (concat (map hdr cols) ++ rest) = Some (map info cols, rest).
Proof using zstd_bound.
  induction 1 as [|c cols (Hid & He & Hl) _ IH]; [done|]. cbn [map concat length rd_cols].
  rewrite <- app_assoc, fread_app by apply length_col_hdr. rewrite IH. do 3 f_equal.
  pose proof (zstd_bound _ Hl) as Hc. unfold info, col_hdr.
  change (drop 2 ([col_id c; Z.of_nat (col_esz c)] ++ ?x)) with x.
  change (drop 6 ([col_id c; Z.of_nat (col_esz c)] ++ ?x)) with (drop 4 x).
  change (nth 0 ([col_id c; Z.of_nat (col_esz c)] ++ ?x) 0) with (col_id c).
  change (nth 1 ([col_id c; Z.of_nat (col_esz c)] ++ ?x) 0) with (Z.of_nat (col_esz c)). f_equal.
  - rewrite take_app_length' by (by rewrite length_le_bytes). apply le_val_le_bytes. change (256 ^ Z.of_nat 4) with 0x100000000. lia.
  - rewrite drop_app_length' by (by rewrite length_le_bytes).
    rewrite firstn_all2 by (by rewrite length_le_bytes). apply le_val_le_bytes. change (256 ^ Z.of_nat 4) with 0x100000000. lia.
Qed.
Lemma rd_body_cols cols rest q :
  rd_body decompress (map info cols) (concat (map (fun c => compress (col_raw c)) cols) ++ rest) q =
  BodyOk (fold_left (fun q c => assign_col (col_id c) (col_raw c) q) cols q) rest.
Proof using zstd_inverse.
  revert q; induction cols as [|c cols IH]; intros q; [done|]. cbn [map concat rd_body fold_left].
  cbn [info ci_comp ci_raw ci_id]. rewrite !Nat2Z.id, <- app_assoc, fread_app by done.
  rewrite zstd_inverse, Z.eqb_refl. apply IH.
Qed.

(** The chunk header fields read back. *)
Lemma fread4 v rest : is_u 32 v -> fread 4 (le_bytes 4 v ++ rest) = Some (le_bytes 4 v, rest).
Proof. intros. apply fread_app, length_le_bytes. Qed.
Definition after (s : summary) (g : gchunk) : summary :=
  Summary (d_chunks s + 1) (d_recs s ++ g_recs g) (d_excs s + Z.of_nat (length (g_exc g))) (d_stores s ++ g_st g) None false.
Lemma dump_loop_chunk k g rest s :
  gchunk_ok g -> g_recs g <> [] ->
  loop (S k) (chunk_bytes compress (soa_of g) ++ rest) s = loop k rest (after s g).
Proof using zstd_inverse zstd_bound.
  intros Hg Hne. pose proof (stage_ok g Hg) as Hst. pose proof (soa_of_ok g Hg) as Hso.
  assert (c_pc (soa_of g) <> []) as Hpc by (cbn; by destruct (g_recs g)).
  pose proof (length_stage _ Hpc) as Hlen. pose proof (gk_size _ Hg) as Hsz. unfold CHUNK_MAX in Hsz.
  unfold chunk_bytes. rewrite <- !app_assoc. cbn [dump_loop].
  assert (length (c_pc (soa_of g)) = length (g_recs g)) as El by apply length_map. rewrite El.
  rewrite !fread_app by apply length_le_bytes.
  rewrite !le_val_le_bytes by (change (256 ^ Z.of_nat 4) with 0x100000000; lia).
  rewrite (proj2 (Z.eqb_neq _ _)), (proj2 (Z.ltb_ge _ _)) by lia. cbn [orb].
  rewrite Nat2Z.id, rd_cols_hdrs by done. rewrite rd_body_cols.
  change (fold_left _ (stage (soa_of g)) rcols_empty) with (assign_all (stage (soa_of g))).
  rewrite assign_all_stage by done. cbn [q_pc q_excs]. rewrite El, Z.eqb_refl. cbn [negb].
  rewrite Nat2Z.id, recs_of_map, stores_of_map with (xs := g_st g) by done.
  unfold after. do 2 f_equal. cbn [soa_of c_eidx]. by rewrite length_map.
Qed.
Lemma dump_loop_chunks gs k rest s :
  Forall gchunk_ok gs -> Forall (fun g => g_recs g <> []) gs ->
  loop (length gs + k) (concat (map (fun g => chunk_bytes compress (soa_of g)) gs) ++ rest) s = loop k rest (fold_left after gs s).
Proof using zstd_inverse zstd_bound.
  intros Hg. revert s; induction Hg as [|g gs Hg _ IH]; intros s Hne; [done|].
  inversion_clear Hne as [|? ? Hn Hne']. cbn [map concat length Nat.add fold_left].
  rewrite <- app_assoc, dump_loop_chunk by done. by apply IH.
Qed.

Lemma dump_loop_trailer k n t s :
  0 <= n < 0x100000000 -> is_u 64 t ->
  loop (S k) (le_bytes 8 n ++ le_bytes 8 t ++ TRAILER) s =
  inr (Summary (d_chunks s) (d_recs s) (d_excs s) (d_stores s) (Some (n, t)) false).
Proof using.
  intros Hn Ht. cbn [dump_loop].
  assert (le_bytes 8 n = le_bytes 4 n ++ le_bytes 4 0) as En.
  { pose proof (le_bytes_app 4 4 n 0) as H. rewrite Z.mul_0_l, Z.add_0_r in H. apply H.
    change (256 ^ Z.of_nat 4) with 0x100000000. lia. }
  assert (rd_trailer (le_bytes 8 n ++ le_bytes 8 t ++ TRAILER) = Some (n, t)) as Etr.
  { unfold rd_trailer. rewrite <- (app_nil_r TRAILER), !(app_assoc (le_bytes 8 n)), (app_assoc (_ ++ _) TRAILER).
    rewrite fread_app by (by rewrite !length_app, !length_le_bytes).
    rewrite drop_app_length' by (by rewrite length_app, !length_le_bytes).
    rewrite bool_decide_eq_true_2 by done. rewrite <- app_assoc.
    rewrite take_app_length', drop_app_length' by (by rewrite length_le_bytes).
    rewrite take_app_length' by (by rewrite length_le_bytes).
    by rewrite !le_val_le_bytes by (change (256 ^ Z.of_nat 8) with 0x10000000000000000; unfold is_u in Ht; lia). }
  rewrite Etr. rewrite En, <- !app_assoc, !fread_app by apply length_le_bytes. done.
Qed.
Lemma length_chunk_bytes g : (8 <= length (chunk_bytes compress (soa_of g)))%nat.
Proof using. unfold chunk_bytes. rewrite !length_app, !length_le_bytes. lia. Qed.

(** ** Cut chunks *)
Lemma rd_cols_short nc f : (length f < 10 * nc)%nat -> rd_cols nc f = None.
Proof using.
  revert f; induction nc as [|nc IH]; intros f Hl; [lia|]. cbn [rd_cols].
  destruct (decide (10 <= length f)%nat) as [H|H]; [|by rewrite fread_short by lia].
  rewrite <- (take_drop 10 f), fread_app by (rewrite length_take; lia).
  by rewrite IH by (rewrite length_drop; lia).
Qed.
Abbreviation zlen := (fun cols : list col => length (concat (map (fun c => compress (col_raw c)) cols))).
(** The columns read whole before the cut, [i] of them, are assigned. *)
Lemma rd_body_short cols j q :
  (j < zlen cols)%nat ->
  exists i, (zlen (take i cols) <= j < zlen (take (S i) cols))%nat /\
    rd_body decompress (map info cols) (take j (concat (map (fun c => compress (col_raw c)) cols))) q =
    BodyTruncated (fold_left (fun q c => assign_col (col_id c) (col_raw c) q) (take i cols) q).
Proof using zstd_inverse.
  revert j q; induction cols as [|c cols IH]; intros j q Hj; [cbn in Hj; lia|].
  cbn [map concat rd_body] in *. rewrite length_app in Hj. cbn [info ci_comp ci_raw ci_id]. rewrite !Nat2Z.id.
  destruct (decide (length (compress (col_raw c)) <= j)%nat) as [H|H].
  - rewrite take_app_ge, fread_app by done. rewrite zstd_inverse, Z.eqb_refl.
    destruct (IH (j - length (compress (col_raw c)))%nat (assign_col (col_id c) (col_raw c) q)) as (i & Hi & E); [lia|].
    exists (S i). cbn [take map concat fold_left] in *. rewrite !length_app. split; [lia|exact E].
  - exists 0%nat. rewrite fread_short by (rewrite length_take; lia). cbn [take map concat fold_left length].
    rewrite app_nil_r. split; [lia|done].
Qed.
Lemma dump_loop_cut k g cut s :
  gchunk_ok g -> g_recs g <> [] ->
  let c := chunk_bytes compress (soa_of g) in
  let heads := (8 + 10 * length (stage (soa_of g)))%nat in
  ((cut < 8)%nat -> loop (S k) (take cut c) s = inr (Summary (d_chunks s) (d_recs s) (d_excs s) (d_stores s) None false)) /\
  ((heads <= cut < length c)%nat -> exists i, let t := take i (stage (soa_of g)) in
     (zlen t <= cut - heads < zlen (take (S i) (stage (soa_of g))))%nat /\
     loop (S k) (take cut c) s = inr (Summary (d_chunks s) (d_recs s) (d_excs s + q_excs (assign_all t)) (d_stores s) None true)) /\
  ((8 <= cut < heads)%nat -> loop (S k) (take cut c) s = inl ShortHeader).
Proof using zstd_inverse zstd_bound.
  intros Hg Hne. cbv zeta. pose proof (stage_ok g Hg) as Hst.
  assert (c_pc (soa_of g) <> []) as Hpc by (cbn; by destruct (g_recs g)).
  pose proof (length_stage _ Hpc) as Hlen. pose proof (gk_size _ Hg) as Hsz. unfold CHUNK_MAX in Hsz.
  assert (length (c_pc (soa_of g)) = length (g_recs g)) as El by apply length_map.
  set (hs := concat (map hdr (stage (soa_of g)))).
  assert (length hs = 10 * length (stage (soa_of g)))%nat as Ehs.
  { unfold hs. rewrite (length_concat_map hdr _ 10) by (intros; apply length_col_hdr). lia. }
  set (n4 := le_bytes 4 (Z.of_nat (length (c_pc (soa_of g))))). set (m4 := le_bytes 4 (Z.of_nat (length (stage (soa_of g))))).
  set (body := concat (map (fun c => compress (col_raw c)) (stage (soa_of g)))).
  change (chunk_bytes compress (soa_of g)) with (n4 ++ m4 ++ hs ++ body).
  assert (length n4 = 4%nat /\ length m4 = 4%nat) as [L1 L2] by (split; apply length_le_bytes).
  assert (forall j, (8 <= j)%nat -> loop (S k) (take j (n4 ++ m4 ++ hs ++ body)) s =
    match rd_cols (length (stage (soa_of g))) (take (j - 8) (hs ++ body)) with
    | None => inl ShortHeader
    | Some (cs, f3) => match rd_body decompress cs f3 rcols_empty with
        | BodyBad => inl DecompressFail
        | BodyTruncated q => inr (Summary (d_chunks s) (d_recs s) (d_excs s + q_excs q) (d_stores s) None true)
        | BodyOk q f4 => if negb (Z.of_nat (length (q_pc q)) =? Z.of_nat (length (c_pc (soa_of g)))) then inl PcColumnSize
            else loop k f4 (Summary (d_chunks s + 1) (d_recs s ++ recs_of (Z.to_nat (Z.of_nat (length (c_pc (soa_of g))))) q)
                   (d_excs s + q_excs q) (d_stores s ++ stores_of q) None false) end end) as Hloop.
  { intros j Hj. rewrite take_app_ge, take_app_ge by lia. replace (j - length n4 - length m4)%nat with (j - 8)%nat by lia.
    cbn [dump_loop]. rewrite !fread_app by done. unfold n4, m4. rewrite El.
    rewrite !le_val_le_bytes by (change (256 ^ Z.of_nat 4) with 0x100000000; lia).
    rewrite (proj2 (Z.eqb_neq (Z.of_nat (length (stage _))) _)), (proj2 (Z.ltb_ge _ _)) by lia. cbn [orb]. by rewrite !Nat2Z.id. }
  split; [|split].
  - intros Hc. cbn [dump_loop]. destruct (decide (cut < 4)%nat) as [H4|H4].
    + by rewrite fread_short by (rewrite length_take; lia).
    + rewrite take_app_ge, fread_app by lia. by rewrite fread_short by (rewrite length_take; lia).
  - intros [Hc1 Hc2]. rewrite Hloop by lia. rewrite !length_app in Hc2. rewrite take_app_ge by lia.
    pose proof (rd_cols_hdrs (stage (soa_of g)) (take (cut - 8 - length hs) body) Hst) as Er. fold hs in Er. rewrite Er.
    destruct (rd_body_short (stage (soa_of g)) (cut - 8 - length hs) rcols_empty) as (i & Hi & Eq); [fold body; lia|].
    fold body in Eq. exists i. cbv zeta. rewrite Eq. split; [lia|done].
  - intros Hc. rewrite Hloop by lia. rewrite rd_cols_short; [done|]. rewrite length_take. lia.
Qed.

(** The reader's fuel covers every chunk: a chunk has at least its 8-byte head. *)
Lemma dump_fuel gs tl :
  exists k, S (length (concat (map (fun g => chunk_bytes compress (soa_of g)) gs) ++ tl)) = (length gs + S k)%nat.
Proof using.
  rewrite length_app. exists (length (concat (map (fun g => chunk_bytes compress (soa_of g)) gs)) + length tl - length gs)%nat.
  assert (length gs <= length (concat (map (fun g => chunk_bytes compress (soa_of g)) gs)))%nat; [|lia].
  induction gs as [|g gs IH]; [done|]. cbn [map concat length]. rewrite length_app.
  pose proof (length_chunk_bytes g). lia.
Qed.

(** A whole file: [gs] chunks and the trailer. *)
Lemma dump_file gs n t :
  Forall gchunk_ok gs -> Forall (fun g => g_recs g <> []) gs -> 0 <= n < 0x100000000 -> is_u 64 t ->
  let s := fold_left after gs (Summary 0 [] 0 [] None false) in
  ctrace_dump decompress (MAGIC ++ concat (map (fun g => chunk_bytes compress (soa_of g)) gs)
                            ++ le_bytes 8 n ++ le_bytes 8 t ++ TRAILER) =
  inr (Summary (d_chunks s) (d_recs s) (d_excs s) (d_stores s) (Some (n, t)) false).
Proof using zstd_inverse zstd_bound.
  intros Hg Hne Hn Ht s. unfold ctrace_dump. rewrite fread_app by done. rewrite bool_decide_eq_true_2 by done.
  set (tl := le_bytes 8 n ++ le_bytes 8 t ++ TRAILER).
  destruct (dump_fuel gs tl) as (k & ->).
  rewrite dump_loop_chunks by done. by apply dump_loop_trailer.
Qed.
End FormatLemmas.

Lemma after_all gs s :
  let s' := fold_left after gs s in
  d_chunks s' = d_chunks s + Z.of_nat (length gs) /\ d_recs s' = d_recs s ++ concat (map g_recs gs) /\
  d_stores s' = d_stores s ++ concat (map g_st gs) /\ d_excs s' = d_excs s + Z.of_nat (length (concat (map g_exc gs))).
Proof.
  revert s; induction gs as [|g gs IH]; intros s; cbn [fold_left map concat length]; [rewrite !app_nil_r; split_and!; try done; lia|].
  destruct (IH (after s g)) as (-> & -> & -> & ->). cbn [after d_chunks d_recs d_stores d_excs].
  rewrite <- !app_assoc, length_app. split_and!; try done; lia.
Qed.

(** ** The writer's invariant *)

Definition adds (ops : list ct_op) : list ct_rec := omap (fun o => match o with Add r => Some r | _ => None end) ops.
Definition stores (ops : list ct_op) : list ct_store := omap (fun o => match o with AddStore x => Some x | _ => None end) ops.
Definition op_ok (o : ct_op) : Prop :=
  match o with Add r => rec_ok r | AddStore x => store_ok x | AddException _ _ _ => True end.
Definition raw_bytes (rs : list ct_rec) : list Z :=
  concat (map (fun r => le_bytes 8 (r_pc r) ++ le_bytes 8 (r_val r) ++ le_bytes 1 (r_dst r) ++ le_bytes 1 (r_flags r)) rs).

Definition excs (ops : list ct_op) : list (Z * Z * Z) :=
  omap (fun o => match o with AddException c e b => Some (c, e, b) | _ => None end) ops.
Lemma adds_app xs ys : adds (xs ++ ys) = adds xs ++ adds ys.
Proof. apply omap_app. Qed.
Lemma stores_app xs ys : stores (xs ++ ys) = stores xs ++ stores ys.
Proof. apply omap_app. Qed.
Lemma excs_app xs ys : excs (xs ++ ys) = excs xs ++ excs ys.
Proof. apply omap_app. Qed.
Create Rewrite HintDb ct.
#[export] Hint Rewrite adds_app stores_app excs_app : ct.
Lemma length_ops ops : length ops = (length (adds ops) + length (excs ops) + length (stores ops))%nat.
Proof. unfold adds, excs, stores. induction ops as [|[| |] ops IH]; cbn [omap list_omap length]; cbn; lia. Qed.

(** ** What is pending: the calls since the chunk in progress was started *)

Definition pend_step (chunk_recs : nat) (p : list ct_op) (o : ct_op) : list ct_op :=
  let p := p ++ [o] in
  match o with Add _ => if (chunk_recs <=? length (adds p))%nat then [] else p | _ => p end.
Definition pending (chunk_recs : nat) (ops : list ct_op) : list ct_op := fold_left (pend_step chunk_recs) ops [].
(** What [close()] does not write: all that is pending, unless a record is. *)
Definition unflushed (chunk_recs : nat) (ops : list ct_op) : list ct_op :=
  match adds (pending chunk_recs ops) with [] => pending chunk_recs ops | _ => [] end.
(** No chunk takes [CHUNK_MAX] calls. *)
Definition chunks_fit (chunk_recs : nat) (ops : list ct_op) : Prop :=
  forall pre, pre `prefix_of` ops -> Z.of_nat (length (pending chunk_recs pre)) + 1 < CHUNK_MAX.
Lemma chunks_fit_short chunk_recs ops : Z.of_nat (length ops) + 1 < CHUNK_MAX -> chunks_fit chunk_recs ops.
Proof.
  intros Hl pre Hp. apply prefix_length in Hp.
  assert (length (pending chunk_recs pre) <= length pre)%nat; [|lia]. unfold pending.
  clear. induction pre as [|o pre IH] using rev_ind; [done|]. rewrite fold_left_app. cbn [fold_left].
  unfold pend_step at 1. rewrite !length_app. destruct o; [case_test|..]; rewrite ?length_app; cbn [length]; lia.
Qed.
Lemma pending_suffix chunk_recs ops : pending chunk_recs ops `suffix_of` ops.
Proof.
  unfold pending. induction ops as [|o ops IH] using rev_ind; [done|]. rewrite fold_left_app. cbn [fold_left].
  unfold pend_step at 1. destruct o; [case_test; [apply suffix_nil|]|..]; by apply suffix_snoc.
Qed.
Lemma unflushed_spec chunk_recs ops :
  exists pre, ops = pre ++ unflushed chunk_recs ops /\ adds (unflushed chunk_recs ops) = [].
Proof.
  unfold unflushed. destruct (adds (pending chunk_recs ops)) eqn:E.
  - destruct (pending_suffix chunk_recs ops) as [pre H]. by exists pre.
  - exists ops. by rewrite app_nil_r.
Qed.

Section Run.
Variable compress : list Z -> list Z.
Variable chunk_recs : nat.
(** [ops] are all calls, [p] the pending ones; [gs] the chunks written, [g] the one in progress. *)
Record ct_inv (ops p : list ct_op) (w : writer) (gs : list gchunk) (g : gchunk) : Prop := CtInv {
  ci_cols : w_cols w = soa_of g;
  ci_file : w_file w = MAGIC ++ concat (map (fun g => chunk_bytes compress (soa_of g)) gs);
  ci_chunks : n_chunks w = Z.of_nat (length gs);
  ci_total : total_recs w = Z.of_nat (length (concat (map g_recs gs)));
  ci_adds : adds ops = concat (map g_recs gs) ++ g_recs g;
  ci_stores : stores ops = concat (map g_st gs) ++ g_st g;
  ci_excs : length (excs ops) = (length (concat (map g_exc gs)) + length (g_exc g))%nat;
  ci_sidecar : w_raw w = raw_bytes (adds ops);
  ci_ok : Forall gchunk_ok gs; ci_ne : Forall (fun g => g_recs g <> []) gs;
  ci_recs : Forall rec_ok (g_recs g); ci_sts : Forall store_ok (g_st g);
  ci_pend : g_recs g = adds p /\ g_st g = stores p /\ length (g_exc g) = length (excs p) }.

Lemma flush_inv ops p w gs g :
  ct_inv ops p w gs g -> g_recs g <> [] -> Z.of_nat (length p) < CHUNK_MAX ->
  ct_inv ops [] (flush_chunk compress w) (gs ++ [g]) (GChunk [] [] []).
Proof.
  intros [] Hne Hl. destruct ci_pend0 as (P1 & P2 & P3).
  assert (gchunk_ok g) as Hg by (constructor; [done|done|rewrite P1, P2, P3; rewrite length_ops in Hl; lia]).
  pose proof (gk_size _ Hg) as Hsz.
  unfold flush_chunk. rewrite ci_cols0. constructor; cbn [w_cols w_file n_chunks total_recs w_raw g_recs g_st g_exc length]; try done.
  - rewrite ci_file0, map_app, concat_app, <- app_assoc. cbn [map concat]. by rewrite app_nil_r.
  - rewrite ci_chunks0, length_app. cbn [length]. lia.
  - rewrite ci_total0, map_app, concat_app, length_app. cbn [map concat soa_of c_pc]. rewrite app_nil_r, length_map.
    rewrite u32_small by (unfold CHUNK_MAX in Hsz; lia). lia.
  - rewrite map_app, concat_app. cbn [map concat]. by rewrite !app_nil_r.
  - rewrite map_app, concat_app. cbn [map concat]. by rewrite !app_nil_r.
  - rewrite map_app, concat_app, length_app. cbn [map concat]. rewrite app_nil_r. lia.
  - apply Forall_app. split; [done|]. by constructor.
  - apply Forall_app. split; [done|]. by constructor.
Qed.

(** A record before the flush test. *)
Definition add_one (r : ct_rec) (w : writer) : writer :=
  let s := w_cols w in
  Writer (Soa (c_pc s ++ [r_pc r]) (c_dst s ++ [r_dst r]) (c_val s ++ [r_val r]) (c_flags s ++ [r_flags r])
             (c_eidx s) (c_ecau s) (c_eepc s) (c_ebad s) (c_stpc s) (c_staddr s) (c_stdata s)) (w_file w)
    (w_raw w ++ le_bytes 8 (r_pc r) ++ le_bytes 8 (r_val r) ++ le_bytes 1 (r_dst r) ++ le_bytes 1 (r_flags r))
    (n_chunks w) (total_recs w) (out_bytes w).
Lemma add_one_eq r w :
  add compress chunk_recs r w = let w' := add_one r w in if (chunk_recs <=? length (c_pc (w_cols w')))%nat then flush_chunk compress w' else w'.
Proof. done. Qed.
Lemma add_one_inv ops p w gs g r :
  ct_inv ops p w gs g -> rec_ok r ->
  ct_inv (ops ++ [Add r]) (p ++ [Add r]) (add_one r w) gs (GChunk (g_recs g ++ [r]) (g_exc g) (g_st g)).
Proof.
  intros [] Hr. destruct ci_pend0 as (P1 & P2 & P3). unfold add_one.
  constructor; cbn [w_cols w_file w_raw n_chunks total_recs g_recs g_exc g_st]; autorewrite with ct; try done.
  - rewrite ci_cols0. unfold soa_of. cbn [g_recs g_exc g_st c_pc c_dst c_val c_flags c_eidx c_ecau c_eepc c_ebad c_stpc c_staddr c_stdata].
    by rewrite !map_app.
  - by rewrite ci_adds0, <- app_assoc.
  - rewrite ci_stores0. cbn. by rewrite app_nil_r.
  - rewrite length_app, ci_excs0. cbn. lia.
  - unfold raw_bytes. rewrite map_app, concat_app. cbn [adds omap list_omap map concat]. rewrite app_nil_r. by rewrite ci_sidecar0.
  - apply Forall_app. split; [done|]. by constructor.
  - rewrite P1, P2, P3. cbn. by rewrite !app_nil_r.
Qed.
Lemma add_store_inv ops p w gs g x :
  ct_inv ops p w gs g -> store_ok x ->
  ct_inv (ops ++ [AddStore x]) (p ++ [AddStore x]) (add_store x w) gs (GChunk (g_recs g) (g_exc g) (g_st g ++ [x])).
Proof.
  intros [] Hx. destruct ci_pend0 as (P1 & P2 & P3). unfold add_store, with_cols. rewrite ci_cols0.
  constructor; cbn [w_cols w_file w_raw n_chunks total_recs g_recs g_exc g_st]; autorewrite with ct; try done.
  - unfold soa_of. cbn [g_recs g_exc g_st]. by rewrite !map_app.
  - rewrite ci_adds0. cbn. by rewrite app_nil_r.
  - by rewrite ci_stores0, <- app_assoc.
  - rewrite length_app, ci_excs0. cbn. lia.
  - cbn. by rewrite app_nil_r.
  - apply Forall_app. split; [done|]. by constructor.
  - rewrite P1, P2, P3. cbn. by rewrite !app_nil_r.
Qed.
Lemma add_exception_inv ops p w gs g cau epc bad :
  ct_inv ops p w gs g -> exists g',
  ct_inv (ops ++ [AddException cau epc bad]) (p ++ [AddException cau epc bad]) (add_exception cau epc bad w) gs g'.
Proof.
  intros []. destruct ci_pend0 as (P1 & P2 & P3).
  exists (GChunk (g_recs g) (g_exc g ++ [(u32 (Z.of_nat (length (c_pc (soa_of g)))), cau, epc, bad)]) (g_st g)).
  unfold add_exception, with_cols. rewrite ci_cols0.
  constructor; cbn [w_cols w_file w_raw n_chunks total_recs g_recs g_exc g_st]; autorewrite with ct; try done.
  - unfold soa_of. cbn [g_recs g_exc g_st]. by rewrite !map_app.
  - rewrite ci_adds0. cbn. by rewrite app_nil_r.
  - rewrite ci_stores0. cbn. by rewrite app_nil_r.
  - rewrite !length_app, ci_excs0. cbn. lia.
  - cbn. by rewrite app_nil_r.
  - rewrite P1, P2, !length_app, P3. cbn. by rewrite !app_nil_r.
Qed.
Lemma ct_run_inv ops :
  Forall op_ok ops -> chunks_fit chunk_recs ops -> exists gs g, ct_inv ops (pending chunk_recs ops) (ct_run compress chunk_recs ops) gs g.
Proof.
  unfold ct_run, pending. induction ops as [|o ops IH] using rev_ind; intros Hok Hfit.
  { exists [], (GChunk [] [] []). by constructor. }
  apply Forall_app in Hok as [Hok Ho]. rewrite !fold_left_app. cbn [fold_left].
  assert (Z.of_nat (length (pending chunk_recs ops)) + 1 < CHUNK_MAX) as Hl by (apply Hfit; by eexists).
  destruct IH as (gs & g & Hinv); [done|intros pre Hp; by apply Hfit, prefix_app_r|].
  fold (pending chunk_recs ops) in *. set (p := pending chunk_recs ops) in *.
  set (w := fold_left (ct_step compress chunk_recs) ops ct_open) in *.
  inversion_clear Ho as [|? ? Ho1 _]. destruct o as [r|x|cau epc bad]; cbn [ct_step op_ok pend_step] in *.
  - pose proof (add_one_inv _ _ _ _ _ _ Hinv Ho1) as Hi. rewrite add_one_eq. cbv zeta. unfold pend_step.
    destruct (ci_pend _ _ _ _ _ Hi) as (P1 & _). rewrite (ci_cols _ _ _ _ _ Hi). unfold soa_of. cbn [c_pc].
    rewrite length_map, P1. case_test; [|by eexists _, _].
    eexists _, _. eapply flush_inv; [exact Hi| |rewrite length_app; cbn [length]; lia]. cbn. by destruct (g_recs g).
  - eexists _, _. by apply add_store_inv.
  - destruct (add_exception_inv _ _ _ _ _ cau epc bad Hinv) as [g' H]. by eexists _, _.
Qed.
End Run.

Lemma raw_mismatches_bytes rs : Forall rec_ok rs -> raw_mismatches (raw_bytes rs) rs = 0.
Proof.
  unfold raw_bytes. induction 1 as [|r rs (H1 & H2 & H3 & H4) _ IH]; [done|]. cbn [map concat raw_mismatches].
  rewrite fread_app by (by rewrite !length_app, !length_le_bytes). rewrite !rd8 by done.
  rewrite rd_le by (unfold is_u in H2; exact H2). rewrite <- (app_nil_r (le_bytes 1 (r_flags r))), rd_le by (unfold is_u in H4; exact H4).
  rewrite !Z.eqb_refl, IH. done.
Qed.

(** The exceptions a cut chunk contributes: its CT_EXC_IDX column, the fifth
    when present, has been read whole. *)
Lemma put_col_app id esz v cols : put_col id esz v cols = cols ++ put_col id esz v [].
Proof. unfold put_col. destruct v; [by rewrite app_nil_r|done]. Qed.
Lemma q_excs_fold cols q :
  Forall (fun c => col_id c <> CT_EXC_IDX) cols ->
  q_excs (fold_left (fun q c => assign_col (col_id c) (col_raw c) q) cols q) = q_excs q.
Proof.
  intros H. revert q; induction H as [|c cols Hc _ IH]; intros q; [done|]. cbn [fold_left]. rewrite IH.
  unfold assign_col. rewrite (proj2 (Z.eqb_neq (col_id c) CT_EXC_IDX)) by done. by repeat case_test.
Qed.
Lemma put_col_not_exc id esz v : id <> CT_EXC_IDX -> Forall (fun c => col_id c <> CT_EXC_IDX) (put_col id esz v []).
Proof. intros. unfold put_col. destruct v; by repeat constructor. Qed.
Lemma stage_split s :
  exists pre post, stage s = pre ++ put_col CT_EXC_IDX 4 (c_eidx s) [] ++ post /\ (length pre <= 4)%nat /\
    (c_pc s <> [] -> c_dst s <> [] -> c_val s <> [] -> c_flags s <> [] -> length pre = 4%nat) /\
    Forall (fun c => col_id c <> CT_EXC_IDX) pre /\ Forall (fun c => col_id c <> CT_EXC_IDX) post.
Proof.
  unfold stage.
  exists (put_col CT_FLAGS 1 (c_flags s) (put_col CT_VAL 8 (c_val s) (put_col CT_DST 1 (c_dst s) (put_col CT_PC 8 (c_pc s) [])))).
  exists (put_col CT_ST_DATA 8 (c_stdata s) (put_col CT_ST_ADDR 8 (c_staddr s) (put_col CT_ST_PC 8 (c_stpc s)
    (put_col CT_EXC_BAD 8 (c_ebad s) (put_col CT_EXC_EPC 8 (c_eepc s) (put_col CT_EXC_CAU 1 (c_ecau s) [])))))).
  split_and!.
  - rewrite (put_col_app CT_ST_DATA), (put_col_app CT_ST_ADDR), (put_col_app CT_ST_PC), (put_col_app CT_EXC_BAD),
      (put_col_app CT_EXC_EPC), (put_col_app CT_EXC_CAU), (put_col_app CT_EXC_IDX).
    rewrite (put_col_app CT_ST_DATA _ _ (put_col CT_ST_ADDR _ _ _)), (put_col_app CT_ST_ADDR _ _ (put_col CT_ST_PC _ _ _)),
      (put_col_app CT_ST_PC _ _ (put_col CT_EXC_BAD _ _ _)), (put_col_app CT_EXC_BAD _ _ (put_col CT_EXC_EPC _ _ _)),
      (put_col_app CT_EXC_EPC _ _ (put_col CT_EXC_CAU _ _ _)). by rewrite <- !app_assoc.
  - do 4 (etransitivity; [apply length_put_col|]; apply le_n_S). done.
  - intros. unfold put_col. destruct (c_flags s), (c_val s), (c_dst s), (c_pc s); done.
  - rewrite (put_col_app CT_FLAGS), (put_col_app CT_VAL), (put_col_app CT_DST), !Forall_app.
    split_and!; by apply put_col_not_exc.
  - rewrite (put_col_app CT_ST_DATA), (put_col_app CT_ST_ADDR), (put_col_app CT_ST_PC), (put_col_app CT_EXC_BAD), (put_col_app CT_EXC_EPC).
    rewrite !Forall_app. split_and!; by apply put_col_not_exc.
Qed.
Lemma q_excs_take s i :
  c_pc s <> [] -> c_dst s <> [] -> c_val s <> [] -> c_flags s <> [] ->
  q_excs (assign_all (take i (stage s))) = if (5 <=? i)%nat then Z.of_nat (length (c_eidx s)) else 0.
Proof.
  intros H1 H2 H3 H4. destruct (stage_split s) as (pre & post & -> & _ & Hl & Hpre & Hpost). specialize (Hl H1 H2 H3 H4).
  unfold assign_all. destruct (Nat.leb_spec 5 i).
  - rewrite take_app_ge, fold_left_app by lia. rewrite Hl. unfold put_col. destruct (c_eidx s) as [|x v].
    + cbn [app]. rewrite q_excs_fold by (by apply Forall_take). by rewrite q_excs_fold.
    + destruct (i - 4)%nat as [|j] eqn:Ej; [lia|]. cbn [app take fold_left col_id col_raw].
      rewrite q_excs_fold by (by apply Forall_take). unfold assign_col. change (CT_EXC_IDX =? CT_PC) with false.
      change (CT_EXC_IDX =? CT_VAL) with false. change (CT_EXC_IDX =? CT_DST) with false. change (CT_EXC_IDX =? CT_FLAGS) with false.
      rewrite Z.eqb_refl. cbn [q_excs]. rewrite q_excs_fold by done. rewrite length_arr_bytes, Nat.div_mul by lia. done.
  - rewrite take_app_le by lia. rewrite q_excs_fold by (by apply Forall_take). done.
Qed.

Lemma zlen_take_mono (compress : list Z -> list Z) (cols : list col) i j : (i <= j)%nat ->
  (length (concat (map (fun c => compress (col_raw c)) (take i cols))) <=
   length (concat (map (fun c => compress (col_raw c)) (take j cols))))%nat.
Proof.
  intros Hij. rewrite <- (take_drop i (take j cols)), take_take, Nat.min_l by done.
  rewrite map_app, concat_app, length_app. lia.
Qed.

Section Properties.
Variable compress : list Z -> list Z.
Variable decompress : nat -> list Z -> option (list Z).
Variable chunk_recs : nat.

(** What a closed file holds. *)
Lemma close_file ops :
  Forall op_ok ops -> chunks_fit chunk_recs ops ->
  let w := ct_run compress chunk_recs ops in
  exists gs, ct_close compress w = MAGIC ++ concat (map (fun g => chunk_bytes compress (soa_of g)) gs)
      ++ le_bytes 8 (Z.of_nat (length gs)) ++ le_bytes 8 (Z.of_nat (length (adds ops))) ++ TRAILER /\
    (Forall gchunk_ok gs /\ Forall (fun g => g_recs g <> []) gs) /\ Z.of_nat (length gs) <= n_chunks w + 1 /\
    adds ops = concat (map g_recs gs) /\ stores ops = concat (map g_st gs) ++ stores (unflushed chunk_recs ops) /\
    length (excs ops) = (length (concat (map g_exc gs)) + length (excs (unflushed chunk_recs ops)))%nat /\
    w_raw w = raw_bytes (adds ops).
Proof.
  intros Hok Hfit. cbv zeta. destruct (ct_run_inv compress chunk_recs ops Hok Hfit) as (gs & g & Hinv).
  set (w := ct_run compress chunk_recs ops) in *. destruct (ci_pend _ _ _ _ _ _ Hinv) as (P1 & P2 & P3). unfold unflushed.
  destruct (adds (pending chunk_recs ops)) as [|r0 rs] eqn:E.
  - destruct Hinv. exists gs. rewrite P1, app_nil_r in ci_adds0.
    assert (c_pc (w_cols w) = []) as Epc by (rewrite ci_cols0; cbn; by rewrite P1).
    unfold ct_close. rewrite Epc, ci_file0, ci_chunks0, ci_total0, <- ci_adds0, <- !app_assoc, <- P2, <- P3. split_and!; done || lia.
  - assert (Z.of_nat (length (pending chunk_recs ops)) < CHUNK_MAX) as Hl by (pose proof (Hfit ops ltac:(done)); lia).
    pose proof (flush_inv compress ops _ w gs g Hinv ltac:(by rewrite P1) Hl) as [? ? ? ? ? ? ? ? ? ? ? ? ?].
    assert (exists x t, c_pc (w_cols w) = x :: t) as (x & t & Epc).
    { rewrite (ci_cols _ _ _ _ _ _ Hinv). cbn. rewrite P1. by eexists _, _. }
    exists (gs ++ [g]). cbn [g_recs g_st g_exc length] in ci_adds0, ci_stores0, ci_excs0. rewrite app_nil_r in ci_adds0.
    pose proof (ci_chunks _ _ _ _ _ _ Hinv). rewrite length_app. cbn [length]. rewrite length_app in ci_chunks0. cbn [length] in ci_chunks0.
    unfold ct_close. rewrite Epc, ci_file0, ci_chunks0, ci_total0, <- ci_adds0, <- !app_assoc. cbn. split_and!; done || lia.
Qed.
Lemma chunks_total gs :
  Forall gchunk_ok gs -> Z.of_nat (length (concat (map g_recs gs))) <= Z.of_nat (length gs) * CHUNK_MAX.
Proof.
  induction 1 as [|g gs Hg _ IH]; [done|]. cbn [map concat length]. rewrite length_app. pose proof (gk_size _ Hg). lia.
Qed.

Lemma ctrace_file_exact (ops : list ct_op) :
  (forall b, decompress (length b) (compress b) = Some b) ->
  (forall b, Z.of_nat (length b) < 0x80000000 -> Z.of_nat (length (compress b)) < 0x100000000) ->
  Forall op_ok ops -> chunks_fit chunk_recs ops ->
  let w := ct_run compress chunk_recs ops in let lost := unflushed chunk_recs ops in
  n_chunks w + 1 < 0x100000000 ->
  exists s, ctrace_dump decompress (ct_close compress w) = inr s /\
    d_recs s = adds ops /\ d_trailer s = Some (d_chunks s, Z.of_nat (length (adds ops))) /\
    d_truncated s = false /\ raw_mismatches (w_raw w) (d_recs s) = 0 /\
    stores ops = d_stores s ++ stores lost /\ Z.of_nat (length (excs ops)) = d_excs s + Z.of_nat (length (excs lost)).
Proof.
  intros Hz Hb Hok Hfit. cbv zeta. intros Hn.
  destruct (close_file ops Hok Hfit) as (gs & -> & [Hg Hne] & Hlen & Ha & Hs & He & Hraw).
  pose proof (chunks_total gs Hg) as Ht. rewrite <- Ha in Ht. unfold CHUNK_MAX in Ht.
  rewrite (dump_file compress decompress Hz Hb gs) by (try done; unfold is_u; lia).
  destruct (after_all gs (Summary 0 [] 0 [] None false)) as (E1 & E2 & E3 & E4). cbn [d_chunks d_recs d_stores d_excs app] in E1, E2, E3, E4.
  eexists. split; [done|]. cbn [d_recs d_trailer d_chunks d_truncated d_stores d_excs].
  rewrite E1, E2, E3, E4, <- Ha, Hraw. split_and!; try done; [|lia]. apply raw_mismatches_bytes.
  unfold adds. clear -Hok. induction Hok as [|o ops Ho _ IH]; [done|]. cbn [omap list_omap]. destruct o; cbn; try done. by constructor.
Qed.

(** C24.  The trace file round-trips.  For any mix of records, stores and
    exceptions and wherever the chunk boundaries fall, the reader recovers every
    retire record in order and agrees with the trailer on both counts and with
    the raw sidecar byte for byte.  The stores come back in order and the
    exceptions by number, but for those of [unflushed]: the calls since the chunk
    in progress was started, when it holds no record at [close()] (a trailing
    part of the log without any record); nothing is lost otherwise.  Bounds: the
    columns are of their C types, no chunk takes 2^28 calls and the file has
    fewer than 2^32 chunks. *)
Theorem ctrace_roundtrip (ops : list ct_op) :
  (forall b, decompress (length b) (compress b) = Some b) ->
  (forall b, Z.of_nat (length b) < 0x80000000 -> Z.of_nat (length (compress b)) < 0x100000000) ->
  Forall op_ok ops -> chunks_fit chunk_recs ops ->
  let w := ct_run compress chunk_recs ops in let lost := unflushed chunk_recs ops in
  n_chunks w + 1 < 0x100000000 ->
  (exists s, ctrace_dump decompress (ct_close compress w) = inr s /\
    d_recs s = adds ops /\ d_trailer s = Some (d_chunks s, Z.of_nat (length (adds ops))) /\
    d_truncated s = false /\ raw_mismatches (w_raw w) (d_recs s) = 0 /\
    stores ops = d_stores s ++ stores lost /\ Z.of_nat (length (excs ops)) = d_excs s + Z.of_nat (length (excs lost))) /\
  (exists pre, ops = pre ++ lost /\ adds lost = []).
Proof. intros Hz Hb Hok Hfit. cbv zeta. intros Hn. split; [by apply ctrace_file_exact|apply unflushed_spec]. Qed.

(** C25.  A killed run.  When the file stops inside the body of a chunk, or
    before its 8-byte head is complete, the reader reports the records and the
    stores of exactly the complete chunks before it, no trailer, and
    "truncated" in the first case; its exception count also includes those of
    the cut chunk when that chunk's CT_EXC_IDX column was read whole.  When the
    file stops inside the column headers the reader fails with "short header" and
    reports none of them.  Every chunk has a record, columns of their C types
    and fewer than 2^28 entries. *)
Theorem ctrace_killed_run (gs : list gchunk) (g : gchunk) (cut : nat) :
  (forall b, decompress (length b) (compress b) = Some b) ->
  (forall b, Z.of_nat (length b) < 0x80000000 -> Z.of_nat (length (compress b)) < 0x100000000) ->
  Forall gchunk_ok (g :: gs) -> Forall (fun g => g_recs g <> []) (g :: gs) ->
  let c := chunk_bytes compress (soa_of g) in
  let heads := (8 + 10 * length (stage (soa_of g)))%nat in
  let exc_end := (heads + length (concat (map (fun c => compress (col_raw c)) (take 5 (stage (soa_of g))))))%nat in
  let r := ctrace_dump decompress
    (MAGIC ++ concat (map (fun g => chunk_bytes compress (soa_of g)) gs) ++ take cut c) in
  ((cut < 8 \/ heads <= cut < length c)%nat -> r = inr (Summary (Z.of_nat (length gs)) (concat (map g_recs gs))
     (Z.of_nat (length (concat (map g_exc gs))) + if (exc_end <=? cut)%nat then Z.of_nat (length (g_exc g)) else 0)
     (concat (map g_st gs)) None (heads <=? cut)%nat)) /\
  ((8 <= cut < heads)%nat -> r = inl ShortHeader).
Proof.
  intros Hz Hb Hg Hne. cbv zeta. inversion_clear Hg as [|? ? Hg0 Hgs]. inversion_clear Hne as [|? ? Hn0 Hns].
  unfold ctrace_dump. rewrite fread_app by done. rewrite bool_decide_eq_true_2 by done.
  destruct (dump_fuel compress gs (take cut (chunk_bytes compress (soa_of g)))) as (k & ->).
  rewrite (dump_loop_chunks compress decompress Hz Hb) by done.
  destruct (after_all gs (Summary 0 [] 0 [] None false)) as (E1 & E2 & E3 & E4).
  set (s := fold_left after gs _) in *. cbn [d_chunks d_recs d_stores d_excs app] in E1, E2, E3, E4.
  destruct (dump_loop_cut compress decompress Hz Hb k g cut s Hg0 Hn0) as (H1 & H2 & H3). split; [|exact H3].
  set (st := stage (soa_of g)) in *.
  assert (c_pc (soa_of g) <> [] /\ c_dst (soa_of g) <> [] /\ c_val (soa_of g) <> [] /\ c_flags (soa_of g) <> []) as (N1 & N2 & N3 & N4)
    by (cbn; destruct (g_recs g); by split_and!).
  intros [Hc|Hc].
  - rewrite (H1 Hc), E1, E2, E3, E4, !(proj2 (Nat.leb_gt _ cut)), Z.add_0_r by lia. done.
  - destruct (H2 Hc) as (i & Hi & ->). cbv beta zeta in Hi. fold st in Hi. unfold st. rewrite (q_excs_take _ i N1 N2 N3 N4). fold st.
    rewrite E1, E2, E3, E4, (proj2 (Nat.leb_le (8 + 10 * length st) cut)) by lia. cbn [soa_of c_eidx]. rewrite length_map.
    assert ((5 <=? i)%nat = (8 + 10 * length st + length (concat (map (fun c => compress (col_raw c)) (take 5 st))) <=? cut)%nat) as ->; [|done].
    pose proof (zlen_take_mono compress st) as Hm.
    destruct (Nat.leb_spec 5 i).
    + specialize (Hm 5%nat i ltac:(lia)). symmetry. apply Nat.leb_le. lia.
    + specialize (Hm (S i) 5%nat ltac:(lia)). symmetry. apply Nat.leb_gt. lia.
Qed.
End Properties.

(** A stand-in codec for the witnesses: a one-byte frame marker. *)
Definition toy_compress (b : list Z) : list Z := 0x28 :: b.
Definition toy_decompress (cap : nat) (b : list Z) : option (list Z) :=
  match b with _ :: t => if (length t <=? cap)%nat then Some t else None | [] => None end.
Lemma toy_inverse b : toy_decompress (length b) (toy_compress b) = Some b.
Proof. cbn. by rewrite Nat.leb_refl. Qed.
Lemma toy_bound b : Z.of_nat (length b) < 0x80000000 -> Z.of_nat (length (toy_compress b)) < 0x100000000.
Proof. cbn [toy_compress length]. lia. Qed.
Definition sample_ops : list ct_op :=
  [Add (CtRec 0x88000000 2 7 0); AddStore (CtStore 0x88000000 0x08001000 5); Add (CtRec 0x88000004 3 9 4);
   AddException 0 0x88000004 0; Add (CtRec 0x88000008 0 0 0)].
Lemma sample_ops_ok : Forall op_ok sample_ops.
Proof. repeat constructor; by vm_compute. Qed.
Lemma ctrace_roundtrip_witness :
  exists s, ctrace_dump toy_decompress (ct_close toy_compress (ct_run toy_compress 2 sample_ops)) = inr s /\
    d_recs s = [CtRec 0x88000000 2 7 0; CtRec 0x88000004 3 9 4; CtRec 0x88000008 0 0 0] /\ d_truncated s = false /\
    d_stores s = [CtStore 0x88000000 0x08001000 5] /\ d_excs s = 1.
Proof.
  destruct (ctrace_roundtrip toy_compress toy_decompress 2 sample_ops toy_inverse toy_bound sample_ops_ok
    (chunks_fit_short 2 sample_ops eq_refl) eq_refl) as [(s & H1 & H2 & _ & H3 & _ & H4 & H5) _].
  exists s. split; [exact H1|]. split; [exact H2|]. split; [exact H3|].
  assert (stores (unflushed 2 sample_ops) = [] /\ excs (unflushed 2 sample_ops) = []) as [E1 E2] by (split; vm_compute; reflexivity).
  rewrite E1, app_nil_r in H4. rewrite E2 in H5. split; [symmetry; exact H4|]. change (length (excs sample_ops)) with 1%nat in H5.
  cbn [length] in H5. lia.
Defined.
Definition sample_chunk : gchunk := GChunk [CtRec 0x88000000 2 7 0] [] [CtStore 0x88000000 0x08001000 5].
Lemma sample_chunk_ok : gchunk_ok sample_chunk.
Proof. constructor; [repeat constructor; by vm_compute|repeat constructor; by vm_compute|by vm_compute]. Qed.
Definition sample_exc_chunk : gchunk := GChunk [CtRec 0x88000000 2 7 0] [(0, 5, 0x88000000, 0)] [CtStore 0x88000000 0x08001000 5].
Lemma sample_exc_chunk_ok : gchunk_ok sample_exc_chunk.
Proof. constructor; [repeat constructor; by vm_compute|repeat constructor; by vm_compute|by vm_compute]. Qed.
(** Cut inside the body, after the exception column: the discarded chunk's
    exception is counted. *)
Lemma ctrace_killed_run_witness :
  ctrace_dump toy_decompress (MAGIC ++ concat (map (fun g => chunk_bytes toy_compress (soa_of g)) [sample_chunk])
     ++ take 160 (chunk_bytes toy_compress (soa_of sample_exc_chunk))) =
  inr (Summary 1 [CtRec 0x88000000 2 7 0] 1 [CtStore 0x88000000 0x08001000 5] None true).
Proof.
  etransitivity; [eapply (proj1 (ctrace_killed_run toy_compress toy_decompress [sample_chunk] sample_exc_chunk 160 toy_inverse toy_bound _ _))|].
  - right; split; [|unfold lt]; apply Nat.leb_le; vm_compute; reflexivity.
  - vm_compute. reflexivity.
  Unshelve.
  + constructor; [exact sample_exc_chunk_ok|constructor; [exact sample_chunk_ok|constructor]].
  + constructor; [discriminate|constructor; [discriminate|constructor]].
Defined.
(** ... although the reader says the partial chunk is discarded. *)
Theorem ctrace_counts_discarded_exceptions :
  exists s, ctrace_dump toy_decompress (MAGIC ++ take 160 (chunk_bytes toy_compress (soa_of sample_exc_chunk))) = inr s /\
    d_chunks s = 0 /\ d_recs s = [] /\ d_excs s = 1.
Proof. eexists. split; [vm_compute; reflexivity|]. split_and!; reflexivity. Qed.

(** [close()] flushes only when a retire record is pending: a store logged
    after the record that filled the last chunk is dropped, although the file
    is complete and its trailer matches. *)
Theorem ctrace_close_drops_stores :
  let ops := [Add (CtRec 0x88000000 2 7 0); AddStore (CtStore 0x88000000 0x08001000 5)] in
  exists s, ctrace_dump toy_decompress (ct_close toy_compress (ct_run toy_compress 1 ops)) = inr s /\
    d_stores s = [] /\ d_trailer s = Some (1, 1) /\ length (d_recs s) = 1%nat /\ length (stores ops) = 1%nat.
Proof. eexists. split; [vm_compute; reflexivity|]. split_and!; reflexivity. Qed.
