(* ===== verification/Monitor.v ===== *)
(** * Monitor: the TCP monitor

    [mon_mem_rd]'s client [mon_cmd], [mon_poll] and the three places of the
    main loop of sim/henry_tb.cpp that drive them: the snapshot and freeze at
    the top of a cycle and the [step] re-pause at its end.  A reply is the
    value of the formatted line, not its text; sockets are inputs: what
    [accept] and [read] return at each poll. *)
From S2P Require Import Prelude AddressMap GuestMem Checker.

(** ** C strings and number parsing

    A line is the tail of the 512-byte buffer from the pointer on, so a read
    past the terminator sees what the buffer still holds. *)

Definition chr (l : list Z) (k : nat) : Z := nth k l 0.
Fixpoint skip_sp (l : list Z) : list Z := match l with 32 :: t => skip_sp t | _ => l end.
(** Skip to the next space or the terminator. *)
Fixpoint skip_word (l : list Z) : list Z :=
  match l with c :: t => if (c =? 0) || (c =? 32) then l else skip_word t | [] => [] end.
(** The [strncmp] prefix test. *)
Definition starts (s : string) (l : list Z) : bool := bool_decide (take (length (chars s)) l = chars s).
Definition is_digit (c : Z) : bool := (48 <=? c) && (c <=? 57).
Fixpoint dec_digits (acc : Z) (l : list Z) : Z :=
  match l with c :: t => if is_digit c then dec_digits (acc * 10 + (c - 48)) t else acc | [] => acc end.
Definition strtoull10 (l : list Z) : Z := Z.min (dec_digits 0 l) (2 ^ 64 - 1).
Definition atoi (l : list Z) : Z := s32 (Z.min (dec_digits 0 l) (2 ^ 63 - 1)).
Definition hexval (c : Z) : option Z :=
  if is_digit c then Some (c - 48) else if (97 <=? c) && (c <=? 102) then Some (c - 87)
  else if (65 <=? c) && (c <=? 70) then Some (c - 55) else None.
Fixpoint hex_digits (acc : Z) (l : list Z) : Z :=
  match l with c :: t => match hexval c with Some d => hex_digits (acc * 16 + d) t | None => acc end | [] => acc end.
Definition is_space (c : Z) : bool := (c =? 32) || ((9 <=? c) && (c <=? 13)).
Fixpoint skip_space (l : list Z) : list Z := match l with c :: t => if is_space c then skip_space t else l | [] => [] end.
(** [(uint32_t)strtoul(p, nullptr, 16)]. *)
Definition strtoul16 (l : list Z) : Z :=
  let l := skip_space l in
  let '(neg, l) := match l with 45 :: t => (true, t) | 43 :: t => (false, t) | _ => (false, l) end in
  let l := match l with
           | 48 :: x :: c :: t =>
               if ((x =? 120) || (x =? 88)) && match hexval c with Some _ => true | None => false end then c :: t else l
           | _ => l
           end in
  let v := hex_digits 0 l in
  u32 (if 2 ^ 64 <=? v then 2 ^ 64 - 1 else if neg then - v else v).

(** ** State *)

Inductive reply :=
  | RHello | RPrompt | RCrLf | REcho (c : Z) | RRubout | RMonitor | RConsole
  | RToConsole | RHelp | RUnknown | RHalted | RRunning
  | RPc (last_pc iss_pc cyc retired : Z)
  | RState (cyc retired : Z) (paused checker : bool)
  | RPerf (retired cyc ipc milli : Z)
  | RNoIss (cp0 : bool)
  | RCp0 (epc status cause badv index entryhi : Z)
  | RReg (n v : Z) | RRegs (n v : Z)
  | RMem (addr : Z) (word : option Z)
  | RNoTimer | RTimers (total first last want : Z) | RTimer (i cyc delta : Z)
  | RStep (cnt : Z) | RStepped (retired pc : Z).

Record mon := Mon {
  m_client : bool; m_cmd_mode : bool; m_paused : bool; m_step_to : Z;
  m_line : list Z; m_len : nat;
  m_cyc : Z; m_retired : Z; m_last_pc : Z; m_out : list reply }.
Definition LINE_SIZE : nat := 512.
Definition mon_start : mon := Mon false true false 0 (repeat 0 LINE_SIZE) 0 0 0 0 [].

Definition mon_send (r : reply) (s : mon) : mon :=
  if m_client s then Mon (m_client s) (m_cmd_mode s) (m_paused s) (m_step_to s) (m_line s) (m_len s)
                         (m_cyc s) (m_retired s) (m_last_pc s) (m_out s ++ [r]) else s.
(** A guest console byte goes to the client outside command mode. *)
Definition mon_console_out (c : Z) (s : mon) : option Z := if m_client s && negb (m_cmd_mode s) then Some (u8 c) else None.
Definition mon_sends (rs : list reply) (s : mon) : mon := fold_left (fun s r => mon_send r s) rs s.
Definition with_cmd_mode (b : bool) (s : mon) : mon :=
  Mon (m_client s) b (m_paused s) (m_step_to s) (m_line s) (m_len s) (m_cyc s) (m_retired s) (m_last_pc s) (m_out s).
Definition with_pause (p : bool) (t : Z) (s : mon) : mon :=
  Mon (m_client s) (m_cmd_mode s) p t (m_line s) (m_len s) (m_cyc s) (m_retired s) (m_last_pc s) (m_out s).
Definition with_line (l : list Z) (n : nat) (s : mon) : mon :=
  Mon (m_client s) (m_cmd_mode s) (m_paused s) (m_step_to s) l n (m_cyc s) (m_retired s) (m_last_pc s) (m_out s).

Section Commands.
Context {R : Type}.
Variable ss : option (iss R).
Variable g_mem : mem.
Variable g_timer_irq_cyc : list Z.

(** The replies of the [mem] command: up to 64 words. *)
Definition cmd_mem (line : list Z) : list reply :=
  let p := skip_sp (drop 3 line) in
  let addr := strtoul16 p in
  let q := skip_sp (skip_word p) in
  let n := if is_digit (chr q 0) then atoi q else 4 in
  let n := if 64 <? n then 64 else n in
  map (fun i => let a := addr +32 (4 * Z.of_nat i) in RMem a (mon_mem_rd g_mem a)) (seq 0 (Z.to_nat n)).

Definition cmd_timer (line : list Z) : list reply :=
  let n := Z.of_nat (length g_timer_irq_cyc) in
  if n =? 0 then [RNoTimer]
  else
    let at_ i := nth i g_timer_irq_cyc 0 in
    let p := skip_sp (skip_word line) in
    let want := if is_digit (chr p 0) then atoi p else 10 in
    let lo := if u64 want <? n then n - want else 0 in
    RTimers n (at_ 0%nat) (at_ (length g_timer_irq_cyc - 1)%nat) want ::
    map (fun i => RTimer (Z.of_nat i) (at_ i) (if (0 <? i)%nat then u64 (at_ i - at_ (i - 1)%nat) else 0))
        (seq (Z.to_nat lo) (length g_timer_irq_cyc - Z.to_nat lo)).

Definition cmd_regs (line : list Z) (s : iss R) : list reply :=
  let p := skip_sp (drop 1 line) in
  if is_digit (chr p 0) then let n := atoi p .& 31 in [RReg n (gpr s n)]
  else map (fun n => RRegs (Z.of_nat n) (gpr s (Z.of_nat n))) (seq 0 32).

(** The flag is whether the prompt is printed after the command. *)
Definition mon_cmd1 (line : list Z) (s : mon) : mon * bool :=
  let c0 := chr line 0 in let c1 := chr line 1 in
  if (c0 =? 0) || ((c0 =? 99) && (c1 =? 0)) then (mon_send RToConsole (with_cmd_mode false s), false)
  else if starts "help" line || (c0 =? 63) then (mon_send RHelp s, true)
  else if starts "pc" line then
    (mon_send (RPc (m_last_pc s) (match ss with Some i => i_pc i | None => 0 end) (m_cyc s) (m_retired s)) s, true)
  else if starts "state" line then
    (mon_send (RState (m_cyc s) (m_retired s) (m_paused s) (match ss with Some _ => true | None => false end)) s, true)
  else if starts "perf" line then
    let c := if m_cyc s =? 0 then 1 else m_cyc s in
    let m := u64 (m_retired s * 1000) / c in
    (mon_send (RPerf (m_retired s) (m_cyc s) (m / 1000) (m mod 1000)) s, true)
  else if starts "cp0" line || starts "epc" line then
    (match ss with
     | None => mon_send (RNoIss true) s
     | Some i => mon_send (RCp0 (nth 14 (i_cpr0_64 i) 0) (cpr0 i 12) (cpr0 i 13) (nth 8 (i_cpr0_64 i) 0)
                                (cpr0 i 0) (nth 10 (i_cpr0_64 i) 0)) s
     end, true)
  else if starts "regs" line || ((c0 =? 114) && negb (c1 =? 101)) then
    (match ss with None => mon_send (RNoIss false) s | Some i => mon_sends (cmd_regs line i) s end, true)
  else if starts "mem" line then (mon_sends (cmd_mem line) s, true)
  else if starts "timer" line || starts "tirq" line then (mon_sends (cmd_timer line) s, true)
  else if starts "halt" line || (c0 =? 104) then (mon_send RHalted (with_pause true 0 s), true)
  else if starts "go" line || (c0 =? 103) then (mon_send RRunning (with_pause false 0 s), true)
  else if starts "step" line || (c0 =? 115) || (c0 =? 110) then
    let p := skip_sp (drop (if (c0 =? 115) && (c1 =? 116) then 4 else 1) line) in
    let cnt := if is_digit (chr p 0) then strtoull10 p else 1 in
    (mon_send (RStep cnt) (with_pause false (m_retired s +64 cnt) s), false)
  else (mon_send RUnknown s, true).
Definition mon_cmd (line : list Z) (s : mon) : mon :=
  let '(s, prompt) := mon_cmd1 (skip_sp line) s in
  if prompt then mon_send RPrompt s else s.

(** ** Polling *)

(** One received byte. *)
Definition mon_byte (s : mon) (c : Z) : mon :=
  if c =? 0x1d then
    let s := with_cmd_mode (negb (m_cmd_mode s)) s in
    mon_send (if m_cmd_mode s then RMonitor else RConsole) s
  else if negb (m_cmd_mode s) then s
  else if (c =? 13) || (c =? 10) then
    let s := mon_send RCrLf s in
    let line := <[m_len s := 0]> (m_line s) in
    let s := mon_cmd line (with_line line (m_len s) s) in
    with_line (m_line s) 0 s
  else if (c =? 0x7f) || (c =? 8) then
    if (0 <? m_len s)%nat then mon_send RRubout (with_line (m_line s) (m_len s - 1) s) else s
  else if (m_len s <? LINE_SIZE - 1)%nat then
    mon_send (REcho c) (with_line (<[m_len s := c]> (m_line s)) (S (m_len s)) s)
  else s.

(** What the socket calls of one poll return: a pending connection, and the
    bytes read ([None] = EWOULDBLOCK, [Some []] = end of file). *)
Record poll_in := PollIn { p_accept : bool; p_read : option (list Z) }.
Definition no_input : poll_in := PollIn false None.

Definition mon_poll (i : poll_in) (s : mon) : mon :=
  if negb (m_client s) then
    if p_accept i then
      mon_send RHello (Mon true true (m_paused s) (m_step_to s) (m_line s) 0 (m_cyc s) (m_retired s) (m_last_pc s) (m_out s))
    else s
  else
    match p_read i with
    | Some [] => Mon false (m_cmd_mode s) false 0 (m_line s) (m_len s) (m_cyc s) (m_retired s) (m_last_pc s) (m_out s)
    | None => s
    | Some bs => fold_left mon_byte bs s
    end.

(** ** The main loop's hooks *)

(** Top of a cycle: snapshot, sparse poll. *)
Definition mon_top (i : poll_in) (cyc retired last_pc : Z) (s : mon) : mon :=
  let s := Mon (m_client s) (m_cmd_mode s) (m_paused s) (m_step_to s) (m_line s) (m_len s) cyc retired last_pc (m_out s) in
  if m_paused s || (cyc .& 0x3ff =? 0) then mon_poll i s else s.
(** [while(g_mon_paused) { mon_poll(); ... }]; [None] = still frozen when the
    inputs are used up. *)
Fixpoint mon_freeze (ins : list poll_in) (s : mon) : option mon :=
  if m_paused s then match ins with [] => None | i :: t => mon_freeze t (mon_poll i s) end else Some s.
(** [step N]: re-pause once N more instructions have retired. *)
Definition mon_step_done (retired pc : Z) (s : mon) : mon :=
  if negb (m_step_to s =? 0) && (m_step_to s <=? retired) then mon_send (RStepped retired pc) (with_pause true 0 s) else s.

(** Cycles with no monitor input: [retire_valid] and [retire_pc] of each; the
    run ends where the next cycle would freeze. *)
Fixpoint mon_run (cyc retired last_pc : Z) (rs : list (bool * Z)) (s : mon) : Z * Z * mon :=
  match rs with
  | [] => (cyc, retired, s)
  | (rv, pc) :: t =>
      let s := mon_top no_input cyc retired last_pc s in
      if m_paused s then (cyc, retired, s)
      else
        let retired := if rv then retired + 1 else retired in
        mon_run (cyc + 1) retired (if rv then pc else last_pc) t (mon_step_done retired pc s)
  end.
End Commands.

(** ** Lemmas *)

Section Invariant.
Context {R : Type}.
Variable ss : option (iss R).
Variable g_mem : mem.
Variable timer : list Z.
Abbreviation poll := (mon_poll ss g_mem timer).
Abbreviation cmd := (mon_cmd ss g_mem timer).

(** The line buffer keeps its size, and the terminator always has a place. *)
Definition mon_wf (s : mon) : Prop := length (m_line s) = LINE_SIZE /\ (m_len s < LINE_SIZE)%nat.

Lemma mon_send_line r s : m_line (mon_send r s) = m_line s /\ m_len (mon_send r s) = m_len s.
Proof. unfold mon_send. by destruct (m_client s). Qed.
Lemma mon_sends_line rs s : m_line (mon_sends rs s) = m_line s /\ m_len (mon_sends rs s) = m_len s.
Proof.
  unfold mon_sends. revert s; induction rs as [|r rs IH]; intros s; cbn [fold_left]; [done|].
  destruct (IH (mon_send r s)) as [-> ->]. apply mon_send_line.
Qed.
Lemma mon_send_pause r s : m_paused (mon_send r s) = m_paused s /\ m_step_to (mon_send r s) = m_step_to s.
Proof. unfold mon_send. by destruct (m_client s). Qed.
Lemma mon_sends_pause rs s : m_paused (mon_sends rs s) = m_paused s /\ m_step_to (mon_sends rs s) = m_step_to s.
Proof.
  unfold mon_sends. revert s; induction rs as [|r rs IH]; intros s; cbn [fold_left]; [done|].
  destruct (IH (mon_send r s)) as [-> ->]. apply mon_send_pause.
Qed.
Lemma mon_send_cmd_mode r s : m_cmd_mode (mon_send r s) = m_cmd_mode s.
Proof. unfold mon_send. by destruct (m_client s). Qed.
Lemma mon_send_client r s : m_client (mon_send r s) = m_client s.
Proof. unfold mon_send. by destruct (m_client s) eqn:E; cbn. Qed.
Lemma mon_send_retired r s : m_retired (mon_send r s) = m_retired s.
Proof. unfold mon_send. by destruct (m_client s). Qed.

Lemma mon_cmd1_line line s :
  m_line (fst (mon_cmd1 ss g_mem timer line s)) = m_line s /\ m_len (fst (mon_cmd1 ss g_mem timer line s)) = m_len s.
Proof.
  unfold mon_cmd1. repeat case_test; cbn [fst]; try destruct ss;
    rewrite ?(proj1 (mon_send_line _ _)), ?(proj2 (mon_send_line _ _)),
      ?(proj1 (mon_sends_line _ _)), ?(proj2 (mon_sends_line _ _)); done.
Qed.
Lemma mon_cmd_line line s : m_line (cmd line s) = m_line s /\ m_len (cmd line s) = m_len s.
Proof.
  unfold mon_cmd. pose proof (mon_cmd1_line (skip_sp line) s) as H.
  destruct (mon_cmd1 _ _ _ _ _) as [s' p]. cbn [fst] in H. destruct p; [|done].
  by rewrite (proj1 (mon_send_line _ _)), (proj2 (mon_send_line _ _)).
Qed.

Lemma mon_byte_wf s c : mon_wf s -> mon_wf (mon_byte ss g_mem timer s c).
Proof.
  intros [Hl Hn]. unfold mon_byte, mon_wf.
  destruct (c =? 0x1d); [by rewrite (proj1 (mon_send_line _ _)), (proj2 (mon_send_line _ _))|].
  destruct (negb (m_cmd_mode s)); [done|].
  destruct ((c =? 13) || (c =? 10)).
  { cbn [with_line m_line m_len]. rewrite (proj1 (mon_cmd_line _ _)). cbn [with_line m_line].
    rewrite length_insert, (proj1 (mon_send_line _ _)). split; [done|unfold LINE_SIZE; lia]. }
  destruct ((c =? 0x7f) || (c =? 8)).
  { destruct (0 <? m_len s)%nat; [|done].
    rewrite (proj1 (mon_send_line _ _)), (proj2 (mon_send_line _ _)). cbn. split; [done|lia]. }
  destruct (Nat.ltb_spec (m_len s) (LINE_SIZE - 1)); [|done].
  rewrite (proj1 (mon_send_line _ _)), (proj2 (mon_send_line _ _)). cbn [with_line m_line m_len].
  rewrite length_insert. split; [done|lia].
Qed.
Lemma mon_bytes_wf bs s : mon_wf s -> mon_wf (fold_left (mon_byte ss g_mem timer) bs s).
Proof. revert s; induction bs as [|c bs IH]; intros s Hs; cbn [fold_left]; [done|]. by apply IH, mon_byte_wf. Qed.
Lemma mon_poll_wf i s : mon_wf s -> mon_wf (poll i s).
Proof.
  intros Hs. unfold mon_poll. destruct (m_client s); cbn [negb].
  - destruct (p_read i) as [[|b bs]|]; [done|by apply mon_bytes_wf|done].
  - destruct (p_accept i); [|done]. unfold mon_wf. rewrite (proj1 (mon_send_line _ _)), (proj2 (mon_send_line _ _)).
    cbn. destruct Hs. split; [done|unfold LINE_SIZE; lia].
Qed.

(** *** Leaving a halt *)

Lemma starts_head c t l : starts (String.String c t) l = true -> chr l 0 = Z.of_N (Ascii.N_of_ascii c).
Proof.
  unfold starts. intros H%bool_decide_eq_true. destruct l as [|x l]; [done|].
  injection H as -> _. done.
Qed.
Definition resumes (line : list Z) : Prop :=
  chr (skip_sp line) 0 = 103 \/ chr (skip_sp line) 0 = 115 \/ chr (skip_sp line) 0 = 110.

Lemma mon_cmd1_pause l s :
  m_paused s = true -> m_paused (fst (mon_cmd1 ss g_mem timer l s)) = false ->
  chr l 0 = 103 \/ chr l 0 = 115 \/ chr l 0 = 110.
Proof.
  intros Hp. unfold mon_cmd1.
  assert (Hkeep : forall r, m_paused (mon_send r s) = false -> False)
    by (intros r; rewrite (proj1 (mon_send_pause _ _)), Hp; done).
  assert (Hkeeps : forall r, m_paused (mon_sends r s) = false -> False)
    by (intros r; rewrite (proj1 (mon_sends_pause _ _)), Hp; done).
  repeat (case_test; [cbn [fst]; try (destruct ss); intros H|]); cbn [fst];
    try (exfalso; eauto; rewrite (proj1 (mon_send_pause _ _)) in H; cbn in H; congruence).
  all: repeat match goal with
       | E : (_ || _) = true |- _ => apply orb_true_iff in E as [E|E]
       | E : starts _ _ = true |- _ => apply starts_head in E; vm_compute (Z.of_N _) in E
       | E : (_ =? _) = true |- _ => apply Z.eqb_eq in E
       end; auto.
  intros H. exfalso. eauto.
Qed.
Lemma mon_cmd_pause line s :
  m_paused s = true -> m_paused (cmd line s) = false -> resumes line.
Proof.
  intros Hp H. apply (mon_cmd1_pause _ s Hp). unfold mon_cmd in H.
  destruct (mon_cmd1 _ _ _ _ _) as [s' p]. cbn [fst]. destruct p; [|done].
  by rewrite (proj1 (mon_send_pause _ _)) in H.
Qed.

(** The line an end-of-line byte hands to [mon_cmd]. *)
Definition pending_line (s : mon) : list Z := <[m_len s := 0]> (m_line s).
Lemma mon_byte_pause s c :
  m_paused s = true -> m_paused (mon_byte ss g_mem timer s c) = false ->
  (c = 13 \/ c = 10) /\ m_cmd_mode s = true /\ resumes (pending_line s).
Proof.
  intros Hp. unfold mon_byte.
  destruct (c =? 0x1d); [by rewrite (proj1 (mon_send_pause _ _)); cbn; rewrite Hp|].
  destruct (m_cmd_mode s) eqn:Ec; cbn [negb]; [|by rewrite Hp].
  destruct ((c =? 13) || (c =? 10)) eqn:E.
  { cbn [with_line m_paused]. intros H. apply mon_cmd_pause in H;
      [|by cbn [with_line m_paused]; rewrite (proj1 (mon_send_pause _ _))].
    rewrite (proj1 (mon_send_line _ _)), (proj2 (mon_send_line _ _)) in H.
    apply orb_true_iff in E as [E|E]; apply Z.eqb_eq in E; auto. }
  repeat case_test; rewrite ?(proj1 (mon_send_pause _ _)); cbn; by rewrite Hp.
Qed.
End Invariant.

(** *** Stepping *)

Section Stepping.
Context {R : Type}.
Variable ss : option (iss R).
Variable g_mem : mem.
Variable timer : list Z.
Abbreviation poll := (mon_poll ss g_mem timer).
Abbreviation byte := (mon_byte ss g_mem timer).

Lemma poll_no_input s : poll no_input s = s.
Proof. unfold mon_poll. by destruct (m_client s). Qed.

Lemma top_no_input cyc retired last s :
  m_paused (mon_top ss g_mem timer no_input cyc retired last s) = m_paused s /\
  m_step_to (mon_top ss g_mem timer no_input cyc retired last s) = m_step_to s.
Proof. unfold mon_top. rewrite poll_no_input. by destruct (_ || _). Qed.
Lemma run_paused cyc retired last rs s : m_paused s = true ->
  exists s', mon_run ss g_mem timer cyc retired last rs s = (cyc, retired, s') /\ m_paused s' = true /\ m_step_to s' = m_step_to s.
Proof.
  intros Hp. destruct rs as [|[rv pc] rs]; cbn [mon_run]; [by exists s|].
  destruct (top_no_input cyc retired last s) as [H1 H2]. rewrite H1, Hp. eexists. split; [done|]. by rewrite H1, H2.
Qed.

(** What has been typed of the current line. *)
Definition typed (s : mon) : list Z := take (m_len s) (m_line s).
Definition printable (c : Z) : Prop := 32 <= c < 127.
(** The part of the state typing leaves alone. *)
Definition same_ctl (s s' : mon) : Prop :=
  m_client s' = m_client s /\ m_cmd_mode s' = m_cmd_mode s /\ m_paused s' = m_paused s /\
  m_step_to s' = m_step_to s /\ m_retired s' = m_retired s.
Lemma same_ctl_send r s : same_ctl s (mon_send r s).
Proof. unfold same_ctl, mon_send. by destruct (m_client s) eqn:E; cbn; rewrite ?E. Qed.

Lemma type_char c s :
  mon_wf s -> m_cmd_mode s = true -> printable c -> (S (m_len s) < LINE_SIZE)%nat ->
  typed (byte s c) = typed s ++ [c] /\ m_len (byte s c) = S (m_len s) /\ mon_wf (byte s c) /\ same_ctl s (byte s c).
Proof.
  intros Hwf Hm Hc Hn. pose proof (mon_byte_wf ss g_mem timer s c Hwf) as Hwf'. revert Hwf'. destruct Hwf as [Hl _].
  unfold mon_byte. rewrite Hm. unfold printable in Hc.
  replace (c =? 0x1d) with false by lia. replace ((c =? 13) || (c =? 10)) with false by lia.
  replace ((c =? 0x7f) || (c =? 8)) with false by lia. cbn [negb].
  replace (m_len s <? LINE_SIZE - 1)%nat with true by (symmetry; apply Nat.ltb_lt; lia). intros Hwf'.
  assert (Hlen : (m_len s < length (m_line s))%nat) by lia.
  split; [|split; [|split; [done|]]].
  - unfold typed. rewrite (proj1 (mon_send_line _ _)), (proj2 (mon_send_line _ _)). cbn [with_line m_line m_len].
    rewrite (take_S_r _ _ c) by (by apply list_lookup_insert_eq). by rewrite take_insert_ge by lia.
  - by rewrite (proj2 (mon_send_line _ _)).
  - apply (same_ctl_send (REcho c) (with_line (<[m_len s := c]> (m_line s)) (S (m_len s)) s)).
Qed.
Lemma type_chars l s :
  mon_wf s -> m_cmd_mode s = true -> Forall printable l -> (m_len s + length l < LINE_SIZE)%nat ->
  let s' := fold_left byte l s in
  typed s' = typed s ++ l /\ m_len s' = (m_len s + length l)%nat /\ mon_wf s' /\ same_ctl s s'.
Proof.
  intros Hwf Hm Hl. revert s Hwf Hm. induction Hl as [|c l Hc Hl IH]; intros s Hwf Hm Hn; cbn [fold_left length] in *.
  { rewrite app_nil_r, Nat.add_0_r. by repeat split; try apply Hwf. }
  destruct (type_char c s Hwf Hm Hc ltac:(lia)) as (Ht & Hl' & Hwf' & (H1 & H2 & H3 & H4 & H5)).
  destruct (IH (byte s c) Hwf' ltac:(congruence) ltac:(lia)) as (Ht2 & Hl2 & Hwf2 & (K1 & K2 & K3 & K4 & K5)).
  split; [rewrite Ht2, Ht, <- app_assoc; done|]. split; [lia|]. split; [done|]. unfold same_ctl. by repeat split; congruence.
Qed.
Lemma pending_typed s : mon_wf s -> exists rest, pending_line s = typed s ++ 0 :: rest.
Proof.
  intros [Hl Hn]. exists (drop (S (m_len s)) (m_line s)). unfold pending_line, typed.
  by rewrite insert_take_drop by lia.
Qed.

Definition digits (ds : list Z) : Prop := Forall (fun c => is_digit c = true) ds.
Lemma digits_printable ds : digits ds -> Forall printable ds.
Proof. apply List.Forall_impl. intros c Hc. unfold is_digit in Hc. bool_props. unfold printable. lia. Qed.
Lemma dec_digits_stop acc ds rest : digits ds -> dec_digits acc (ds ++ 0 :: rest) = dec_digits acc ds.
Proof. intros H. revert acc; induction H as [|c ds Hc _ IH]; intros acc; cbn [app dec_digits]; [done|]. by rewrite Hc. Qed.

Lemma mon_cmd_step d ds rest s :
  digits (d :: ds) ->
  mon_cmd ss g_mem timer (chars "step " ++ (d :: ds) ++ 0 :: rest) s
  = mon_send (RStep (Z.min (dec_digits 0 (d :: ds)) (2 ^ 64 - 1)))
      (with_pause false (m_retired s +64 Z.min (dec_digits 0 (d :: ds)) (2 ^ 64 - 1)) s).
Proof.
  intros Hd. rewrite <- (dec_digits_stop 0 (d :: ds) rest Hd).
  assert (Hc : is_digit d = true) by by inversion Hd.
  set (tl := (d :: ds) ++ 0 :: rest). assert (Hs : skip_sp tl = tl).
  { subst tl. cbn [app skip_sp]. unfold is_digit in Hc. bool_props. destruct d as [|[p|p|]|]; try lia; try done.
    destruct p as [p|p|]; try done; destruct p as [p|p|]; try done; destruct p as [p|p|]; try done;
    destruct p as [p|p|]; try done; destruct p as [p|p|]; try done; lia. }
  transitivity (mon_send (RStep (if is_digit (chr (skip_sp tl) 0) then strtoull10 (skip_sp tl) else 1))
    (with_pause false (m_retired s +64 (if is_digit (chr (skip_sp tl) 0) then strtoull10 (skip_sp tl) else 1)) s)).
  { reflexivity. }
  rewrite Hs. subst tl. cbn [app chr nth]. by rewrite Hc.
Qed.

Definition retired_in (rs : list (bool * Z)) : Z := Z.of_nat (length (List.filter fst rs)).
Lemma mon_run_step rs : forall cyc retired last s n,
  m_paused s = false -> m_step_to s = retired + n -> 1 <= n -> 0 <= retired ->
  let '(_, retired', s') := mon_run ss g_mem timer cyc retired last rs s in
  if n <=? retired_in rs then m_paused s' = true /\ retired' = retired + n /\ m_step_to s' = 0
  else m_paused s' = false /\ retired' = retired + retired_in rs.
Proof.
  induction rs as [|[rv pc] rs IH]; intros cyc retired last s n Hp Ht Hn Hr; cbn [mon_run].
  { change (retired_in []) with 0. replace (n <=? 0) with false by lia. split; [done|lia]. }
  set (s0 := mon_top ss g_mem timer no_input cyc retired last s).
  destruct (top_no_input cyc retired last s) as [H0 H0t]. fold s0 in H0, H0t. rewrite H0, Hp, Ht in *.
  replace (retired_in ((rv, pc) :: rs)) with ((if rv then 1 else 0) + retired_in rs)
    by (unfold retired_in; destruct rv; simpl; lia).
  assert (Hcnt : 0 <= retired_in rs) by (unfold retired_in; lia).
  unfold mon_step_done. rewrite H0t. replace (retired + n =? 0) with false by lia. cbn [negb andb].
  destruct rv.
  - destruct (Z.leb_spec (retired + n) (retired + 1)).
    + assert (n = 1) as -> by lia. replace (1 <=? 1 + retired_in rs) with true by lia.
      set (s1 := mon_send _ _).
      destruct (run_paused (cyc + 1) (retired + 1) pc rs s1) as (s' & -> & K1 & K2);
        [by unfold s1; rewrite (proj1 (mon_send_pause _ _))|].
      split; [done|]. split; [done|]. rewrite K2. unfold s1. by rewrite (proj2 (mon_send_pause _ _)).
    + specialize (IH (cyc + 1) (retired + 1) pc s0 (n - 1) H0 ltac:(lia) ltac:(lia) ltac:(lia)).
      destruct (mon_run _ _ _ _ _ _ _ _) as [[c' r'] s'].
      destruct (Z.leb_spec n (1 + retired_in rs)), (Z.leb_spec (n - 1) (retired_in rs)); try lia.
      * destruct IH as (K1 & K2 & K3). split; [done|]. split; [lia|done].
      * destruct IH as (K1 & K2). split; [done|lia].
  - replace (retired + n <=? retired) with false by lia. rewrite Z.add_0_l.
    exact (IH (cyc + 1) retired last s0 n H0 H0t Hn Hr).
Qed.
End Stepping.

(** ** Properties *)

(** Whatever clients connect and whatever bytes they send,
    the 512-byte line buffer is never written outside its bounds, the position
    of the terminator included. *)
Theorem monitor_buffer_safe {R} (ss : option (iss R)) (g_mem : mem) (timer : list Z) (ins : list poll_in) :
  mon_wf (fold_left (fun s i => mon_poll ss g_mem timer i s) ins mon_start).
Proof.
  assert (H : mon_wf mon_start) by (split; [done|unfold LINE_SIZE; cbn; lia]). revert H. generalize mon_start.
  induction ins as [|i ins IH]; intros s Hs; cbn [fold_left]; [done|]. by apply IH, mon_poll_wf.
Qed.

(** A halted simulation is let go only by the client
    disconnecting or by a completed command line that starts with g, s or n. *)
Theorem monitor_halt_holds {R} (ss : option (iss R)) (g_mem : mem) (timer : list Z) (i : poll_in) (s : mon) :
  m_paused s = true -> m_paused (mon_poll ss g_mem timer i s) = false ->
  p_read i = Some [] \/
  exists bs c bs' s1, p_read i = Some (bs ++ c :: bs') /\ (c = 13 \/ c = 10) /\
    s1 = fold_left (mon_byte ss g_mem timer) bs s /\ m_cmd_mode s1 = true /\ resumes (pending_line s1).
Proof.
  intros Hp. unfold mon_poll. destruct (m_client s); cbn [negb].
  2: { destruct (p_accept i); [rewrite (proj1 (mon_send_pause _ _)); cbn|]; by rewrite Hp. }
  destruct (p_read i) as [[|b bs]|]; [by left| |by rewrite Hp]. intros Hun. right.
  assert (Hgen : forall l s0, m_paused s0 = true -> m_paused (fold_left (mon_byte ss g_mem timer) l s0) = false ->
    exists bs c bs' s1, l = bs ++ c :: bs' /\ (c = 13 \/ c = 10) /\
      s1 = fold_left (mon_byte ss g_mem timer) bs s0 /\ m_cmd_mode s1 = true /\ resumes (pending_line s1)).
  { induction l as [|c l IH]; intros s0 Hs0; cbn [fold_left]; [by rewrite Hs0|].
    destruct (m_paused (mon_byte ss g_mem timer s0 c)) eqn:Ec.
    - intros Hz. destruct (IH _ Ec Hz) as (bs1 & c' & bs' & s1 & -> & Hc' & -> & Hm & Hr). exists (c :: bs1). by eauto 10.
    - intros _. destruct (mon_byte_pause ss g_mem timer s0 c Hs0 Ec) as (Hc & Hm & Hr). by exists [], c, l, s0. }
  destruct (Hgen (b :: bs) s Hp Hun) as (bs1 & c & bs' & s1 & -> & Hrest). by exists bs1, c, bs', s1.
Qed.

(** C27.  Typing [step <n>] at a halted monitor lets the
    simulation run until exactly [n] more (counted) retirements, then freezes it
    again; with fewer retirements in the window it keeps running. *)
Theorem monitor_step_exact {R} (ss : option (iss R)) (g_mem : mem) (timer : list Z)
    (d : Z) (ds : list Z) (s : mon) (cyc last : Z) (rs : list (bool * Z)) :
  mon_wf s -> m_client s = true -> m_cmd_mode s = true -> m_paused s = true -> m_len s = 0%nat ->
  digits (d :: ds) -> (length ds < 200)%nat -> 0 <= m_retired s ->
  let n := dec_digits 0 (d :: ds) in
  1 <= n -> m_retired s + n < 2 ^ 64 ->
  let s1 := mon_poll ss g_mem timer (PollIn false (Some (chars "step " ++ (d :: ds) ++ [13]))) s in
  let '(_, retired', s2) := mon_run ss g_mem timer cyc (m_retired s) last rs s1 in
  if n <=? retired_in rs then m_paused s2 = true /\ retired' = m_retired s + n /\ m_step_to s2 = 0
  else m_paused s2 = false /\ retired' = m_retired s + retired_in rs.
Proof.
  intros Hwf Hc Hm Hp Hl Hd Hlen H0 n Hn Hb s1.
  enough (H : m_paused s1 = false /\ m_step_to s1 = m_retired s + n)
    by (apply mon_run_step; [apply H|apply H|done|done]).
  set (l := chars "step " ++ d :: ds).
  assert (Hpr : Forall printable l).
  { apply Forall_app_2; [|by apply digits_printable]. change (chars "step ") with [115; 116; 101; 112; 32].
    repeat (apply Forall_cons_2; [unfold printable; lia|]). apply Forall_nil_2. }
  assert (Hll : (m_len s + length l < LINE_SIZE)%nat).
  { unfold l. rewrite length_app, Hl. unfold LINE_SIZE. cbn [length chars]. change (length (chars "step ")) with 5%nat. lia. }
  destruct (type_chars ss g_mem timer l s Hwf Hm Hpr Hll) as (Ht & Hlt & Hwf' & (K1 & K2 & K3 & K4 & K5)).
  set (st := fold_left (mon_byte ss g_mem timer) l s) in *.
  assert (Hs1 : s1 = mon_byte ss g_mem timer st 13).
  { unfold s1, mon_poll. rewrite Hc. cbn [negb p_read].
    replace (chars "step " ++ (d :: ds) ++ [13]) with (l ++ [13]) by (unfold l; by rewrite <- app_assoc).
    transitivity (fold_left (mon_byte ss g_mem timer) (l ++ [13]) s); [by destruct l|]. by rewrite fold_left_app. }
  destruct (pending_typed st Hwf') as [rest Hrest]. unfold pending_line in Hrest.
  rewrite Ht in Hrest. unfold typed in Hrest at 1. rewrite Hl in Hrest. cbn [take app] in Hrest.
  rewrite Hs1. unfold mon_byte. change (13 =? 0x1d) with false. rewrite K2, Hm. cbn [negb].
  change ((13 =? 13) || (13 =? 10)) with true. cbn [with_line m_paused m_step_to].
  rewrite (proj1 (mon_send_line _ _)), (proj2 (mon_send_line _ _)), Hrest. unfold l. rewrite <- app_assoc.
  change ((d :: ds) ++ 0 :: rest) with (d :: ds ++ 0 :: rest).
  rewrite (mon_cmd_step ss g_mem timer d ds rest _ Hd).
  rewrite (proj1 (mon_send_pause _ _)), (proj2 (mon_send_pause _ _)).
  cbn [with_pause with_line m_paused m_step_to m_retired]. rewrite mon_send_retired, K5. fold n. split; [done|].
  rewrite Z.min_l by lia. rewrite u64_small by lia. done.
Qed.
(** A halted monitor, [step 2], and a window with three retirements. *)
Definition halted_monitor : mon := Mon true true true 0 (repeat 0 LINE_SIZE) 0 4096 10 0x88000000 [].
Lemma monitor_step_exact_witness :
  let s1 := mon_poll (None : option (iss unit)) ∅ [] (PollIn false (Some (chars "step " ++ [50] ++ [13]))) halted_monitor in
  let '(_, retired', s2) := mon_run (None : option (iss unit)) ∅ [] 4096 (m_retired halted_monitor) 0
    [(true, 0x88000004); (false, 0); (true, 0x88000008); (true, 0x8800000c)] s1 in
  m_paused s2 = true /\ retired' = m_retired halted_monitor + dec_digits 0 [50] /\ m_step_to s2 = 0.
Proof.
  assert (Hd : digits [50]) by (constructor; [done|constructor]).
  assert (Hwf : mon_wf halted_monitor) by (split; [done|unfold LINE_SIZE; cbn; lia]).
  exact (monitor_step_exact (None : option (iss unit)) ∅ [] 50 [] halted_monitor 4096 0
    [(true, 0x88000004); (false, 0); (true, 0x88000008); (true, 0x8800000c)]
    Hwf eq_refl eq_refl eq_refl eq_refl Hd ltac:(cbn; lia) ltac:(vm_compute; discriminate)
    ltac:(vm_compute; discriminate) ltac:(vm_compute; reflexivity)).
Defined.
Lemma monitor_halt_holds_witness :
  let s := halted_monitor in
  let i := PollIn false (Some (chars "go" ++ [13])) in
  p_read i = Some [] \/
  exists bs c bs' s1, p_read i = Some (bs ++ c :: bs') /\ (c = 13 \/ c = 10) /\
    s1 = fold_left (mon_byte (None : option (iss unit)) ∅ []) bs s /\ m_cmd_mode s1 = true /\ resumes (pending_line s1).
Proof. intros s i. apply (monitor_halt_holds (None : option (iss unit)) ∅ [] i s); vm_compute; reflexivity. Defined.

(** [st] skips four characters whatever the line's length, past the terminator:
    after [step 500] a later [st] steps 500 again instead of 1. *)
Theorem short_step_reads_stale_count :
  let type (t : string) := PollIn false (Some (chars t ++ [13])) in
  let s := fold_left (fun s i => mon_poll (None : option (iss unit)) ∅ [] i s)
             [PollIn true None; type "step 500"%string; type "h"%string; type "st"%string] mon_start in
  list.last (m_out s) = Some (RStep 500) /\ m_step_to s = 500.
Proof. vm_compute. by split. Qed.
