(* ===== verification/Mipsmon.v ===== *)
(** * Mipsmon: the curses client of the monitor (sim/mipsmon.cc)

    The scrollback ([push_line], [feed_output]), the renderer ([wrap_into],
    [draw], the status bar and the input row) and the main loop's keyboard handling
    with the command history.  A screen is the list of rows [draw] writes; the terminal and the socket
    are inputs and outputs of one iteration. *)
From S2P Require Import Prelude.

Abbreviation str := (list Z).
Definition MAX_SCROLLBACK : nat := Z.to_nat 20000.
Definition MAX_HISTORY : nat := 500.

Record client := Client {
  g_lines : list str; g_partial : str; g_hist : list str; g_hist_idx : Z;
  g_saved_input : str; g_input : str; g_scroll : Z; g_raw : bool }.
Definition client_init : client := Client [] [] [] (-1) [] [] 0 false.

Definition with_out (ls : list str) (p : str) (s : client) : client :=
  Client ls p (g_hist s) (g_hist_idx s) (g_saved_input s) (g_input s) (g_scroll s) (g_raw s).
Definition with_scroll (n : Z) (s : client) : client :=
  Client (g_lines s) (g_partial s) (g_hist s) (g_hist_idx s) (g_saved_input s) (g_input s) n (g_raw s).
Definition with_edit (h : list str) (i : Z) (sv inp : str) (s : client) : client :=
  Client (g_lines s) (g_partial s) h i sv inp (g_scroll s) (g_raw s).
Definition with_raw (b : bool) (s : client) : client :=
  Client (g_lines s) (g_partial s) (g_hist s) (g_hist_idx s) (g_saved_input s) (g_input s) (g_scroll s) b.

(** ** Scrollback *)

Definition push_line (l : str) (s : client) : client :=
  with_out (trim MAX_SCROLLBACK (g_lines s ++ [l])) (g_partial s) s.

(** [do { g_partial += ' '; } while(g_partial.size() % 8)]: at most 8 rounds. *)
Fixpoint tab_fill (fuel : nat) (p : str) : str :=
  let p := p ++ [32] in
  match fuel with
  | O => p
  | S k => if (length p mod 8 =? 0)%nat then p else tab_fill k p
  end.
Definition feed_byte (s : client) (c : Z) : client :=
  if c =? 13 then s
  else if c =? 10 then let s := push_line (g_partial s) s in with_out (g_lines s) [] s
  else if c =? 9 then with_out (g_lines s) (tab_fill 7 (g_partial s)) s
  else if (c =? 8) || (c =? 127) then with_out (g_lines s) (take (length (g_partial s) - 1) (g_partial s)) s
  else if 32 <=? c then with_out (g_lines s) (g_partial s ++ [c]) s
  else s.
Definition feed_output (b : str) (s : client) : client := fold_left feed_byte b s.

(** ** Rendering *)

(** The [for] loop over [s.substr(i, w)]; [s] shrinks, so its length is fuel enough. *)
Fixpoint chunks (fuel : nat) (w : nat) (s : str) : list str :=
  match fuel, s with
  | S k, _ :: _ => take w s :: chunks k w (drop w s)
  | _, _ => []
  end.
Definition wrap_into (s : str) (w : Z) : list str :=
  if bool_decide (s = []) || (w <=? 0) then [[]] else chunks (length s) (Z.to_nat w) s.

(** [draw]: the clamped scroll and the rows written to the output window. *)
Definition draw (LINES COLS : Z) (s : client) : Z * list str :=
  let rows := if LINES - 2 <? 1 then 1 else LINES - 2 in
  let need := Z.to_nat (rows + g_scroll s + 4) in
  let newest_first := g_partial s :: take (need - 1) (rev (g_lines s)) in
  let screen := concat (map (fun l => wrap_into l COLS) (rev newest_first)) in
  let total := Z.of_nat (length screen) in
  let max_scroll := if rows <? total then total - rows else 0 in
  let scroll := if max_scroll <? g_scroll s then max_scroll else g_scroll s in
  let start := total - rows - scroll in
  let start := if start <? 0 then 0 else start in
  (scroll, take (Z.to_nat rows) (drop (Z.to_nat start) screen)).

(** The input line: its visible part and the cursor column. *)
Definition draw_input (COLS : Z) (s : client) : str * Z :=
  let prompt := chars "> " ++ g_input s in
  let from := if COLS <=? Z.of_nat (length prompt) then Z.of_nat (length prompt) - COLS + 1 else 0 in
  (take (Z.to_nat COLS) (drop (Z.to_nat from) prompt), Z.of_nat (length prompt) - from).

(** The whole input row: in RAW mode a fixed text and no cursor. *)
Definition input_row (COLS : Z) (s : client) : str * option Z :=
  if g_raw s then (take (Z.to_nat COLS) (chars "[RAW mode -- keystrokes go straight to the core; ^R for LINE mode]"), None)
  else let '(r, c) := draw_input COLS s in (r, Some c).
(** The status bar, cut to [st[512]] and padded to the width. *)
Definition status_text (g_host g_port : str) (s : client) : str :=
  take 511 (chars " mipsmon " ++ g_host ++ chars ":" ++ g_port ++ chars " | " ++ chars (if g_raw s then "RAW " else "LINE") ++
    chars " | " ++ chars (if g_scroll s =? 0 then "live" else "SCROLLED") ++
    chars " | ^]mon ^Rmode ^Lredraw PgUp/Dn=scroll Up/Dn=hist ^\quit ").
Definition status_row (COLS : Z) (g_host g_port : str) (s : client) : str :=
  let st := status_text g_host g_port s in
  take (Z.to_nat COLS) st ++ repeat 32 (Z.to_nat COLS - length st).
(** The client when the loop starts: the banner, cut to [banner[256]], is its first line. *)
Definition connected (g_host g_port : str) : client :=
  push_line (take 255 (chars "[mipsmon: connected to " ++ g_host ++ chars ":" ++ g_port ++
    chars " -- Ctrl-\ or type 'quit' to exit]")) client_init.

(** ** Keyboard *)

(** What [wgetch] returns: [ERR], a curses function key, or a byte. *)
Inductive key := ERR | KEY_PPAGE | KEY_NPAGE | KEY_ENTER | KEY_BACKSPACE | KEY_UP | KEY_DOWN | KEY_OTHER | Byte (c : Z).
Definition is_enter (k : key) : bool := match k with KEY_ENTER => true | Byte c => (c =? 10) || (c =? 13) | _ => false end.
Definition is_erase (k : key) : bool := match k with KEY_BACKSPACE => true | Byte c => (c =? 127) || (c =? 8) | _ => false end.
Definition is_byte (c : Z) (k : key) : bool := match k with Byte x => x =? c | _ => false end.

Definition hist_add (l : str) (h : list str) : list str :=
  if negb (bool_decide (l = [])) && (bool_decide (h = []) || negb (bool_decide (list.last h = Some l)))
  then trim MAX_HISTORY (h ++ [l]) else h.
Definition hist_at (h : list str) (i : Z) : str := nth (Z.to_nat i) h [].
Definition hist_up (s : client) : client :=
  if bool_decide (g_hist s = []) then s
  else
    let '(sv, i) := if g_hist_idx s =? -1 then (g_input s, Z.of_nat (length (g_hist s))) else (g_saved_input s, g_hist_idx s) in
    if 0 <? i then with_edit (g_hist s) (i - 1) sv (hist_at (g_hist s) (i - 1)) s
    else with_edit (g_hist s) i sv (g_input s) s.
Definition hist_down (s : client) : client :=
  if g_hist_idx s =? -1 then s
  else
    let i := g_hist_idx s + 1 in
    if Z.of_nat (length (g_hist s)) <=? i then with_edit (g_hist s) (-1) (g_saved_input s) (g_saved_input s) s
    else with_edit (g_hist s) i (g_saved_input s) (hist_at (g_hist s) i) s.

(** One key: the new state, the bytes sent, and whether the client keeps running. *)
Definition line_key (k : key) (s : client) : client * str * bool :=
  if is_enter k then
    if bool_decide (g_input s = chars "quit") || bool_decide (g_input s = chars "exit")
    then (with_edit (g_hist s) (-1) (g_saved_input s) [] s, [], false)
    else (with_edit (hist_add (g_input s) (g_hist s)) (-1) (g_saved_input s) [] s, g_input s ++ [13], true)
  else if is_erase k then
    (with_edit (g_hist s) (g_hist_idx s) (g_saved_input s) (take (length (g_input s) - 1) (g_input s)) s, [], true)
  else if is_byte 0x15 k then (with_edit (g_hist s) (g_hist_idx s) (g_saved_input s) [] s, [], true)
  else match k with
       | KEY_UP => (hist_up s, [], true)
       | KEY_DOWN => (hist_down s, [], true)
       | Byte c => (if (32 <=? c) && (c <? 256)
                    then with_edit (g_hist s) (g_hist_idx s) (g_saved_input s) (g_input s ++ [c]) s else s, [], true)
       | _ => (s, [], true)
       end.
Definition raw_key (k : key) : str :=
  if is_enter k then [13]
  else match k with
       | KEY_BACKSPACE => [0x7f]
       | Byte c => if (0 <=? c) && (c <? 256) then [c] else []
       | _ => []
       end.
Definition interrupt_edit (s : client) : client := with_edit (g_hist s) (-1) (g_saved_input s) [] s.
Definition on_key (LINES : Z) (k : key) (s : client) : client * str * bool :=
  match k with
  | ERR => (s, [], true)
  | KEY_PPAGE => (with_scroll (g_scroll s + (LINES - 2) ÷ 2) s, [], true)
  | KEY_NPAGE =>
      let n := g_scroll s - (LINES - 2) ÷ 2 in (with_scroll (if n <? 0 then 0 else n) s, [], true)
  | _ =>
      let s := with_scroll 0 s in
      if is_byte 0x1c k then (s, [], false)
      else if is_byte 0x1d k then (s, [0x1d], true)
      else if is_byte 0x12 k then (with_raw (negb (g_raw s)) s, [], true)
      else if is_byte 0x0c k then (s, [], true)
      else if is_byte 0x03 k then (interrupt_edit s, [0x03], true)
      else if g_raw s then (s, raw_key k, true)
      else line_key k s
  end.

(** One iteration of the main loop: a forwarded SIGINT, the key, what the
    socket's [read] returned ([None] = nothing, [Some []] = disconnected), and
    the redraw that ends it. *)
Definition iterate (LINES COLS : Z) (sigint : bool) (k : key) (rd : option str) (s : client)
    : client * str * bool * list str :=
  let '(s, out) := if sigint then (with_scroll 0 (interrupt_edit s), [0x03]) else (s, []) in
  let '(s, sent, running) := on_key LINES k s in
  let '(s, running) :=
    match rd with
    | None => (s, running)
    | Some [] => let s := push_line (chars "[mipsmon: disconnected]") s in (with_scroll (fst (draw LINES COLS s)) s, false)
    | Some b => (feed_output b s, running)
    end in
  let '(scroll, screen) := draw LINES COLS s in
  (with_scroll scroll s, out ++ sent, running, screen).

(** ** Lemmas *)

Lemma tab_fill_stop p : exists k, (1 <= k <= 8)%nat /\ tab_fill 7 p = p ++ repeat 32 k /\ (length (tab_fill 7 p) mod 8 = 0)%nat.
Proof.
  set (k := (8 - length p mod 8)%nat). assert (Hk : (1 <= k <= 8)%nat) by (subst k; pose proof (Nat.mod_upper_bound (length p) 8); lia).
  assert (Hgen : forall fuel q j, (1 <= j <= S fuel)%nat -> ((length q + j) mod 8 = 0)%nat ->
    (forall i, (1 <= i < j)%nat -> ((length q + i) mod 8 <> 0)%nat) -> tab_fill fuel q = q ++ repeat 32 j).
  { induction fuel as [|fuel IH]; intros q j Hj Hm Hlt; cbn [tab_fill].
    - assert (j = 1%nat) as -> by lia. done.
    - rewrite length_app. cbn [length]. destruct (Nat.eqb_spec ((length q + 1) mod 8) 0) as [E|E].
      + destruct (decide (j = 1%nat)) as [->|]; [done|]. exfalso. apply (Hlt 1%nat); [lia|done].
      + destruct j as [|[|j]]; [lia| |].
        * exfalso. by apply E.
        * rewrite (IH (q ++ [32]) (S j)).
          -- rewrite <- app_assoc. done.
          -- lia.
          -- rewrite length_app. cbn [length]. by replace (length q + 1 + S j)%nat with (length q + S (S j))%nat by lia.
          -- intros i Hi. rewrite length_app. cbn [length].
             replace (length q + 1 + i)%nat with (length q + S i)%nat by lia. apply Hlt. lia. }
  assert (Hm : ((length p + k) mod 8 = 0)%nat).
  { subst k. pose proof (Nat.div_mod_eq (length p) 8).
    replace (length p + (8 - length p mod 8))%nat with ((S (length p / 8)) * 8)%nat by lia. by rewrite Nat.Div0.mod_mul. }
  assert (E : tab_fill 7 p = p ++ repeat 32 k).
  { apply Hgen; [lia|done|]. intros i Hi Hz. subst k.
    pose proof (Nat.div_mod_eq (length p) 8). pose proof (Nat.div_mod_eq (length p + i) 8). lia. }
  exists k. split; [done|]. split; [done|]. rewrite E, length_app, repeat_length. done.
Qed.

Lemma wrap_into_pos s w : (1 <= length (wrap_into s w))%nat.
Proof.
  unfold wrap_into. case_test; [cbn; lia|]. bool_props. apply bool_decide_eq_false in H.
  destruct s as [|c s]; [done|]. cbn [length chunks]. lia.
Qed.
Lemma length_screen ls w : (length ls <= length (concat (map (fun l => wrap_into l w) ls)))%nat.
Proof.
  induction ls as [|l ls IH]; cbn [map concat length]; [lia|]. rewrite length_app. pose proof (wrap_into_pos l w). lia.
Qed.

Lemma chunks_spec w fuel s : (0 < w)%nat -> (length s <= fuel)%nat ->
  concat (chunks fuel w s) = s /\ Forall (fun r => (0 < length r <= w)%nat) (chunks fuel w s) /\
  Forall (fun r => length r = w) (removelast (chunks fuel w s)).
Proof.
  intros Hw. revert s; induction fuel as [|fuel IH]; intros s Hs.
  { destruct s; [by repeat constructor|cbn in Hs; lia]. }
  destruct s as [|c s]; [by repeat constructor|]. cbn [chunks].
  destruct (IH (drop w (c :: s))) as (Hc & Hf & Hr); [rewrite length_drop; cbn [length] in *; lia|].
  split; [cbn [concat]; by rewrite Hc, take_drop|]. split.
  - constructor; [|done]. rewrite length_take. cbn [length]. lia.
  - cbn [removelast]. destruct (chunks fuel w (drop w (c :: s))) as [|r rs] eqn:E; [constructor|].
    constructor; [|done]. rewrite length_take. destruct (decide (w <= length (c :: s))%nat) as [|Hlt]; [lia|].
    rewrite drop_ge in E by lia. by destruct fuel.
Qed.

(** The last [n] elements, taken from the back. *)
Lemma rev_take_rev {A} n (l : list A) : rev (take n (rev l)) = drop (length l - n) l.
Proof.
  rewrite <- (rev_involutive l) at 3. rewrite skipn_rev, length_rev. f_equal.
  destruct (decide (n <= length l)%nat); [f_equal; lia|]. rewrite !take_ge; rewrite ?length_rev; [done|lia..].
Qed.

(** *** Keyboard state *)

Record client_ok (s : client) : Prop := ClientOk {
  ok_lines : (length (g_lines s) <= MAX_SCROLLBACK)%nat;
  ok_hist : (length (g_hist s) <= MAX_HISTORY)%nat;
  ok_idx : -1 <= g_hist_idx s < Z.of_nat (length (g_hist s));
  ok_scroll : 0 <= g_scroll s }.

Lemma length_hist_add l h : (length h <= MAX_HISTORY)%nat -> (length (hist_add l h) <= MAX_HISTORY)%nat.
Proof. intros. unfold hist_add. case_test; [|done]. rewrite length_trim. lia. Qed.
Lemma hist_add_pos l h : -1 < Z.of_nat (length (hist_add l h)).
Proof. lia. Qed.

Lemma push_line_ok l s : client_ok s -> client_ok (push_line l s).
Proof. intros []. constructor; cbn [push_line with_out g_lines g_hist g_hist_idx g_scroll]; auto. rewrite length_trim. lia. Qed.
Lemma with_out_ok s p : client_ok s -> client_ok (with_out (g_lines s) p s).
Proof. intros []. by constructor. Qed.
Lemma feed_byte_ok s c : client_ok s -> client_ok (feed_byte s c).
Proof. intros H. unfold feed_byte. repeat case_test; auto using with_out_ok, push_line_ok. Qed.
Lemma feed_output_ok b s : client_ok s -> client_ok (feed_output b s).
Proof. unfold feed_output. revert s; induction b as [|c b IH]; intros s Hs; cbn [fold_left]; auto using feed_byte_ok. Qed.
Lemma with_scroll_ok n s : 0 <= n -> client_ok s -> client_ok (with_scroll n s).
Proof. intros ? []. by constructor. Qed.
Lemma with_edit_ok i sv inp s : -1 <= i < Z.of_nat (length (g_hist s)) -> client_ok s -> client_ok (with_edit (g_hist s) i sv inp s).
Proof. intros ? []. by constructor. Qed.
Lemma hist_up_ok s : client_ok s -> client_ok (hist_up s).
Proof.
  intros Hs. pose proof (ok_idx s Hs). unfold hist_up. case_test; [done|].
  apply bool_decide_eq_false in E. assert (0 < Z.of_nat (length (g_hist s))) by (destruct (g_hist s); [done|cbn; lia]).
  destruct (Z.eqb_spec (g_hist_idx s) (-1)); case_test; bool_props; apply with_edit_ok; auto; lia.
Qed.
Lemma hist_down_ok s : client_ok s -> client_ok (hist_down s).
Proof.
  intros Hs. pose proof (ok_idx s Hs). unfold hist_down. repeat case_test; auto; bool_props; apply with_edit_ok; auto; lia.
Qed.
Lemma line_key_ok k s : client_ok s -> client_ok (fst (fst (line_key k s))).
Proof.
  intros Hs. pose proof (ok_idx s Hs). unfold line_key.
  destruct (is_enter k).
  { case_test; cbn [fst]; [apply with_edit_ok; auto; lia|].
    destruct Hs. constructor; cbn; auto using length_hist_add. pose proof (hist_add_pos (g_input s) (g_hist s)). lia. }
  destruct (is_erase k); [cbn [fst]; by apply with_edit_ok|].
  destruct (is_byte 0x15 k); [cbn [fst]; by apply with_edit_ok|].
  destruct k; cbn [fst]; auto using hist_up_ok, hist_down_ok. case_test; [by apply with_edit_ok|done].
Qed.
Lemma interrupt_ok s : client_ok s -> client_ok (interrupt_edit s).
Proof. intros Hs. pose proof (ok_idx s Hs). apply with_edit_ok; [lia|done]. Qed.
Lemma on_key_ok LINES k s : 1 <= LINES -> client_ok s -> client_ok (fst (fst (on_key LINES k s))).
Proof.
  intros HL Hs. pose proof (ok_scroll s Hs).
  assert (Hq : 0 <= (LINES - 2) ÷ 2).
  { destruct (decide (LINES = 1)) as [->|]; [by vm_compute|]. apply Z.quot_pos; lia. }
  assert (H0 : client_ok (with_scroll 0 s)) by (apply with_scroll_ok; [lia|done]).
  unfold on_key. destruct k; cbn [fst]; auto;
    try (apply with_scroll_ok; [try case_test; bool_props; lia|done]);
    repeat case_test; cbn [fst]; auto using line_key_ok, interrupt_ok; destruct H0; by constructor.
Qed.
Lemma draw_scroll_pos LINES COLS s : 0 <= g_scroll s -> 0 <= fst (draw LINES COLS s).
Proof. intros H. unfold draw. cbn [fst]. repeat case_test; bool_props; lia. Qed.

(** *** History navigation *)

Fixpoint times {A} (n : nat) (f : A -> A) (x : A) : A := match n with O => x | S k => times k f (f x) end.
Lemma hist_up_from s i sv :
  g_hist_idx s = i -> 0 < i -> g_saved_input s = sv -> (0 < length (g_hist s))%nat ->
  hist_up s = with_edit (g_hist s) (i - 1) sv (hist_at (g_hist s) (i - 1)) s.
Proof.
  intros Hi Hp Hs Hl. unfold hist_up. rewrite bool_decide_false by (intros E; rewrite E in Hl; cbn in Hl; lia).
  replace (g_hist_idx s =? -1) with false by lia. rewrite Hi, Hs. by replace (0 <? i) with true by lia.
Qed.
Lemma hist_up_first s :
  g_hist_idx s = -1 -> (0 < length (g_hist s))%nat ->
  hist_up s = with_edit (g_hist s) (Z.of_nat (length (g_hist s)) - 1) (g_input s)
                (hist_at (g_hist s) (Z.of_nat (length (g_hist s)) - 1)) s.
Proof.
  intros Hi Hl. unfold hist_up. rewrite bool_decide_false by (intros E; rewrite E in Hl; cbn in Hl; lia).
  rewrite Hi. cbn [Z.eqb Pos.eqb]. by replace (0 <? Z.of_nat (length (g_hist s))) with true by lia.
Qed.
Lemma ups n s i :
  g_hist_idx s = i -> Z.of_nat n <= i -> (0 < length (g_hist s))%nat ->
  times n hist_up s = if (n =? 0)%nat then s
    else with_edit (g_hist s) (i - Z.of_nat n) (g_saved_input s) (hist_at (g_hist s) (i - Z.of_nat n)) s.
Proof.
  revert s i; induction n as [|n IH]; intros s i Hi Hn Hl; [done|]. cbn [times Nat.eqb].
  rewrite (hist_up_from s i (g_saved_input s)) by (try done; lia).
  rewrite (IH _ (i - 1)) by (cbn [with_edit g_hist_idx g_hist]; done || lia).
  destruct n as [|n]; [done|]. cbn [Nat.eqb with_edit g_hist g_saved_input].
  replace (i - 1 - Z.of_nat (S n)) with (i - Z.of_nat (S (S n))) by lia. done.
Qed.
Lemma downs n s i :
  g_hist_idx s = i -> 0 <= i -> i + Z.of_nat n = Z.of_nat (length (g_hist s)) -> (0 < n)%nat ->
  times n hist_down s = with_edit (g_hist s) (-1) (g_saved_input s) (g_saved_input s) s.
Proof.
  revert s i; induction n as [|n IH]; intros s i Hi Hp Hn Hpos; [lia|]. cbn [times].
  unfold hist_down at 2. rewrite Hi. replace (i =? -1) with false by lia.
  destruct (Z.leb_spec (Z.of_nat (length (g_hist s))) (i + 1)).
  - assert (n = 0%nat) as -> by lia. done.
  - rewrite (IH _ (i + 1)) by (cbn [with_edit g_hist_idx g_hist]; done || lia). done.
Qed.

(** *** Scrollback of whole lines *)

Definition plain (c : Z) : Prop := 32 <= c /\ c <> 127.
Lemma feed_plain l s : Forall plain l -> feed_output l s = with_out (g_lines s) (g_partial s ++ l) s.
Proof.
  intros Hl. revert s; induction Hl as [|c l [Hc Hn] _ IH]; intros s; unfold feed_output in *; cbn [fold_left].
  { rewrite app_nil_r. by destruct s. }
  rewrite IH. unfold feed_byte. replace (c =? 13) with false by lia. replace (c =? 10) with false by lia.
  replace (c =? 9) with false by lia. replace ((c =? 8) || (c =? 127)) with false by lia.
  replace (32 <=? c) with true by lia. cbn [with_out g_lines g_partial]. by rewrite <- app_assoc.
Qed.
Lemma feed_line l s : Forall plain l -> g_partial s = [] ->
  feed_output (l ++ [13; 10]) s = with_out (trim MAX_SCROLLBACK (g_lines s ++ [l])) [] s.
Proof.
  intros Hl Hp. unfold feed_output. rewrite fold_left_app. fold (feed_output l s). rewrite (feed_plain l s Hl), Hp. done.
Qed.

(** ** Properties *)

(** What [draw] computes, from the whole scrollback. *)
Definition draw_ref (LINES COLS : Z) (s : client) : Z * list str :=
  let rows := Z.max 1 (LINES - 2) in
  let screen := concat (map (fun l => wrap_into l COLS) (g_lines s ++ [g_partial s])) in
  let total := Z.of_nat (length screen) in
  let scroll := Z.min (g_scroll s) (Z.max 0 (total - rows)) in
  (scroll, take (Z.to_nat rows) (drop (Z.to_nat (total - rows - scroll)) screen)).

(** Although [draw] wraps only the last few logical lines,
    the window is the slice of the fully wrapped scrollback [g_scroll] rows above
    its end, clamped at the top. *)
Theorem mipsmon_draw_window (LINES COLS : Z) (s : client) :
  0 <= g_scroll s -> draw LINES COLS s = draw_ref LINES COLS s.
Proof.
  intros Hs. unfold draw, draw_ref.
  replace (if LINES - 2 <? 1 then 1 else LINES - 2) with (Z.max 1 (LINES - 2)) by (case_test; bool_props; lia).
  set (rows := Z.max 1 (LINES - 2)). set (need := Z.to_nat (rows + g_scroll s + 4)).
  set (w := fun l => wrap_into l COLS). cbn [rev]. rewrite map_app, concat_app. cbn [map concat]. rewrite app_nil_r.
  rewrite map_app, concat_app. cbn [map concat]. rewrite app_nil_r.
  set (cut := (length (g_lines s) - (need - 1))%nat).
  replace (rev (take (need - 1) (rev (g_lines s)))) with (drop cut (g_lines s)).
  2: { exact (eq_sym (rev_take_rev (need - 1) (g_lines s))). }
  set (A := concat (map w (take cut (g_lines s)))).
  assert (Hfull : concat (map w (g_lines s)) = A ++ concat (map w (drop cut (g_lines s)))).
  { unfold A. by rewrite <- concat_app, <- map_app, take_drop. }
  rewrite Hfull, <- app_assoc. set (B := concat (map w (drop cut (g_lines s))) ++ w (g_partial s)).
  assert (HB : cut = 0%nat \/ rows + g_scroll s + 4 <= Z.of_nat (length B)).
  { destruct (decide (cut = 0%nat)) as [|Hc]; [by left|right]. unfold B. rewrite length_app.
    pose proof (length_screen (drop cut (g_lines s)) COLS) as Hlen. fold w in Hlen. rewrite length_drop in Hlen.
    pose proof (wrap_into_pos (g_partial s) COLS) as H1. fold (w (g_partial s)) in H1. unfold cut in *. lia. }
  assert (HA : cut = 0%nat -> A = []) by (intros ->; unfold A; done).
  rewrite length_app. destruct HB as [Hc|HB].
  - rewrite (HA Hc). cbn [length app Nat.add].
    set (total := Z.of_nat (length B)).
    replace (if (if rows <? total then total - rows else 0) <? g_scroll s
             then if rows <? total then total - rows else 0 else g_scroll s)
      with (Z.min (g_scroll s) (Z.max 0 (total - rows))) by (repeat case_test; bool_props; lia).
    f_equal. do 2 f_equal. case_test; bool_props; lia.
  - set (total := Z.of_nat (length B)) in *. replace (rows <? total) with true by lia.
    replace (total - rows <? g_scroll s) with false by lia.
    replace (total - rows - g_scroll s <? 0) with false by lia.
    rewrite Z.min_l by (unfold total in *; lia). f_equal. f_equal.
    rewrite drop_app_ge by lia. f_equal. unfold total. lia.
Qed.
(** A five-row terminal, scrolled two rows up over six lines. *)
Definition sample_client : client :=
  Client [chars "one"; chars "two"; chars "three"; chars "four"; chars "five"; chars "six"] (chars "seven-long") [] (-1) [] [] 2 false.
Lemma mipsmon_draw_window_witness :
  draw 5 6 sample_client = draw_ref 5 6 sample_client /\ snd (draw 5 6 sample_client) = [chars "four"; chars "five"; chars "six"].
Proof. split; [|vm_compute; reflexivity]. apply (mipsmon_draw_window 5 6 sample_client). vm_compute. discriminate. Defined.

(** Wrapping loses nothing and fills every row but the last. *)
Theorem mipsmon_wrap_rejoins (s : str) (w : Z) :
  1 <= w ->
  concat (wrap_into s w) = s /\ Forall (fun r => Z.of_nat (length r) <= w) (wrap_into s w) /\
  Forall (fun r => Z.of_nat (length r) = w) (removelast (wrap_into s w)).
Proof.
  intros Hw. unfold wrap_into. replace (w <=? 0) with false by lia. rewrite orb_false_r.
  case_test; bool_props.
  - apply bool_decide_eq_true in E as ->. split; [done|]. split; [constructor; [cbn; lia|constructor]|constructor].
  - destruct (chunks_spec (Z.to_nat w) (length s) s) as (Hc & Hf & Hr); [lia|lia|]. split; [done|].
    split; eapply List.Forall_impl; try eassumption; cbn; intros; lia.
Qed.
Lemma mipsmon_wrap_rejoins_witness :
  1 <= 4 /\ concat (wrap_into (chars "seven-long") 4) = chars "seven-long" /\ length (wrap_into (chars "seven-long") 4) = 3%nat.
Proof. split; [lia|]. split; [apply (mipsmon_wrap_rejoins (chars "seven-long") 4); lia|vm_compute; reflexivity]. Defined.

(** One iteration's inputs: terminal size, SIGINT, key, socket read. *)
Definition client_in : Type := (Z * Z) * bool * key * option str.
Definition client_step (s : client) (i : client_in) : client :=
  let '((LINES, COLS), sg, k, rd) := i in fst (fst (fst (iterate LINES COLS sg k rd s))).

(** Through any session the scrollback and the history stay
    within their limits, the history cursor stays a valid index (so
    [g_hist[g_hist_idx]] is in range) and the scroll position never goes negative. *)
Theorem mipsmon_state_safe (ins : list client_in) (s : client) :
  Forall (fun i : client_in => 1 <= fst (fst (fst (fst i)))) ins -> client_ok s -> client_ok (fold_left client_step ins s).
Proof.
  intros Hin. revert s; induction Hin as [|[[[[LINES COLS] sg] k] rd] ins HL Hin IH]; intros s Hs; cbn [fold_left]; [done|].
  apply IH. unfold client_step, iterate. cbn [fst] in HL.
  set (s1 := if sg then (with_scroll 0 (interrupt_edit s), [0x03]) else (s, [])).
  assert (H1 : client_ok (fst s1)) by (unfold s1; destruct sg; [apply with_scroll_ok; [lia|by apply interrupt_ok]|done]).
  destruct s1 as [s1' out]. cbn [fst] in H1. pose proof (on_key_ok LINES k s1' HL H1) as H2.
  destruct (on_key LINES k s1') as [[s2 sent] running]. cbn [fst] in H2.
  assert (Hfin : forall s3 (r : bool), client_ok s3 ->
    client_ok (fst (fst (fst (let '(scroll, screen) := draw LINES COLS s3 in (with_scroll scroll s3, out ++ sent, r, screen)))))).
  { intros s3 r H3. pose proof (draw_scroll_pos LINES COLS s3 (ok_scroll s3 H3)) as Hd.
    destruct (draw LINES COLS s3). cbn [fst] in *. by apply with_scroll_ok. }
  destruct rd as [[|c b]|]; apply Hfin; auto using feed_output_ok.
  apply with_scroll_ok; [apply draw_scroll_pos, ok_scroll|]; by apply push_line_ok.
Qed.
Definition sample_session : list client_in :=
  [((24, 80), false, Byte 104, None); ((24, 80), false, Byte 13, Some (chars "help" ++ [13; 10]));
   ((24, 80), false, KEY_UP, None); ((24, 80), true, KEY_PPAGE, Some [])].
Lemma mipsmon_state_safe_witness : client_ok (fold_left client_step sample_session client_init).
Proof.
  apply (mipsmon_state_safe sample_session client_init).
  - repeat (apply List.Forall_cons; [cbn [fst]; lia|]). apply List.Forall_nil.
  - constructor; cbn; unfold MAX_SCROLLBACK, MAX_HISTORY; lia.
Defined.

(** Pressing Up [n] times and Down [n] times returns
    to the line being edited, whatever is in the history. *)
Theorem mipsmon_history_roundtrip (n : nat) (s : client) :
  g_hist_idx s = -1 -> (1 <= n <= length (g_hist s))%nat ->
  let s' := times n hist_down (times n hist_up s) in
  g_input s' = g_input s /\ g_hist_idx s' = -1 /\ g_hist s' = g_hist s.
Proof.
  intros Hi Hn s'. unfold s'. destruct n as [|n]; [lia|]. cbn [times].
  rewrite hist_up_first by (done || lia). set (len := Z.of_nat (length (g_hist s))).
  set (s1 := with_edit _ _ _ _ _).
  rewrite (ups n s1 (len - 1)) by (unfold s1, len; cbn [with_edit g_hist_idx g_hist]; done || lia).
  set (s2 := if (n =? 0)%nat then s1 else _).
  assert (H2 : g_hist_idx s2 = len - 1 - Z.of_nat n /\ g_hist s2 = g_hist s /\ g_saved_input s2 = g_input s).
  { unfold s2. destruct n as [|n]; unfold s1; cbn [Nat.eqb with_edit g_hist_idx g_hist g_saved_input]; [|done].
    split; [unfold len; lia|done]. }
  destruct H2 as (K1 & K2 & K3). fold (times (S n) hist_down s2).
  change (times n hist_down (hist_down s2)) with (times (S n) hist_down s2).
  rewrite (downs (S n) s2 (len - 1 - Z.of_nat n)) by (rewrite ?K2; done || lia).
  unfold with_edit; cbn. by rewrite K2, K3.
Qed.
Lemma mipsmon_history_roundtrip_witness :
  let s := Client [] [] [chars "halt"; chars "step 5"; chars "go"] (-1) [] (chars "mem 0") 0 false in
  g_input (times 2 hist_up s) = chars "step 5" /\ g_input (times 2 hist_down (times 2 hist_up s)) = chars "mem 0".
Proof.
  intros s. split; [vm_compute; reflexivity|].
  apply (mipsmon_history_roundtrip 2 s); [vm_compute; reflexivity|cbn; lia].
Defined.

(** After any number of complete output lines the
    scrollback holds exactly the newest 20000 lines ever printed, oldest first. *)
Theorem mipsmon_scrollback_tail (ls : list str) (s : client) :
  Forall (Forall plain) ls -> g_partial s = [] -> (length (g_lines s) <= MAX_SCROLLBACK)%nat ->
  let s' := feed_output (concat (map (fun l => l ++ [13; 10]) ls)) s in
  g_lines s' = trim MAX_SCROLLBACK (g_lines s ++ ls) /\ g_partial s' = [].
Proof.
  intros Hls. revert s. induction Hls as [|l ls Hl _ IH]; intros s Hp Hlen; cbn [map concat].
  { rewrite app_nil_r, trim_short by done. done. }
  unfold feed_output. rewrite fold_left_app. fold (feed_output (l ++ [13; 10]) s). rewrite feed_line by done.
  destruct (IH (with_out (trim MAX_SCROLLBACK (g_lines s ++ [l])) [] s)) as [H1 H2];
    [done|cbn [with_out g_lines]; rewrite length_trim; lia|].
  unfold feed_output in H1, H2. rewrite H1, H2. cbn [with_out g_lines]. rewrite trim_trim_app, <- app_assoc. done.
Qed.
Lemma mipsmon_scrollback_tail_witness :
  g_lines (feed_output (concat (map (fun l => l ++ [13; 10]) [chars "a"; chars "bc"])) client_init)
  = trim MAX_SCROLLBACK (g_lines client_init ++ [chars "a"; chars "bc"]).
Proof.
  apply (mipsmon_scrollback_tail [chars "a"; chars "bc"] client_init); [|reflexivity|unfold MAX_SCROLLBACK; cbn; lia].
  change [chars "a"; chars "bc"] with [[97]; [98; 99]].
  repeat (apply List.Forall_cons; [repeat (apply List.Forall_cons; [split; [lia|discriminate]|]); apply List.Forall_nil|]).
  apply List.Forall_nil.
Defined.

(** What is drawn fits the terminal: at most [LINES - 2] output rows (one if there is no
    room), none wider than the terminal, a status bar exactly as wide, and an input row
    with the cursor inside it. *)
Theorem mipsmon_layout (LINES COLS : Z) (g_host g_port : str) (s : client) :
  1 <= COLS ->
  Forall (fun r => Z.of_nat (length r) <= COLS) (snd (draw LINES COLS s)) /\
  Z.of_nat (length (snd (draw LINES COLS s))) <= Z.max 1 (LINES - 2) /\
  Z.of_nat (length (status_row COLS g_host g_port s)) = COLS /\
  Z.of_nat (length (fst (input_row COLS s))) <= COLS /\
  match snd (input_row COLS s) with Some c => 0 <= c < COLS | None => g_raw s = true end.
Proof.
  intros HC. split_and!.
  - unfold draw. cbn [snd]. apply Forall_take, Forall_drop, Forall_concat, Forall_map, Forall_forall. intros l _.
    unfold wrap_into. rewrite (proj2 (Z.leb_gt COLS 0)), orb_false_r by lia.
    case_bool_decide; [repeat constructor; cbn; lia|].
    destruct (chunks_spec (Z.to_nat COLS) (length l) l ltac:(lia) ltac:(lia)) as (_ & Hf & _).
    eapply List.Forall_impl; [|exact Hf]. cbn. lia.
  - unfold draw. cbn [snd]. rewrite length_take. destruct (Z.ltb_spec (LINES - 2) 1); lia.
  - unfold status_row. rewrite length_app, length_take, repeat_length. lia.
  - unfold input_row. destruct (g_raw s); [cbn [fst]; rewrite length_take; lia|]. unfold draw_input. cbn [fst].
    rewrite length_take. lia.
  - unfold input_row. destruct (g_raw s) eqn:Er; [done|]. unfold draw_input. cbn [snd].
    destruct (Z.leb_spec COLS (Z.of_nat (length (chars "> " ++ g_input s)))); lia.
Qed.
Lemma mipsmon_layout_witness :
  Z.of_nat (length (status_row 40 (chars "localhost") (chars "2323") client_init)) = 40.
Proof. apply (mipsmon_layout 24 40 (chars "localhost") (chars "2323") client_init). lia. Defined.
