(* ===== verification/Session.v ===== *)
(** * Session: the monitor and its terminal client together

    sim/mipsmon.cc on one end of the socket, the TCP monitor of sim/henry_tb.cpp on
    the other.  [reply_text] is the text of the monitor's replies (the
    formats of [mon_cmd], [mon_poll] and, for [RStepped], of the step reporter of the main loop), [serve] its polling of the received bytes, [exchange] a
    round: what the client sends, and what it then shows. *)
From stdpp Require Import strings.
From S2P Require Import Prelude Printf AddressMap GuestMem Checker Monitor Mipsmon.
Open Scope Z_scope.

Definition crlf : list Z := [13; 10].
Definition hex16 (x : Z) : list Z := zpad 16 (hex (u64 x)).
Definition hex8 (x : Z) : list Z := zpad 8 (hex (u32 x)).
Definition g_mon_help : list Z :=
  chars "pc regs r<N> cp0 epc mem <hex> [n] state perf timer[N] halt go step[N] help   (Ctrl-] = console)" ++ crlf.
Definition reply_text (r : reply) : list Z :=
  match r with
  | RHello => crlf ++ chars "[henry_tb monitor] 'help'; Ctrl-] toggles console" ++ crlf ++ chars "mon> "
  | RPrompt => chars "mon> "
  | RCrLf => crlf
  | REcho c => if c =? 0 then [] else [c]
  | RRubout => [8; 32; 8]
  | RMonitor => crlf ++ chars "[monitor]" ++ crlf ++ chars "mon> "
  | RConsole => crlf ++ chars "[console]" ++ crlf
  | RToConsole => crlf ++ chars "[console -- Ctrl-] = monitor]" ++ crlf
  | RHelp => g_mon_help
  | RUnknown => chars "? (help)" ++ crlf
  | RHalted => chars "[halted]" ++ crlf
  | RRunning => chars "[running]" ++ crlf
  | RPc last_pc iss_pc cyc retired =>
      chars "rtl_last_pc=" ++ hex16 last_pc ++ chars " iss_pc=" ++ hex16 iss_pc ++ chars " cyc=" ++ dec cyc ++
      chars " retired=" ++ dec retired ++ crlf
  | RState cyc retired paused checker =>
      chars "cyc=" ++ dec cyc ++ chars " retired=" ++ dec retired ++ chars " " ++ chars (if paused then "[PAUSED]" else "[running]") ++
      chars " (checker=" ++ chars (if checker then "on" else "off") ++ chars ")" ++ crlf
  | RPerf retired cyc ipc milli =>
      chars "retired=" ++ dec retired ++ chars " cycles=" ++ dec cyc ++ chars " ipc=" ++ dec ipc ++ chars "." ++ zpad 3 (dec milli) ++ crlf
  | RNoIss cp0 => chars (if cp0 then "cp0" else "regs") ++ chars ": no ISS -- run with --checker" ++ crlf
  | RCp0 epc status cause badv index entryhi =>
      chars "epc=" ++ hex16 epc ++ chars " status=" ++ hex8 status ++ chars " cause=" ++ hex8 cause ++ chars " badv=" ++ hex16 badv ++
      chars " index=" ++ hex8 index ++ chars " entryhi=" ++ hex16 entryhi ++ crlf
  | RReg n v => chars "r" ++ dec n ++ chars "=" ++ hex16 v ++ crlf
  | RRegs n v => chars "r" ++ rpad 2 (dec n) ++ chars "=" ++ hex16 v ++ (if Z.odd n then crlf else chars "  ")
  | RMem addr (Some v) => hex8 addr ++ chars ": " ++ hex8 v ++ crlf
  | RMem addr None => hex8 addr ++ chars ": <out of range>" ++ crlf
  | RNoTimer => chars "timer: no timer IRQs logged yet" ++ crlf
  | RTimers total first last want =>
      chars "timer IRQs: " ++ dec total ++ chars " total  first=" ++ dec first ++ chars " last=" ++ dec last ++
      chars "  (last " ++ sdec want ++ chars ", cyc:+delta)" ++ crlf
  | RTimer i cyc delta => chars "  #" ++ dec i ++ chars "  cyc=" ++ dec cyc ++ chars "  +" ++ dec delta ++ crlf
  | RStep cnt => chars "[step " ++ dec cnt ++ chars " insns...]" ++ crlf
  | RStepped retired pc => chars "[stepped] retired=" ++ dec retired ++ chars " rtl_pc=" ++ hex16 pc ++ crlf ++ chars "mon> "
  end.

Section Session.
Context {R : Type}.
Variable ss : option (iss R).
Variable g_mem : mem.
Variable timer : list Z.
Abbreviation byte := (mon_byte ss g_mem timer).

(** The received bytes, one by one, and as the reads of successive polls bring them. *)
Definition serve (bs : list Z) (s : mon) : mon := fold_left byte bs s.
Definition polled (reads : list (list Z)) (s : mon) : mon :=
  fold_left (fun s b => mon_poll ss g_mem timer (PollIn false (Some b)) s) reads s.
(** What went out on the socket between two states. *)
Definition replies (s s' : mon) : list reply := drop (length (m_out s)) (m_out s').
Definition wire (s s' : mon) : list Z := concat (map reply_text (replies s s')).
Definition exchange (bs : list Z) (cs : client * mon) : client * mon :=
  let '(c, s) := cs in let s' := serve bs s in (feed_output (wire s s') c, s').

(** ** Lemmas *)

(** Replies are only ever appended. *)
Definition grows (s s' : mon) : Prop := exists rs, m_out s' = m_out s ++ rs.
Lemma grows_refl s : grows s s.
Proof. exists []. by rewrite app_nil_r. Qed.
Lemma grows_trans s1 s2 s3 : grows s1 s2 -> grows s2 s3 -> grows s1 s3.
Proof. intros [a Ha] [b Hb]. exists (a ++ b). by rewrite Hb, Ha, app_assoc. Qed.
Lemma grows_send r s s0 : grows s0 s -> grows s0 (mon_send r s).
Proof. intros H. apply (grows_trans _ s); [done|]. unfold mon_send. destruct (m_client s); [by exists [r]|apply grows_refl]. Qed.
Lemma grows_sends rs s0 : forall s, grows s0 s -> grows s0 (mon_sends rs s).
Proof. induction rs as [|r rs IH]; intros s H; cbn; [done|]. by apply IH, grows_send. Qed.
Lemma grows_same s0 s s' : m_out s' = m_out s -> grows s0 s -> grows s0 s'.
Proof. intros H [rs Hrs]. exists rs. congruence. Qed.
Lemma grows_cmd line s : grows s (mon_cmd ss g_mem timer line s).
Proof.
  unfold mon_cmd. assert (grows s (fst (mon_cmd1 ss g_mem timer (skip_sp line) s))) as H.
  { unfold mon_cmd1. repeat case_test; cbn [fst]; try destruct ss;
      try apply grows_sends; try apply grows_send; try (apply (grows_same _ s); [done|]); apply grows_refl. }
  destruct (mon_cmd1 _ _ _ _ _) as [s' [|]]; cbn [fst] in H; [by apply grows_send|done].
Qed.
Lemma grows_byte s c : grows s (byte s c).
Proof.
  unfold mon_byte. repeat case_test; try apply grows_send; try (apply (grows_same _ s); [done|apply grows_refl]); try apply grows_refl.
  match goal with |- grows _ (with_line _ _ (mon_cmd _ _ _ ?l ?x)) =>
    apply (grows_same _ (mon_cmd ss g_mem timer l x)); [done|]; apply (grows_trans _ x); [|apply grows_cmd] end.
  eapply (grows_same _ (mon_send RCrLf s)); [done|]. apply grows_send, grows_refl.
Qed.
Lemma grows_serve bs : forall s, grows s (serve bs s).
Proof.
  induction bs as [|b bs IH]; intros s; [apply grows_refl|]. exact (grows_trans _ _ _ (grows_byte s b) (IH (byte s b))).
Qed.
Lemma replies_trans s1 s2 s3 : grows s1 s2 -> grows s2 s3 -> replies s1 s3 = replies s1 s2 ++ replies s2 s3.
Proof.
  intros [a Ha] [b Hb]. unfold replies. rewrite Hb, Ha. rewrite <- app_assoc, !drop_app_length.
  rewrite app_assoc, drop_app_length. done.
Qed.
Lemma feed_app a b c : feed_output (a ++ b) c = feed_output b (feed_output a c).
Proof. unfold feed_output. apply fold_left_app. Qed.
Lemma wire_trans s1 s2 s3 : grows s1 s2 -> grows s2 s3 -> wire s1 s3 = wire s1 s2 ++ wire s2 s3.
Proof. intros H1 H2. unfold wire. by rewrite (replies_trans s1 s2 s3), map_app, concat_app. Qed.
(** The exchange does not depend on how the bytes are cut into reads. *)
Lemma exchange_app a b cs : exchange (a ++ b) cs = exchange b (exchange a cs).
Proof.
  destruct cs as [c s]. unfold exchange. assert (serve (a ++ b) s = serve b (serve a s)) as -> by apply fold_left_app.
  by rewrite (wire_trans s (serve a s)), feed_app by apply grows_serve.
Qed.
Lemma cmd_client line s : m_client (mon_cmd ss g_mem timer line s) = m_client s.
Proof.
  unfold mon_cmd. assert (forall rs s, m_client (mon_sends rs s) = m_client s) as Hs.
  { induction rs as [|r rs IH]; intros x; cbn; [done|]. rewrite IH. apply mon_send_client. }
  assert (m_client (fst (mon_cmd1 ss g_mem timer (skip_sp line) s)) = m_client s) as H.
  { unfold mon_cmd1. repeat case_test; cbn [fst]; try destruct ss; rewrite ?Hs, ?mon_send_client; done. }
  destruct (mon_cmd1 _ _ _ _ _) as [s' [|]]; cbn [fst] in H; [by rewrite mon_send_client|done].
Qed.
Lemma byte_client s c : m_client (byte s c) = m_client s.
Proof. unfold mon_byte. repeat case_test; rewrite ?mon_send_client; cbn; rewrite ?cmd_client; cbn; rewrite ?mon_send_client; done. Qed.
Lemma serve_client bs : forall s, m_client (serve bs s) = m_client s.
Proof. induction bs as [|b bs IH]; intros s; [done|]. cbn. unfold serve in IH. rewrite IH. apply byte_client. Qed.
Lemma polled_serve reads : forall s, m_client s = true -> Forall (fun b => b <> []) reads -> polled reads s = serve (concat reads) s.
Proof.
  induction reads as [|b reads IH]; intros s Hc Hne; [done|]. inversion_clear Hne. cbn [concat].
  unfold serve. rewrite fold_left_app. change (polled (b :: reads) s) with (polled reads (mon_poll ss g_mem timer (PollIn false (Some b)) s)).
  assert (mon_poll ss g_mem timer (PollIn false (Some b)) s = serve b s) as -> by (unfold mon_poll; rewrite Hc; by destruct b).
  apply IH; [by rewrite serve_client|done].
Qed.

(** *** The echo *)

(** Keys of a command line: characters the terminal shows, and the two rubouts. *)
Definition shows (c : Z) : Prop := 32 <= c < 256 /\ c <> 127.
Definition rubout (c : Z) : Prop := c = 8 \/ c = 127.
Definition line_key_byte (c : Z) : Prop := shows c \/ rubout c.
(** The client shows, after [p], what has been typed of the monitor's line. *)
Definition echoed (p : list Z) (c : client) (s : mon) : Prop := g_partial c = p ++ typed s.
Definition typing (s : mon) : Prop := mon_wf s /\ m_client s = true /\ m_cmd_mode s = true.

Lemma feed_rubout p x c : g_partial c = p ++ [x] ->
  feed_output [8; 32; 8] c = with_out (g_lines c) p c.
Proof.
  assert (forall y, take (length (p ++ [y]) - 1) (p ++ [y]) = p) as H
    by (intros y; rewrite length_app; cbn [length]; by rewrite Nat.add_sub, take_app_length).
  intros Hp. transitivity (feed_byte (feed_byte (feed_byte c 8) 32) 8); [done|].
  assert (feed_byte c 8 = with_out (g_lines c) p c) as -> by (unfold feed_byte; cbn [Z.eqb Pos.eqb orb]; by rewrite Hp, H).
  change (feed_byte (with_out (g_lines c) p c) 32) with (with_out (g_lines c) (p ++ [32]) c).
  unfold feed_byte. cbn [Z.eqb Pos.eqb orb with_out g_partial g_lines]. by rewrite H.
Qed.
Lemma wire_send r s : m_client s = true -> wire s (mon_send r s) = reply_text r.
Proof.
  intros Hc. unfold wire, replies, mon_send. rewrite Hc. cbn [m_out]. rewrite drop_app_length. cbn. apply app_nil_r.
Qed.
Lemma wire_same s : wire s s = [].
Proof. unfold wire, replies. rewrite drop_ge by lia. done. Qed.
Lemma feed_nil c : feed_output [] c = c.
Proof. done. Qed.
Lemma with_out_partial c p : g_partial (with_out (g_lines c) p c) = p.
Proof. done. Qed.

(** A key: the replies it causes, and the typed line. *)
Lemma type_key c s : typing s -> shows c ->
  byte s c = if (m_len s <? LINE_SIZE - 1)%nat then mon_send (REcho c) (with_line (<[m_len s := c]> (m_line s)) (S (m_len s)) s) else s.
Proof.
  intros (_ & _ & Hm) [Hc Hc']. unfold mon_byte. rewrite Hm. replace (c =? 0x1d) with false by lia.
  replace ((c =? 13) || (c =? 10)) with false by lia. replace ((c =? 0x7f) || (c =? 8)) with false by lia. done.
Qed.
Lemma rub_key c s : typing s -> rubout c ->
  byte s c = if (0 <? m_len s)%nat then mon_send RRubout (with_line (m_line s) (m_len s - 1) s) else s.
Proof. intros (_ & _ & Hm) Hc. unfold mon_byte. rewrite Hm. by destruct Hc as [-> | ->]. Qed.
Lemma typing_byte s c : typing s -> line_key_byte c -> typing (byte s c).
Proof.
  intros Ht Hc. pose proof Ht as (Hwf & Hcl & Hm). split; [by apply mon_byte_wf|]. split; [by rewrite byte_client|].
  destruct Hc as [Hc|Hc]; [rewrite type_key by done|rewrite rub_key by done]; case_test; rewrite ?mon_send_cmd_mode; done.
Qed.
Lemma echo_key p c b s : typing s -> line_key_byte b -> echoed p c s ->
  let '(c', s') := exchange [b] (c, s) in
  echoed p c' s' /\ g_lines c' = g_lines c /\ g_input c' = g_input c /\ g_raw c' = g_raw c.
Proof.
  intros Ht Hb He. pose proof Ht as ((Hl & Hn) & Hcl & Hm). unfold exchange, serve. cbn [fold_left]. unfold echoed in *.
  destruct Hb as [Hb|Hb]; [rewrite type_key by done|rewrite rub_key by done].
  - case_test; [|by rewrite wire_same]. bool_props. set (s1 := with_line _ _ s).
    assert (wire s (mon_send (REcho b) s1) = [b]) as ->.
    { change (wire s (mon_send (REcho b) s1)) with (wire s1 (mon_send (REcho b) s1)).
      rewrite wire_send by done. cbn. by replace (b =? 0) with false by (unfold shows in Hb; lia). }
    rewrite feed_plain by (repeat constructor; unfold shows in Hb; lia). split; [|done]. cbn [with_out g_partial].
    rewrite He, <- app_assoc. f_equal. unfold typed.
    rewrite (proj1 (mon_send_line _ _)), (proj2 (mon_send_line _ _)). cbn [s1 with_line m_line m_len].
    rewrite (take_S_r _ _ b) by (apply list_lookup_insert_eq; lia). by rewrite take_insert_ge by lia.
  - destruct (Nat.ltb_spec 0 (m_len s)); [|by rewrite wire_same]. set (s1 := with_line _ _ s).
    assert (wire s (mon_send RRubout s1) = [8; 32; 8]) as ->
      by (change (wire s (mon_send RRubout s1)) with (wire s1 (mon_send RRubout s1)); by rewrite wire_send).
    destruct (lookup_lt_is_Some_2 (m_line s) (m_len s - 1) ltac:(lia)) as [x Hx].
    assert (typed s = take (m_len s - 1) (m_line s) ++ [x]) as Et.
    { unfold typed. replace (m_len s) with (S (m_len s - 1)) at 1 by lia. by rewrite (take_S_r _ _ x Hx). }
    rewrite (feed_rubout (p ++ take (m_len s - 1) (m_line s)) x) by (by rewrite He, Et, app_assoc).
    split; [|done]. rewrite with_out_partial. unfold typed. by rewrite (proj1 (mon_send_line _ _)), (proj2 (mon_send_line _ _)).
Qed.
Lemma echo_keys p bs : forall c s, typing s -> Forall line_key_byte bs -> echoed p c s ->
  let '(c', s') := exchange bs (c, s) in
  echoed p c' s' /\ typing s' /\ g_lines c' = g_lines c /\ g_input c' = g_input c /\ g_raw c' = g_raw c.
Proof.
  induction bs as [|b bs IH]; intros c s Ht Hb He.
  { unfold exchange, serve. cbn. by rewrite wire_same. }
  inversion_clear Hb as [|? ? Hb1 Hb2]. change (b :: bs) with ([b] ++ bs). rewrite exchange_app.
  pose proof (echo_key p c b s Ht Hb1 He) as P. destruct (exchange [b] (c, s)) as [c1 s1] eqn:E.
  assert (s1 = byte s b) as -> by (unfold exchange, serve in E; cbn in E; congruence).
  destruct P as (P1 & P2 & P3 & P4). specialize (IH c1 (byte s b) (typing_byte s b Ht Hb1) Hb2 P1).
  destruct (exchange bs (c1, byte s b)) as [c2 s2]. destruct IH as (I1 & I2 & I3 & I4 & I5).
  split_and!; try done; congruence.
Qed.

(** *** A line *)

Lemma serve_typed l : forall s, typing s -> Forall shows l ->
  typed (serve l s) = take (LINE_SIZE - 1) (typed s ++ l) /\ typing (serve l s) /\ same_ctl s (serve l s).
Proof.
  induction l as [|x l IH]; intros s Ht Hl.
  { rewrite app_nil_r. split; [|by split; [|repeat split]]. rewrite take_ge; [done|]. unfold typed. rewrite length_take.
    destruct Ht as [[_ ?] _]. lia. }
  inversion_clear Hl as [|? ? Hx Hl']. change (serve (x :: l) s) with (serve l (byte s x)).
  destruct (IH (byte s x)) as (I1 & I2 & I3); [apply typing_byte; [done|by left]|done|].
  rewrite I1. rewrite type_key in * by done. destruct Ht as ((Hw & Hn) & Hcl & Hm). destruct (Nat.ltb_spec (m_len s) (LINE_SIZE - 1)).
  - split; [|split; [done|]].
    + unfold typed. rewrite (proj1 (mon_send_line _ _)), (proj2 (mon_send_line _ _)). cbn [with_line m_line m_len].
      rewrite (take_S_r _ _ x) by (apply list_lookup_insert_eq; lia). rewrite take_insert_ge by lia. by rewrite <- app_assoc.
    + pose proof (same_ctl_send (REcho x) (with_line (<[m_len s := x]> (m_line s)) (S (m_len s)) s)) as Hs.
      unfold same_ctl in *. cbn [with_line m_client m_cmd_mode m_paused m_step_to m_retired] in Hs.
      destruct Hs as (?&?&?&?&?), I3 as (?&?&?&?&?). split_and!; congruence.
  - split; [|done]. assert (length (typed s) = LINE_SIZE - 1)%nat as Hlen by (unfold typed; rewrite length_take; lia).
    by rewrite !take_app_le by lia.
Qed.
(** The byte that ends a line runs the command. *)
Definition line_done (s : mon) : mon := with_line (pending_line s) (m_len s) (mon_send RCrLf s).
Lemma enter_byte s : typing s ->
  byte s 13 = with_line (m_line (mon_cmd ss g_mem timer (pending_line s) (line_done s))) 0
                (mon_cmd ss g_mem timer (pending_line s) (line_done s)).
Proof.
  intros (_ & _ & Hm). unfold mon_byte. rewrite Hm. change (13 =? 0x1d) with false. cbn [negb].
  change ((13 =? 13) || (13 =? 10)) with true. cbv iota zeta.
  by rewrite (proj1 (mon_send_line _ _)), (proj2 (mon_send_line _ _)).
Qed.
Lemma wire_enter s : typing s ->
  wire s (byte s 13) = crlf ++ wire (line_done s) (mon_cmd ss g_mem timer (pending_line s) (line_done s)).
Proof.
  intros Ht. rewrite enter_byte by done. destruct Ht as (_ & Hcl & _).
  set (x := mon_cmd _ _ _ _ _). change (wire s (with_line (m_line x) 0 x)) with (wire s x).
  assert (grows s (line_done s)) as G by (apply (grows_same _ (mon_send RCrLf s)); [done|apply grows_send, grows_refl]).
  rewrite (wire_trans s (line_done s) x); [|done|apply grows_cmd]. f_equal.
  change (wire s (line_done s)) with (wire s (mon_send RCrLf s)). by rewrite wire_send.
Qed.
(** Output only touches the scrollback and the open line. *)
Lemma feed_keeps b : forall c, exists ls p, feed_output b c = with_out ls p c.
Proof.
  unfold feed_output. induction b as [|x b IH]; intros c; cbn; [by exists (g_lines c), (g_partial c); destruct c|].
  assert (exists ls p, feed_byte c x = with_out ls p c) as (ls & p & ->).
  { unfold feed_byte. repeat case_test; eauto; by exists (g_lines c), (g_partial c); destruct c. }
  destruct (IH (with_out ls p c)) as (ls' & p' & ->). by exists ls', p'.
Qed.
Lemma feed_crlf c : feed_output crlf c = with_out (trim MAX_SCROLLBACK (g_lines c ++ [g_partial c])) [] c.
Proof. done. Qed.

(** Outside command mode the bytes are thrown away, up to the next Ctrl-]. *)
Lemma console_input_dropped bs s : m_cmd_mode s = false -> ~ In 0x1d bs -> serve bs s = s.
Proof.
  intros Hm. unfold serve. induction bs as [|b bs IH]; intros H; [done|]. cbn [fold_left].
  assert (byte s b = s) as ->; [|apply IH; intros ?; apply H; by right].
  unfold mon_byte. rewrite Hm. by replace (b =? 0x1d) with false by (symmetry; apply Z.eqb_neq; intros ->; apply H; by left).
Qed.

(** ** Properties *)

(** C29.  What you see is what will run.  Whatever characters and rubouts reach the monitor's
    command line, and however the socket cuts them into reads, the client shows after
    the prompt exactly the line the monitor holds, at the 511-character limit included. *)
Theorem echo_faithful (p : list Z) (reads : list (list Z)) (c : client) (s : mon) :
  typing s -> Forall (fun b => b <> []) reads -> Forall line_key_byte (concat reads) -> g_partial c = p ++ typed s ->
  let s' := polled reads s in
  let c' := feed_output (wire s s') c in
  g_partial c' = p ++ typed s' /\ g_lines c' = g_lines c.
Proof.
  intros Ht Hne Hb He. cbv zeta. rewrite polled_serve by first [apply Ht|done].
  pose proof (echo_keys p (concat reads) c s Ht Hb He) as P. unfold exchange in P. destruct P as (P1 & _ & P2 & _). done.
Qed.

(** C28.  A command typed in the client's line mode.  Enter sends the edit line; whatever the
    reads, the monitor runs it (its first 511 characters) as the command, from the state
    the client's line found it in, and the terminal shows the line after the prompt, on
    a line of its own, followed by the replies of that command and nothing else. *)
Theorem session_command (LINES : Z) (p : list Z) (reads : list (list Z)) (c c1 : client) (sent : list Z) (running : bool) (s : mon) :
  typing s -> m_len s = 0%nat -> g_partial c = p -> g_raw c = false -> Forall shows (g_input c) ->
  g_input c <> chars "quit" -> g_input c <> chars "exit" ->
  on_key LINES KEY_ENTER c = (c1, sent, running) ->
  Forall (fun b => b <> []) reads -> concat reads = sent ->
  let s' := polled reads s in
  let line := take (LINE_SIZE - 1) (g_input c) in
  running = true /\
  exists s1 rest,
    same_ctl s s1 /\ let ran := mon_cmd ss g_mem timer (line ++ 0 :: rest) s1 in
    s' = with_line (m_line ran) 0 ran /\
    feed_output (wire s s') c1
    = feed_output (wire s1 ran) (with_out (trim MAX_SCROLLBACK (g_lines c ++ [p ++ line])) [] c1).
Proof.
  intros Ht Hlen Hp Hraw Hsh Hq He. unfold on_key. cbn [is_byte].
  change (g_raw (with_scroll 0 c)) with (g_raw c). rewrite Hraw. unfold line_key. cbn [is_enter].
  change (g_input (with_scroll 0 c)) with (g_input c). rewrite !bool_decide_eq_false_2 by done. cbn [orb].
  intros [= <- <- <-] Hne Hcat. split; [done|]. set (c1 := with_edit _ _ _ _ _). set (l := g_input c) in *.
  rewrite polled_serve by first [apply Ht|done]. rewrite Hcat.
  destruct (serve_typed l s Ht Hsh) as (T1 & T2 & T3). assert (typed s = []) as T0 by (unfold typed; by rewrite Hlen).
  rewrite T0 in T1. cbn [app] in T1. set (sl := serve l s) in *.
  destruct (pending_typed sl (proj1 T2)) as [rest Hrest]. rewrite T1 in Hrest.
  exists (line_done sl), rest. rewrite <- Hrest.
  assert (serve (l ++ [13]) s = byte sl 13) as -> by (unfold serve, sl; by rewrite fold_left_app).
  split.
  { pose proof (same_ctl_send RCrLf sl) as Hs. unfold same_ctl, line_done in *.
    cbn [with_line m_client m_cmd_mode m_paused m_step_to m_retired]. destruct Hs as (?&?&?&?&?), T3 as (?&?&?&?&?). split_and!; congruence. }
  cbv zeta. split; [by apply enter_byte|].
  rewrite (wire_trans s sl (byte sl 13)) by first [apply grows_serve|apply grows_byte].
  rewrite wire_enter, feed_app, feed_app by done. f_equal.
  pose proof (echo_keys p l c1 s Ht) as P. unfold exchange in P. fold sl in P.
  destruct P as (P1 & _ & P2 & _).
  { eapply List.Forall_impl; [|exact Hsh]. intros x Hx. by left. }
  { unfold echoed. rewrite T0, app_nil_r. exact Hp. }
  rewrite feed_crlf, P1, P2, T1. by destruct (feed_keeps (wire s sl) c1) as (ls & q & ->).
Qed.
End Session.

(** ** Examples *)

Abbreviation toy_iss := (None : option (iss unit)).
Definition prompted : client := feed_output (reply_text RHello) (connected (chars "localhost") (chars "2323")).
Definition greeted : mon := mon_poll toy_iss ∅ [] (PollIn true None) mon_start.
Definition type_line (l : str) (c : client) : client :=
  fold_left (fun c x => fst (fst (on_key 24 (Byte x) c))) l c.

Lemma greeted_typing : typing greeted.
Proof. split; [by apply mon_poll_wf; split; [|unfold LINE_SIZE; cbn; lia]|done]. Qed.
Lemma shows_all l : forallb (fun c => (32 <=? c) && (c <? 256) && negb (c =? 127)) l = true -> Forall shows l.
Proof.
  intros H. apply List.Forall_forall. intros x Hx. rewrite forallb_forall in H. specialize (H x Hx). bool_props. unfold shows. lia.
Qed.

(** A rubbed-out typo, split over three reads. *)
Lemma echo_faithful_witness :
  let s' := polled toy_iss ∅ [] [chars "pv"; [127]; chars "c"] greeted in
  let c' := feed_output (wire greeted s') prompted in
  typed s' = chars "pc" /\ g_partial c' = chars "mon> " ++ typed s' /\ g_lines c' = g_lines prompted.
Proof.
  split; [by vm_compute|].
  apply (echo_faithful toy_iss ∅ [] (chars "mon> ") [chars "pv"; [127]; chars "c"] prompted greeted).
  - exact greeted_typing.
  - by repeat constructor.
  - apply Forall_app_2; [|cbn; constructor; [by right; right|]];
      (eapply List.Forall_impl; [intros x Hx; left; exact Hx|by apply shows_all]).
  - by vm_compute.
Defined.

(** Typing [halt] pauses the machine and shows the command and its answer. *)
Definition typed_halt : client := type_line (chars "halt") prompted.
Definition halted_reads : list (list Z) := [chars "ha"; chars "lt" ++ [13]].
Definition entered : client := fst (fst (on_key 24 KEY_ENTER typed_halt)).
Definition after_halt : mon := polled toy_iss ∅ [] halted_reads greeted.
Definition halt_line : str := take (LINE_SIZE - 1) (g_input typed_halt).
Lemma session_command_witness :
  (halt_line = chars "halt" /\ m_paused after_halt = true /\
   list.last (g_lines (feed_output (wire greeted after_halt) entered)) = Some (chars "[halted]") /\
   g_partial (feed_output (wire greeted after_halt) entered) = chars "mon> ") /\
  true = true /\
  exists s1 rest,
    same_ctl greeted s1 /\ let ran := mon_cmd toy_iss ∅ [] (halt_line ++ 0 :: rest) s1 in
    after_halt = with_line (m_line ran) 0 ran /\
    feed_output (wire greeted after_halt) entered
    = feed_output (wire s1 ran) (with_out (trim MAX_SCROLLBACK (g_lines typed_halt ++ [chars "mon> " ++ halt_line])) [] entered).
Proof.
  split; [by vm_compute|].
  refine (session_command toy_iss ∅ [] 24 (chars "mon> ") halted_reads typed_halt entered (chars "halt" ++ [13]) true
            greeted greeted_typing eq_refl _ _ _ _ _ _ _ _).
  - by vm_compute.
  - by vm_compute.
  - apply shows_all. by vm_compute.
  - by vm_compute.
  - by vm_compute.
  - by vm_compute.
  - by repeat constructor.
  - by vm_compute.
Defined.

(** A control byte, which RAW mode forwards as it is: the monitor stores it in its line,
    the terminal does not show it, and the command that seems typed is unknown. *)
Example unseen_byte :
  let s' := polled toy_iss ∅ [] [0x15 :: chars "halt"] greeted in
  let c' := feed_output (wire greeted s') prompted in
  raw_key (Byte 0x15) = [0x15] /\
  g_partial c' = chars "mon> halt" /\ typed s' = 0x15 :: chars "halt" /\
  m_out (serve toy_iss ∅ [] [13] s') = m_out s' ++ [RCrLf; RUnknown; RPrompt].
Proof. by vm_compute. Qed.
