(* ===== verification/Vdma.v ===== *)
(** * Vdma: the reference model of the VDMA unit test

    sim/vdma_test/tb_vdma.cpp checks dma_engine's memory -> GIO channel against
    [ref_translate] and [ref_perform], and serves its line loads from the same
    memory image in [step].  Addresses are 32-bit and wrap; every load of the
    reference is masked to the 16 MB image. *)
From S2P Require Import Prelude AddressMap GuestMem.

Definition MEMSZ : Z := 2 ^ 24.

Record tlb4 := Tlb4 { tlb_hi : list Z; tlb_lo : list Z }.

(** First matching entry of [tlb_hi]/[tlb_lo]; the PTE is read big-endian. *)
Fixpoint translate_from (m : mem) (es : list (Z * Z)) (va : Z) : Z :=
  match es with
  | [] => va
  | (hi, lo) :: t =>
      if (va .& 0xffc00000) =? (hi .& 0xffc00000) then
        let pte_pa := u32 ((lo .& 0x03ffffc0) .<< 6) +32 (((va .& 0x003ff000) .>> 12) .<< 2) in
        let pte := be32 m pte_pa in
        u32 ((pte .& 0x03ffffc0) .<< 6) +32 (va .& 0xfff)
      else translate_from m t va
  end.
Definition ref_translate (m : mem) (tlb : tlb4) (va : Z) : Z :=
  translate_from m (zip (tlb_hi tlb) (tlb_lo tlb)) va.

(** [__builtin_bswap64]. *)
Definition bswap64 (x : Z) : Z := be_val (le_bytes 8 x).

Section Perform.
Variable g : mem.
Variable tlb : tlb4.
Definition ref_byte (va : Z) : Z := mget g (ref_translate g tlb va .& (MEMSZ - 1)).

(** [d |= (uint64_t)mem[...] << (56 - 8 * i); m++]. *)
Fixpoint gather (m d : Z) (i len : nat) : Z * Z :=
  match len with
  | O => (d, m)
  | S k => gather (m +32 1) (d .| (ref_byte m .<< (56 - 8 * Z.of_nat i))) (S i) k
  end.
(** [while(bytes > 0)]; one round per doubleword, so [bytes] is fuel enough. *)
Fixpoint bytes_loop (fuel : nat) (m : Z) (bytes : nat) : list Z * Z :=
  match fuel, bytes with
  | S f, S _ =>
      let len := Nat.min bytes 8 in
      let '(d, m) := gather m 0 0 len in
      let '(o, m) := bytes_loop f m (bytes - len) in
      (bswap64 d :: o, m)
  | _, _ => ([], m)
  end.
Variable width : nat.
(** [while(zoom > 0)]; returns [bytes] as it is left. *)
Fixpoint zoom_loop (zoom : nat) (m : Z) (bytes : nat) : list Z * Z * nat :=
  match zoom with
  | O => ([], m, bytes)
  | S z =>
      let '(o, m) := bytes_loop bytes m bytes in
      let m := if (0 <? z)%nat then m -32 Z.of_nat width else m in
      let '(o', m, b) := zoom_loop z m width in
      (o ++ o', m, b)
  end.
Variable line_zoom : nat.
Variable stride : Z.
Fixpoint lines_loop (lines zoom : nat) (m : Z) (bytes : nat) : list Z * Z :=
  match lines with
  | O => ([], m)
  | S l =>
      let '(o, m, b) := zoom_loop zoom m bytes in
      let '(o', m) := lines_loop l line_zoom (m +32 stride) b in
      (o ++ o', m)
  end.
End Perform.

Definition ref_perform (g : mem) (tlb : tlb4) (memadr size stride_r count : Z) : list Z * Z :=
  lines_loop g tlb (Z.to_nat (size .& 0xffff)) (Z.to_nat ((stride_r .>> 16) .& 0x3ff)) (s16 stride_r)
    (Z.to_nat (size .>> 16)) (Z.to_nat ((count .>> 16) .& 0x3ff)) memadr (Z.to_nat (count .& 0xffff)).

(** The load reply of [step]: 16 lanes; [None] is the "bad access" exit. *)
Definition load_reply (g : mem) (op addr : Z) : option (list Z) :=
  let nb := if op =? 5 then 64 else 16 in
  let line := Z.ldiff addr (nb - 1) in
  if (negb (op =? 4) && negb (op =? 5)) || (MEMSZ <? line +32 nb) || negb (addr .& (nb - 1) =? 0) then None
  else Some (map (fun i => if nb <=? 4 * Z.of_nat i then 0xdeadbeef else le32 g (line + 4 * Z.of_nat i)) (seq 0 16)).

(** ** Lemmas *)

(** The bytes at [len] consecutive (translated) addresses from [m]. *)
Definition span (g : mem) (tlb : tlb4) (m : Z) (len : nat) : list Z :=
  map (fun i => ref_byte g tlb (m +32 Z.of_nat i)) (seq 0 len).
Lemma span_cons g tlb m len : is_u 32 m -> span g tlb m (S len) = ref_byte g tlb m :: span g tlb (m +32 1) len.
Proof.
  intros Hm. unfold span. cbn [seq map]. f_equal.
  - f_equal. unfold is_u in Hm. rewrite u32_small; lia.
  - rewrite <- seq_shift, map_map. apply map_ext. intros i. f_equal. rewrite Nat2Z.inj_succ. word_lia.
Qed.
Lemma length_span g tlb m len : length (span g tlb m len) = len.
Proof. unfold span. by rewrite length_map, length_seq. Qed.

(** The doublewords of a byte string: eight bytes each, lane [i] = byte [i],
    the last one zero padded. *)
Fixpoint dwords (fuel : nat) (bs : list Z) : list Z :=
  match fuel, bs with
  | S f, _ :: _ => le_val (take 8 bs) :: dwords f (drop 8 bs)
  | _, _ => []
  end.
Definition row (g : mem) (tlb : tlb4) (m : Z) (len : nat) : list Z := dwords len (span g tlb m len).

Section PerformLemmas.
Variable g : mem.
Variable tlb : tlb4.
Hypothesis g_ok : mem_ok g.
Lemma ref_byte_ok va : is_u 8 (ref_byte g tlb va).
Proof. apply g_ok. Qed.

Lemma span_ok m len : bytes_ok (span g tlb m len).
Proof. apply List.Forall_forall. intros x Hx. apply in_map_iff in Hx as (i & <- & _). apply ref_byte_ok. Qed.

(** [gather] lays the bytes out big-endian from the top of [d]. *)
Lemma gather_spec len : forall m d i,
  is_u 32 m -> (i + len <= 8)%nat -> 0 <= d -> d mod 2 ^ (64 - 8 * Z.of_nat i) = 0 ->
  gather g tlb m d i len = (d + be_val (span g tlb m len) * 2 ^ (64 - 8 * Z.of_nat (i + len)), m +32 Z.of_nat len).
Proof.
  induction len as [|len IH]; intros m d i Hm Hi Hd Hz; cbn [gather].
  { change (span g tlb m 0) with (@nil Z). change (be_val []) with 0. f_equal; [lia|]. unfold is_u in Hm. rewrite u32_small; lia. }
  assert (Hm' : is_u 32 (m +32 1)) by word_lia.
  set (e := 64 - 8 * Z.of_nat (S i)). pose proof (ref_byte_ok m) as Hb.
  assert (He : 0 <= e) by (unfold e; lia).
  replace (56 - 8 * Z.of_nat i) with e by (unfold e; lia).
  replace (64 - 8 * Z.of_nat i) with (e + 8) in Hz by (unfold e; lia). rewrite Z.pow_add_r in Hz by lia.
  assert (Hlor : d .| (ref_byte g tlb m .<< e) = d + ref_byte g tlb m * 2 ^ e).
  { apply Z.mod_divide in Hz as [q ->]; [|lia]. replace (q * (2 ^ e * 2 ^ 8)) with ((q .<< 8) * 2 ^ e)
      by (rewrite Z.shiftl_mul_pow2 by lia; ring).
    rewrite <- !Z.shiftl_mul_pow2, <- Z.shiftl_lor by lia. rewrite lor_shiftl_add by (unfold is_u in Hb; lia).
    rewrite !Z.shiftl_mul_pow2 by lia. ring. }
  rewrite Hlor, IH.
  - rewrite span_cons by done. unfold be_val. cbn [rev]. f_equal; [|rewrite Nat2Z.inj_succ; word_lia].
    assert (Happ : forall xs b, le_val (xs ++ [b]) = le_val xs + b * 256 ^ Z.of_nat (length xs)).
    { induction xs as [|x xs IHx]; intros b; cbn [app le_val length]; [change (256 ^ Z.of_nat 0) with 1; lia|].
      rewrite IHx, Nat2Z.inj_succ, Z.pow_succ_r by lia. ring. }
    rewrite Happ, length_rev, length_span. replace (S i + len)%nat with (i + S len)%nat by lia.
    replace (256 ^ Z.of_nat len) with (2 ^ (8 * Z.of_nat len)) by (rewrite Z.pow_mul_r by lia; done).
    replace (2 ^ e) with (2 ^ (8 * Z.of_nat len) * 2 ^ (64 - 8 * Z.of_nat (i + S len)))
      by (rewrite <- Z.pow_add_r by lia; f_equal; unfold e; lia). ring.
  - done.
  - lia.
  - unfold is_u in Hb. nia.
  - fold e. rewrite Z.add_mod, Z.mod_mul, Z.add_0_r by lia.
    apply Z.mod_divide in Hz as [q ->]; [|lia]. replace (q * (2 ^ e * 2 ^ 8)) with (q * 2 ^ 8 * 2 ^ e) by ring.
    by rewrite Z.mod_mul, Z.mod_0_l by lia.
Qed.

Lemma bswap64_row bs :
  bytes_ok bs -> (length bs <= 8)%nat -> bswap64 (be_val bs * 2 ^ (64 - 8 * Z.of_nat (length bs))) = le_val bs.
Proof.
  intros Hb Hl. set (k := (8 - length bs)%nat).
  assert (Hrep : forall j xs, le_val (repeat 0 j ++ xs) = 256 ^ Z.of_nat j * le_val xs).
  { induction j as [|j IH]; intros xs; cbn [repeat app le_val]; [change (256 ^ Z.of_nat 0) with 1; lia|].
    rewrite IH, Nat2Z.inj_succ, Z.pow_succ_r by lia. ring. }
  assert (Hz : forall j, rev (repeat 0 j) = repeat 0 j).
  { induction j as [|j IH]; [done|]. cbn [repeat rev]. by rewrite IH, <- repeat_cons. }
  replace (be_val bs * 2 ^ (64 - 8 * Z.of_nat (length bs))) with (le_val (repeat 0 k ++ rev bs)).
  2: { rewrite Hrep. unfold be_val. replace (2 ^ (64 - 8 * Z.of_nat (length bs))) with (256 ^ Z.of_nat k); [ring|].
       change 256 with (2 ^ 8). rewrite <- Z.pow_mul_r by lia. f_equal. unfold k. lia. }
  unfold bswap64. replace 8%nat with (length (repeat 0 k ++ rev bs)) by (rewrite length_app, repeat_length, length_rev; unfold k; lia).
  rewrite le_bytes_le_val.
  - unfold be_val. rewrite rev_app_distr, rev_involutive, Hz.
    assert (Happ : forall xs, le_val (xs ++ repeat 0 k) = le_val xs).
    { induction xs as [|x xs IH]; cbn [app le_val]; [rewrite <- (app_nil_r (repeat 0 k)), Hrep; cbn; lia|by rewrite IH]. }
    apply Happ.
  - apply Forall_app_2; [|by apply Forall_rev]. apply List.Forall_forall. intros x Hx.
    apply repeat_spec in Hx as ->. by vm_compute.
Qed.

Lemma span_split m len k :
  is_u 32 m -> span g tlb m (k + len) = span g tlb m k ++ span g tlb (m +32 Z.of_nat k) len.
Proof.
  revert m; induction k as [|k IH]; intros m Hm; cbn [Nat.add].
  { change (span g tlb m 0) with (@nil Z). cbn [app]. unfold is_u in Hm. rewrite u32_small by lia. f_equal. lia. }
  rewrite !span_cons by done. rewrite IH by word_lia. cbn [app]. do 3 f_equal. rewrite Nat2Z.inj_succ. word_lia.
Qed.

Lemma bytes_loop_spec fuel : forall m bytes,
  is_u 32 m -> (bytes <= fuel)%nat -> bytes_loop g tlb fuel m bytes = (row g tlb m bytes, m +32 Z.of_nat bytes).
Proof.
  assert (Hdw : forall f f' bs, (length bs <= f)%nat -> (length bs <= f')%nat -> dwords f bs = dwords f' bs).
  { induction f as [|f IH]; intros [|f'] [|b bs] H1 H2; cbn [length] in *; try done; try lia. cbn [dwords]. f_equal.
    apply IH; rewrite length_drop; cbn [length]; lia. }
  induction fuel as [|fuel IH]; intros m bytes Hm Hb.
  { assert (bytes = 0%nat) as -> by lia. cbn. unfold row; cbn. f_equal. unfold is_u in Hm. rewrite u32_small; lia. }
  destruct bytes as [|bytes].
  { cbn. unfold row; cbn. f_equal. unfold is_u in Hm. rewrite u32_small; lia. }
  cbn [bytes_loop]. set (n := S bytes) in *. set (len := Nat.min n 8).
  rewrite (gather_spec len m 0 0 Hm ltac:(lia) ltac:(lia) ltac:(done)).
  rewrite IH by (unfold len, n in *; lia || word_lia). f_equal.
  - unfold row at 2. unfold n at 2. cbn [dwords]. fold n.
    pose proof (length_span g tlb m n) as Hlen. destruct (span g tlb m n) as [|b0 bt] eqn:Es; [by unfold n in Hlen|].
    rewrite <- Es.
    assert (Esp : span g tlb m n = span g tlb m len ++ span g tlb (m +32 Z.of_nat len) (n - len))
      by (rewrite <- span_split by done; f_equal; unfold len; lia). rewrite Esp. clear Esp Es Hlen.
    destruct (decide (n <= 8)%nat) as [H8|H8].
    + assert (len = n) as -> by (unfold len; lia). rewrite Nat.sub_diag. change (span g tlb (m +32 Z.of_nat n) 0) with (@nil Z).
      rewrite app_nil_r, take_ge, drop_ge by (rewrite length_span; lia). rewrite Z.add_0_l, Nat.add_0_l.
      rewrite <- (length_span g tlb m n) at 2. rewrite bswap64_row by (apply span_ok || rewrite length_span; lia).
      f_equal. by destruct bytes.
    + assert (len = 8%nat) as -> by (unfold len; lia).
      rewrite take_app_length', drop_app_length' by (by rewrite length_span). rewrite Z.add_0_l, Nat.add_0_l.
      change 8%nat with (Z.to_nat 8) at 2. rewrite <- (length_span g tlb m 8) at 2.
      rewrite bswap64_row by (apply span_ok || rewrite length_span; lia). f_equal. unfold row.
      apply Hdw; rewrite length_span; unfold n; lia.
  - unfold len. word_lia.
Qed.
End PerformLemmas.

Section Rows.
Variable g : mem.
Variable tlb : tlb4.
Hypothesis g_ok : mem_ok g.
Variables width line_zoom : nat.
Variable stride : Z.

(** One displayed line: its first (possibly partial) row, then the zoomed copies
    of the whole row that ends where the first one did. *)
Definition zoomed (m : Z) (bytes zoom : nat) : list Z :=
  row g tlb m bytes ++ concat (repeat (row g tlb (u32 (m + Z.of_nat bytes - Z.of_nat width)) width) (zoom - 1)).

Lemma zoom_loop_rows zoom : forall m,
  is_u 32 m -> zoom_loop g tlb width zoom m width =
    (concat (repeat (row g tlb m width) zoom), if (zoom =? 0)%nat then m else m +32 Z.of_nat width, width).
Proof.
  induction zoom as [|zoom IH]; intros m Hm; cbn [zoom_loop]; [done|].
  rewrite (bytes_loop_spec g tlb g_ok) by (done || lia). cbn [Nat.eqb repeat concat].
  destruct (0 <? zoom)%nat eqn:E.
  - replace (m +32 Z.of_nat width -32 Z.of_nat width) with m by (unfold is_u in Hm; word_lia).
    rewrite IH by done. apply Nat.ltb_lt in E. by destruct zoom; [lia|].
  - apply Nat.ltb_ge in E. assert (zoom = 0%nat) as -> by lia. done.
Qed.
Lemma zoom_loop_first zoom m bytes :
  is_u 32 m -> (1 <= zoom)%nat ->
  zoom_loop g tlb width zoom m bytes = (zoomed m bytes zoom, m +32 Z.of_nat bytes, width).
Proof.
  intros Hm Hz. destruct zoom as [|zoom]; [lia|]. cbn [zoom_loop].
  rewrite (bytes_loop_spec g tlb g_ok) by (done || lia). unfold zoomed. rewrite Nat.sub_succ, Nat.sub_0_r.
  destruct (0 <? zoom)%nat eqn:E.
  - rewrite zoom_loop_rows by word_lia. apply Nat.ltb_lt in E. destruct zoom as [|zoom]; [lia|]. cbn [Nat.eqb].
    replace (m +32 Z.of_nat bytes -32 Z.of_nat width) with (u32 (m + Z.of_nat bytes - Z.of_nat width)) by word_lia.
    do 2 f_equal. word_lia.
  - apply Nat.ltb_ge in E. assert (zoom = 0%nat) as -> by lia. cbn. done.
Qed.

(** The rows of the whole lines that follow the first one. *)
Definition line_at (m : Z) (l : nat) : Z := u32 (m + Z.of_nat l * (Z.of_nat width + stride)).
(** Lines that show nothing: only the stride is added, [bytes] is kept. *)
Lemma lines_loop_blank lines : forall m bytes,
  is_u 32 m -> line_zoom = 0%nat ->
  lines_loop g tlb width line_zoom stride lines 0 m bytes = ([], u32 (m + Z.of_nat lines * stride)).
Proof.
  induction lines as [|lines IH]; intros m bytes Hm Hz; cbn [lines_loop zoom_loop].
  { f_equal. unfold is_u in Hm. rewrite u32_small; lia. }
  rewrite Hz in *. rewrite IH by (done || word_lia). cbn [app]. f_equal. rewrite Nat2Z.inj_succ, Z.mul_succ_l.
  generalize (Z.of_nat lines * stride). intros q. word_lia.
Qed.
Lemma line_at_next m l : line_at (m +32 Z.of_nat width +32 stride) l = line_at m (S l).
Proof.
  unfold line_at. rewrite Nat2Z.inj_succ, Z.mul_succ_l. generalize (Z.of_nat l * (Z.of_nat width + stride)).
  intros q. word_lia.
Qed.
Definition whole_lines (m : Z) (lines : nat) : list Z :=
  concat (map (fun l => concat (repeat (row g tlb (line_at m l) width) line_zoom)) (seq 0 lines)).
Lemma lines_loop_rows lines : forall m,
  is_u 32 m -> (1 <= line_zoom)%nat ->
  lines_loop g tlb width line_zoom stride lines line_zoom m width
  = (whole_lines m lines, line_at m lines).
Proof.
  induction lines as [|lines IH]; intros m Hm Hz; cbn [lines_loop].
  { unfold whole_lines, line_at. cbn [seq map concat]. f_equal. unfold is_u in Hm. rewrite u32_small; lia. }
  rewrite zoom_loop_rows by done. replace (line_zoom =? 0)%nat with false by (symmetry; apply Nat.eqb_neq; lia).
  rewrite IH by (word_lia || lia). unfold whole_lines. cbn [seq map concat]. f_equal.
  - f_equal; [unfold line_at; do 3 f_equal; unfold is_u in Hm; rewrite u32_small; lia|].
    rewrite <- seq_shift, map_map. f_equal. apply map_ext. intros l. do 3 f_equal. apply line_at_next.
  - apply line_at_next.
Qed.
(** What follows the first displayed line, and where it ends; without a line zoom the
    lines after it show nothing and advance by the stride alone. *)
Definition line_end (m : Z) (l : nat) : Z :=
  if (line_zoom =? 0)%nat then u32 (m + Z.of_nat l * stride) else line_at m l.
Lemma lines_loop_rest lines m : is_u 32 m ->
  lines_loop g tlb width line_zoom stride lines line_zoom m width = (whole_lines m lines, line_end m lines).
Proof.
  intros Hm. unfold line_end. destruct (Nat.eqb_spec line_zoom 0) as [Hz|Hz]; [|by apply lines_loop_rows; [|lia]].
  rewrite Hz at 2. rewrite lines_loop_blank by done. f_equal. unfold whole_lines. rewrite Hz.
  generalize 0%nat at 2. induction lines as [|l IH]; intros a; [done|]. cbn [seq map concat repeat]. apply IH.
Qed.
End Rows.

(** *** Load replies *)

Lemma le_val_byte bs j : bytes_ok bs -> (le_val bs .>> (8 * Z.of_nat j)) .& 0xff = nth j bs 0.
Proof.
  intros H. rewrite land_ff, Z.shiftr_div_pow2 by lia. revert j; induction H as [|b bs Hb _ IH]; intros j; cbn [le_val].
  { destruct j; by rewrite Z.div_0_l by (apply Z.pow_nonzero; lia). }
  unfold is_u in Hb. destruct j as [|j]; cbn [nth].
  - change (2 ^ (8 * Z.of_nat 0)) with 1. rewrite Z.div_1_r. rewrite Z.mul_comm, Z.mod_add by lia. apply Z.mod_small. lia.
  - rewrite <- IH. f_equal. replace (8 * Z.of_nat (S j)) with (8 + 8 * Z.of_nat j) by lia. rewrite Z.pow_add_r by lia.
    rewrite <- Z.div_div by lia. f_equal. change (2 ^ 8) with 256.
    rewrite Z.mul_comm, Z.div_add, Z.div_small by lia. lia.
Qed.

(** ** Properties *)

(** C30.  The reference transfer is rows of pixels, for every setting of its registers:
    the current line's remaining bytes and its zoomed repeats, then every following line
    [width + stride] bytes further on, each repeated [line_zoom] times; DMA_MEMADR ends at
    the address of the line after the last.  It covers transfers resumed in the middle of a
    row, and the 32-bit wrap of every address.  A current line with zoom 0 shows nothing:
    only the stride is added, and the remaining bytes are those of the next line, which is
    shown [line_zoom] times.  With line_zoom 0 the following lines show nothing and add the
    stride each; a transfer without a line to show returns no data. *)
Theorem vdma_rows (g : mem) (tlb : tlb4) (memadr size stride_r count : Z) :
  mem_ok g -> is_u 32 memadr ->
  let lines := Z.to_nat (size .>> 16) in let width := Z.to_nat (size .& 0xffff) in
  let stride := s16 stride_r in let lzoom := Z.to_nat ((stride_r .>> 16) .& 0x3ff) in
  let zoom := Z.to_nat ((count .>> 16) .& 0x3ff) in let bytes := Z.to_nat (count .& 0xffff) in
  (* the first displayed line: where it starts, its repeats, the lines from it on *)
  let '(start, shown, rest) := if (zoom =? 0)%nat then (memadr +32 stride, lzoom, lines - 1)%nat else (memadr, zoom, lines) in
  let next := start +32 Z.of_nat bytes +32 stride in
  ref_perform g tlb memadr size stride_r count =
  if (rest =? 0)%nat || (shown =? 0)%nat then ([], u32 (memadr + Z.of_nat lines * stride))
  else (zoomed g tlb width start bytes shown ++ whole_lines g tlb width lzoom stride next (rest - 1),
        line_end width lzoom stride next (rest - 1)).
Proof.
  intros Hg Hm lines width stride lzoom zoom bytes. unfold ref_perform. fold lines width lzoom zoom bytes stride.
  assert (forall m, is_u 32 m -> u32 (m + Z.of_nat 0 * stride) = m) as H0 by (intros m H; unfold is_u in H; rewrite u32_small; lia).
  destruct (Nat.eqb_spec zoom 0) as [Hz|Hz].
  - rewrite Hz. destruct lines as [|[|l]]; cbn [Nat.sub Nat.eqb orb lines_loop zoom_loop app].
    + by rewrite H0.
    + f_equal. word_lia.
    + destruct (Nat.eqb_spec lzoom 0) as [Hl|Hl].
      * pose proof (lines_loop_blank g tlb width lzoom stride (S (S l)) memadr bytes Hm Hl) as E. cbn [lines_loop zoom_loop app] in E.
        rewrite Hl in *. exact E.
      * rewrite zoom_loop_first by (done || word_lia || lia). rewrite Nat.sub_0_r.
        by rewrite lines_loop_rest by (done || word_lia).
  - destruct lines as [|l]; cbn [Nat.sub Nat.eqb orb]; [cbn [lines_loop]; by rewrite H0|].
    rewrite (proj2 (Nat.eqb_neq zoom 0)) by done. cbn [lines_loop].
    rewrite zoom_loop_first by (done || lia). rewrite Nat.sub_0_r. by rewrite lines_loop_rest by (done || word_lia).
Qed.
(** Two lines of ten bytes, stride 6, the second line zoomed twice, resumed four
    bytes before the end of the first. *)
Definition sample_image : mem := mput_bytes ∅ 0x1000 (map Z.of_nat (seq 1 64)).
Definition sample_tlb : tlb4 := Tlb4 (repeat 0x40000000 4) (repeat 0 4).
Lemma sample_image_ok : mem_ok sample_image.
Proof. apply mem_ok_mput; [apply mem_ok_empty|]. vm_compute. repeat constructor; discriminate. Qed.
Lemma vdma_rows_witness :
  ref_perform sample_image sample_tlb 0x1006 0x2000a 0x20006 0x10004
  = ([0x0a090807; 0x1817161514131211; 0x1a19; 0x1817161514131211; 0x1a19], 0x1020).
Proof.
  pose proof (vdma_rows sample_image sample_tlb 0x1006 0x2000a 0x20006 0x10004 sample_image_ok ltac:(by vm_compute)) as H.
  cbv zeta in H. refine (eq_trans H _). vm_compute. reflexivity.
Defined.
(** With zoom 0 for the current line, its four bytes start the next one. *)
Example vdma_zoom_0 :
  ref_perform sample_image sample_tlb 0x1006 0x2000a 0x20006 4 = ([0x100f0e0d; 0x0e0d0c0b0a090807; 0x100f], 0x1016).
Proof. by vm_compute. Qed.

(** An accepted line load of either width delivers on
    byte lane [k] exactly the image byte at [addr + k] the reference would read. *)
Theorem vdma_load_serves_image (g : mem) (op addr : Z) (lanes : list Z) (k : nat) :
  mem_ok g -> load_reply g op addr = Some lanes -> Z.of_nat k < (if op =? 5 then 64 else 16) ->
  0 <= addr -> sd_byte lanes k = mget g (addr + Z.of_nat k).
Proof.
  intros Hg. unfold load_reply. set (nb := if op =? 5 then 64 else 16).
  destruct (_ || _ || _) eqn:E; [done|]. intros Hsome Hk Ha. apply (inj Some) in Hsome. subst lanes. bool_props.
  assert (Hnb : nb = 2 ^ 6 \/ nb = 2 ^ 4) by (unfold nb; case_test; auto).
  assert (Hal : Z.ldiff addr (nb - 1) = addr).
  { apply Z.eqb_eq in H0. destruct Hnb as [-> | ->]; rewrite ldiff_ones_align, land_ones_mod in * by lia; lia. }
  rewrite Hal. match goal with |- context [map ?h (seq 0 16)] => set (f := h) end. unfold sd_byte.
  assert (Hn : (k / 4 < 16)%nat) by (apply Nat.Div0.div_lt_upper_bound; destruct Hnb as [Hx | Hx]; rewrite Hx in Hk; lia).
  assert (Hnth : nth (k / 4) (map f (seq 0 16)) 0 = le32 g (addr + 4 * Z.of_nat (k / 4))).
  { rewrite (nth_indep _ 0 (f 0%nat)) by (rewrite length_map, length_seq; done).
    rewrite map_nth, seq_nth by done. unfold f. rewrite Nat.add_0_l.
    replace (nb <=? 4 * Z.of_nat (k / 4)) with false; [done|].
    symmetry. apply Z.leb_gt. pose proof (Nat.Div0.mul_div_le k 4). lia. }
  rewrite Hnth, le32_val by done.
  rewrite le_val_byte by (by apply mget_bytes_ok).
  pose proof (Nat.mod_upper_bound k 4 ltac:(lia)). pose proof (Nat.div_mod_eq k 4).
  rewrite nth_mget_bytes by done. f_equal. lia.
Qed.
Lemma vdma_load_serves_image_witness :
  exists lanes, load_reply sample_image 5 0x1000 = Some lanes /\ sd_byte lanes 9 = mget sample_image (0x1000 + 9).
Proof.
  eexists. split; [vm_compute; reflexivity|].
  apply (vdma_load_serves_image sample_image 5 0x1000).
  - apply mem_ok_mput; [apply mem_ok_empty|]. vm_compute. repeat constructor; discriminate.
  - vm_compute. reflexivity.
  - vm_compute. reflexivity.
  - vm_compute. discriminate.
Defined.
