(* ===== verification/VdmaBench.v ===== *)
(** * VdmaBench: the driver of the VDMA unit test

    main of sim/vdma_test/tb_vdma.cpp: the random TLB and page tables
    ([setup_tlb]), the cycle ([step]), the wait for the transfer ([xfer]) and the
    comparison with the reference model of [Vdma] ([verdict]).  Draws of rand()
    are inputs; the Verilated engine is a section variable. *)
From S2P Require Import Prelude AddressMap GuestMem Vdma.

(** [put_be32(pa, v)] of the bench. *)
Definition put_be32 (m : mem) (pa v : Z) : mem := mput_bytes m pa (be_bytes 4 v).

(** ** The random TLB *)
(** The draws of one entry: [rnd()] for the low bits of [tlb_hi], the page of
    PTEs, the two fields of [tlb_lo], and (frame, flags) for each PTE. *)
Record ent_draws := EntDraws { r_hi : Z; r_pt : Z; r_lo : Z; r_up : Z; r_ptes : list (Z * Z) }.
Definition entry_hi (t e r : Z) : Z :=
  u32 (0x40000000 + (e * 7 + 1 + t mod 5) * 0x00400000) .| (r .& 0x003fffff).
Definition entry_page (r : Z) : Z := (0x00100000 + (r mod 3800) * 0x1000) .& (MEMSZ - 1).
Definition entry_lo (page r1 r2 : Z) : Z := ((page .>> 6) .& 0x03ffffc0) .| (r1 .& 0x3f) .| (r2 .& 0xfc000000).
Definition pte_word (rf rl : Z) : Z :=
  let frame := 0x00010000 + (rf mod 4000) * 0x1000 in
  ((frame .>> 6) .& 0x03ffffc0) .| (rl .& 0x3f).
Fixpoint fill_ptes (m : mem) (page : Z) (k : nat) (ds : list (Z * Z)) : mem :=
  match ds with
  | [] => m
  | (rf, rl) :: t => fill_ptes (put_be32 m (page + 4 * Z.of_nat k) (pte_word rf rl)) page (S k) t
  end.
Fixpoint fill_entries (m : mem) (ds : list ent_draws) : mem :=
  match ds with
  | [] => m
  | d :: t => fill_entries (fill_ptes m (entry_page (r_pt d)) 0 (r_ptes d)) t
  end.
(** The four entries of transfer [t], with the stale duplicate of [t % 7 == 3]. *)
Definition setup_tlb (t : Z) (d0 d1 d2 d3 : ent_draws) (m : mem) : mem * tlb4 :=
  let hi := fun e d => entry_hi t e (r_hi d) in
  let lo := fun d => entry_lo (entry_page (r_pt d)) (r_lo d) (r_up d) in
  (fill_entries m [d0; d1; d2; d3],
   Tlb4 [hi 0 d0; hi 1 d1; (if t mod 7 =? 3 then hi 1 d1 else hi 2 d2); hi 3 d3] [lo d0; lo d1; lo d2; lo d3]).

(** ** The cycle *)
Record vin := VIn {
  v_memadr : Z; v_size : Z; v_stride : Z; v_count : Z; v_gio : Z; v_tlb : tlb4; v_go : bool;
  i_ready : bool; i_rsp_valid : bool; i_rsp_data : list Z }.
Record vcomb := VComb { o_rec_valid : bool; o_rec_lanes : Z; o_rec_addr : Z; o_req_valid : bool; o_req_addr : Z; o_req_op : Z }.
Record vst := VSt {
  s_cyc : Z; s_reply : Z; s_addr : Z; s_op : Z; n_loads : Z; n_bursts : Z; got : list Z; got_gio : Z }.
Section Engine.
Variable E : Type.
Variable eval : E -> bool -> vin -> E.
Variable comb : E -> vcomb.
Variable v_done : E -> bool.
Variable v_memadr_end : E -> Z.
Variable g : mem.
Variable ready_pct : Z.
(** [step()], with its two draws; [None] is the exit on a bad access. *)
Definition step (dr : Z * Z) (s : E * vin * vst) : option (E * vin * vst) :=
  let '(e, i, s) := s in
  let '(r_ready, r_lat) := dr in
  let answered := s_reply s =? s_cyc s in
  match (if answered then load_reply g (s_op s) (s_addr s) else Some (i_rsp_data i)) with
  | None => None
  | Some data =>
      let reply := if answered then -1 else s_reply s in
      let ready := r_ready mod 100 <? ready_pct in
      let i := VIn (v_memadr i) (v_size i) (v_stride i) (v_count i) (v_gio i) (v_tlb i) (v_go i) ready answered data in
      let e := eval e false i in
      let o := comb e in
      let take_ := o_rec_valid o && ready in
      let req := o_req_valid o && (reply <? 0) && negb answered in
      let s := VSt (s_cyc s + 1) (if req then s_cyc s + 1 + r_lat mod 6 else reply)
        (if req then o_req_addr o else s_addr s) (if req then o_req_op o else s_op s)
        (if answered then n_loads s + 1 else n_loads s)
        (if answered && (s_op s =? 5) then n_bursts s + 1 else n_bursts s)
        (if take_ then got s ++ [o_rec_lanes o] else got s) (if take_ then o_rec_addr o else got_gio s) in
      let e := eval e true i in
      Some (e, VIn (v_memadr i) (v_size i) (v_stride i) (v_count i) (v_gio i) (v_tlb i) false (i_ready i)
              (i_rsp_valid i) (i_rsp_data i), s)
  end.
(** [while(!done)]: the outcome is a state, a bad access, the cycle limit or
    fuel exhausted; [dr n] are the draws of the [n]-th round. *)
Inductive outcome := Done (s : E * vin * vst) | BadAccess | NoDone (s : E * vin * vst) | OutOfFuel.
Fixpoint xfer (limit t0 : Z) (dr : nat -> Z * Z) (fuel n : nat) (s : E * vin * vst) : outcome :=
  match fuel with
  | O => OutOfFuel
  | S k =>
      match step (dr n) s with
      | None => BadAccess
      | Some s =>
          let '(e, _, v) := s in
          if limit <? s_cyc v - t0 then NoDone s
          else if v_done e then Done s
          else xfer limit t0 dr k (S n) s
      end
  end.
(** The four comparisons after a transfer, in the code's order. *)
Definition verdict (s : E * vin * vst) (tlb : tlb4) (memadr size stride_r count gio : Z) : bool :=
  let '(e, _, v) := s in
  let '(exp, exp_end) := ref_perform g tlb memadr size stride_r count in
  if negb (length (got v) =? length exp)%nat then false
  else if negb (forallb (fun xy => fst xy =? snd xy) (zip (got v) exp)) then false
  else if negb (match exp with [] => true | _ => false end) && negb (got_gio v =? gio) then false
  else v_memadr_end e =? exp_end.
End Engine.
Arguments Done {E} _.
Arguments BadAccess {E}.
Arguments NoDone {E} _.
Arguments OutOfFuel {E}.

(** ** Properties: the address space of a transfer *)

Lemma land_mul64 y : 0 <= y < 2 ^ 20 -> (y * 64) .& 0x03ffffc0 = y * 64.
Proof.
  intros Hy. replace (y * 64) with (y .<< 6) by (rewrite Z.shiftl_mul_pow2 by lia; lia).
  change 0x03ffffc0 with ((2 ^ 20 - 1) .<< 6). rewrite <- Z.shiftl_land. f_equal.
  rewrite land_ones_mod by lia. apply Z.mod_small. lia.
Qed.
(** A page-aligned address packed in an entry or a PTE is read back. *)
Lemma frame_roundtrip p x y :
  0 <= p < MEMSZ -> p mod 0x1000 = 0 -> x .& 0x03ffffc0 = 0 -> y .& 0x03ffffc0 = 0 ->
  u32 ((((p .>> 6) .& 0x03ffffc0 .| x .| y) .& 0x03ffffc0) .<< 6) = p.
Proof.
  intros Hp Hal Hx Hy. unfold MEMSZ in Hp. rewrite !Z.land_lor_distr_l, Hx, Hy, !Z.lor_0_r.
  assert (p .>> 6 = p / 4096 * 64) as ->.
  { rewrite Z.shiftr_div_pow2 by lia. change (2 ^ 6) with 64. Z.to_euclidean_division_equations. lia. }
  rewrite !land_mul64 by (split; [apply Z.div_pos|apply Z.div_lt_upper_bound]; lia).
  rewrite Z.shiftl_mul_pow2 by lia. change (2 ^ 6) with 64.
  assert (p / 4096 * 64 * 64 = p) as -> by (Z.to_euclidean_division_equations; lia). apply u32_small. lia.
Qed.
Lemma land_land_0 r c d : c .& d = 0 -> (r .& c) .& d = 0.
Proof. intros H. by rewrite <- Z.land_assoc, H, Z.land_0_r. Qed.

Lemma entry_page_spec r :
  0x00100000 <= entry_page r /\ entry_page r + 0x1000 <= MEMSZ /\ entry_page r mod 0x1000 = 0.
Proof.
  unfold entry_page, MEMSZ. rewrite land_ones_mod by lia. pose proof (Z.mod_pos_bound r 3800 ltac:(lia)).
  rewrite Z.mod_small by lia. split; [lia|]. split; [lia|].
  replace (0x00100000 + r mod 3800 * 0x1000) with ((0x100 + r mod 3800) * 0x1000) by lia. by apply Z.mod_mul.
Qed.
Lemma entry_lo_page r1 r2 rp :
  u32 ((entry_lo (entry_page rp) r1 r2 .& 0x03ffffc0) .<< 6) = entry_page rp.
Proof.
  destruct (entry_page_spec rp) as (H1 & H2 & H3). apply frame_roundtrip; [lia|done|by apply land_land_0..].
Qed.
(** The frames the page tables name. *)
Definition good_pte (w : Z) : Prop :=
  exists k, 0 <= k < 4000 /\ u32 ((w .& 0x03ffffc0) .<< 6) = 0x10000 + k * 0x1000.
Lemma pte_word_spec rf rl : is_u 32 (pte_word rf rl) /\ good_pte (pte_word rf rl).
Proof.
  unfold pte_word. pose proof (Z.mod_pos_bound rf 4000 ltac:(lia)) as Hk. set (k := rf mod 4000) in *. split.
  - apply lor_bound; [lia| |].
    + replace (0x10000 + k * 0x1000) with ((k + 16) * 64 * 64) by lia.
      rewrite Z.shiftr_div_pow2 by lia. change (2 ^ 6) with 64. rewrite Z.div_mul by lia.
      rewrite land_mul64 by lia. unfold is_u. lia.
    + change 0x3f with (2 ^ 6 - 1). rewrite land_ones_mod by lia. pose proof (Z.mod_pos_bound rl (2 ^ 6) ltac:(lia)). unfold is_u. lia.
  - exists k. split; [lia|]. rewrite <- (Z.lor_0_r (_ .| _)). apply frame_roundtrip; [unfold MEMSZ; lia| |by apply land_land_0|done].
    replace (0x10000 + k * 0x1000) with ((k + 16) * 0x1000) by lia. by apply Z.mod_mul.
Qed.

(** Every word of the page tables at [ps] is a good PTE. *)
Definition pages_ok (m : mem) (ps : list Z) : Prop :=
  forall p k, p ∈ ps -> 0 <= k < 1024 -> good_pte (be32 m (p + 4 * k)).
Lemma be32_put m a w : mem_ok m -> is_u 32 w -> be32 (put_be32 m a w) a = w.
Proof.
  intros Hm Hw. unfold put_be32. rewrite be32_bytes by auto with hw.
  pose proof (mget_bytes_mput m a (be_bytes 4 w)) as H. rewrite length_be_bytes in H. rewrite H.
  apply be_val_be_bytes. unfold is_u in Hw. change (256 ^ Z.of_nat 4) with 0x100000000. lia.
Qed.
Lemma be32_put_ne m a w x : x + 4 <= a \/ a + 4 <= x -> be32 (put_be32 m a w) x = be32 m x.
Proof. intros Hx. apply be32_ext. intros y Hy. apply mget_mput_out. rewrite length_be_bytes. lia. Qed.
(** Filling one page: its words from [k] on become good, other words of aligned
    pages keep being so. *)
Lemma fill_ptes_spec ds : forall m page k,
  mem_ok m -> page mod 0x1000 = 0 -> (k + length ds <= 1024)%nat ->
  let m' := fill_ptes m page k ds in
  mem_ok m' /\
  (forall j, Z.of_nat k <= j < Z.of_nat (k + length ds) -> good_pte (be32 m' (page + 4 * j))) /\
  (forall x, x mod 4 = 0 -> good_pte (be32 m x) -> good_pte (be32 m' x)).
Proof.
  induction ds as [|[rf rl] t IH]; intros m page k Hm Hp Hk m'; subst m'; cbn [fill_ptes length] in *.
  { split; [done|]. split; [lia|done]. }
  destruct (pte_word_spec rf rl) as [Hw Hg]. set (a := page + 4 * Z.of_nat k). set (m1 := put_be32 m a _).
  assert (mem_ok m1) as Hm1 by (unfold m1, put_be32; auto with hw).
  assert (forall x, x mod 4 = 0 -> (x = a -> False) -> be32 m1 x = be32 m x) as Hne.
  { intros x Hx Hxa. apply be32_put_ne. unfold a in *. Z.to_euclidean_division_equations. lia. }
  assert (good_pte (be32 m1 a)) as Ha by (unfold m1; by rewrite be32_put).
  destruct (IH m1 page (S k) Hm1 Hp ltac:(lia)) as (H1 & H2 & H3). split; [done|]. split.
  - intros j Hj. destruct (decide (j = Z.of_nat k)) as [->|]; [|apply H2; lia].
    apply H3; [|done]. Z.to_euclidean_division_equations. lia.
  - intros x Hx Hgx. apply H3; [done|]. destruct (decide (x = a)) as [->|]; [done|]. by rewrite Hne.
Qed.
Lemma fill_entries_ok ds : forall m,
  mem_ok m -> Forall (fun d => length (r_ptes d) = 1024%nat) ds ->
  mem_ok (fill_entries m ds) /\ pages_ok (fill_entries m ds) (map (fun d => entry_page (r_pt d)) ds) /\
  (forall x, x mod 4 = 0 -> good_pte (be32 m x) -> good_pte (be32 (fill_entries m ds) x)).
Proof.
  induction ds as [|d t IH]; intros m Hm Hd; cbn [fill_entries map].
  { split; [done|]. split; [|done]. by intros p k Hp%elem_of_nil. }
  destruct (entry_page_spec (r_pt d)) as (_ & _ & Hp). assert (length (r_ptes d) = 1024%nat) as Hl by exact (Forall_inv Hd). apply Forall_inv_tail in Hd.
  destruct (fill_ptes_spec (r_ptes d) m (entry_page (r_pt d)) 0 Hm Hp ltac:(lia)) as (H1 & H2 & H3).
  destruct (IH _ H1 Hd) as (I1 & I2 & I3). split; [done|]. split; [|auto].
  intros p k [->|Hin]%elem_of_cons Hk; [|by apply I2]. apply I3; [|apply H2; lia].
  Z.to_euclidean_division_equations. lia.
Qed.

(** Regions: the upper ten bits of an address. *)
Lemma region_eq x : is_u 32 x -> x .& 0xffc00000 = x / 0x400000 * 0x400000.
Proof.
  intros Hx. unfold is_u in Hx. pose proof (Z.div_mod x 0x400000 ltac:(lia)) as Hd.
  pose proof (Z.mod_pos_bound x 0x400000 ltac:(lia)) as Hr.
  rewrite Hd at 1. rewrite (Z.mul_comm 0x400000). change 0x400000 with (2 ^ 22) at 2.
  rewrite <- lor_shiftl_add by (change (2 ^ 22) with 0x400000; lia).
  rewrite Z.land_lor_distr_l. change 0xffc00000 with ((2 ^ 10 - 1) .<< 22).
  rewrite <- Z.shiftl_land, land_ones_mod by lia. rewrite (Z.land_comm (x mod 0x400000)).
  rewrite land_shiftl_low by (change (2 ^ 22) with 0x400000; lia).
  rewrite Z.lor_0_r, Z.shiftl_mul_pow2 by lia. rewrite Z.mod_small; [done|].
  split; [apply Z.div_pos; lia|apply Z.div_lt_upper_bound; lia].
Qed.
Lemma entry_hi_spec t e r :
  0 <= e < 4 -> is_u 32 (entry_hi t e r) /\ entry_hi t e r / 0x400000 = 256 + e * 7 + 1 + t mod 5.
Proof.
  intros He. pose proof (Z.mod_pos_bound t 5 ltac:(lia)) as Ht. unfold entry_hi.
  change 0x003fffff with (2 ^ 22 - 1). rewrite land_ones_mod by lia.
  pose proof (Z.mod_pos_bound r (2 ^ 22) ltac:(lia)) as Hr. rewrite u32_small by lia.
  replace (0x40000000 + (e * 7 + 1 + t mod 5) * 0x00400000) with ((256 + e * 7 + 1 + t mod 5) .<< 22)
    by (rewrite Z.shiftl_mul_pow2 by lia; lia).
  rewrite lor_shiftl_add by lia. change (2 ^ 22) with 0x400000 in *. unfold is_u. split; [lia|].
  rewrite Z.div_add_l by lia. rewrite (Z.div_small (r mod _)) by lia. lia.
Qed.
(** The walk of the TLB: no entry of the region, or the first one's page. *)
Lemma translate_from_none m es va :
  Forall (fun hl => ((va .& 0xffc00000) =? (fst hl .& 0xffc00000)) = false) es -> translate_from m es va = va.
Proof. induction 1 as [|[hi lo] t H _ IH]; cbn in *; [done|]. by rewrite H. Qed.
Lemma translate_from_good m es va ps :
  is_u 32 va -> pages_ok m ps ->
  Forall (fun hl => exists p, p ∈ ps /\ u32 ((snd hl .& 0x03ffffc0) .<< 6) = p /\ 0 <= p /\ p + 0x1000 <= MEMSZ) es ->
  Exists (fun hl => (va .& 0xffc00000) = (fst hl .& 0xffc00000)) es ->
  exists k, 0 <= k < 4000 /\ translate_from m es va = 0x10000 + k * 0x1000 + va mod 0x1000.
Proof.
  intros Hva Hps. induction es as [|[hi lo] t IH]; intros Hf He; [by inversion He|]. cbn [translate_from].
  destruct (Z.eqb_spec (va .& 0xffc00000) (hi .& 0xffc00000)) as [Heq|Hne].
  - destruct (Forall_inv Hf) as (p & Hp & Hlo & Hp0 & Hp1). cbn [snd] in Hlo. rewrite Hlo.
    assert (((va .& 0x003ff000) .>> 12) .<< 2 = 4 * (va / 4096 mod 1024)) as ->.
    { rewrite Z.shiftr_land. change (0x003ff000 .>> 12) with (2 ^ 10 - 1).
      rewrite land_ones_mod, Z.shiftr_div_pow2, Z.shiftl_mul_pow2 by lia. change (2 ^ 12) with 4096. change (2 ^ 10) with 1024. lia. }
    pose proof (Z.mod_pos_bound (va / 4096) 1024 ltac:(lia)) as Hv. unfold MEMSZ in Hp1.
    rewrite (u32_small (p + _)) by lia. destruct (Hps p _ Hp Hv) as (k & Hk & ->).
    change 0xfff with (2 ^ 12 - 1). rewrite land_ones_mod by lia. change (2 ^ 12) with 0x1000.
    pose proof (Z.mod_pos_bound va 0x1000 ltac:(lia)). exists k. split; [done|]. apply u32_small. lia.
  - apply IH; [by apply Forall_inv_tail in Hf|]. by inversion He.
Qed.

(** C31.  The address space every transfer runs in.  After the
    set-up, stale duplicate or not, an address below 1 GB matches no entry and
    is used as it is; an address of any region an entry names translates, within
    its page, to one of the 4000 frames, so it lies inside the 16 MB image and
    the reference model's mask never folds it onto another byte. *)
Theorem vdma_setup_maps (t : Z) (d0 d1 d2 d3 : ent_draws) (m : mem) (va : Z) :
  mem_ok m -> is_u 32 va -> Forall (fun d => length (r_ptes d) = 1024%nat) [d0; d1; d2; d3] ->
  let '(g, tlb) := setup_tlb t d0 d1 d2 d3 m in
  (va < 0x40000000 -> ref_translate g tlb va = va) /\
  (forall e h, tlb_hi tlb !! e = Some h -> va / 0x400000 = h / 0x400000 ->
   exists k, 0 <= k < 4000 /\ ref_translate g tlb va = 0x10000 + k * 0x1000 + va mod 0x1000 /\
     ref_translate g tlb va .& (MEMSZ - 1) = ref_translate g tlb va).
Proof.
  intros Hm Hva Hd. unfold setup_tlb. pose proof (fill_entries_ok [d0; d1; d2; d3] m Hm Hd) as (Hg & Hps & _).
  set (g := fill_entries _ _) in *. set (hi := fun e d => entry_hi t e (r_hi d)).
  set (lo := fun d => entry_lo (entry_page (r_pt d)) (r_lo d) (r_up d)). cbn zeta.
  set (h2 := if t mod 7 =? 3 then _ else _). unfold ref_translate. cbn [tlb_hi tlb_lo zip zip_with].
  assert (exists e d, 0 <= e < 4 /\ h2 = hi e d) as (e2 & x2 & He2 & Eh2).
  { unfold h2. destruct (t mod 7 =? 3); [exists 1, d1|exists 2, d2]; (split; [lia|done]). }
  assert (forall e d, 0 <= e < 4 -> is_u 32 (hi e d) /\ hi e d / 0x400000 = 256 + e * 7 + 1 + t mod 5) as Hhi
    by (intros; by apply entry_hi_spec).
  pose proof (Z.mod_pos_bound t 5 ltac:(lia)) as Ht.
  assert (forall e d, 0 <= e < 4 -> va < 0x40000000 -> ((va .& 0xffc00000) =? (hi e d .& 0xffc00000)) = false) as Hno.
  { intros e d He Hlow. destruct (Hhi e d He) as [Hu Hq]. rewrite !region_eq, Hq by done. apply Z.eqb_neq.
    unfold is_u in Hva. Z.to_euclidean_division_equations. lia. }
  assert (forall e d, 0 <= e < 4 -> va / 0x400000 = hi e d / 0x400000 -> (va .& 0xffc00000) = (hi e d .& 0xffc00000)) as Hyes.
  { intros e d He Hq. destruct (Hhi e d He) as [Hu _]. rewrite !region_eq by done. by rewrite Hq. }
  rewrite Eh2. split.
  - intros Hlow. apply translate_from_none. repeat (apply Forall_cons_2; [apply Hno; [lia|done]|]). apply Forall_nil_2.
  - intros e h He Hq.
    edestruct (translate_from_good g [(hi 0 d0, lo d0); (hi 1 d1, lo d1); (hi e2 x2, lo d2); (hi 3 d3, lo d3)] va) as (k & Hk & E).
    + done.
    + exact Hps.
    + assert (forall d, d ∈ [d0; d1; d2; d3] -> exists p, p ∈ map (fun d => entry_page (r_pt d)) [d0; d1; d2; d3] /\
        u32 ((lo d .& 0x03ffffc0) .<< 6) = p /\ 0 <= p /\ p + 0x1000 <= MEMSZ) as Hlo.
      { intros d Hin. exists (entry_page (r_pt d)). destruct (entry_page_spec (r_pt d)) as (H1 & H2 & _).
        split; [apply list_elem_of_In, (in_map (fun d => entry_page (r_pt d))), list_elem_of_In, Hin|]. split; [apply entry_lo_page|lia]. }
      repeat (apply Forall_cons_2; [apply Hlo; rewrite list_elem_of_In; cbn; auto 6|]). apply Forall_nil_2.
    + do 4 (destruct e as [|e]; [injection He as <-; first
        [apply Exists_cons_hd; cbn [fst]; apply Hyes; [lia|done]
        |apply Exists_cons_tl, Exists_cons_hd; cbn [fst]; apply Hyes; [lia|done]
        |apply Exists_cons_tl, Exists_cons_tl, Exists_cons_hd; cbn [fst]; apply Hyes; [lia|done]
        |do 3 apply Exists_cons_tl; apply Exists_cons_hd; cbn [fst]; apply Hyes; [lia|done]]|]). done.
    + exists k. match goal with |- _ /\ ?x = _ /\ _ =>
        assert (x = 0x10000 + k * 0x1000 + va mod 0x1000) as E2 by exact E end.
      rewrite E2. split; [done|]. split; [done|]. unfold MEMSZ. rewrite land_ones_mod by lia.
      pose proof (Z.mod_pos_bound va 0x1000 ltac:(lia)). apply Z.mod_small. lia.
Qed.

(** ** Properties: the wait and the verdict *)
Section Proofs.
Context (E : Type) (eval : E -> bool -> vin -> E) (comb : E -> vcomb) (v_done : E -> bool) (v_memadr_end : E -> Z).
Context (g : mem) (ready_pct : Z).
Abbreviation step := (step E eval comb g ready_pct).
Abbreviation xfer := (xfer E eval comb v_done g ready_pct).

Lemma step_cyc dr s s' : step dr s = Some s' -> s_cyc (snd s') = s_cyc (snd s) + 1.
Proof.
  destruct s as [[e i] v], dr as [r1 r2]. unfold VdmaBench.step.
  destruct (if s_reply v =? s_cyc v then _ else _) as [data|]; [|done]. by intros [= <-].
Qed.
(** Waiting for a transfer always ends, whatever the
    engine does: within [limit + 1] cycles it reports done, a bad access or the
    cycle limit; done only within the limit, the limit only in the first cycle
    past it; and more fuel changes nothing. *)
Theorem vdma_xfer_terminates (limit t0 : Z) (dr : nat -> Z * Z) (fuel n : nat) (s : E * vin * vst) :
  0 <= limit -> t0 <= s_cyc (snd s) <= t0 + limit -> limit - (s_cyc (snd s) - t0) < Z.of_nat fuel ->
  (forall more, xfer limit t0 dr (fuel + more) n s = xfer limit t0 dr fuel n s) /\
  match xfer limit t0 dr fuel n s with
  | Done s' => v_done (fst (fst s')) = true /\ s_cyc (snd s) < s_cyc (snd s') <= t0 + limit
  | BadAccess => True
  | NoDone s' => s_cyc (snd s') = t0 + limit + 1
  | OutOfFuel => False
  end.
Proof.
  intros Hl. revert n s; induction fuel as [|fuel IH]; intros n s Hc Hf; [lia|].
  cbn [VdmaBench.xfer Nat.add]. destruct (step (dr n) s) as [s1|] eqn:Es; [|done].
  apply step_cyc in Es. destruct s1 as [[e i] v]. cbn [snd] in Es.
  destruct (Z.ltb_spec limit (s_cyc v - t0)); [cbn; split; [done|lia]|].
  destruct (v_done e) eqn:Ed; [cbn; split; [done|split; [done|lia]]|].
  destruct (IH (S n) (e, i, v)) as [H1 H2]; cbn [snd] in *; [lia..|]. split; [done|].
  destruct (xfer limit t0 dr fuel (S n) (e, i, v)); try done. destruct H2. split; [done|lia].
Qed.

(** A transfer passes exactly when the doublewords taken at
    the GIO port are those of the reference transfer, in order and in number,
    the port's address is the programmed one if anything was transferred, and
    the engine's final address is the reference's. *)
Theorem vdma_verdict_exact (s : E * vin * vst) (tlb : tlb4) (memadr size stride_r count gio : Z) :
  verdict E v_memadr_end g s tlb memadr size stride_r count gio = true <->
  let '(e, _, v) := s in
  let '(exp, exp_end) := ref_perform g tlb memadr size stride_r count in
  got v = exp /\ (exp <> [] -> got_gio v = gio) /\ v_memadr_end e = exp_end.
Proof.
  destruct s as [[e i] v]. unfold verdict. destruct (ref_perform _ _ _ _ _ _) as [exp exp_end].
  assert (forall xs ys : list Z, length xs = length ys ->
    forallb (fun xy => fst xy =? snd xy) (zip xs ys) = true <-> xs = ys) as Hz.
  { induction xs as [|x xs IH]; intros [|y ys] Hlen; try done. cbn in *. rewrite andb_true_iff, Z.eqb_eq, IH by lia.
    split; [by intros [-> ->]|by intros [= -> ->]]. }
  destruct (Nat.eqb_spec (length (got v)) (length exp)) as [Hlen|Hlen]; cbn [negb].
  - destruct (forallb _ _) eqn:Ef; cbn [negb].
    + apply Hz in Ef; [|done]. destruct exp as [|x exp]; cbn [negb andb]; rewrite ?Z.eqb_eq; [by intuition|].
      destruct (Z.eqb_spec (got_gio v) gio); cbn [negb]; rewrite ?Z.eqb_eq; [by intuition|].
      split; [done|]. intros (_ & H & _). by destruct n, (H ltac:(done)).
    + split; [done|]. intros (H & _). apply Hz in H; congruence.
  - split; [done|]. intros (H & _). by rewrite H in Hlen.
Qed.
End Proofs.

(** ** Witnesses *)
Definition toy_draws (r : Z) : ent_draws := EntDraws r r r r (repeat (r, 1) 1024).
Lemma vdma_setup_maps_witness :
  let '(g, tlb) := setup_tlb 3 (toy_draws 5) (toy_draws 77) (toy_draws 9) (toy_draws 11) ∅ in
  ref_translate g tlb 0x00123456 = 0x00123456.
Proof.
  pose proof (vdma_setup_maps 3 (toy_draws 5) (toy_draws 77) (toy_draws 9) (toy_draws 11) ∅ 0x00123456 mem_ok_empty
    ltac:(by vm_compute) ltac:(repeat (apply Forall_cons_2; [reflexivity|]); apply Forall_nil_2)) as H.
  destruct (setup_tlb 3 (toy_draws 5) (toy_draws 77) (toy_draws 9) (toy_draws 11) ∅) as [g tlb].
  destruct H as [H _]. apply H. lia.
Defined.
Lemma vdma_xfer_terminates_witness :
  match xfer nat (fun e c _ => S e) (fun _ => VComb false 0 0 false 0 0) (fun e => (6 <? e)%nat) ∅ 100 10 0
          (fun _ => (0, 0)) 11 0 (0%nat, VIn 0 0 0 0 0 (Tlb4 [] []) true false false [], VSt 0 (-1) 0 0 0 0 [] 0) with
  | Done s' => s_cyc (snd s') <= 10
  | _ => False
  end.
Proof.
  pose proof (vdma_xfer_terminates nat (fun e c _ => S e) (fun _ => VComb false 0 0 false 0 0) (fun e => (6 <? e)%nat) ∅ 100 10 0
          (fun _ => (0, 0)) 11 0 (0%nat, VIn 0 0 0 0 0 (Tlb4 [] []) true false false [], VSt 0 (-1) 0 0 0 0 [] 0)
          ltac:(lia) ltac:(cbn; lia) ltac:(cbn; lia)) as [_ H].
  vm_compute in H. vm_compute. intros C. by apply H.
Defined.
