(* ===== verification/BenchPort.v ===== *)
(** * BenchPort: the model DRAM port of the DMA unit benches

    sim/scsi_stage_test/tb_scsi_stage.cpp, sim/enet_dma_test/tb_enet_ring_dma.cpp,
    sim/enet_dma_test/tb_enet_dma.cpp and sim/scsi_dma_test/tb_scsi_dma.cpp each
    answer the engine's memory requests from a [step] function: one access in
    flight, answered [LAT] cycles after it was taken, a cycle of gap after each
    answer.  The benches differ in the address translation [at], in whether the
    line is aligned, in which opcodes store, and in whether a request equal to
    the last one is taken again; those are the parameters here.

    The two static arrays [mem] and [stg] of the staging benches are one map:
    [mem[i]] at key [i] and [stg[i]] at key [STG + i]. *)
From S2P Require Import Prelude AddressMap GuestMem.

Definition LAT : Z := 4.
Definition STG : Z := 0x1e000000.
Definition GMEMSZ : Z := 2 ^ 18.

(** [at(pa)] of the staging benches, with [STGSZ = 1 << bits]; and the plain
    [pa & (MEMSZ - 1)] of the other two. *)
Definition at_split (bits pa : Z) : Z :=
  if STG <=? pa then STG + (pa -32 STG) .& (2 ^ bits - 1) else pa .& (GMEMSZ - 1).
Definition at_mem (pa : Z) : Z := pa .& (GMEMSZ - 1).

Lemma at_split_guest bits a : 0 <= a < GMEMSZ -> at_split bits a = a.
Proof.
  unfold at_split, GMEMSZ, STG. intros Ha. rewrite (proj2 (Z.leb_gt _ _)) by lia.
  rewrite land_ones_mod by lia. by apply Z.mod_small.
Qed.

(** What the port relies on: a 16-byte line is contiguous in the arrays. *)
Class Layout (at_ : Z -> Z) : Prop := at_line :
  forall a i, is_u 32 a -> a mod 16 = 0 -> 0 <= i < 16 -> at_ (a + i) = at_ a + i.

Lemma mod_pow2_line a i b : 4 <= b -> a mod 16 = 0 -> 0 <= i < 16 -> (a + i) mod 2 ^ b = a mod 2 ^ b + i.
Proof.
  intros Hb Ha Hi. replace b with (4 + (b - 4)) by lia. rewrite Z.pow_add_r by lia.
  change (2 ^ 4) with 16. assert (0 < 2 ^ (b - 4)) by (apply Z.pow_pos_nonneg; lia).
  rewrite !Z.rem_mul_r by lia. rewrite <- (Z.add_mod_idemp_l a), Ha, Z.add_0_l, (Z.mod_small i), Z.add_0_l by lia.
  replace ((a + i) / 16) with (a / 16); [lia|].
  apply (Z.div_unique _ _ _ i); [lia|]. pose proof (Z.div_mod a 16 ltac:(lia)). lia.
Qed.
#[export] Instance at_mem_layout : Layout at_mem.
Proof. intros a i _ Ha Hi. unfold at_mem, GMEMSZ. rewrite !land_ones_mod by lia. by apply mod_pow2_line. Qed.
#[export] Instance at_split_layout bits : 4 <= bits <= 32 -> Layout (at_split bits).
Proof.
  intros Hb a i Hu Ha Hi. unfold at_split, GMEMSZ.
  assert (STG mod 16 = 0) as HS by done.
  destruct (Z.leb_spec STG a).
  - rewrite (proj2 (Z.leb_le _ _)) by lia. rewrite !land_ones_mod by lia. unfold STG in *.
    rewrite !u32_small by (unfold is_u in *; lia).
    replace (a + i - 0x1e000000) with (a - 0x1e000000 + i) by lia.
    rewrite mod_pow2_line; [lia|lia| |done]. rewrite Zminus_mod, Ha. done.
  - rewrite (proj2 (Z.leb_gt _ _)).
    + rewrite !land_ones_mod by lia. by apply mod_pow2_line.
    + unfold STG in *. pose proof (Z.div_mod a 16 ltac:(lia)). lia.
Qed.

(** [get_le32], [get_be32], [put_be32], [put_le32] of the benches. *)
Section Words.
Variable at_ : Z -> Z.
Definition get_le32 (m : mem) (pa : Z) : Z := le32 m (at_ pa).
Definition get_be32 (m : mem) (pa : Z) : Z := be32 m (at_ pa).
Definition put_be32 (m : mem) (pa v : Z) : mem := mput_bytes m (at_ pa) (be_bytes 4 v).
Definition put_le32 (m : mem) (pa v : Z) : mem := mput_bytes m (at_ pa) (le_bytes 4 v).
End Words.
(** [memset(p, v, n)]. *)
Definition memset (m : mem) (a v : Z) (n : nat) : mem := mput_bytes m a (repeat v n).

Lemma memset_ok m a v n : mem_ok m -> is_u 8 v -> mem_ok (memset m a v n).
Proof. intros Hm Hv. apply mem_ok_mput; [done|]. induction n; cbn; [apply Forall_nil_2|by apply Forall_cons_2]. Qed.
#[export] Hint Resolve memset_ok : hw.

(** The request lines of an engine and the port's statics. *)
Record req := Req { q_valid : bool; q_addr : Z; q_op : Z; q_mask : Z; q_sd : list Z }.
Record port := Port {
  p_cyc : Z; p_reply : Z; p_resp : Z; p_req : req; p_last : Z * Z }.
Definition port0 : port := Port 0 (-1) (-100) (Req false 0 0 0 []) (0xffffffff, 0xff).

Section Access.
Variable at_ : Z -> Z.
(** [aligned]: [line = req_addr & ~15]; [any]: every opcode but 4 stores. *)
Variables aligned any : bool.
Definition acc_line (q : req) : Z := if aligned then Z.ldiff (q_addr q) 15 else q_addr q.
Fixpoint store_loop (m : mem) (line : Z) (q : req) (i n : nat) : mem :=
  match n with
  | O => m
  | S k =>
      let m := if Z.testbit (q_mask q) (Z.of_nat i)
               then <[at_ (line + Z.of_nat i) := sd_byte (q_sd q) i]> m else m in
      store_loop m line q (S i) k
  end.
Definition access (m : mem) (q : req) : mem * list Z :=
  let line := acc_line q in
  if q_op q =? 4 then (m, map (fun i => get_le32 at_ m (line + 4 * Z.of_nat i)) (seq 0 4))
  else if any || (q_op q =? 7) then (store_loop m line q 0 16, [])
  else (m, []).
End Access.

(** The two halves of [step]: the answer before the falling-edge [eval], the
    acceptance after it.  [fresh] is the bench's test on the last request. *)
Section Step.
Variable acc : mem -> req -> mem * list Z.
Variable fresh : Z * Z -> req -> bool.
Definition serve (p : port) (m : mem) : port * mem * option (list Z) :=
  if p_reply p =? p_cyc p then
    let '(m, d) := acc m (p_req p) in
    (Port (p_cyc p) (-1) (p_cyc p) (p_req p) (p_last p), m, Some d)
  else (p, m, None).
Definition accept (p : port) (q : req) : port :=
  if q_valid q && (p_reply p <? 0) && (p_resp p <? p_cyc p) && fresh (p_last p) q
  then Port (p_cyc p) (p_cyc p + LAT) (p_resp p) q (q_addr q, q_op q) else p.
Definition tick (p : port) : port := Port (p_cyc p + 1) (p_reply p) (p_resp p) (p_req p) (p_last p).
(** A cycle as the port sees it, and a run. *)
Definition port_step (p : port) (m : mem) (q : req) : port * mem * option (list Z) :=
  let '(p, m, d) := serve p m in (tick (accept p q), m, d).
Fixpoint port_run (p : port) (m : mem) (qs : list req) : port * mem * list (option (list Z)) :=
  match qs with
  | [] => (p, m, [])
  | q :: t =>
      let '(p, m, d) := port_step p m q in
      let '(p, m, ds) := port_run p m t in (p, m, d :: ds)
  end.

(** ** Specification: a memory that serves one request at a time

    An idle port takes the first request it is offered (one it would not take
    again is passed over), ignores the request lines of the next [LAT] cycles
    and answers in the last of them with the access made on the memory every
    earlier access left. *)
Inductive serves : Z * Z -> mem -> list req -> list (option (list Z)) -> mem -> Prop :=
| serves_nil l m : serves l m [] [] m
| serves_idle l m q qs ds m' :
    q_valid q && fresh l q = false -> serves l m qs ds m' -> serves l m (q :: qs) (None :: ds) m'
| serves_req l m q w qs d m1 ds m' :
    q_valid q && fresh l q = true -> length w = Z.to_nat LAT -> acc m q = (m1, d) ->
    serves (q_addr q, q_op q) m1 qs ds m' ->
    serves l m (q :: w ++ qs) (repeat None (Z.to_nat LAT) ++ Some d :: ds) m'
| serves_cut l m q w :
    q_valid q && fresh l q = true -> (length w < Z.to_nat LAT)%nat ->
    serves l m (q :: w) (repeat None (S (length w))) m.
End Step.

Section Facts.
Variable acc : mem -> req -> mem * list Z.
Variable fresh : Z * Z -> req -> bool.

Lemma port_run_app p m qs qs' :
  port_run acc fresh p m (qs ++ qs') =
  let '(p, m, ds) := port_run acc fresh p m qs in
  let '(p, m, ds') := port_run acc fresh p m qs' in (p, m, ds ++ ds').
Proof.
  revert p m; induction qs as [|q qs IH]; intros p m; cbn [port_run app].
  - by destruct (port_run _ _ _ _ _) as [[??]?].
  - destruct (port_step _ _ _ _ _) as [[p1 m1] d]. rewrite IH.
    destruct (port_run _ _ _ _ qs) as [[p2 m2] ds]. by destruct (port_run _ _ _ _ _) as [[??]?].
Qed.

(** While an answer is pending the request lines are ignored. *)
Definition waiting (p : port) : Prop := 0 <= p_cyc p <= p_reply p.
Definition ready (p : port) : Prop := p_reply p = -1 /\ p_resp p < p_cyc p /\ 0 <= p_cyc p.
Definition wait (n : nat) (p : port) : port :=
  Port (p_cyc p + Z.of_nat n) (p_reply p) (p_resp p) (p_req p) (p_last p).

Lemma port_wait p m w :
  waiting p -> Z.of_nat (length w) <= p_reply p - p_cyc p ->
  port_run acc fresh p m w = (wait (length w) p, m, repeat None (length w)).
Proof.
  unfold waiting. revert p; induction w as [|q w IH]; intros p Hp Hl; cbn [length port_run repeat] in *.
  - unfold wait. rewrite Z.add_0_r. by destruct p.
  - unfold port_step, serve, accept. rewrite (proj2 (Z.eqb_neq _ _)) by lia.
    rewrite (proj2 (Z.ltb_ge (p_reply p) 0)) by lia. rewrite andb_false_r. cbn [andb].
    rewrite IH by (cbn; lia). unfold wait, tick. cbn. do 3 f_equal. lia.
Qed.
Lemma port_answer p m q :
  p_reply p = p_cyc p ->
  port_step acc fresh p m q =
  (Port (p_cyc p + 1) (-1) (p_cyc p) (p_req p) (p_last p), fst (acc m (p_req p)), Some (snd (acc m (p_req p)))).
Proof.
  intros Hp. unfold port_step, serve, accept, tick. rewrite Hp, Z.eqb_refl.
  destruct (acc m (p_req p)) as [m1 d]. cbn. rewrite (proj2 (Z.ltb_ge _ _)) by lia.
  rewrite andb_false_r. done.
Qed.
Lemma port_take p m q :
  ready p ->
  port_step acc fresh p m q =
  (if q_valid q && fresh (p_last p) q
   then Port (p_cyc p + 1) (p_cyc p + LAT) (p_resp p) q (q_addr q, q_op q) else tick p, m, None).
Proof.
  intros (Hr & Hc & H0). unfold port_step, serve, accept. rewrite Hr.
  rewrite (proj2 (Z.eqb_neq _ _)) by lia. rewrite (proj2 (Z.ltb_lt (p_resp p) _)) by lia.
  rewrite Hr. change (-1 <? 0) with true. rewrite !andb_true_r. destruct (q_valid q && fresh (p_last p) q); done.
Qed.

(** A whole transaction: taken, waited for, answered; the port is idle again. *)
Lemma port_transaction p m q w :
  ready p -> q_valid q && fresh (p_last p) q = true -> length w = Z.to_nat LAT ->
  exists p', ready p' /\ p_last p' = (q_addr q, q_op q) /\
  port_run acc fresh p m (q :: w) = (p', fst (acc m q), repeat None (Z.to_nat LAT) ++ [Some (snd (acc m q))]).
Proof.
  intros Hp Hq Hw. pose proof Hp as (Hr & Hc & H0). cbn [port_run]. rewrite port_take, Hq by done.
  destruct (rev w) as [|z w'] eqn:Ew; [apply (f_equal (@length _)) in Ew; rewrite length_rev in Ew; by rewrite Hw in Ew|].
  assert (w = rev w' ++ [z]) as -> by (by rewrite <- (rev_involutive w), Ew).
  rewrite length_app in Hw. cbn in Hw.
  rewrite port_run_app, port_wait by (unfold waiting; cbn; rewrite ?length_rev in *; unfold LAT in *; lia).
  cbn [port_run]. rewrite port_answer by (cbn; rewrite ?length_rev in *; unfold LAT in *; lia).
  eexists. split; [|split]; cycle 2.
  - cbn [p_req wait]. replace (length (rev w')) with (Z.to_nat LAT - 1)%nat by lia. reflexivity.
  - unfold ready, wait; cbn. lia.
  - done.
Qed.

(** The port refines the one-request-at-a-time memory, from any idle state and
    whatever the engine drives. *)
Lemma port_serves p m qs :
  ready p ->
  let '(_, m', ds) := port_run acc fresh p m qs in serves acc fresh (p_last p) m qs ds m'.
Proof.
  remember (length qs) as n eqn:En. revert p m qs En.
  induction (Wf_nat.lt_wf n) as [n _ IH]. intros p m qs En Hp. subst n. destruct qs as [|q t]; [constructor|].
  destruct (q_valid q && fresh (p_last p) q) eqn:Eq.
  - destruct (decide (length t < Z.to_nat LAT)%nat) as [Hl|Hl].
    + cbn [port_run]. rewrite port_take, Eq by done. destruct Hp as (Hr & Hc & H0).
      rewrite port_wait by (unfold waiting; cbn; unfold LAT in *; lia). by apply serves_cut.
    + destruct (port_transaction p m q (take (Z.to_nat LAT) t) Hp Eq) as (p' & Hp' & Hl' & Hrun).
      { rewrite length_take. lia. }
      replace (q :: t) with ((q :: take (Z.to_nat LAT) t) ++ drop (Z.to_nat LAT) t)
        by (cbn [app]; by rewrite take_drop).
      rewrite port_run_app, Hrun.
      specialize (IH (length (drop (Z.to_nat LAT) t)) ltac:(rewrite length_drop; cbn [length]; lia) p' (fst (acc m q)) _ eq_refl Hp').
      destruct (port_run acc fresh p' _ (drop _ t)) as [[p2 m2] ds]. rewrite <- app_assoc. cbn [app].
      eapply serves_req; [done| |apply surjective_pairing|by rewrite <- Hl'].
      rewrite length_take. lia.
  - cbn [port_run]. rewrite port_take, Eq by done.
    assert (ready (tick p)) as Ht by (destruct Hp as (?&?&?); unfold ready, tick; cbn; lia).
    specialize (IH (length t) ltac:(cbn; lia) (tick p) m t eq_refl Ht).
    destruct (port_run acc fresh (tick p) m t) as [[p2 m2] ds]. by constructor.
Qed.
End Facts.

(** ** The access itself *)
Section AccessFacts.
Variable at_ : Z -> Z.
Context `{!Layout at_}.
Lemma store_loop_spec m line q i n x :
  is_u 32 line -> line mod 16 = 0 -> (i + n <= 16)%nat ->
  mget (store_loop at_ m line q i n) x =
  if (at_ line + Z.of_nat i <=? x) && (x <? at_ line + Z.of_nat (i + n)) && Z.testbit (q_mask q) (x - at_ line)
  then sd_byte (q_sd q) (Z.to_nat (x - at_ line)) else mget m x.
Proof.
  intros Hu Hl. revert m i; induction n as [|n IH]; intros m i Hn; cbn [store_loop].
  - destruct (_ <=? x) eqn:E1, (x <? _) eqn:E2; cbn; bool_props; try done; lia.
  - rewrite IH by lia. rewrite at_line by (done || lia). replace (S i + n)%nat with (i + S n)%nat by lia.
    destruct (decide (x = at_ line + Z.of_nat i)) as [->|Hne].
    + replace (at_ line + Z.of_nat i - at_ line) with (Z.of_nat i) by lia. rewrite Nat2Z.id.
      rewrite (proj2 (Z.leb_gt _ _)), Z.leb_refl, (proj2 (Z.ltb_lt _ _)) by lia. cbn.
      destruct (Z.testbit (q_mask q) (Z.of_nat i)); [apply mget_insert_eq|done].
    + assert (mget (if Z.testbit (q_mask q) (Z.of_nat i)
               then <[at_ line + Z.of_nat i := sd_byte (q_sd q) i]> m else m) x = mget m x) as ->.
      { case_match; [apply mget_insert_ne; lia|done]. }
      destruct (at_ line + Z.of_nat (S i) <=? x) eqn:E1, (at_ line + Z.of_nat i <=? x) eqn:E2;
        cbn; bool_props; try done; lia.
Qed.
Lemma align16 a : is_u 32 a -> is_u 32 (Z.ldiff a 15) /\ Z.ldiff a 15 mod 16 = 0.
Proof.
  intros Ha. change 15 with (2 ^ 4 - 1). rewrite ldiff_ones_align by lia. change (2 ^ 4) with 16.
  unfold is_u in *. Z.to_euclidean_division_equations. lia.
Qed.
(** A store changes the enabled bytes of the aligned line holding the address
    and no other byte of either array. *)
Lemma access_store any m q x :
  is_u 32 (q_addr q) -> q_op q <> 4 -> any || (q_op q =? 7) = true ->
  let base := at_ (Z.ldiff (q_addr q) 15) in
  mget (fst (access at_ true any m q)) x =
  if (base <=? x) && (x <? base + 16) && Z.testbit (q_mask q) (x - base)
  then sd_byte (q_sd q) (Z.to_nat (x - base)) else mget m x.
Proof.
  intros Ha Hop Hany base. destruct (align16 _ Ha) as [Hu Hl].
  unfold access, acc_line. rewrite (proj2 (Z.eqb_neq _ _)), Hany by done. cbn [fst].
  rewrite store_loop_spec by (done || lia). rewrite Z.add_0_r. done.
Qed.
Lemma access_load any m q :
  q_op q = 4 -> is_u 32 (q_addr q) ->
  access at_ true any m q = (m, map (fun i => le32 m (at_ (Z.ldiff (q_addr q) 15) + 4 * Z.of_nat i)) (seq 0 4)).
Proof.
  intros Hop Ha. destruct (align16 _ Ha) as [Hu Hl]. unfold access, acc_line, get_le32.
  rewrite (proj2 (Z.eqb_eq _ _)) by done. f_equal.
  apply map_ext_in. intros i [_ Hi]%in_seq. by rewrite at_line by (done || lia).
Qed.
Lemma store_loop_ok m line q i n : mem_ok m -> mem_ok (store_loop at_ m line q i n).
Proof.
  revert m i; induction n as [|n IH]; intros m i Hm; cbn; [done|]. apply IH. case_match; auto with hw.
Qed.
Lemma access_ok aligned any m q : mem_ok m -> mem_ok (fst (access at_ aligned any m q)).
Proof.
  intros Hm. unfold access. destruct (q_op q =? 4); [done|]. destruct (any || _); [|done]. cbn [fst].
  apply store_loop_ok, Hm.
Qed.
End AccessFacts.
#[export] Hint Resolve access_ok : hw.
