(* ===== verification/StageBench.v ===== *)
(** * StageBench: the SCSI staging-ring bench

    sim/scsi_stage_test/tb_scsi_stage.cpp drives scsi_dma + scsi_stage through
    [step] (the model DRAM port of [BenchPort]), plays the ARM side of the
    staging protocol ([arm_stage], [arm_wait_cq]) and builds descriptor chains
    ([chain]).  The Verilated engine is a section variable: its state, what
    [eval] does to it, and its output ports. *)
From S2P Require Import Prelude AddressMap GuestMem BenchPort.

Definition at_ : Z -> Z := at_split 24.
#[export] Instance at_layout : Layout at_.
Proof. apply at_split_layout. lia. Qed.

Definition SIDX : Z := 0x50.
Definition SCQ : Z := 0x3000.
Definition RD : Z := 0x800000.
Definition BC_EOX : Z := 0x80000000.

(** ** The completion queue as the ARM reads it *)
Record cqe_t := Cqe { bytes : Z; nbdp : Z; flags : Z; seq_ : Z }.
Definition cq_entry (m : mem) (cons : Z) : cqe_t :=
  let a := STG + SCQ + cons mod 64 * 16 in
  Cqe (get_le32 at_ m a) (get_le32 at_ m (a + 4)) (get_le32 at_ m (a + 8)) (get_le32 at_ m (a + 12)).
(** The inner [while] of [arm_wait_cq]; [None] is fuel exhausted. *)
Fixpoint cq_scan (m : mem) (cur : Z) (fuel : nat) (cons skipped : Z) (e : cqe_t)
    : option (bool * Z * Z * cqe_t) :=
  match fuel with
  | O => None
  | S k =>
      if get_le32 at_ m (STG + SIDX) =? cons then Some (false, cons, skipped, e)
      else
        let e := cq_entry m cons in
        let cons := cons +32 1 in
        if seq_ e =? cur then Some (true, cons, skipped, e)
        else cq_scan m cur k cons (skipped +32 1) e
  end.
(** Entries published and not yet consumed; one more round leaves the loop. *)
Definition cq_pending (m : mem) (cons : Z) : nat := Z.to_nat (u32 (get_le32 at_ m (STG + SIDX) - cons)).

(** ** Descriptor chains: [chain(base, s)] *)
Record seg_t := Seg { bp : Z; cnt : Z }.
Fixpoint chain_from (m : mem) (base : Z) (i n : nat) (s : list seg_t) : mem :=
  match s with
  | [] => m
  | g :: t =>
      let a := base +32 16 * Z.of_nat i in
      let m := put_be32 at_ m a (bp g) in
      let m := put_be32 at_ m (a +32 4) (cnt g .| (if (i + 1 =? n)%nat then BC_EOX else 0)) in
      let m := put_be32 at_ m (a +32 8) (a +32 16) in
      chain_from m base (S i) n t
  end.
Definition chain (m : mem) (base : Z) (s : list seg_t) : mem := chain_from m base 0 (length s) s.

Section Engine.
(** The generated model: state, [eval] with the clock level, output ports. *)
Record stage_in := StageIn {
  i_go : bool; i_cancel : bool; i_nbdp : Z; i_to_dev : Z; i_rd_beats : Z; i_rd_seq : Z;
  i_req_seq : Z; i_cq_cons : Z; i_rsp_valid : bool; i_rsp_data : list Z }.
Variable E : Type.
Variable eval : E -> bool -> stage_in -> E.
Variable dn_req : E -> req.

Record bench := Bench {
  b_e : E; b_in : stage_in; b_port : port; b_mem : mem;
  cur_seq : Z; arm_cq_cons : Z; n_skipped : Z }.
Definition set_in (b : bench) (f : stage_in -> stage_in) : bench :=
  Bench (b_e b) (f (b_in b)) (b_port b) (b_mem b) (cur_seq b) (arm_cq_cons b) (n_skipped b).
Definition set_mem (b : bench) (m : mem) : bench :=
  Bench (b_e b) (b_in b) (b_port b) m (cur_seq b) (arm_cq_cons b) (n_skipped b).

Definition present (i : stage_in) (rsp : option (list Z)) : stage_in :=
  StageIn (i_go i) (i_cancel i) (i_nbdp i) (i_to_dev i) (i_rd_beats i) (i_rd_seq i) (i_req_seq i) (i_cq_cons i)
    (match rsp with Some _ => true | None => false end)
    (match rsp with Some (_ :: _ as d) => d | _ => i_rsp_data i end).
Definition drop_pulses (i : stage_in) : stage_in :=
  StageIn false false (i_nbdp i) (i_to_dev i) (i_rd_beats i) (i_rd_seq i) (i_req_seq i) (i_cq_cons i)
    (i_rsp_valid i) (i_rsp_data i).

(** [step()], with the request lines it sampled and the answer it presented. *)
Definition acc := access at_ true true.
Definition step (b : bench) : bench * (req * option (list Z)) :=
  let '(p, m, rsp) := serve acc (b_port b) (b_mem b) in
  let i := present (b_in b) rsp in
  let e := eval (b_e b) false i in
  let q := dn_req e in
  let p := accept (fun _ _ => true) p q in
  let e := eval e true i in
  (Bench e (drop_pulses i) (tick p) m (cur_seq b) (arm_cq_cons b) (n_skipped b), (q, rsp)).
Fixpoint steps (n : nat) (b : bench) : bench * list (req * option (list Z)) :=
  match n with
  | O => (b, [])
  | S k => let '(b, o) := step b in let '(b, os) := steps k b in (b, o :: os)
  end.

Definition new_cmd (b : bench) : bench :=
  let s := cur_seq b +32 1 in
  let i := b_in b in
  Bench (b_e b) (StageIn (i_go i) (i_cancel i) (i_nbdp i) (i_to_dev i) (i_rd_beats i) (i_rd_seq i) s
    (i_cq_cons i) (i_rsp_valid i) (i_rsp_data i)) (b_port b) (b_mem b) s (arm_cq_cons b) (n_skipped b).
(** [arm_stage(src, n)]: the bytes, the beat count, a cycle, then the seq. *)
Definition arm_stage (b : bench) (src : list Z) (n : Z) : bench :=
  let k := Z.to_nat (Z.ldiff (u32 (n + 15)) 15) in
  let m := memset (b_mem b) (STG + RD) 0 k in
  let m := mput_bytes m (STG + RD) (take (Z.to_nat n) src) in
  let b := set_in (set_mem b m) (fun i => StageIn (i_go i) (i_cancel i) (i_nbdp i) (i_to_dev i)
    (u32 (n + 15) / 16) (i_rd_seq i) (i_req_seq i) (i_cq_cons i) (i_rsp_valid i) (i_rsp_data i)) in
  let b := fst (step b) in
  set_in b (fun i => StageIn (i_go i) (i_cancel i) (i_nbdp i) (i_to_dev i) (i_rd_beats i) (cur_seq b)
    (i_req_seq i) (i_cq_cons i) (i_rsp_valid i) (i_rsp_data i)).
(** [arm_wait_cq(e, lim)]: drain the queue, then a cycle, [lim] times. *)
Definition publish_cons (b : bench) (cons skipped : Z) : bench :=
  let i := b_in b in
  Bench (b_e b) (if cons =? arm_cq_cons b then i else
    StageIn (i_go i) (i_cancel i) (i_nbdp i) (i_to_dev i) (i_rd_beats i) (i_rd_seq i) (i_req_seq i)
      cons (i_rsp_valid i) (i_rsp_data i)) (b_port b) (b_mem b) (cur_seq b) cons skipped.
Fixpoint arm_wait_cq (lim : nat) (b : bench) (e : cqe_t) : option (bool * bench * cqe_t) :=
  match lim with
  | O => Some (false, b, e)
  | S k =>
      match cq_scan (b_mem b) (cur_seq b) (S (cq_pending (b_mem b) (arm_cq_cons b))) (arm_cq_cons b) (n_skipped b) e with
      | None => None
      | Some (true, c, s, e) => Some (true, publish_cons b c s, e)
      | Some (false, c, s, e) => arm_wait_cq k (fst (step (publish_cons b c s))) e
      end
  end.
Definition go (b : bench) (nb to_dev : Z) : bench :=
  fst (step (set_in b (fun i => StageIn true (i_cancel i) nb to_dev (i_rd_beats i) (i_rd_seq i) (i_req_seq i)
    (i_cq_cons i) (i_rsp_valid i) (i_rsp_data i)))).
Definition cmd_go (b : bench) (nb to_dev : Z) : bench := go (new_cmd b) nb to_dev.
End Engine.

(** ** Properties: the completion queue *)

(** The pending entries, oldest first. *)
Definition pending (m : mem) (cons : Z) (n : nat) : list cqe_t :=
  map (fun i => cq_entry m (cons +32 Z.of_nat i)) (seq 0 n).
(** What draining them amounts to: everything up to and including the first
    entry of command [cur]. *)
Fixpoint first_of (cur : Z) (es : list cqe_t) (e : cqe_t) : bool * nat * cqe_t :=
  match es with
  | [] => (false, O, e)
  | x :: t => if seq_ x =? cur then (true, 1%nat, x)
              else let '(b, k, e) := first_of cur t x in (b, S k, e)
  end.
Lemma u32_add_l a b : u32 (u32 a + b) = u32 (a + b).
Proof. unfold u32. by rewrite Z.add_mod_idemp_l. Qed.
Lemma pending_S m cons n : pending m cons (S n) = cq_entry m (u32 cons) :: pending m (cons +32 1) n.
Proof.
  unfold pending. cbn [seq map]. change (Z.of_nat 0) with 0. rewrite Z.add_0_r. f_equal. rewrite <- seq_shift, map_map.
  apply map_ext. intros i. f_equal. rewrite u32_add_l. f_equal. lia.
Qed.
Lemma cq_scan_spec m cur fuel cons sk e :
  is_u 32 cons -> is_u 32 sk -> mem_ok m -> (cq_pending m cons < fuel)%nat ->
  cq_scan m cur fuel cons sk e =
  let '(b, k, e') := first_of cur (pending m cons (cq_pending m cons)) e in
  Some (b, cons +32 Z.of_nat k, sk +32 (Z.of_nat k - Z.b2z b), e').
Proof.
  intros Hc Hs Hm.
  assert (is_u 32 (get_le32 at_ m (STG + SIDX))) as Hp.
  { unfold get_le32. rewrite le32_sum by done. generalize (at_ (STG + SIDX)). intros a.
    pose proof (Hm a). pose proof (Hm (a + 1)). pose proof (Hm (a + 2)). pose proof (Hm (a + 3)). word_lia. }
  revert cons sk e Hc Hs; induction fuel as [|k IH]; intros cons sk e Hc Hs Hf; [lia|].
  cbn [cq_scan]. unfold cq_pending in *. revert Hf. set (prod := get_le32 at_ m (STG + SIDX)) in *.
  intros Hf. destruct (Z.eqb_spec prod cons) as [->|Hne].
  - rewrite Z.sub_diag. change (Z.to_nat (u32 0)) with O. cbn [pending map seq first_of Z.b2z].
    change (Z.of_nat 0) with 0. rewrite Z.sub_diag, !Z.add_0_r, !u32_small by (unfold is_u in *; lia). done.
  - assert (u32 (prod - cons) = u32 (prod - (cons +32 1)) + 1 /\ 0 <= u32 (prod - (cons +32 1))) as [E E0].
    { unfold is_u in *. change (2 ^ 32) with 0x100000000 in *. unfold u32. Z.to_euclidean_division_equations. lia. }
    assert (Z.to_nat (u32 (prod - cons)) = S (Z.to_nat (u32 (prod - (cons +32 1))))) as EN by lia.
    rewrite EN, pending_S. cbn [first_of]. rewrite (u32_small cons) by (unfold is_u in *; lia).
    destruct (seq_ (cq_entry m cons) =? cur) eqn:Eq.
    + change (Z.of_nat 1) with 1. cbn [Z.b2z]. by rewrite Z.sub_diag, Z.add_0_r, (u32_small sk) by (unfold is_u in *; lia).
    + rewrite IH by (try apply u32_range; lia).
      destruct (first_of cur _ (cq_entry m cons)) as [[b n] e']. rewrite !u32_add_l.
      replace (cons + 1 + Z.of_nat n) with (cons + Z.of_nat (S n)) by lia.
      by replace (sk + 1 + (Z.of_nat n - Z.b2z b)) with (sk + (Z.of_nat (S n) - Z.b2z b)) by lia.
Qed.

Lemma first_of_found cur es e b k e' :
  first_of cur es e = (b, k, e') -> b = true -> seq_ e' = cur.
Proof.
  revert e b k e'; induction es as [|x t IH]; intros e b k e'; cbn [first_of]; [by intros [= <- <- <-]|].
  destruct (Z.eqb_spec (seq_ x) cur); [by intros [= <- <- <-]|].
  destruct (first_of cur t x) as [[b1 k1] e1] eqn:E1. intros [= <- <- <-] ->. by eapply IH.
Qed.

Section Proofs.
Context (E : Type) (eval : E -> bool -> stage_in -> E) (dn_req : E -> req).
Abbreviation bench := (bench E).

Lemma serve_ok p m : mem_ok m -> mem_ok (snd (fst (serve acc p m))).
Proof.
  intros Hm. unfold serve. destruct (_ =? _); [|done].
  pose proof (access_ok at_ true true m (p_req p) Hm) as H. unfold acc. by destruct (access _ _ _ _ _).
Qed.
Lemma step_frame (b : bench) :
  let b' := fst (step E eval dn_req b) in
  (mem_ok (b_mem _ b) -> mem_ok (b_mem _ b')) /\ cur_seq _ b' = cur_seq _ b /\
  arm_cq_cons _ b' = arm_cq_cons _ b /\ n_skipped _ b' = n_skipped _ b /\
  p_cyc (b_port _ b') = p_cyc (b_port _ b) + 1.
Proof.
  unfold step. pose proof (serve_ok (b_port _ b) (b_mem _ b)) as Hs.
  assert (p_cyc (fst (fst (serve acc (b_port _ b) (b_mem _ b)))) = p_cyc (b_port _ b)) as Hc.
  { unfold serve. destruct (_ =? _); [|done]. by destruct (acc _ _). }
  destruct (serve _ _ _) as [[p m] rsp]. cbn in *.
  split; [exact Hs|]. do 3 (split; [done|]). unfold accept. rewrite <- Hc. by case_match.
Qed.
(** The queue counters are 32-bit and the memory holds bytes. *)
Definition bench_ok (b : bench) : Prop :=
  mem_ok (b_mem _ b) /\ is_u 32 (arm_cq_cons _ b) /\ is_u 32 (n_skipped _ b).

(** C32.  Waiting for a completion ends, for every engine and
    every queue content: each round drains at most the entries posted and not
    yet consumed (so its loop needs no bound of its own), at most [lim] cycles
    pass, and exactly [lim] when nothing is found.  A found entry is of the
    current command; when one is already posted it is returned without a cycle,
    is the oldest of that command, and the entries before it are counted as
    skipped. *)
Theorem arm_wait_cq_terminates (lim : nat) (b : bench) (e : cqe_t) :
  bench_ok b ->
  (exists found b' e', arm_wait_cq E eval dn_req lim b e = Some (found, b', e') /\ bench_ok b' /\
     cur_seq _ b' = cur_seq _ b /\ (found = true -> seq_ e' = cur_seq _ b) /\
     let n := p_cyc (b_port _ b') - p_cyc (b_port _ b) in
     0 <= n <= Z.of_nat lim /\ (found = false -> n = Z.of_nat lim)) /\
  (forall k e', (0 < lim)%nat ->
     first_of (cur_seq _ b) (pending (b_mem _ b) (arm_cq_cons _ b) (cq_pending (b_mem _ b) (arm_cq_cons _ b))) e
       = (true, k, e') ->
     arm_wait_cq E eval dn_req lim b e
     = Some (true, publish_cons _ b (arm_cq_cons _ b +32 Z.of_nat k) (n_skipped _ b +32 (Z.of_nat k - 1)), e')).
Proof.
  intros Hb. split.
  - revert b e Hb; induction lim as [|lim IH]; intros b e (Hm & Hc & Hs); cbn [arm_wait_cq].
    { exists false, b, e. split; [done|]. split; [exact (conj Hm (conj Hc Hs))|]. split; [done|].
      split; [done|]. cbn. rewrite Z.sub_diag. split; [lia|done]. }
    rewrite cq_scan_spec by (done || lia).
    destruct (first_of _ _ e) as [[f k] e'] eqn:Ef.
    set (b1 := publish_cons _ b _ _).
    assert (bench_ok b1) as Hb1 by (split; [done|split; apply u32_range]).
    destruct f.
    + exists true, b1, e'. split; [done|]. split; [done|]. split; [done|].
      split; [intros _; by eapply first_of_found|]. cbn. split; [lia|done].
    + destruct (step_frame b1) as (F1 & F2 & F3 & F4 & F5).
      destruct (IH (fst (step E eval dn_req b1)) e') as (f & b2 & e2 & -> & Hb2 & Hq & Hf & Hn & Hn').
      { destruct Hb1 as (A1 & A2 & A3). split; [by apply F1|]. by rewrite F3, F4. }
      exists f, b2, e2. rewrite Hq in *. rewrite F2 in *. rewrite F5 in *.
      split; [done|]. split; [done|]. split; [done|]. split; [done|].
      change (p_cyc (b_port _ b1)) with (p_cyc (b_port _ b)) in *.
      split; [lia|]. intros ->. specialize (Hn' eq_refl). lia.
  - intros k e' Hl Hf. destruct Hb as (Hm & Hc & Hs). destruct lim as [|lim]; [lia|]. cbn [arm_wait_cq].
    rewrite cq_scan_spec by (done || lia). by rewrite Hf.
Qed.

(** The cycles of [steps] as the port sees them. *)
Lemma steps_port_run n (b : bench) :
  let '(b', tr) := steps E eval dn_req n b in
  port_run acc (fun _ _ => true) (b_port _ b) (b_mem _ b) (map fst tr) = (b_port _ b', b_mem _ b', map snd tr).
Proof.
  revert b; induction n as [|n IH]; intros b; [done|]. cbn [steps].
  destruct (step E eval dn_req b) as [b1 [q rsp]] eqn:Es. specialize (IH b1).
  destruct (steps E eval dn_req n b1) as [b2 tr]. cbn [map fst snd port_run].
  unfold step in Es. unfold port_step. destruct (serve acc _ _) as [[p m] r]. injection Es as <- <- <-. cbn in IH.
  by rewrite IH.
Qed.

(** C33.  Whatever the engine does, uninterrupted cycles of the
    bench from an idle port are those of a memory that takes one request at a
    time, performs it on the line holding the address in the order taken, and
    answers [LAT] cycles later. *)
Theorem stage_port_serves (n : nat) (b : bench) :
  ready (b_port _ b) ->
  let '(b', tr) := steps E eval dn_req n b in
  serves acc (fun _ _ => true) (p_last (b_port _ b)) (b_mem _ b) (map fst tr) (map snd tr) (b_mem _ b').
Proof.
  intros Hr. pose proof (steps_port_run n b) as Hp. destruct (steps E eval dn_req n b) as [b' tr].
  pose proof (port_serves acc (fun _ _ => true) (b_port _ b) (b_mem _ b) (map fst tr) Hr) as H.
  by rewrite Hp in H.
Qed.
End Proofs.

(** ** Properties: descriptor chains *)

(** Following a chain as the engine documents it: buffer pointer, a 14-bit
    count, EOX on the last descriptor, otherwise the next pointer. *)
Fixpoint walk (m : mem) (a : Z) (fuel : nat) : list seg_t :=
  match fuel with
  | O => []
  | S k =>
      let bc := get_be32 at_ m (a + 4) in
      Seg (get_be32 at_ m a) (bc .& 0x3fff)
        :: if bc .& BC_EOX =? 0 then walk m (get_be32 at_ m (a + 8)) k else []
  end.
Definition seg_ok (g : seg_t) : Prop := is_u 32 (bp g) /\ is_u 14 (cnt g).

Lemma at_guest a : 0 <= a < GMEMSZ -> at_ a = a.
Proof. apply at_split_guest. Qed.
Lemma be32_at m a w : mem_ok m -> is_u 32 w -> mget_bytes m a 4 = be_bytes 4 w -> be32 m a = w.
Proof. intros Hm Hw E. rewrite be32_bytes, E by done. apply be_val_be_bytes. unfold is_u in *. lia. Qed.
(** One descriptor: its three words and the frame. *)
Definition put_desc (m : mem) (a x y z : Z) : mem :=
  mput_bytes (mput_bytes (mput_bytes m a (be_bytes 4 x)) (a + 4) (be_bytes 4 y)) (a + 8) (be_bytes 4 z).
Lemma put_desc_words m a x y z :
  let m' := put_desc m a x y z in
  mget_bytes m' a 4 = be_bytes 4 x /\ mget_bytes m' (a + 4) 4 = be_bytes 4 y /\ mget_bytes m' (a + 8) 4 = be_bytes 4 z.
Proof.
  intros m'. subst m'. unfold put_desc. pose proof (fun v => length_be_bytes 4 v) as L.
  assert (forall k b v, mget_bytes (mput_bytes k b (be_bytes 4 v)) b 4 = be_bytes 4 v) as W.
  { intros k b v. pose proof (mget_bytes_mput k b (be_bytes 4 v)) as H. by rewrite L in H. }
  split; [|split; [|apply W]].
  - rewrite !mget_bytes_mput_disj by (rewrite L; lia). apply W.
  - rewrite mget_bytes_mput_disj by (rewrite L; lia). apply W.
Qed.
Lemma put_desc_out m a x y z k : k < a \/ a + 12 <= k -> mget (put_desc m a x y z) k = mget m k.
Proof. intros. unfold put_desc. rewrite !mget_mput_out by (rewrite length_be_bytes; lia). done. Qed.
Lemma put_desc_ok m a x y z : mem_ok m -> mem_ok (put_desc m a x y z).
Proof. intros. unfold put_desc. auto with hw. Qed.

Lemma chain_from_cons m base i n g t :
  0 <= base -> base + 16 * Z.of_nat (S i) <= GMEMSZ ->
  let a := base + 16 * Z.of_nat i in
  chain_from m base i n (g :: t) =
  chain_from (put_desc m a (bp g) (cnt g .| (if (i + 1 =? n)%nat then BC_EOX else 0)) (a + 16)) base (S i) n t.
Proof.
  intros Hb Hn a. cbn [chain_from]. unfold put_desc, put_be32. unfold GMEMSZ in *.
  rewrite (u32_small (base + 16 * Z.of_nat i)) by lia. fold a.
  rewrite !u32_small by lia. rewrite !at_guest by (unfold GMEMSZ; lia). done.
Qed.
Lemma chain_from_out m base i n s x :
  0 <= base -> base + 16 * Z.of_nat (i + length s) <= GMEMSZ ->
  x < base + 16 * Z.of_nat i \/ base + 16 * Z.of_nat (i + length s) <= x ->
  mget (chain_from m base i n s) x = mget m x.
Proof.
  revert m i; induction s as [|g t IH]; intros m i Hb Hn Hx; [done|]. cbn [length] in *.
  rewrite chain_from_cons by lia. rewrite IH by lia. apply put_desc_out. lia.
Qed.
Lemma chain_from_ok m base i n s :
  0 <= base -> base + 16 * Z.of_nat (i + length s) <= GMEMSZ -> mem_ok m -> mem_ok (chain_from m base i n s).
Proof.
  revert m i; induction s as [|g t IH]; intros m i Hb Hn Hm; [done|]. cbn [length] in *.
  rewrite chain_from_cons by lia. apply IH; [lia..|by apply put_desc_ok].
Qed.
Lemma bc_word c (l : bool) :
  is_u 14 c ->
  let w := c .| (if l then BC_EOX else 0) in
  is_u 32 w /\ w .& 0x3fff = c /\ (w .& BC_EOX =? 0) = negb l.
Proof.
  intros Hc w. assert (w = (if l then 2 ^ 31 else 0) + c) as ->.
  { unfold w, BC_EOX. destruct l; [|by rewrite Z.lor_0_r]. rewrite Z.lor_comm.
    change 0x80000000 with (1 .<< 31). rewrite lor_shiftl_add by (unfold is_u in *; lia). lia. }
  unfold is_u in *. split; [destruct l; lia|].
  change 0x3fff with (2 ^ 14 - 1). rewrite land_ones_mod by lia. split.
  - destruct l; [change (2 ^ 31) with (2 ^ 17 * 2 ^ 14); rewrite Z.add_comm, Z.mod_add by lia|]; by apply Z.mod_small.
  - unfold BC_EOX. change 0x80000000 with (1 .<< 31) at 1. rewrite Z.land_comm.
    destruct l; cbn [negb]; apply Z.eqb_neq || apply Z.eqb_eq.
    + intros H. apply (f_equal (fun v => Z.testbit v 31)) in H. rewrite Z.land_spec, Z.bits_0 in H.
      replace (2 ^ 31 + c) with ((1 .<< 31) .| c) in H by (rewrite lor_shiftl_add by lia; lia).
      rewrite Z.lor_spec in H. done.
    + rewrite Z.add_0_l. apply land_shiftl_low; lia.
Qed.

(** A chain built anywhere in guest memory, walked from its
    base with the engine's rules, gives the segments it was built from, in
    order, and stops at the last; bytes outside the descriptors keep their value. *)
Theorem chain_walks_back (m : mem) (base : Z) (s : list seg_t) (fuel : nat) :
  mem_ok m -> 0 <= base -> base + 16 * Z.of_nat (length s) <= GMEMSZ -> s <> [] ->
  Forall seg_ok s -> (length s <= fuel)%nat ->
  walk (chain m base s) base fuel = s /\
  forall x, x < base \/ base + 16 * Z.of_nat (length s) <= x -> mget (chain m base s) x = mget m x.
Proof.
  intros Hm Hb Hn Hs Hok Hf. split; [|intros x Hx; apply chain_from_out; cbn; lia].
  unfold chain. set (n := length s) in *. assert (0 + length s = n)%nat as Hi by done.
  replace base with (base + 16 * Z.of_nat 0) at 2 by lia. change fuel with (0 + fuel)%nat in Hf. revert Hi Hf.
  generalize 0%nat as i. generalize dependent m. revert fuel Hs. clearbody n.
  induction Hok as [|g t [Hbp Hcnt] Hok IH]; intros fuel Hs m Hm i Hi Hf; [done|].
  destruct fuel as [|fuel]; [cbn in *; lia|]. cbn [length] in Hi. cbn [walk].
  rewrite chain_from_cons by lia. set (a := base + 16 * Z.of_nat i).
  set (w := cnt g .| _). set (m1 := put_desc m a (bp g) w (a + 16)).
  destruct (bc_word (cnt g) (i + 1 =? n)%nat Hcnt) as (Hw & Hw1 & Hw2). fold w in Hw, Hw1, Hw2.
  assert (mem_ok m1) as Hm1 by (by apply put_desc_ok).
  assert (mem_ok (chain_from m1 base (S i) n t)) as Hm2 by (apply chain_from_ok; [lia..|done]).
  assert (forall k, mget_bytes (chain_from m1 base (S i) n t) (a + k) 4 = mget_bytes m1 (a + k) 4 \/ 8 < k) as Hk.
  { intros k. destruct (decide (k <= 8)); [left|lia]. apply mget_bytes_ext. intros x Hx. apply chain_from_out; [lia..|]. unfold a in Hx. lia. }
  destruct (put_desc_words m a (bp g) w (a + 16)) as (P0 & P1 & P2). fold m1 in P0, P1, P2.
  pose proof (Hk 0) as [K0|]; [|lia]. pose proof (Hk 4) as [K1|]; [|lia]. pose proof (Hk 8) as [K2|]; [|lia].
  rewrite Z.add_0_r in K0. unfold get_be32. unfold GMEMSZ in *. rewrite !at_guest by (unfold GMEMSZ, a; lia).
  rewrite (be32_at _ a (bp g)) by (done || congruence). rewrite (be32_at _ (a + 4) w) by (done || congruence).
  rewrite (be32_at _ (a + 8) (a + 16)) by (first [done | congruence | unfold is_u, a; lia]).
  rewrite Hw1, Hw2. f_equal; [by destruct g|].
  destruct t as [|g' t'].
  - cbn in Hi. by replace (i + 1 =? n)%nat with true by (symmetry; apply Nat.eqb_eq; lia).
  - cbn in Hi. replace (i + 1 =? n)%nat with false by (symmetry; apply Nat.eqb_neq; lia). cbn [negb].
    assert (a + 16 = base + 16 * Z.of_nat (S i)) as Ea by (unfold a; lia).
    clearbody m1. rewrite Ea. apply IH; [done|done|cbn; lia|cbn in *; lia].
Qed.

(** ** Case 9: the check on a random chain *)
Definition WR : Z := 0xc00000.
Definition GUARD : Z := 0xa5.
(** The loop over one buffer's window: [k] is the offset of the segment in [f]. *)
Definition win_ok (m : mem) (wr : bool) (f : list Z) (k : nat) (sg : seg_t) : bool :=
  let base := Z.ldiff (bp sg) 0xfff in
  forallb (fun j =>
    let a := base + Z.of_nat j in
    if (bp sg <=? a) && (a <? bp sg + cnt sg)
    then wr || (mget m a =? nth (k + Z.to_nat (a - bp sg)) f 0)
    else mget m a =? GUARD) (seq 0 (Z.to_nat 0x3000)).
Fixpoint wins_ok (m : mem) (wr : bool) (f : list Z) (k : nat) (segs : list seg_t) : bool :=
  match segs with
  | [] => true
  | sg :: t => win_ok m wr f k sg && wins_ok m wr f (k + Z.to_nat (cnt sg)) t
  end.
Definition staged_ok (m : mem) (f : list Z) : bool :=
  forallb (fun j => mget m (STG + WR + Z.of_nat j) =? nth j f 0) (seq 0 (length f)) &&
  forallb (fun j => mget m (STG + WR + Z.of_nat j) =? 0)
    (seq (length f) (Z.to_nat (Z.ldiff (Z.of_nat (length f) + 15) 15) - length f)).
Definition case9_ok (m : mem) (wr : bool) (segs : list seg_t) (f : list Z) : bool :=
  wins_ok m wr f 0 segs && (negb wr || staged_ok m f).

(** The draws: buffer [i] starts in its own 12 KB slot, at a random byte
    offset, with 1 to 2500 bytes; the slots are filled with [GUARD] before. *)
Definition slot (i : nat) : Z := 0x8000 + 0x3000 * Z.of_nat i.
Definition draw_ok (i : nat) (sg : seg_t) : Prop := slot i <= bp sg < slot i + 16 /\ 1 <= cnt sg <= 2500.
Fixpoint draws_ok (i : nat) (segs : list seg_t) : Prop :=
  match segs with [] => True | sg :: t => draw_ok i sg /\ draws_ok (S i) t end.
(** What a READ of [f] must leave: the bytes scattered over the segments. *)
Fixpoint scatter (m : mem) (segs : list seg_t) (f : list Z) : mem :=
  match segs with
  | [] => m
  | sg :: t => scatter (mput_bytes m (bp sg) (take (Z.to_nat (cnt sg)) f)) t (drop (Z.to_nat (cnt sg)) f)
  end.
Fixpoint total (segs : list seg_t) : nat :=
  match segs with [] => O | sg :: t => (Z.to_nat (cnt sg) + total t)%nat end.

Lemma slot_page i : slot i mod 0x1000 = 0.
Proof. unfold slot. replace (0x8000 + 0x3000 * Z.of_nat i) with ((8 + 3 * Z.of_nat i) * 0x1000) by lia. by apply Z.mod_mul. Qed.
Lemma win_base i sg : draw_ok i sg -> Z.ldiff (bp sg) 0xfff = slot i.
Proof.
  intros [Hb _]. change 0xfff with (2 ^ 12 - 1). rewrite ldiff_ones_align by lia. change (2 ^ 12) with 0x1000.
  pose proof (slot_page i) as Hs. Z.to_euclidean_division_equations. lia.
Qed.
Lemma forallb_window (P : Z -> bool) (a : Z) (n : nat) :
  forallb (fun j => P (a + Z.of_nat j)) (seq 0 n) = true <-> forall x, a <= x < a + Z.of_nat n -> P x = true.
Proof.
  rewrite forallb_forall. split.
  - intros H x Hx. replace x with (a + Z.of_nat (Z.to_nat (x - a))) by lia. apply H, in_seq. lia.
  - intros H j [_ Hj]%in_seq. apply H. lia.
Qed.
Lemma scatter_out m segs f i x : draws_ok i segs -> x < slot i -> mget (scatter m segs f) x = mget m x.
Proof.
  revert m f i; induction segs as [|sg t IH]; intros m f i; [done|]. cbn [draws_ok scatter]. intros [[Hb Hc] Ht] Hx.
  rewrite (IH _ _ (S i)) by (done || (unfold slot in *; lia)). apply mget_mput_out. lia.
Qed.
Lemma nth_drop' {A} (l : list A) k j d : nth j (drop k l) d = nth (k + j) l d.
Proof. revert k; induction l as [|x l IH]; intros [|k]; cbn; try done; by (destruct j || apply IH). Qed.
Lemma nth_take' {A} (l : list A) k j d : (j < k)%nat -> nth j (take k l) d = nth j l d.
Proof.
  revert k j; induction l as [|x l IH]; intros [|k] j Hj; try lia; [done|].
  destruct j as [|j]; cbn; [done|]. apply IH. lia.
Qed.
(** One window against the scattered image. *)
Lemma win_ok_spec m g f k i sg :
  draw_ok i sg -> (k + Z.to_nat (cnt sg) <= length f)%nat ->
  (forall x, slot i <= x < slot (S i) -> mget g x = GUARD) ->
  win_ok m false f k sg = true <->
  forall x, slot i <= x < slot (S i) ->
    mget m x = mget (mput_bytes g (bp sg) (take (Z.to_nat (cnt sg)) (drop k f))) x.
Proof.
  intros Hd Hf Hg. unfold win_ok. rewrite (win_base i) by done.
  rewrite (forallb_window (fun a => if (bp sg <=? a) && (a <? bp sg + cnt sg)
    then false || (mget m a =? nth (k + Z.to_nat (a - bp sg)) f 0) else mget m a =? GUARD)).
  replace (slot i + Z.of_nat (Z.to_nat 0x3000)) with (slot (S i)) by (unfold slot; lia).
  destruct Hd as [Hb Hc].
  assert (length (take (Z.to_nat (cnt sg)) (drop k f)) = Z.to_nat (cnt sg)) as L by (rewrite length_take, length_drop; lia).
  assert (forall x, slot i <= x < slot (S i) ->
    ((if (bp sg <=? x) && (x <? bp sg + cnt sg)
      then false || (mget m x =? nth (k + Z.to_nat (x - bp sg)) f 0) else mget m x =? GUARD) = true <->
     mget m x = mget (mput_bytes g (bp sg) (take (Z.to_nat (cnt sg)) (drop k f))) x)) as E.
  { intros x Hx. destruct ((bp sg <=? x) && (x <? bp sg + cnt sg)) eqn:Ex.
    - bool_props. rewrite mget_mput_in by lia. rewrite nth_take', nth_drop' by lia. apply Z.eqb_eq.
    - rewrite mget_mput_out.
      + rewrite Hg by done. apply Z.eqb_eq.
      + rewrite L. apply andb_false_iff in Ex as [Ex|Ex]; bool_props; lia. }
  split; intros H x Hx; apply E; auto.
Qed.

Lemma wins_scatter m f segs : forall g k i,
  draws_ok i segs -> (k + total segs = length f)%nat ->
  (forall x, slot i <= x < slot (i + length segs) -> mget g x = GUARD) ->
  wins_ok m false f k segs = true <->
  forall x, slot i <= x < slot (i + length segs) -> mget m x = mget (scatter g segs (drop k f)) x.
Proof.
  induction segs as [|sg t IH]; intros g k i Hd Hk Hg; cbn [wins_ok draws_ok total length scatter] in *.
  { split; [|done]. intros _ x Hx. rewrite Nat.add_0_r in Hx. lia. }
  destruct Hd as [Hd Hdt]. rewrite andb_true_iff.
  rewrite (win_ok_spec m g f k i sg Hd) by (try lia; intros x Hx; apply Hg; unfold slot in *; lia).
  set (g1 := mput_bytes g (bp sg) (take (Z.to_nat (cnt sg)) (drop k f))).
  rewrite drop_drop. rewrite (IH g1 (k + Z.to_nat (cnt sg))%nat (S i)); [|done|lia|].
  - split.
    + intros [H1 H2] x Hx. destruct (decide (x < slot (S i))).
      * rewrite (scatter_out _ _ _ (S i)) by done. apply H1. lia.
      * apply H2. unfold slot in *. lia.
    + intros H. split; intros x Hx.
      * rewrite H by (unfold slot in *; lia). apply (scatter_out _ _ _ (S i)); [done|lia].
      * apply H. unfold slot in *. lia.
  - intros x Hx. destruct Hd as [Hb Hc]. unfold g1. rewrite mget_mput_out.
    + apply Hg. unfold slot in *. lia.
    + rewrite length_take, length_drop. unfold slot in *. lia.
Qed.

(** The check of the random READ chains accepts exactly the
    memory in which the frame is scattered over the segments in order and every
    other byte of the buffers' slots still holds the guard value. *)
Theorem case9_read_exact (m g : mem) (segs : list seg_t) (f : list Z) :
  draws_ok 0 segs -> total segs = length f ->
  (forall x, slot 0 <= x < slot (length segs) -> mget g x = GUARD) ->
  case9_ok m false segs f = true <->
  forall x, slot 0 <= x < slot (length segs) -> mget m x = mget (scatter g segs f) x.
Proof.
  intros Hd Ht Hg. unfold case9_ok. cbn [negb orb]. rewrite andb_true_r.
  by apply (wins_scatter m f segs g 0 0).
Qed.

(** ** Witnesses *)

(** An engine that always asks for the line at 0x1000. *)
Definition toy_req (_ : unit) : req := Req true 0x1004 4 0xffff [].
Definition toy_in : stage_in := StageIn false false 0 0 0 0 0 0 false [].
(** Two completions posted, the second of command 7. *)
Definition toy_queue : mem :=
  let m := put_le32 at_ ∅ (STG + SIDX) 2 in
  let m := put_le32 at_ m (STG + SCQ + 12) 6 in
  let m := put_le32 at_ m (STG + SCQ + 16) 600 in
  put_le32 at_ m (STG + SCQ + 28) 7.
Definition toy_bench : bench unit := Bench unit tt toy_in port0 toy_queue 7 0 0.
Lemma toy_queue_ok : mem_ok toy_queue.
Proof. unfold toy_queue, put_le32. auto with hw. Qed.
Lemma arm_wait_cq_terminates_witness :
  exists b', arm_wait_cq unit (fun e _ _ => e) toy_req 5 toy_bench (Cqe 0 0 0 0) = Some (true, b', Cqe 600 0 0 7)
             /\ n_skipped _ b' = 1.
Proof.
  assert (bench_ok unit toy_bench) as Hb by (split; [apply toy_queue_ok|split; by vm_compute]).
  destruct (arm_wait_cq_terminates unit (fun e _ _ => e) toy_req 5 toy_bench (Cqe 0 0 0 0) Hb) as [_ H].
  eexists. split; [apply (H 2%nat); [lia|vm_compute; reflexivity]|]. reflexivity.
Defined.
Lemma stage_port_serves_witness :
  let '(b', tr) := steps unit (fun e _ _ => e) toy_req 7 toy_bench in
  serves acc (fun _ _ => true) (0xffffffff, 0xff) toy_queue (map fst tr) (map snd tr) (b_mem _ b') /\
  map (fun o => match o with Some _ => true | None => false end) (map snd tr)
  = [false; false; false; false; true; false; false].
Proof.
  pose proof (stage_port_serves unit (fun e _ _ => e) toy_req 7 toy_bench) as H.
  destruct (steps unit (fun e _ _ => e) toy_req 7 toy_bench) as [b' tr] eqn:E. split.
  - apply H. unfold ready; cbn. lia.
  - apply (f_equal (fun r => map (fun o => match o with Some _ => true | None => false end) (map snd (snd r)))) in E.
    cbn [snd] in E. rewrite <- E. vm_compute. reflexivity.
Defined.
Lemma chain_walks_back_witness :
  walk (chain ∅ 0x1000 [Seg 0x4000 200; Seg 0x5008 250; Seg 0x6003 150]) 0x1000 10
  = [Seg 0x4000 200; Seg 0x5008 250; Seg 0x6003 150].
Proof.
  refine (proj1 (chain_walks_back ∅ 0x1000 [Seg 0x4000 200; Seg 0x5008 250; Seg 0x6003 150] 10 _ _ _ _ _ _)).
  - apply mem_ok_empty.
  - lia.
  - by vm_compute.
  - done.
  - repeat (apply Forall_cons_2; [split; by vm_compute|]). apply Forall_nil_2.
  - cbn. lia.
Defined.
Lemma case9_read_exact_witness :
  case9_ok (scatter (memset ∅ 0x8000 GUARD (Z.to_nat 0x3000)) [Seg 0x8003 5] [1; 2; 3; 4; 5]) false [Seg 0x8003 5] [1; 2; 3; 4; 5] = true.
Proof.
  apply (case9_read_exact _ (memset ∅ 0x8000 GUARD (Z.to_nat 0x3000))).
  - repeat split; cbn; unfold slot; lia.
  - reflexivity.
  - intros x Hx. unfold slot in Hx. cbn [length] in Hx. unfold memset.
    assert (length (repeat GUARD (Z.to_nat 0x3000)) = Z.to_nat 0x3000) as L by apply repeat_length.
    rewrite mget_mput_in by (rewrite L; lia). rewrite nth_repeat_lt by lia. done.
  - done.
Defined.
