(* ===== verification/RingBench.v ===== *)
(** * RingBench: the Ethernet staging-ring bench

    sim/enet_dma_test/tb_enet_ring_dma.cpp: [step] is the port of [BenchPort]
    with the bench's ordering probes ([g_last_load], [g_etxd_store],
    [g_crbdp_seen], [watch_hits]) and completion counters; [arm_rx_submit] is
    the ARM side of the RX submission ring; [wait_for] the bounded wait.  The
    Verilated engine is a section variable. *)
From S2P Require Import Prelude AddressMap GuestMem BenchPort.

Definition at_ : Z -> Z := at_split 22.
#[export] Instance at_layout : Layout at_.
Proof. apply at_split_layout. lia. Qed.

Definition IDX : Z := 0x40.
Definition RXSQ : Z := 0x2000.
Definition RXS : Z := 0x180000.

(** ** The ARM side of RX *)
(** [arm_rx_submit(f)] on memory, for the index [arm_rx_prod]. *)
Definition submit_mem (m : mem) (prod : Z) (f : list Z) : mem :=
  let slot := prod mod 256 in
  let m := mput_bytes m (STG + RXS + slot * 2048) f in
  let m := memset m (STG + RXSQ + slot * 16) 0 16 in
  put_le32 at_ m (STG + RXSQ + slot * 16) (u32 (Z.of_nat (length f))).
Fixpoint submits_mem (m : mem) (prod : Z) (fs : list (list Z)) : mem :=
  match fs with [] => m | f :: t => submits_mem (submit_mem m prod f) (prod +32 1) t end.

(** ** [step] *)
Record probes := Probes_ {
  g_last_load : gmap Z Z; g_etxd_store : gmap Z Z; g_crbdp_seen : gmap Z Z;
  watch_addr : Z; watch_hits : Z }.
(** The probe updates of an answered request [q] at cycle [cyc]. *)
Definition probe (pr : probes) (cyc : Z) (q : req) : probes :=
  let line := Z.ldiff (q_addr q) 15 in
  if q_op q =? 4 then
    Probes_ (<[line := cyc]> (g_last_load pr)) (g_etxd_store pr) (g_crbdp_seen pr) (watch_addr pr)
      (if line =? Z.ldiff (watch_addr pr) 15 then watch_hits pr +32 1 else watch_hits pr)
  else if (q_mask q =? 0x0040) && negb (bool_decide (is_Some (g_etxd_store pr !! line))) then
    Probes_ (g_last_load pr) (<[line := cyc]> (g_etxd_store pr)) (g_crbdp_seen pr) (watch_addr pr) (watch_hits pr)
  else pr.

Record ring_in := RingIn {
  i_tx_go : bool; i_tx_nbdp : Z; i_tx_cons : Z; i_rx_armed : bool; i_rx_nbdp : Z; i_rx_prod : Z;
  i_rsp_valid : bool; i_rsp_data : list Z }.
Record ring_out := RingOut {
  o_tx_done : bool; o_crbdp : Z; o_rx_done : bool; o_rx_next : Z; o_rx_dropped : bool }.

Section Engine.
Variable E : Type.
Variable eval : E -> bool -> ring_in -> E.
Variable dma_req : E -> req.
Variable outs : E -> ring_out.

Record bench := Bench {
  b_e : E; b_in : ring_in; b_port : port; b_mem : mem; b_pr : probes;
  n_tx_done : Z; n_rx_done : Z; n_rx_drop : Z; arm_rx_prod : Z }.
Definition present (i : ring_in) (rsp : option (list Z)) : ring_in :=
  RingIn (i_tx_go i) (i_tx_nbdp i) (i_tx_cons i) (i_rx_armed i) (i_rx_nbdp i) (i_rx_prod i)
    (match rsp with Some _ => true | None => false end)
    (match rsp with Some (_ :: _ as d) => d | _ => i_rsp_data i end).
Definition acc := access at_ true true.
(** [step()]; also returned: the request answered in this cycle, if any. *)
Definition step (b : bench) : bench * option req :=
  let p := b_port b in
  let pr := if p_reply p =? p_cyc p then probe (b_pr b) (p_cyc p) (p_req p) else b_pr b in
  let served := if p_reply p =? p_cyc p then Some (p_req p) else None in
  let '(p, m, rsp) := serve acc p (b_mem b) in
  let i := present (b_in b) rsp in
  let e := eval (b_e b) false i in
  let p := accept (fun _ _ => true) p (dma_req e) in
  let e := eval e true i in
  let o := outs e in
  let pr := Probes_ (g_last_load pr) (g_etxd_store pr)
    (<[o_crbdp o := default 0 (g_crbdp_seen pr !! o_crbdp o) + 1]> (g_crbdp_seen pr)) (watch_addr pr) (watch_hits pr) in
  (Bench e (RingIn false (i_tx_nbdp i) (i_tx_cons i) (i_rx_armed i)
              (if o_rx_done o then o_rx_next o else i_rx_nbdp i) (i_rx_prod i) (i_rsp_valid i) (i_rsp_data i))
     (tick p) m pr
     (if o_tx_done o then n_tx_done b + 1 else n_tx_done b)
     (if o_rx_done o then n_rx_done b + 1 else n_rx_done b)
     (if o_rx_dropped o then n_rx_drop b + 1 else n_rx_drop b) (arm_rx_prod b), served).
Fixpoint steps (n : nat) (b : bench) : bench * list (Z * req) :=
  match n with
  | O => (b, [])
  | S k =>
      let c := p_cyc (b_port b) in
      let '(b, o) := step b in
      let '(b, tr) := steps k b in
      (b, match o with Some q => (c, q) :: tr | None => tr end)
  end.

Definition arm_rx_submit (b : bench) (f : list Z) : bench :=
  let m := submit_mem (b_mem b) (arm_rx_prod b) f in
  let prod := arm_rx_prod b +32 1 in
  let i := b_in b in
  Bench (b_e b) (RingIn (i_tx_go i) (i_tx_nbdp i) (i_tx_cons i) (i_rx_armed i) (i_rx_nbdp i) prod
    (i_rsp_valid i) (i_rsp_data i)) (b_port b) m (b_pr b) (n_tx_done b) (n_rx_done b) (n_rx_drop b) prod.
(** [wait_for(ctr, before, lim)]. *)
Fixpoint wait_for (ctr : bench -> Z) (before : Z) (lim : nat) (b : bench) : bool * bench :=
  match lim with
  | O => (false, b)
  | S k => if negb (ctr b =? before) then (true, b) else wait_for ctr before k (fst (step b))
  end.
(** "TX head ETXD before the packet's last descriptor was read". *)
Definition etxd_check (b : bench) (head last_ : Z) : bool :=
  match g_etxd_store (b_pr b) !! head with
  | Some c => default 0 (g_last_load (b_pr b) !! last_) <? c
  | None => false
  end.
(** "TX CRBDP exposed a mid-packet descriptor". *)
Definition crbdp_check (b : bench) (a : Z) : bool := negb (bool_decide (is_Some (g_crbdp_seen (b_pr b) !! a))).
(** [g_last_load.clear(); g_etxd_store.clear(); g_crbdp_seen.clear()], and the
    watched address. *)
Definition clear_probes (b : bench) (w : Z) : bench :=
  Bench (b_e b) (b_in b) (b_port b) (b_mem b) (Probes_ ∅ ∅ ∅ w 0)
    (n_tx_done b) (n_rx_done b) (n_rx_drop b) (arm_rx_prod b).
End Engine.

(** ** Properties: the RX submission ring *)

Definition slot_of (prod : Z) : Z := prod mod 256.
Definition holds_frame (m : mem) (prod : Z) (f : list Z) : Prop :=
  mget_bytes m (STG + RXS + slot_of prod * 2048) (length f) = f /\
  get_le32 at_ m (STG + RXSQ + slot_of prod * 16) = Z.of_nat (length f).

Lemma at_stg k : 0 <= k < 2 ^ 22 -> at_ (STG + k) = STG + k.
Proof.
  intros Hk. unfold at_, at_split. rewrite (proj2 (Z.leb_le _ _)) by lia. rewrite land_ones_mod by lia.
  unfold STG. replace (0x1e000000 + k - 0x1e000000) with k by lia. rewrite u32_small by lia.
  rewrite Z.mod_small by lia. done.
Qed.
Lemma submit_mem_out m prod f x :
  (length f <= 2048)%nat ->
  (x < STG + RXS + slot_of prod * 2048 \/ STG + RXS + slot_of prod * 2048 + 2048 <= x) ->
  (x < STG + RXSQ + slot_of prod * 16 \/ STG + RXSQ + slot_of prod * 16 + 16 <= x) ->
  mget (submit_mem m prod f) x = mget m x.
Proof.
  intros Hf H1 H2. unfold submit_mem, memset, put_le32. fold (slot_of prod).
  assert (0 <= slot_of prod < 256) as Hs by (unfold slot_of; apply Z.mod_pos_bound; lia).
  replace (STG + RXSQ + slot_of prod * 16) with (STG + (RXSQ + slot_of prod * 16)) at 2 by lia.
  rewrite at_stg by (unfold RXSQ; lia).
  rewrite !mget_mput_out; rewrite ?length_le_bytes, ?repeat_length; [done|lia..].
Qed.
Lemma submit_mem_ok m prod f : mem_ok m -> bytes_ok f -> mem_ok (submit_mem m prod f).
Proof.
  intros Hm Hf. unfold submit_mem, put_le32. apply mem_ok_mput; [|apply le_bytes_ok].
  apply memset_ok; [by apply mem_ok_mput|by vm_compute].
Qed.
Lemma submit_holds m prod f :
  mem_ok m -> bytes_ok f -> (length f <= 2048)%nat -> holds_frame (submit_mem m prod f) prod f.
Proof.
  intros Hm Hok Hf. assert (0 <= slot_of prod < 256) as Hs by (unfold slot_of; apply Z.mod_pos_bound; lia).
  pose proof (submit_mem_ok m prod f Hm Hok) as Hok'. unfold holds_frame, submit_mem, memset, put_le32, get_le32 in *.
  fold (slot_of prod) in *.
  replace (STG + RXSQ + slot_of prod * 16) with (STG + (RXSQ + slot_of prod * 16)) in * by lia.
  rewrite at_stg in * by (unfold RXSQ; lia). unfold RXS, RXSQ in *. split.
  - rewrite !mget_bytes_mput_disj by (rewrite ?length_le_bytes, ?repeat_length; lia). apply mget_bytes_mput.
  - rewrite le32_val by done. rewrite u32_small by lia.
    pose proof (mget_bytes_mput (mput_bytes (mput_bytes m (STG + 0x180000 + slot_of prod * 2048) f) (STG + (0x2000 + slot_of prod * 16)) (repeat 0 16)) (STG + (0x2000 + slot_of prod * 16)) (le_bytes 4 (Z.of_nat (length f)))) as H.
    rewrite length_le_bytes in H. rewrite H.
    rewrite le_val_le_bytes; [done|]. change (256 ^ Z.of_nat 4) with 0x100000000. lia.
Qed.
Lemma slot_of_next prod i : slot_of (prod +32 i) = (slot_of prod + i) mod 256.
Proof.
  unfold slot_of, u32. rewrite Z.mod_mod_divide by (by exists 0x1000000). by rewrite Z.add_mod_idemp_l.
Qed.
Lemma holds_frame_frame m prod f q g :
  holds_frame m prod f -> slot_of q <> slot_of prod -> (length f <= 2048)%nat -> (length g <= 2048)%nat ->
  holds_frame (submit_mem m q g) prod f.
Proof.
  intros [H1 H2] Hne Hf Hg.
  assert (0 <= slot_of prod < 256) as Hs by (unfold slot_of; apply Z.mod_pos_bound; lia).
  assert (0 <= slot_of q < 256) as Hq by (unfold slot_of; apply Z.mod_pos_bound; lia).
  split.
  - rewrite <- H1 at 2. apply mget_bytes_ext. intros x Hx. apply submit_mem_out; unfold RXS, RXSQ in *; [done|lia..].
  - rewrite <- H2. unfold get_le32, le32.
    replace (STG + RXSQ + slot_of prod * 16) with (STG + (RXSQ + slot_of prod * 16)) by lia.
    rewrite at_stg by (unfold RXSQ; lia). unfold RXS, RXSQ in *.
    rewrite !submit_mem_out by (unfold RXS, RXSQ; first [done|lia]). done.
Qed.
Definition frame_ok (f : list Z) : Prop := bytes_ok f /\ (length f <= 2048)%nat.
Lemma slot_of_ne prod i : 0 < i < 256 -> slot_of (prod +32 i) <> slot_of prod.
Proof.
  intros Hi. rewrite slot_of_next. assert (0 <= slot_of prod < 256) by (unfold slot_of; apply Z.mod_pos_bound; lia).
  Z.to_euclidean_division_equations. lia.
Qed.
Lemma submits_keep fs : forall m q i prod f,
  q = (prod +32 i) -> 0 < i -> i + Z.of_nat (length fs) <= 256 -> Forall frame_ok fs -> frame_ok f ->
  holds_frame m prod f -> holds_frame (submits_mem m q fs) prod f.
Proof.
  induction fs as [|g t IH]; intros m q i prod f -> Hi Hl Hok Hf H; [done|]. cbn [submits_mem length] in *.
  pose proof (Forall_inv Hok) as Hg. apply (IH _ _ (i + 1)); [|lia..|by apply Forall_inv_tail in Hok|done|].
  - unfold u32. rewrite Z.add_mod_idemp_l by lia. f_equal. lia.
  - destruct Hf, Hg. apply holds_frame_frame; try done. apply slot_of_ne. lia.
Qed.

(** Up to 256 frames submitted back to back, wherever
    the 32-bit producer index stands (its wrap-around included), are all in the
    ring afterwards: each slot holds its frame and its length entry. *)
Theorem rx_ring_holds_submitted (m : mem) (prod : Z) (fs : list (list Z)) (i : nat) (f : list Z) :
  mem_ok m -> is_u 32 prod -> Forall frame_ok fs -> (length fs <= 256)%nat -> fs !! i = Some f ->
  holds_frame (submits_mem m prod fs) (prod +32 Z.of_nat i) f.
Proof.
  intros Hm Hp Hok. revert m prod i Hm Hp. induction Hok as [|g t [Hg Hgl] Hok IH]; intros m prod i Hm Hp Hl Hi; [done|].
  cbn [submits_mem length] in *. destruct i as [|i]; cbn in Hi.
  - injection Hi as <-. change (Z.of_nat 0) with 0. rewrite Z.add_0_r, (u32_small prod) by (unfold is_u in Hp; lia).
    apply (submits_keep t _ _ 1); [done|lia|lia|done|done|by apply submit_holds].
  - replace (prod +32 Z.of_nat (S i)) with ((prod +32 1) +32 Z.of_nat i).
    + apply IH; [by apply submit_mem_ok|apply u32_range|lia|done].
    + unfold u32. rewrite Z.add_mod_idemp_l by lia. f_equal. lia.
Qed.

(** ** Properties: the ordering probes *)

Definition line_of (q : req) : Z := Z.ldiff (q_addr q) 15.
Definition loads (a : Z) (q : req) : bool := (q_op q =? 4) && (line_of q =? a).
(** A store of byte 6 alone: the engine's ETXD write-back. *)
Definition etxd (a : Z) (q : req) : bool := negb (q_op q =? 4) && (q_mask q =? 0x40) && (line_of q =? a).
Fixpoint first_at (P : req -> bool) (tr : list (Z * req)) : option Z :=
  match tr with [] => None | (c, q) :: t => if P q then Some c else first_at P t end.
Fixpoint last_at (P : req -> bool) (tr : list (Z * req)) (d : option Z) : option Z :=
  match tr with [] => d | (c, q) :: t => last_at P t (if P q then Some c else d) end.

Definition probes_of (pr : probes) (tr : list (Z * req)) (pr' : probes) : Prop :=
  (forall a, g_last_load pr' !! a = last_at (loads a) tr (g_last_load pr !! a)) /\
  (forall a, g_etxd_store pr' !! a = match g_etxd_store pr !! a with Some c => Some c | None => first_at (etxd a) tr end).
Lemma probe_spec pr c q : probes_of pr [(c, q)] (probe pr c q).
Proof.
  unfold probe, probes_of. cbn [last_at first_at]. unfold loads, etxd. fold (line_of q).
  destruct (q_op q =? 4) eqn:E4; cbn [negb andb g_last_load g_etxd_store].
  - split; intros a; [|by destruct (g_etxd_store pr !! a)]. destruct (Z.eqb_spec (line_of q) a) as [<-|Hne].
    + by rewrite lookup_insert_eq. + by rewrite lookup_insert_ne.
  - change 0x0040 with 0x40. destruct (q_mask q =? 0x40); cbn [andb].
    + case_bool_decide as Hs; cbn [negb g_last_load g_etxd_store]; (split; [done|]); intros a.
      * destruct (Z.eqb_spec (line_of q) a) as [<-|Hne]; [by destruct Hs as [x ->]|by destruct (_ !! a)].
      * destruct (Z.eqb_spec (line_of q) a) as [<-|Hne].
        -- rewrite lookup_insert_eq. by rewrite (proj2 (eq_None_not_Some _) Hs).
        -- rewrite lookup_insert_ne by done. by destruct (_ !! a).
    + split; [done|]. intros a. by destruct (_ !! a).
Qed.
Lemma last_at_app P t1 t2 d : last_at P (t1 ++ t2) d = last_at P t2 (last_at P t1 d).
Proof. revert d; induction t1 as [|[c q] t IH]; intros d; cbn; auto. Qed.
Lemma probes_of_cons pr c q pr1 tr pr2 :
  probes_of pr [(c, q)] pr1 -> probes_of pr1 tr pr2 -> probes_of pr ((c, q) :: tr) pr2.
Proof.
  intros [L1 S1] [L2 S2]. split; intros a.
  - rewrite L2, L1. done.
  - rewrite S2, S1. cbn [first_at]. destruct (g_etxd_store pr !! a); [done|]. by destruct (etxd a q).
Qed.

Section Proofs.
Context (E : Type) (eval : E -> bool -> ring_in -> E) (dma_req : E -> req) (outs : E -> ring_out).
Abbreviation bench := (bench E).
Abbreviation step := (step E eval dma_req outs).

Lemma step_probes (b : bench) :
  let '(b', o) := step b in
  probes_of (b_pr _ b) (match o with Some q => [(p_cyc (b_port _ b), q)] | None => [] end) (b_pr _ b') /\
  p_cyc (b_port _ b') = p_cyc (b_port _ b) + 1.
Proof.
  unfold RingBench.step.
  assert (p_cyc (fst (fst (serve acc (b_port _ b) (b_mem _ b)))) = p_cyc (b_port _ b)) as Hc.
  { unfold serve. destruct (_ =? _); [|done]. by destruct (acc _ _). }
  destruct (serve _ _ _) as [[p m] rsp]. cbn [fst] in Hc. split.
  - destruct (_ =? _); [apply probe_spec|]. split; intros a; cbn; [done|by destruct (_ !! a)].
  - cbn [b_port tick p_cyc]. unfold accept. rewrite <- Hc. by case_match.
Qed.
(** The answered requests come with increasing cycle numbers. *)
Fixpoint ordered (c : Z) (tr : list (Z * req)) : Prop :=
  match tr with [] => True | (x, _) :: t => c <= x /\ ordered (x + 1) t end.
Lemma ordered_weaken c d tr : d <= c -> ordered c tr -> ordered d tr.
Proof. destruct tr as [|[x q] t]; cbn; [done|]. intros ? [? ?]. split; [lia|done]. Qed.
Lemma steps_probes n (b : bench) :
  let '(b', tr) := steps E eval dma_req outs n b in
  probes_of (b_pr _ b) tr (b_pr _ b') /\ ordered (p_cyc (b_port _ b)) tr.
Proof.
  revert b; induction n as [|n IH]; intros b; cbn [steps].
  { split; [|done]. split; intros a; [done|by destruct (_ !! a)]. }
  pose proof (step_probes b) as Hs. destruct (step b) as [b1 o]. destruct Hs as [Hs Hc]. specialize (IH b1).
  destruct (steps E eval dma_req outs n b1) as [b2 tr]. destruct IH as [Hp Ho]. rewrite Hc in Ho.
  destruct o as [q|].
  - split; [by eapply probes_of_cons|]. split; [lia|done].
  - split; [|eapply ordered_weaken; [|done]; lia].
    destruct Hs as [L1 S1], Hp as [L2 S2]. split; intros a.
    + rewrite L2, L1. done.
    + rewrite S2, S1. cbn. by destruct (g_etxd_store (b_pr _ b) !! a).
Qed.

(** [etxd a] comes first at some answered request, and the loads of [l] all
    come before it. *)
Definition loads_before_etxd (a l : Z) (tr : list (Z * req)) : Prop :=
  exists t1 c q t2, tr = t1 ++ (c, q) :: t2 /\ etxd a q = true /\
    Forall (fun x => etxd a (snd x) = false) t1 /\ Forall (fun x => loads l (snd x) = false) t2.
Lemma first_at_split P tr c :
  first_at P tr = Some c <->
  exists t1 q t2, tr = t1 ++ (c, q) :: t2 /\ P q = true /\ Forall (fun x => P (snd x) = false) t1.
Proof.
  induction tr as [|[x q] t IH]; cbn [first_at].
  - split; [done|]. by intros (t1 & q & t2 & H & _); destruct t1.
  - destruct (P q) eqn:Ep.
    + split.
      * intros [= <-]. exists [], q, t. split; [done|split; [done|constructor]].
      * intros ([|[y r] t1] & q' & t2 & H & Hq & Hf); injection H as -> -> Ht; [done|].
        apply Forall_inv in Hf. cbn in Hf. congruence.
    + rewrite IH. split; intros (t1 & q' & t2 & H & Hq & Hf).
      * exists ((x, q) :: t1), q', t2. subst. split; [done|split; [done|by apply Forall_cons_2]].
      * destruct t1 as [|[y r] t1]; injection H as -> -> Ht; [congruence|].
        exists t1, q', t2. split; [done|split; [done|by apply Forall_inv_tail in Hf]].
Qed.
Lemma last_at_cases P tr c d :
  ordered c tr ->
  (Forall (fun x => P (snd x) = false) tr /\ last_at P tr d = d) \/
  (exists v, last_at P tr d = Some v /\ c <= v).
Proof.
  revert c d; induction tr as [|[x q] t IH]; intros c d; cbn [last_at ordered]; [left; split; [constructor|done]|].
  intros [Hx Ho]. destruct (P q) eqn:Ep.
  - right. destruct (IH _ (Some x) Ho) as [[_ H]|(v & H & Hv)]; [exists x|exists v]; (split; [done|lia]).
  - destruct (IH _ d Ho) as [[Hf H]|(v & H & Hv)].
    + left. split; [by apply Forall_cons_2|done].
    + right. exists v. split; [done|lia].
Qed.
(** A bound on every cycle of a prefix, and the order of its suffix. *)
Lemma ordered_split k t1 c q t2 :
  ordered k (t1 ++ (c, q) :: t2) ->
  k <= c /\ ordered (c + 1) t2 /\ forall P d v, (forall w, d = Some w -> w < c) -> last_at P t1 d = Some v -> v < c.
Proof.
  revert k; induction t1 as [|[x r] t1 IH]; intros k; cbn [app ordered last_at].
  - intros [Hk Ho]. split; [done|]. split; [done|]. intros P d v Hd Hv. by apply Hd.
  - intros [Hk Ho]. destruct (IH _ Ho) as (Hc & Ho2 & Hb). split; [lia|]. split; [done|].
    intros P d v Hd Hv. eapply Hb; [|done]. destruct (P r); [intros w [= <-]; lia|done].
Qed.

(** C34.  The bench's ordering check passes exactly when, among the
    accesses the port answered since the probes were cleared, every load of the
    packet's last descriptor comes before the first ETXD write-back of its head. *)
Theorem etxd_order_exact (n : nat) (b : bench) (w head last_ : Z) :
  0 < p_cyc (b_port _ b) ->
  let '(b', tr) := steps E eval dma_req outs n (clear_probes _ b w) in
  etxd_check _ b' head last_ = true <-> loads_before_etxd head last_ tr.
Proof.
  intros Hc. pose proof (steps_probes n (clear_probes _ b w)) as H.
  destruct (steps E eval dma_req outs n (clear_probes _ b w)) as [b' tr]. destruct H as [[Hl Hs] Ho].
  unfold etxd_check. rewrite Hl, Hs. cbn [clear_probes b_pr g_last_load g_etxd_store b_port] in *.
  rewrite !lookup_empty in *. split.
  - destruct (first_at (etxd head) tr) as [c|] eqn:Ef; [|done]. intros Hlt%Z.ltb_lt.
    apply first_at_split in Ef as (t1 & q & t2 & -> & Hq & Hf). exists t1, c, q, t2. split; [done|].
    split; [done|]. split; [done|]. apply ordered_split in Ho as (_ & Ho2 & _).
    rewrite last_at_app in Hlt. cbn [last_at] in Hlt.
    revert Hlt. generalize (if loads last_ q then Some c else last_at (loads last_) t1 None). intros d Hlt.
    destruct (last_at_cases (loads last_) t2 (c + 1) d Ho2) as [[Hn _]|(v & Hv & Hcv)]; [exact Hn|].
    rewrite Hv in Hlt. cbn in Hlt. lia.
  - intros (t1 & c & q & t2 & -> & Hq & Hf & Hn).
    rewrite (proj2 (first_at_split _ _ c)) by (by exists t1, q, t2). apply Z.ltb_lt.
    apply ordered_split in Ho as (Hkc & Ho2 & Hb). rewrite last_at_app. cbn [last_at].
    assert (loads last_ q = false) as ->.
    { unfold loads, etxd in *. destruct (q_op q =? 4); [done|]. done. }
    assert (last_at (loads last_) t2 (last_at (loads last_) t1 None) = last_at (loads last_) t1 None) as ->.
    { clear -Hn. generalize (last_at (loads last_) t1 None). induction Hn as [|[x r] t H Ht IH]; intros d; cbn in *; [done|].
      rewrite H. apply IH. }
    destruct (last_at (loads last_) t1 None) as [v|] eqn:Ev; cbn; [|lia]. apply (Hb (loads last_) None v); [done|exact Ev].
Qed.

Fixpoint cycles (k : nat) (b : bench) : bench :=
  match k with O => b | S k => cycles k (fst (step b)) end.
(** The bounded wait gives up after exactly [lim] cycles, and
    before that stops at the first cycle the counter differs. *)
Theorem wait_for_exact (ctr : bench -> Z) (before : Z) (lim : nat) (b : bench) :
  let '(ok, b') := wait_for E eval dma_req outs ctr before lim b in
  exists k, b' = cycles k b /\ (forall j, (j < k)%nat -> ctr (cycles j b) = before) /\
    if ok then (k < lim)%nat /\ ctr b' <> before else k = lim.
Proof.
  revert b; induction lim as [|lim IH]; intros b; cbn [wait_for].
  { exists O. split; [done|]. split; [lia|done]. }
  destruct (Z.eqb_spec (ctr b) before) as [E0|E0]; cbn [negb].
  - specialize (IH (fst (step b))). destruct (wait_for _ _ _ _ _ _ _ _) as [ok b'].
    destruct IH as (k & Hb & Hj & Hok). exists (S k). split; [done|]. split.
    + intros [|j] Hjk; [done|]. cbn. apply Hj. lia.
    + destruct ok; [destruct Hok; split; [lia|done]|lia].
  - exists O. split; [done|]. split; [lia|]. split; [lia|done].
Qed.
End Proofs.

(** ** Witnesses *)
Definition toy_in : ring_in := RingIn false 0 0 false 0 0 false [].
(** An engine that reads the descriptor at 0x1110, then stores ETXD at 0x1100. *)
Definition toy_req (e : nat) : req :=
  if (e <? 12)%nat then Req true 0x1110 4 0xffff [] else Req true 0x1100 7 0x0040 [0; 0x800000; 0; 0].
Definition toy_outs (e : nat) : ring_out := RingOut (30 <? e)%nat 0x1140 false 0 false.
Definition toy_bench : bench nat :=
  Bench nat 0%nat toy_in (tick port0) ∅ (Probes_ ∅ ∅ ∅ 0 0) 0 0 0 0.
Lemma etxd_order_exact_witness :
  let '(b', tr) := steps nat (fun e c _ => S e) toy_req toy_outs 30 (clear_probes _ toy_bench 0) in
  etxd_check _ b' 0x1100 0x1110 = true /\ loads_before_etxd 0x1100 0x1110 tr.
Proof.
  assert (etxd_check _ (fst (steps nat (fun e c _ => S e) toy_req toy_outs 30 (clear_probes _ toy_bench 0))) 0x1100 0x1110
          = true) as Hv by (vm_compute; reflexivity).
  pose proof (etxd_order_exact nat (fun e c _ => S e) toy_req toy_outs 30 toy_bench 0 0x1100 0x1110 ltac:(by vm_compute)) as H.
  destruct (steps nat (fun e c _ => S e) toy_req toy_outs 30 (clear_probes _ toy_bench 0)) as [b' tr].
  split; [exact Hv|]. by apply H.
Defined.
Lemma rx_ring_holds_submitted_witness :
  holds_frame (submits_mem ∅ 0xffffffff [[1; 2; 3]; [4; 5]]) (0xffffffff +32 1) [4; 5].
Proof.
  apply (rx_ring_holds_submitted ∅ 0xffffffff [[1; 2; 3]; [4; 5]] 1).
  - apply mem_ok_empty.
  - by vm_compute.
  - repeat (apply Forall_cons_2; [split; [repeat (apply Forall_cons_2; [by vm_compute|]); apply Forall_nil_2|cbn; lia]|]).
    apply Forall_nil_2.
  - cbn. lia.
  - reflexivity.
Defined.
