(* ===== verification/EnetBench.v ===== *)
(** * EnetBench: the Ethernet and SCSI DMA engine benches with beat FIFOs

    sim/enet_dma_test/tb_enet_dma.cpp: the model port of [BenchPort], the two
    16-deep host beat FIFOs, the byte sink of TX and the driver of one RX frame
    ([rx_frame]).  sim/scsi_dma_test/tb_scsi_dma.cpp: the same port without
    alignment, a disk that is always ready, the run loop ([scsi_run]).  The
    Verilated engines are section variables. *)
From S2P Require Import Prelude AddressMap GuestMem BenchPort.

(** [(addr, op)] must differ from the last request taken. *)
Definition differs (l : Z * Z) (q : req) : bool := negb (q_addr q =? fst l) || negb (q_op q =? snd l).

(** A 16-byte beat: four little-endian lanes. *)
Abbreviation beat_t := (list Z).
Definition pack (b : list Z) : beat_t :=
  map (fun i => nth (4 * i) b 0 .| (nth (4 * i + 1) b 0 .<< 8) .| (nth (4 * i + 2) b 0 .<< 16)
                .| (nth (4 * i + 3) b 0 .<< 24)) (seq 0 4).
(** The sixteen bytes pushed to [tx_out] for a beat. *)
Definition unpack (t : beat_t) : list Z := map (fun k => sd_byte t k) (seq 0 16).

Definition FIFO : nat := 16.

(** ** [step] of tb_enet_dma.cpp *)
Record enet_in := EnetIn {
  i_rx_go : bool; i_rx_nbdp : Z; i_rx_len : Z; i_tx_go : bool; i_tx_nbdp : Z;
  i_rsp_valid : bool; i_rsp_data : list Z;
  i_rx_rd_valid : bool; i_rx_rd_data : beat_t; i_tx_wr_full : bool }.
(** Ports sampled after the falling-edge [eval], and after the rising edge. *)
Record enet_comb := EnetComb { o_req : req; o_rd_en : bool; o_wr_en : bool; o_wr_data : beat_t }.
Record enet_clk := EnetClk { o_rx_done : bool; o_rx_dropped : bool; o_tx_done : bool }.

Section Engine.
Variable E : Type.
Variable eval : E -> bool -> enet_in -> E.
Variable comb : E -> enet_comb.
Variable clk : E -> enet_clk.
(** [tx_pop_period]. *)
Variable period : Z.

Record bench := Bench {
  b_e : E; b_data : list Z; b_rd : beat_t; b_port : port; b_mem : mem;
  rx_src : list beat_t; rx_fifo : list beat_t; tx_fifo : list beat_t; tx_out : list Z;
  n_rx_done : Z; n_rx_drop : Z; n_tx_done : Z }.

(** The tail of [step]: FIFO traffic of cycle [cyc]. *)
Definition rx_refill (src fifo : list beat_t) : list beat_t * list beat_t :=
  match src with
  | x :: t => if (length fifo <? FIFO)%nat then (t, fifo ++ [x]) else (src, fifo)
  | [] => (src, fifo)
  end.
Definition tx_drain (cyc : Z) (fifo : list beat_t) (out : list Z) : list beat_t * list Z :=
  match fifo with
  | x :: t => if cyc mod period =? 0 then (t, out ++ unpack x) else (fifo, out)
  | [] => (fifo, out)
  end.
Record go_args := GoArgs { a_rx_go : bool; a_rx_nbdp : Z; a_rx_len : Z; a_tx_go : bool; a_tx_nbdp : Z }.
Definition acc := access at_mem true false.
(** [step(...)]; also returned: the ports sampled and the answer presented. *)
Definition step (g : go_args) (b : bench) : bench * (enet_comb * option (list Z)) :=
  let '(p, m, rsp) := serve acc (b_port b) (b_mem b) in
  let data := match rsp with Some (_ :: _ as d) => d | _ => b_data b end in
  let rd := match rx_fifo b with x :: _ => x | [] => b_rd b end in
  let i := EnetIn (a_rx_go g) (a_rx_nbdp g) (a_rx_len g) (a_tx_go g) (a_tx_nbdp g)
    (match rsp with Some _ => true | None => false end) data
    (match rx_fifo b with _ :: _ => true | [] => false end) rd (FIFO <=? length (tx_fifo b))%nat in
  let e := eval (b_e b) false i in
  let o := comb e in
  let p := accept differs p (o_req o) in
  let e := eval e true i in
  let rxf := if o_rd_en o then tail (rx_fifo b) else rx_fifo b in
  let txf := if o_wr_en o && (length (tx_fifo b) <? FIFO)%nat then tx_fifo b ++ [o_wr_data o] else tx_fifo b in
  let '(src, rxf) := rx_refill (rx_src b) rxf in
  let '(txf, out) := tx_drain (p_cyc p) txf (tx_out b) in
  (Bench e data rd (tick p) m src rxf txf out
     (if o_rx_done (clk e) then n_rx_done b + 1 else n_rx_done b)
     (if o_rx_dropped (clk e) then n_rx_drop b + 1 else n_rx_drop b)
     (if o_tx_done (clk e) then n_tx_done b + 1 else n_tx_done b), (o, rsp)).
Definition idle_args : go_args := GoArgs false 0 0 false 0.

(** The beats of a frame: zero-padded to whole beats. *)
Fixpoint beats (n : nat) (bs : list Z) : list beat_t :=
  match n with O => [] | S k => pack (take 16 bs) :: beats k (drop 16 bs) end.
Definition pad (f : list Z) : list Z :=
  f ++ repeat 0 (Z.to_nat (Z.ldiff (Z.of_nat (length f) + 15) 15) - length f).
Definition frame_beats (f : list Z) : list beat_t := beats (length (pad f) / 16) (pad f).
Definition queue_rx (b : bench) (bs : list beat_t) : bench :=
  Bench (b_e b) (b_data b) (b_rd b) (b_port b) (b_mem b) (rx_src b ++ bs) (rx_fifo b) (tx_fifo b) (tx_out b)
    (n_rx_done b) (n_rx_drop b) (n_tx_done b).
(** The wait of [rx_frame] ([g < lim]); the sampled ports are kept. *)
Fixpoint rx_wait (lim : nat) (dn dr : Z) (b : bench) : Z * bench * list (enet_comb * option (list Z)) :=
  match lim with
  | O => (0, b, [])
  | S k =>
      if negb (n_rx_done b =? dn) then (1, b, [])
      else if negb (n_rx_drop b =? dr) then (2, b, [])
      else let '(b, o) := step idle_args b in
           let '(r, b, os) := rx_wait k dn dr b in (r, b, o :: os)
  end.
Definition rx_frame (lim : nat) (nbdp : Z) (f : list Z) (b : bench)
    : Z * bench * list (enet_comb * option (list Z)) :=
  let dn := n_rx_done b in let dr := n_rx_drop b in
  let b := queue_rx b (frame_beats f) in
  let '(b, o) := step (GoArgs true nbdp (u32 (Z.of_nat (length f))) false 0) b in
  let '(r, b, os) := rx_wait lim dn dr b in (r, b, o :: os).
(** Cycles with the given arguments, and with none. *)
Fixpoint steps (gs : list go_args) (b : bench) : bench * list (enet_comb * option (list Z)) :=
  match gs with
  | [] => (b, [])
  | g :: t => let '(b, o) := step g b in let '(b, os) := steps t b in (b, o :: os)
  end.
End Engine.

(** ** Properties: the FIFOs *)
Section Proofs.
Context (E : Type) (eval : E -> bool -> enet_in -> E) (comb : E -> enet_comb) (clk : E -> enet_clk) (period : Z).
Abbreviation bench := (bench E).
Abbreviation step := (step E eval comb clk period).
Abbreviation steps := (steps E eval comb clk period).
Abbreviation obs := (enet_comb * option (list Z))%type.

(** The handshake of scsi_beat_fifo: an engine reads only a valid beat and
    writes only when the FIFO is not full. *)
Class BeatHandshake : Prop := {
  rd_when_valid : forall e i, i_rx_rd_valid i = false -> o_rd_en (comb (eval e false i)) = false;
  wr_when_room : forall e i, i_tx_wr_full i = true -> o_wr_en (comb (eval e false i)) = false }.

Definition stream (bs : list beat_t) : list Z := concat (map unpack bs).
(** The beats the engine wrote, and the beats it was shown when it read. *)
Definition written (tr : list obs) : list beat_t :=
  concat (map (fun o => if o_wr_en (fst o) then [o_wr_data (fst o)] else []) tr).
Fixpoint taken (gs : list go_args) (b : bench) : list beat_t :=
  match gs with
  | [] => []
  | g :: t => let '(b', o) := step g b in (if o_rd_en (fst o) then [b_rd _ b'] else []) ++ taken t b'
  end.
Definition fifos_ok (b : bench) : Prop := (length (rx_fifo _ b) <= FIFO)%nat /\ (length (tx_fifo _ b) <= FIFO)%nat.

Lemma rx_refill_spec src fifo :
  let '(s, f) := rx_refill src fifo in
  f ++ s = fifo ++ src /\ ((length fifo <= FIFO)%nat -> (length f <= FIFO)%nat).
Proof.
  unfold rx_refill. destruct src as [|x t]; [done|]. destruct (Nat.ltb_spec (length fifo) FIFO); [|done].
  split; [by rewrite <- app_assoc|]. rewrite length_app. cbn. lia.
Qed.
Lemma tx_drain_spec c fifo out :
  let '(f, o) := tx_drain period c fifo out in
  o ++ stream f = out ++ stream fifo /\ (length f <= length fifo)%nat /\
  (c mod period = 0 -> length f = pred (length fifo)).
Proof.
  unfold tx_drain. destruct fifo as [|x t]; [done|]. destruct (Z.eqb_spec (c mod period) 0).
  - split; [|cbn; lia]. unfold stream. cbn [map concat]. by rewrite <- app_assoc.
  - done.
Qed.
Lemma step_fifos `{HS : !BeatHandshake} g (b : bench) :
  let '(b', o) := step g b in
  (if o_rd_en (fst o) then [b_rd _ b'] else []) ++ rx_fifo _ b' ++ rx_src _ b' = rx_fifo _ b ++ rx_src _ b /\
  tx_out _ b' ++ stream (tx_fifo _ b')
  = tx_out _ b ++ stream (tx_fifo _ b) ++ stream (if o_wr_en (fst o) then [o_wr_data (fst o)] else []) /\
  (fifos_ok b -> fifos_ok b') /\ p_cyc (b_port _ b') = p_cyc (b_port _ b) + 1 /\
  (o_wr_en (fst o) = false -> (length (tx_fifo _ b') <= length (tx_fifo _ b))%nat /\
     (p_cyc (b_port _ b) mod period = 0 -> length (tx_fifo _ b') = pred (length (tx_fifo _ b)))).
Proof.
  unfold EnetBench.step.
  assert (p_cyc (fst (fst (serve acc (b_port _ b) (b_mem _ b)))) = p_cyc (b_port _ b)) as Hc.
  { unfold serve. destruct (_ =? _); [|done]. by destruct (acc _ _). }
  destruct (serve _ _ _) as [[p m] rsp]. cbn [fst] in Hc.
  set (i := EnetIn _ _ _ _ _ _ _ _ _ _). set (o := comb (eval (b_e _ b) false i)).
  assert (p_cyc (accept differs p (o_req o)) = p_cyc (b_port _ b)) as Hc2 by (unfold accept; rewrite <- Hc; by case_match).
  pose proof (rd_when_valid (b_e _ b) i) as Hrd. pose proof (wr_when_room (b_e _ b) i) as Hwr.
  fold o in Hrd, Hwr. cbn [i i_rx_rd_valid i_tx_wr_full] in Hrd, Hwr.
  set (rxf := if o_rd_en o then _ else _). set (txf := if _ && _ then _ else tx_fifo _ b).
  pose proof (rx_refill_spec (rx_src _ b) rxf) as Hr. destruct (rx_refill _ _) as [src rxf']. destruct Hr as [Hr Hrl].
  pose proof (tx_drain_spec (p_cyc (accept differs p (o_req o))) txf (tx_out _ b)) as Ht.
  rewrite Hc2 in *. destruct (tx_drain _ _ _ _) as [txf' out]. destruct Ht as (Ht & Htl & Hte).
  assert (o_wr_en o = true -> (length (tx_fifo _ b) < FIFO)%nat) as Hroom.
  { intros Hw. destruct (Nat.leb_spec FIFO (length (tx_fifo _ b))); [|done]. by rewrite Hwr in Hw. }
  assert (txf = tx_fifo _ b ++ (if o_wr_en o then [o_wr_data o] else [])) as Etx.
  { unfold txf. destruct (o_wr_en o) eqn:Ew; cbn [andb]; [|by rewrite app_nil_r].
    rewrite (proj2 (Nat.ltb_lt _ _)) by (by apply Hroom). done. }
  cbn [fst b_rd EnetBench.rx_fifo EnetBench.rx_src EnetBench.tx_fifo EnetBench.tx_out b_port tick p_cyc]. rewrite Hc2.
  split; [|split; [|split; [intros [F1 F2]; split|split; [done|intros Hw; split]]]]; cbn.
  - rewrite Hr. unfold rxf. destruct (o_rd_en o); [|done]. destruct (rx_fifo _ b) as [|x t]; [|done]. by specialize (Hrd eq_refl).
  - rewrite Ht, Etx. unfold stream. by rewrite map_app, concat_app.
  - apply Hrl. unfold rxf. destruct (o_rd_en o); [|done]. destruct (rx_fifo _ b); cbn in *; lia.
  - etrans; [exact Htl|]. rewrite Etx, length_app. destruct (o_wr_en o); cbn; [|lia].
    specialize (Hroom eq_refl). lia.
  - rewrite Etx, Hw, app_nil_r in Htl. done.
  - intros Hp. rewrite (Hte Hp), Etx, Hw, app_nil_r. done.
Qed.

Lemma stream_app xs ys : stream (xs ++ ys) = stream xs ++ stream ys.
Proof. unfold stream. by rewrite map_app, concat_app. Qed.

Lemma steps_fifos `{HS : !BeatHandshake} (gs : list go_args) (b : bench) :
  fifos_ok b ->
  let '(b', tr) := steps gs b in
  fifos_ok b' /\
  taken gs b ++ rx_fifo _ b' ++ rx_src _ b' = rx_fifo _ b ++ rx_src _ b /\
  tx_out _ b' ++ stream (tx_fifo _ b') = tx_out _ b ++ stream (tx_fifo _ b) ++ stream (written tr).
Proof.
  revert b; induction gs as [|g gs IH]; intros b Hb.
  { cbn. split; [done|]. split; [done|]. change (stream (written [])) with (@nil Z). by rewrite app_nil_r. }
  cbn [EnetBench.steps taken]. pose proof (step_fifos g b) as Hs. destruct (step g b) as [b1 o].
  destruct Hs as (Hrx & Htx & Hok & _). specialize (IH b1 (Hok Hb)).
  destruct (steps gs b1) as [b2 tr]. destruct IH as (Hb2 & Hrx2 & Htx2). split; [done|]. split.
  - rewrite <- app_assoc, Hrx2, Hrx. done.
  - rewrite Htx2, app_assoc, Htx. unfold written. cbn [map concat]. rewrite stream_app. by rewrite <- !app_assoc.
Qed.

(** C35.  For an engine that keeps the FIFO handshake, over any
    cycles and any backpressure the FIFOs stay within their 16 beats, the beats
    it read followed by those still queued are the beats queued for RX, in
    order, and the bytes sent followed by those still in the TX FIFO are the
    beats it wrote, in order: no beat is lost, duplicated or reordered. *)
Theorem enet_fifos_lossless `{HS : !BeatHandshake} (gs : list go_args) (b : bench) :
  fifos_ok b ->
  let '(b', tr) := steps gs b in
  fifos_ok b' /\
  taken gs b ++ rx_fifo _ b' ++ rx_src _ b' = rx_fifo _ b ++ rx_src _ b /\
  tx_out _ b' ++ stream (tx_fifo _ b') = tx_out _ b ++ stream (tx_fifo _ b) ++ stream (written tr).
Proof. apply steps_fifos. Qed.

(** Pops so far: one for each multiple of the period. *)
Definition pops (c : Z) : Z := (c + period - 1) / period.
Lemma pops_next c : 0 < period -> pops (c + 1) = pops c + (if c mod period =? 0 then 1 else 0).
Proof.
  intros Hp. unfold pops. replace (c + 1 + period - 1) with (c + 1 * period) by lia. rewrite Z.div_add by lia.
  pose proof (Z.div_mod c period ltac:(lia)) as Hd. pose proof (Z.mod_pos_bound c period ltac:(lia)).
  destruct (Z.eqb_spec (c mod period) 0) as [E0|E0].
  - rewrite <- (Z.div_unique (c + period - 1) period (c / period) (period - 1)) by lia. lia.
  - rewrite <- (Z.div_unique (c + period - 1) period (c / period + 1) (c mod period - 1)) by lia. lia.
Qed.
Lemma tx_drain_count `{HS : !BeatHandshake} gs (b : bench) :
  0 < period -> written (snd (steps gs b)) = [] ->
  let b' := fst (steps gs b) in
  Z.of_nat (length (tx_fifo _ b')) <=
    Z.max 0 (Z.of_nat (length (tx_fifo _ b)) - (pops (p_cyc (b_port _ b) + Z.of_nat (length gs)) - pops (p_cyc (b_port _ b)))).
Proof.
  intros Hp. revert b; induction gs as [|g gs IH]; intros b.
  { intros _. cbn. rewrite Z.add_0_r. lia. }
  cbn [EnetBench.steps length]. pose proof (step_fifos g b) as Hs. destruct (step g b) as [b1 o].
  destruct Hs as (_ & _ & _ & Hc & Hd). specialize (IH b1). destruct (steps gs b1) as [b2 tr].
  cbn [fst snd] in *. intros Hw. apply app_nil in Hw as [Hw1 Hw2]. cbn in Hw1. destruct (o_wr_en (fst o)); [done|].
  destruct (Hd eq_refl) as [Hle Heq]. specialize (IH Hw2). rewrite Hc in IH.
  replace (p_cyc (b_port _ b) + 1 + Z.of_nat (length gs)) with (p_cyc (b_port _ b) + Z.of_nat (S (length gs))) in IH by lia.
  assert (pops (p_cyc (b_port _ b) + 1) <= pops (p_cyc (b_port _ b) + Z.of_nat (S (length gs)))) as Hmono
    by (apply Z.div_le_mono; lia).
  rewrite (pops_next (p_cyc (b_port _ b))) in IH, Hmono by done.
  destruct (Z.eqb_spec (p_cyc (b_port _ b) mod period) 0) as [E0|E0]; [specialize (Heq E0)|]; lia.
Qed.

(** Once the engine stops writing, sixteen pop periods of
    cycles empty the TX FIFO, so the sink then holds every byte written (the
    bench waits 4000 cycles, its longest period being 200). *)
Theorem enet_tx_drains `{HS : !BeatHandshake} (gs : list go_args) (b : bench) :
  0 < period -> fifos_ok b -> written (snd (steps gs b)) = [] -> 16 * period <= Z.of_nat (length gs) ->
  let b' := fst (steps gs b) in
  tx_fifo _ b' = [] /\ tx_out _ b' = tx_out _ b ++ stream (tx_fifo _ b).
Proof.
  intros Hp Hb Hw Hl b'. pose proof (tx_drain_count gs b Hp Hw) as Hc. fold b' in Hc. cbn zeta in Hc.
  assert (tx_fifo _ b' = []) as Hn.
  { destruct Hb as [_ Hb]. unfold FIFO in Hb.
    assert (pops (p_cyc (b_port _ b) + 16 * period) <= pops (p_cyc (b_port _ b) + Z.of_nat (length gs))) as Hm
      by (apply Z.div_le_mono; lia).
    assert (pops (p_cyc (b_port _ b) + 16 * period) = pops (p_cyc (b_port _ b)) + 16) as He.
    { unfold pops. replace (p_cyc (b_port _ b) + 16 * period + period - 1)
        with (p_cyc (b_port _ b) + period - 1 + 16 * period) by lia. by rewrite Z.div_add by lia. }
    destruct (tx_fifo _ b'); [done|]. cbn [length] in Hc. lia. }
  split; [done|]. pose proof (steps_fifos gs b Hb) as H. subst b'.
  destruct (steps gs b) as [b2 tr]. cbn [fst snd] in *. destruct H as (_ & _ & H).
  rewrite Hn, Hw in H. unfold stream in H at 1. cbn [map concat] in H. rewrite app_nil_r in H. rewrite H.
  change (stream []) with (@nil Z). by rewrite app_nil_r.
Qed.

(** ** One frame *)
Lemma lane_byte b0 b1 b2 b3 j :
  is_u 8 b0 -> is_u 8 b1 -> is_u 8 b2 -> is_u 8 b3 -> (j < 4)%nat ->
  ((b0 .| (b1 .<< 8) .| (b2 .<< 16) .| (b3 .<< 24)) .>> (8 * Z.of_nat j)) .& 0xff = nth j [b0; b1; b2; b3] 0.
Proof.
  intros H0 H1 H2 H3 Hj. rewrite cat32_rev, cat32, land_ff by done.
  unfold is_u in *. change (2 ^ 8) with 256 in *. rewrite Z.shiftr_div_pow2 by lia.
  do 4 (destruct j as [|j];
    [cbn [nth]; first [change (2 ^ (8 * Z.of_nat 0)) with 1 | change (2 ^ (8 * Z.of_nat 1)) with 256
      | change (2 ^ (8 * Z.of_nat 2)) with 65536 | change (2 ^ (8 * Z.of_nat 3)) with 16777216];
     Z.to_euclidean_division_equations; lia|]). lia.
Qed.
Lemma unpack_pack bs : bytes_ok bs -> length bs = 16%nat -> unpack (pack bs) = bs.
Proof.
  intros Hb Hl. do 16 (destruct bs as [|? bs]; [done|]). destruct bs; [|done].
  repeat match goal with H : Forall _ (_ :: _) |- _ =>
    pose proof (Forall_inv H); apply Forall_inv_tail in H end.
  unfold unpack, pack, sd_byte. cbn [map seq]. 
  repeat (apply (f_equal2 cons); [|]); try done;
    match goal with |- context [8 * Z.of_nat (?k mod 4)] =>
      let j := eval cbv in (k mod 4)%nat in change (k mod 4)%nat with j;
      let q := eval cbv in (k / 4)%nat in change (k / 4)%nat with q end;
    cbn [nth Nat.mul Nat.add]; rewrite lane_byte by (done || lia); done.
Qed.
Lemma beats_stream n bs : bytes_ok bs -> length bs = (16 * n)%nat -> stream (beats n bs) = bs.
Proof.
  revert bs; induction n as [|n IH]; intros bs Hb Hl; cbn [beats].
  - by destruct bs.
  - unfold stream. cbn [map concat]. fold (stream (beats n (drop 16 bs))).
    rewrite unpack_pack by first [by apply Forall_take|rewrite length_take; lia].
    rewrite IH by first [by apply Forall_drop|rewrite length_drop; lia].
    apply take_drop.
Qed.
Lemma pad_spec f : exists n, length (pad f) = (16 * n)%nat /\ (length f <= length (pad f) < length f + 16)%nat.
Proof.
  unfold pad. rewrite length_app, repeat_length.
  assert (Z.ldiff (Z.of_nat (length f) + 15) 15 = 16 * ((Z.of_nat (length f) + 15) / 16)) as ->.
  { change (Z.ldiff ?a 15) with (Z.ldiff a (2 ^ 4 - 1)). rewrite ldiff_ones_align by lia. change (2 ^ 4) with 16.
    Z.to_euclidean_division_equations. lia. }
  pose proof (Z.div_mod (Z.of_nat (length f) + 15) 16 ltac:(lia)).
  pose proof (Z.mod_pos_bound (Z.of_nat (length f) + 15) 16 ltac:(lia)).
  exists (Z.to_nat ((Z.of_nat (length f) + 15) / 16)). lia.
Qed.
Lemma pad_ok f : bytes_ok f -> bytes_ok (pad f).
Proof.
  intros Hf. apply Forall_app_2; [done|]. generalize (Z.to_nat (Z.ldiff (Z.of_nat (length f) + 15) 15) - length f)%nat.
  intros n. induction n; cbn; [apply Forall_nil_2|apply Forall_cons_2; [by vm_compute|done]].
Qed.
Lemma frame_beats_stream f : bytes_ok f -> stream (frame_beats f) = pad f.
Proof.
  intros Hf. destruct (pad_spec f) as (n & Hn & _). unfold frame_beats.
  rewrite Hn, Nat.mul_comm, Nat.div_mul by lia. apply beats_stream; [by apply pad_ok|done].
Qed.
Lemma rx_wait_steps lim dn dr (b : bench) :
  let '(r, b', os) := rx_wait E eval comb clk period lim dn dr b in
  exists k, (k <= lim)%nat /\ steps (repeat idle_args k) b = (b', os) /\
    (r = 1 -> n_rx_done _ b' <> dn) /\ (r = 2 -> n_rx_drop _ b' <> dr) /\ (r = 0 -> k = lim).
Proof.
  revert b; induction lim as [|lim IH]; intros b; cbn [rx_wait]; [by exists O|].
  destruct (Z.eqb_spec (n_rx_done _ b) dn); cbn [negb]; [|exists O; split; [lia|done]].
  destruct (Z.eqb_spec (n_rx_drop _ b) dr); cbn [negb]; [|exists O; split; [lia|done]].
  destruct (step idle_args b) as [b1 o] eqn:Es. specialize (IH b1).
  destruct (rx_wait _ _ _ _ _ lim dn dr b1) as [[r b2] os]. destruct IH as (k & Hk & Hst & H1 & H2 & H0).
  exists (S k). split; [lia|]. cbn [repeat EnetBench.steps]. rewrite Es, Hst. split; [done|]. split; [done|].
  split; [done|]. intros Hr. by rewrite (H0 Hr).
Qed.

(** C36.  One RX frame.  The driver takes at most [lim] cycles of
    waiting; it returns 1 only if the engine reported done, 2 only if it
    reported a drop.  When it starts and ends with both queues empty (what the
    bench checks), the bytes the engine was given are exactly the frame followed
    by fewer than sixteen bytes of zero padding. *)
Theorem rx_frame_delivers `{HS : !BeatHandshake} (lim : nat) (nbdp : Z) (f : list Z) (b : bench) :
  bytes_ok f -> fifos_ok b -> rx_fifo _ b = [] -> rx_src _ b = [] ->
  let '(r, b', os) := rx_frame E eval comb clk period lim nbdp f b in
  exists k, (k <= lim)%nat /\ (r = 0 -> k = lim) /\
  (r = 1 -> n_rx_done _ b' <> n_rx_done _ b) /\ (r = 2 -> n_rx_drop _ b' <> n_rx_drop _ b) /\
  (rx_fifo _ b' = [] -> rx_src _ b' = [] ->
   exists n, (n < 16)%nat /\
   stream (taken (GoArgs true nbdp (u32 (Z.of_nat (length f))) false 0 :: repeat idle_args k)
                 (queue_rx _ b (frame_beats f))) = f ++ repeat 0 n).
Proof.
  intros Hf Hb Hfifo Hsrc. unfold rx_frame. set (g := GoArgs _ _ _ _ _). set (b0 := queue_rx _ b _).
  destruct (step g b0) as [b1 o] eqn:Es. pose proof (rx_wait_steps lim (n_rx_done _ b) (n_rx_drop _ b) b1) as H.
  destruct (rx_wait _ _ _ _ _ _ _ _ b1) as [[r b2] os]. destruct H as (k & Hk & Hst & H1 & H2 & H0).
  exists k. split; [done|]. split; [done|]. split; [done|]. split; [done|]. intros E1 E2.
  pose proof (steps_fifos (g :: repeat idle_args k) b0 ltac:(exact Hb)) as H. cbn [EnetBench.steps] in H.
  rewrite Es, Hst in H. destruct H as (_ & H & _). rewrite E1, E2, !app_nil_r in H.
  cbn [b0 queue_rx EnetBench.rx_fifo EnetBench.rx_src] in H. rewrite Hfifo, Hsrc in H. cbn [app] in H.
  rewrite H, frame_beats_stream by done. destruct (pad_spec f) as (_ & _ & Hp). unfold pad in *.
  eexists. split; [|done]. rewrite length_app, repeat_length in Hp. lia.
Qed.
End Proofs.

(** ** The run loop of tb_scsi_dma.cpp *)
Definition ramp (b : Z) : Z := u8 (u64 (b * 7 + 3)).
(** The beat the disk offers when [rd_byte] bytes were consumed. *)
Definition disk_beat (rd_byte : Z) : beat_t :=
  map (fun i =>
    fold_left (fun w j => w .| (ramp (rd_byte + 4 * Z.of_nat i + Z.of_nat j) .<< (8 * Z.of_nat j))) (seq 0 4) 0)
    (seq 0 4).
Record scsi_in := ScsiIn {
  s_go : bool; s_nbdp : Z; s_to_dev : bool; s_rsp_valid : bool; s_rsp_data : list Z; s_rd_data : beat_t }.
Section ScsiDma.
Variable E : Type.
Variable eval : E -> bool -> scsi_in -> E.
Variable comb : E -> enet_comb.
Variable done_ : E -> bool.
Record sbench := SBench {
  sb_e : E; sb_data : list Z; sb_port : port; sb_mem : mem; rd_byte : Z; wr_capture : list Z }.
Definition sacc := access at_mem false false.
(** One round of the loop; also returned: [saw_done], the ports and the beat. *)
Definition scsi_cycle (nbdp : Z) (to_dev go : bool) (b : sbench) : sbench * bool * (enet_comb * beat_t) :=
  let '(p, m, rsp) := serve sacc (sb_port b) (sb_mem b) in
  let data := match rsp with Some (_ :: _ as d) => d | _ => sb_data b end in
  let beat := disk_beat (rd_byte b) in
  let i := ScsiIn go nbdp to_dev (match rsp with Some _ => true | None => false end) data beat in
  let e := eval (sb_e b) false i in
  let o := comb e in
  let p := accept differs p (o_req o) in
  let cap := if o_wr_en o then wr_capture b ++ unpack (o_wr_data o) else wr_capture b in
  let e := eval e true i in
  (SBench e data (tick p) m (if o_rd_en o then rd_byte b + 16 else rd_byte b) cap, done_ e, (o, beat)).
Fixpoint scsi_loop (guard : nat) (nbdp : Z) (to_dev go : bool) (b : sbench)
    : bool * sbench * list (enet_comb * beat_t) :=
  match guard with
  | O => (false, b, [])
  | S k =>
      let '(b, saw, o) := scsi_cycle nbdp to_dev go b in
      if saw then (true, b, [o])
      else let '(r, b, os) := scsi_loop k nbdp to_dev false b in (r, b, o :: os)
  end.
Definition scsi_run (guard : nat) (nbdp : Z) (to_dev : bool) (b : sbench) : bool * sbench * list (enet_comb * beat_t) :=
  let p := sb_port b in
  scsi_loop guard nbdp to_dev true
    (SBench (sb_e b) (sb_data b) (Port (p_cyc p) (-1) (p_resp p) (p_req p) (0xffffffff, 0xff)) (sb_mem b)
       (rd_byte b) (wr_capture b)).

(** The bytes the engine consumed and those it pushed. *)
Definition consumed (tr : list (enet_comb * beat_t)) : list Z :=
  concat (map (fun o => if o_rd_en (fst o) then unpack (snd o) else []) tr).
Definition pushed (tr : list (enet_comb * beat_t)) : list Z :=
  concat (map (fun o => if o_wr_en (fst o) then unpack (o_wr_data (fst o)) else []) tr).
Definition ramp_from (b : Z) (n : nat) : list Z := map (fun i => ramp (b + Z.of_nat i)) (seq 0 n).

Lemma ramp_ok b : is_u 8 (ramp b).
Proof. unfold ramp. apply u8_range. Qed.
Lemma nth_ramp_from b n k : (k < n)%nat -> nth k (ramp_from b n) 0 = ramp (b + Z.of_nat k).
Proof.
  intros Hk. unfold ramp_from. rewrite (nth_indep _ 0 (ramp (b + Z.of_nat 0))) by (by rewrite length_map, length_seq).
  rewrite (map_nth (fun i => ramp (b + Z.of_nat i))), seq_nth by done. done.
Qed.
Lemma disk_beat_pack b : disk_beat b = pack (ramp_from b 16).
Proof.
  unfold disk_beat, pack. apply map_ext_in. intros i [_ Hi]%in_seq. rewrite !nth_ramp_from by lia.
  cbn [seq fold_left]. rewrite Z.lor_0_l. change (8 * Z.of_nat 0) with 0. change (8 * Z.of_nat 1) with 8.
  change (8 * Z.of_nat 2) with 16. change (8 * Z.of_nat 3) with 24. rewrite Z.shiftl_0_r.
  replace (b + Z.of_nat (4 * i)) with (b + 4 * Z.of_nat i + Z.of_nat 0) by lia.
  replace (b + Z.of_nat (4 * i + 1)) with (b + 4 * Z.of_nat i + Z.of_nat 1) by lia.
  replace (b + Z.of_nat (4 * i + 2)) with (b + 4 * Z.of_nat i + Z.of_nat 2) by lia.
  by replace (b + Z.of_nat (4 * i + 3)) with (b + 4 * Z.of_nat i + Z.of_nat 3) by lia.
Qed.
Lemma unpack_disk_beat b : unpack (disk_beat b) = ramp_from b 16.
Proof.
  rewrite disk_beat_pack. apply unpack_pack; [|done]. apply Forall_map, Forall_true. intros. apply ramp_ok.
Qed.
Lemma ramp_from_app b n k : ramp_from b (n + k) = ramp_from b n ++ ramp_from (b + Z.of_nat n) k.
Proof.
  assert (forall c j, length (ramp_from c j) = j) as L by (intros; unfold ramp_from; by rewrite length_map, length_seq).
  apply (nth_ext _ _ 0 0); [by rewrite length_app, !L|]. rewrite L. intros i Hi. rewrite nth_ramp_from by done.
  destruct (decide (i < n)%nat).
  - rewrite app_nth1 by (by rewrite L). by rewrite nth_ramp_from.
  - rewrite app_nth2, L, nth_ramp_from by (rewrite ?L; lia). f_equal. lia.
Qed.

Lemma scsi_loop_spec guard nbdp to_dev go (b : sbench) :
  let '(r, b', tr) := scsi_loop guard nbdp to_dev go b in
  rd_byte b' = rd_byte b + Z.of_nat (length (consumed tr)) /\
  consumed tr = ramp_from (rd_byte b) (length (consumed tr)) /\
  wr_capture b' = wr_capture b ++ pushed tr /\
  (length tr <= guard)%nat /\ (r = false -> length tr = guard) /\ (r = true -> done_ (sb_e b') = true).
Proof.
  revert go b; induction guard as [|guard IH]; intros go b; cbn [scsi_loop].
  { cbn. rewrite Z.add_0_r, app_nil_r. done. }
  destruct (scsi_cycle nbdp to_dev go b) as [[b1 saw] [o beat]] eqn:Ec.
  assert (rd_byte b1 = rd_byte b + Z.of_nat (length (if o_rd_en o then unpack beat else [])) /\
    (if o_rd_en o then unpack beat else []) = ramp_from (rd_byte b) (length (if o_rd_en o then unpack beat else [])) /\
    wr_capture b1 = wr_capture b ++ (if o_wr_en o then unpack (o_wr_data o) else []) /\ saw = done_ (sb_e b1)) as (H1 & H2 & H3 & H4).
  { unfold scsi_cycle in Ec. destruct (serve _ _ _) as [[p m] rsp]. injection Ec as <- <- <- <-. cbn [rd_byte wr_capture sb_e].
    rewrite unpack_disk_beat. split; [|split; [|split; [|done]]].
    - destruct (o_rd_en _); [done|]. cbn. by rewrite Z.add_0_r.
    - by destruct (o_rd_en _).
    - destruct (o_wr_en _); [done|by rewrite app_nil_r]. }
  destruct saw.
  - cbn [consumed pushed map concat fst snd length]. unfold consumed, pushed; cbn [map concat fst snd length].
    rewrite !app_nil_r. split; [done|]. split; [done|]. split; [done|]. split; [lia|]. split; [done|]. by rewrite H4.
  - specialize (IH false b1). destruct (scsi_loop guard nbdp to_dev false b1) as [[r b2] os].
    destruct IH as (I1 & I2 & I3 & I4 & I5 & I6). unfold consumed, pushed in *. cbn [map concat fst snd length].
    rewrite !length_app. split; [lia|]. split; [rewrite ramp_from_app, <- H1, <- H2, <- I2; done|].
    split; [rewrite I3, H3; by rewrite <- app_assoc|]. split; [lia|]. split; [intros Hr; by rewrite I5|done].
Qed.

(** One transfer of the SCSI DMA bench, whatever the engine
    does: the bytes it reads from the disk are consecutive bytes of the ramp
    from where the last transfer stopped, the capture gains exactly the beats it
    wrote, in order, and the loop ends with the engine's done or after exactly
    [guard] cycles. *)
Theorem scsi_run_streams (guard : nat) (nbdp : Z) (to_dev : bool) (b : sbench) :
  let '(r, b', tr) := scsi_run guard nbdp to_dev b in
  rd_byte b' = rd_byte b + Z.of_nat (length (consumed tr)) /\
  consumed tr = ramp_from (rd_byte b) (length (consumed tr)) /\
  wr_capture b' = wr_capture b ++ pushed tr /\
  (length tr <= guard)%nat /\ (r = false -> length tr = guard) /\ (r = true -> done_ (sb_e b') = true).
Proof.
  unfold scsi_run. match goal with |- context [scsi_loop _ _ _ _ ?b0] => exact (scsi_loop_spec guard nbdp to_dev true b0) end.
Qed.
End ScsiDma.

(** ** Witnesses *)

(** An engine that reads whenever a beat is valid and writes it back to TX
    whenever there is room; it reports done after ten cycles. *)
Definition toy_comb (e : nat * option beat_t * bool) : enet_comb :=
  let '(_, x, room) := e in
  match x with
  | Some d => EnetComb (Req false 0 0 0 []) true room d
  | None => EnetComb (Req false 0 0 0 []) false false []
  end.
Definition toy_eval (e : nat * option beat_t * bool) (c : bool) (i : enet_in) : nat * option beat_t * bool :=
  let '(n, _, _) := e in
  ((if c then S n else n), (if i_rx_rd_valid i then Some (i_rx_rd_data i) else None), negb (i_tx_wr_full i)).
Definition toy_clk (e : nat * option beat_t * bool) : enet_clk := EnetClk (10 <? fst (fst e))%nat false false.
#[export] Instance toy_handshake : BeatHandshake _ toy_eval toy_comb.
Proof.
  split; intros [[n x] r] i H; unfold toy_eval; cbn; rewrite H; [done|]. by destruct (i_rx_rd_valid i).
Qed.
Definition toy_bench : bench (nat * option beat_t * bool) :=
  Bench _ (O, None, false) [] [] port0 ∅ [] [] [] [] 0 0 0.
Definition toy_frame : list Z := [1; 2; 3; 4; 5; 6; 7; 8; 9; 10; 11; 12; 13; 14; 15; 16; 17; 18].
Lemma toy_frame_ok : bytes_ok toy_frame.
Proof. repeat (apply Forall_cons_2; [by vm_compute|]). apply Forall_nil_2. Qed.
Lemma toy_fifos_ok : fifos_ok _ toy_bench.
Proof. split; cbn; lia. Qed.
Lemma enet_fifos_lossless_witness :
  let '(b', tr) := steps _ toy_eval toy_comb toy_clk 200 (repeat idle_args 5) (queue_rx _ toy_bench (frame_beats toy_frame)) in
  stream (written tr) = pad toy_frame /\ tx_out _ b' ++ stream (tx_fifo _ b') = pad toy_frame.
Proof.
  pose proof (enet_fifos_lossless _ toy_eval toy_comb toy_clk 200 (repeat idle_args 5)
    (queue_rx _ toy_bench (frame_beats toy_frame)) toy_fifos_ok) as H.
  assert (stream (written (snd (steps _ toy_eval toy_comb toy_clk 200 (repeat idle_args 5)
    (queue_rx _ toy_bench (frame_beats toy_frame))))) = pad toy_frame) as Hw by (vm_compute; reflexivity).
  destruct (steps _ _ _ _ _ _ _) as [b' tr]. destruct H as (_ & _ & H). split; [exact Hw|].
  rewrite H. cbn [snd] in Hw. rewrite Hw. reflexivity.
Defined.
Lemma enet_tx_drains_witness :
  tx_fifo _ (fst (steps _ toy_eval toy_comb toy_clk 2 (repeat idle_args 32)
    (Bench _ (O, None, false) [] [] port0 ∅ [] [] [pack toy_frame; pack toy_frame] [] 0 0 0))) = [].
Proof.
  refine (proj1 (enet_tx_drains _ toy_eval toy_comb toy_clk 2 (repeat idle_args 32)
    (Bench _ (O, None, false) [] [] port0 ∅ [] [] [pack toy_frame; pack toy_frame] [] 0 0 0) _ _ _ _)).
  - lia.
  - split; unfold FIFO; cbn; lia.
  - vm_compute. reflexivity.
  - cbn. lia.
Defined.
Lemma rx_frame_delivers_witness :
  exists k n, (n < 16)%nat /\
  stream (taken _ toy_eval toy_comb toy_clk 1 (GoArgs true 0x1000 18 false 0 :: repeat idle_args k)
    (queue_rx _ toy_bench (frame_beats toy_frame))) = toy_frame ++ repeat 0 n.
Proof.
  assert (let '(r, b', _) := rx_frame _ toy_eval toy_comb toy_clk 1 200 0x1000 toy_frame toy_bench in
    rx_fifo _ b' = [] /\ rx_src _ b' = []) as Hv by (vm_compute; split; reflexivity).
  pose proof (rx_frame_delivers _ toy_eval toy_comb toy_clk 1 200 0x1000 toy_frame toy_bench
    toy_frame_ok toy_fifos_ok eq_refl eq_refl) as H.
  destruct (rx_frame _ toy_eval toy_comb toy_clk 1 200 0x1000 toy_frame toy_bench) as [[r b'] os].
  destruct H as (k & _ & _ & _ & _ & H). exists k. destruct Hv as [E1 E2]. exact (H E1 E2).
Defined.
