(* ===== verification/GioBench.v ===== *)
(** * GioBench: the GIO window bench

    sim/gio_window_test/tb_gio_window.cpp runs gio_window.sv between a CPU model
    (one random access outstanding), a memory that takes single lines and 64-byte
    bursts, and an ARM model that consumes the capture ring and answers loads.
    A cycle of the bench is [cycle], its three models [cpu_issue]/[cpu_done],
    [mem_phase] and [arm_phase].  The draws of rand() are an input of the cycle
    and the Verilated block is a section variable.  Every [CHECK] is an element
    of the list of outcomes a phase returns. *)
From S2P Require Import Prelude AddressMap GuestMem.

Definition BASE : Z := 0x1f0f0000.
Definition RING_PA : Z := 0x1e200000.
Definition PROD_PA : Z := 0x1e000060.
Definition RING_N : Z := 16.

Record access_t := Access { a_store : bool; a_dwoff : Z; a_mask : Z; a_lanes : Z; a_space : bool }.
Definition answer_for (recno dwoff : Z) : Z := u64 (recno * 0x9e3779b97f4a7c15) .^ dwoff.

(** The results of rand() one cycle uses, by place of use. *)
Record draws := Draws {
  d_cpu : Z; d_store : Z; d_dwoff : Z; d_sz : Z; d_off : Z; d_lanes : list Z; d_space : Z;
  d_lat : Z; d_pause : Z; d_plen : Z; d_cons : Z; d_ans : Z }.

Fixpoint lanes_from (mask : Z) (ds : list Z) (i n : nat) : Z :=
  match n with
  | O => 0
  | S k => (if Z.testbit mask (Z.of_nat i) then (nth i ds 0 .& 0xff) .<< (8 * Z.of_nat i) else 0)
           .| lanes_from mask ds (S i) k
  end.
(** The random access of the CPU model. *)
Definition new_access (d : draws) : access_t :=
  let sz := 1 .<< (d_sz d mod 4) in
  let off := (d_off d mod (8 / sz)) * sz in
  let mask := u8 (((1 .<< sz) - 1) .<< off) in
  Access (negb (d_store d mod 5 =? 0)) (d_dwoff d mod 1024) mask (lanes_from mask (d_lanes d) 0 8) (d_space d mod 4 =? 0).

(** ** The Verilated block *)
Record gio_in := GioIn {
  i_sel : bool; i_addr : Z; i_mask : Z; i_wdata : list Z; i_store : bool; i_space : bool;
  i_rsp_valid : bool; i_cons : Z; i_ans_lo : Z; i_ans_hi : Z; i_ans_seq : Z }.
Record gio_out := GioOut {
  o_hit : bool; o_req_valid : bool; o_req_addr : Z; o_req_op : Z; o_req_mask : Z; o_req_sd : list Z;
  o_done : bool; o_rdata0 : Z; o_rdata1 : Z; o_prod : Z }.

Record cpu := Cpu { busy : bool; cur : access_t; wait_ : Z; max_wait : Z; n_loads : Z; n_stores : Z; n_held : Z }.
Record ms := Ms { lines : mem; mem_lat : Z; n_bursts : Z; n_singles : Z }.
Record arm := Arm {
  issued : list access_t; expect_recno : Z; cons : Z; prod_seen : Z;
  pend_seq : Z; pend_val : Z; ans_delay : Z; arm_pause : Z; n_ring_full : Z }.

Definition present_access (i : gio_in) (a : access_t) : gio_in :=
  let pa := BASE + a_dwoff a * 8 in
  let hi := negb (pa .& 8 =? 0) in
  let lanes := if a_store a then a_lanes a else 0 in
  let lo := u32 lanes in let up := lanes .>> 32 in
  GioIn (i_sel i) (Z.ldiff pa 15) (if hi then a_mask a .<< 8 else a_mask a)
    (if hi then [0; 0; lo; up] else [lo; up; 0; 0]) (a_store a) (a_space a)
    (i_rsp_valid i) (i_cons i) (i_ans_lo i) (i_ans_hi i) (i_ans_seq i).
Definition set_sel (i : gio_in) (s : bool) : gio_in :=
  GioIn s (i_addr i) (i_mask i) (i_wdata i) (i_store i) (i_space i) (i_rsp_valid i) (i_cons i) (i_ans_lo i) (i_ans_hi i) (i_ans_seq i).
Definition set_rsp (i : gio_in) (v : bool) : gio_in :=
  GioIn (i_sel i) (i_addr i) (i_mask i) (i_wdata i) (i_store i) (i_space i) v (i_cons i) (i_ans_lo i) (i_ans_hi i) (i_ans_seq i).
Definition set_ans_seq (i : gio_in) (s : Z) : gio_in :=
  GioIn (i_sel i) (i_addr i) (i_mask i) (i_wdata i) (i_store i) (i_space i) (i_rsp_valid i) (i_cons i) (i_ans_lo i) (i_ans_hi i) s.
Definition set_ans (i : gio_in) (v c : Z) : gio_in :=
  GioIn (i_sel i) (i_addr i) (i_mask i) (i_wdata i) (i_store i) (i_space i) (i_rsp_valid i) c (u32 v) (u32 (v .>> 32)) (i_ans_seq i).
Definition set_cons (i : gio_in) (c : Z) : gio_in :=
  GioIn (i_sel i) (i_addr i) (i_mask i) (i_wdata i) (i_store i) (i_space i) (i_rsp_valid i) c (i_ans_lo i) (i_ans_hi i) (i_ans_seq i).

(** ** The memory model *)
(** Bytes from the store-data words, byte [b] where [en b]; a burst is four
    lines back to back. *)
Fixpoint put_line (m : mem) (a : Z) (sd : list Z) (en : nat -> bool) (b n : nat) : mem :=
  match n with
  | O => m
  | S k => put_line (if en b then <[a + Z.of_nat b := sd_byte sd b]> m else m) a sd en (S b) k
  end.
Definition mem_phase (max_lat : Z) (d : draws) (o : gio_out) (s : ms) : ms * bool * list bool :=
  if o_req_valid o then
    if mem_lat s <? 0 then (Ms (lines s) (d_lat d mod max_lat) (n_bursts s) (n_singles s), false, [])
    else if mem_lat s =? 0 then
      let a := o_req_addr o in
      let c0 := (o_req_op o =? 7) || (o_req_op o =? 6) in
      if o_req_op o =? 6 then
        (Ms (put_line (lines s) (Z.ldiff a 15) (o_req_sd o) (fun _ => true) 0 64) (-1) (n_bursts s + 1) (n_singles s), true,
         [c0; a .& 63 =? 0; (RING_PA <=? a) && (a +32 64 <=? RING_PA + RING_N * 16)])
      else
        (Ms (put_line (lines s) (Z.ldiff a 15) (o_req_sd o) (fun b => Z.testbit (o_req_mask o) (Z.of_nat b)) 0 16)
           (-1) (n_bursts s) (n_singles s + 1), true, [c0])
    else (Ms (lines s) (mem_lat s - 1) (n_bursts s) (n_singles s), false, [])
  else (s, false, []).

(** ** The ARM model *)
Record rec_t := Rec { w0 : Z; recno : Z; r_lanes : Z }.
Definition ring_rec (m : mem) (cons : Z) : rec_t :=
  let r := RING_PA + cons mod RING_N * 16 in
  Rec (le_val (mget_bytes m r 4)) (le_val (mget_bytes m (r + 4) 4)) (le_val (mget_bytes m (r + 8) 8)).
(** The checks of a consumed record against the oldest issued access. *)
Definition rec_checks (r : rec_t) (expect : Z) (q : list access_t) : list bool :=
  (recno r =? expect) ::
  match q with
  | [] => [false]
  | a :: q' =>
      [true; (w0 r .>> 30) .& 3 =? (if a_store a then 0 else 1); (w0 r .>> 22) .& 0xff =? a_mask a;
       w0 r .& 0x1fffff =? a_dwoff a; (w0 r .>> 21) .& 1 =? (if a_space a then 1 else 0);
       if a_store a then r_lanes r =? a_lanes a else (match q' with [] => true | _ => false end)]
  end.
(** Returns the state, the block's inputs, the checks and the record consumed. *)
Definition arm_phase (d : draws) (c : cpu) (m : mem) (prod_port : Z) (s : arm) (i : gio_in)
    : arm * gio_in * list bool * option rec_t :=
  let prod := le_val (mget_bytes m PROD_PA 4) in
  let chk0 := prod_seen s <=? prod in
  let dec := 0 <? ans_delay s in
  let delay := if dec then ans_delay s - 1 else ans_delay s in
  let i := if dec && (delay =? 0) then set_ans_seq i (pend_seq s) else i in
  let pause := if 0 <? arm_pause s then arm_pause s - 1
               else if d_pause d mod 2000 =? 0 then 100 + d_plen d mod 400 else arm_pause s in
  let full := if busy c && a_store (cur c) && (RING_N - 2 <=? u32 (prod_port - cons s)) then n_ring_full s + 1 else n_ring_full s in
  if (pause =? 0) && (delay <=? 0) && (cons s <? prod) && (d_cons d mod 4 =? 0) then
    let r := ring_rec m (cons s) in
    let chks := rec_checks r (expect_recno s) (issued s) in
    let cons' := cons s +32 1 in
    let '(q, pseq, pval, delay, i) :=
      match issued s with
      | [] => ([], pend_seq s, pend_val s, delay, set_cons i cons')
      | a :: q =>
          if a_store a then (q, pend_seq s, pend_val s, delay, set_cons i cons')
          else let v := answer_for (recno r) (a_dwoff a) in
               (q, recno r, v, 1 + d_ans d mod 50, set_ans i v cons')
      end in
    (Arm q (expect_recno s +32 1) cons' prod pseq pval delay pause full, i, chk0 :: chks, Some r)
  else
    (Arm (issued s) (expect_recno s) (cons s) prod (pend_seq s) (pend_val s) delay pause full, i, [chk0], None).

Section Block.
Variable E : Type.
Variable eval : E -> bool -> gio_in -> E.
Variable out : E -> gio_out.
Variable max_lat : Z.

Record bench := Bench { b_e : E; b_in : gio_in; b_cpu : cpu; b_ms : ms; b_arm : arm }.

(** CPU model: issue. *)
Definition cpu_issue (d : draws) (b : bench) : bench * list bool * option access_t :=
  let i := set_sel (b_in b) false in
  if negb (busy (b_cpu b)) && (d_cpu d mod 3 =? 0) then
    let a := new_access d in
    let i := present_access i a in
    let e := eval (b_e b) true i in
    let c := b_cpu b in
    let c := Cpu true a 0 (max_wait c) (if a_store a then n_loads c else n_loads c + 1)
               (if a_store a then n_stores c + 1 else n_stores c) (n_held c) in
    let s := b_arm b in
    let s := Arm (issued s ++ [a]) (expect_recno s) (cons s) (prod_seen s) (pend_seq s) (pend_val s)
               (ans_delay s) (arm_pause s) (n_ring_full s) in
    (Bench e (set_sel i true) c (b_ms b) s, [o_hit (out e)], Some a)
  else (Bench (b_e b) i (b_cpu b) (b_ms b) (b_arm b), [], None).
(** CPU model: completion, and the answer check of a load. *)
Definition cpu_done (o : gio_out) (pend : Z) (c : cpu) : cpu * list bool :=
  if busy c then
    let w := wait_ c + 1 in
    if o_done o then
      (Cpu false (cur c) w (Z.max (max_wait c) w) (n_loads c) (n_stores c) (n_held c),
       if a_store (cur c) then [] else [(o_rdata1 o .<< 32) .| o_rdata0 o =? pend])
    else (Cpu true (cur c) w (max_wait c) (n_loads c) (n_stores c) (n_held c), [])
  else (c, []).

(** One iteration of main's loop; also returned: the outcomes of its checks,
    the access issued and the record consumed. *)
Definition cycle (d : draws) (b : bench) : bench * (list bool * option access_t * option rec_t) :=
  let '(b, k1, iss) := cpu_issue d b in
  let '(s, rsp, k2) := mem_phase max_lat d (out (b_e b)) (b_ms b) in
  let i := set_rsp (b_in b) rsp in
  let e := eval (eval (b_e b) false i) true i in
  let '(c, k3) := cpu_done (out e) (pend_val (b_arm b)) (b_cpu b) in
  let '(a, i, k4, r) := arm_phase d c (lines s) (o_prod (out e)) (b_arm b) i in
  let c := if busy c && a_store (cur c) && (3 <? wait_ c)
           then Cpu (busy c) (cur c) (wait_ c) (max_wait c) (n_loads c) (n_stores c) (n_held c + 1) else c in
  (Bench e i c s a, (k1 ++ k2 ++ k3 ++ k4, iss, r)).
Fixpoint run (ds : list draws) (b : bench) : bench * list (list bool * option access_t * option rec_t) :=
  match ds with
  | [] => (b, [])
  | d :: t => let '(b, o) := cycle d b in let '(b, os) := run t b in (b, o :: os)
  end.
End Block.

(** ** Properties *)

(** The record of an access: type, mask, space and dwoff fill the word. *)
Definition enc (a : access_t) : Z :=
  (if a_store a then 0 else 1) * 2 ^ 30 + a_mask a * 2 ^ 22 + (if a_space a then 1 else 0) * 2 ^ 21 + a_dwoff a.
Definition access_ok (a : access_t) : Prop := is_u 8 (a_mask a) /\ is_u 21 (a_dwoff a).

Lemma new_access_ok d : access_ok (new_access d).
Proof.
  split; cbn; [apply u8_range|]. unfold is_u. pose proof (Z.mod_pos_bound (d_dwoff d) 1024 ltac:(lia)). lia.
Qed.
Lemma word_fields w a :
  is_u 32 w -> access_ok a ->
  ((w .>> 30) .& 3 = (if a_store a then 0 else 1) /\ (w .>> 22) .& 0xff = a_mask a /\
   w .& 0x1fffff = a_dwoff a /\ (w .>> 21) .& 1 = (if a_space a then 1 else 0)) <-> w = enc a.
Proof.
  intros Hw [Hm Hd].
  assert (forall x, x .& 3 = x mod 4 /\ x .& 0xff = x mod 256 /\ x .& 0x1fffff = x mod 0x200000 /\ x .& 1 = x mod 2) as L.
  { intros x. repeat split; [exact (land_ones_mod x 2 ltac:(lia))|exact (land_ones_mod x 8 ltac:(lia))
      |exact (land_ones_mod x 21 ltac:(lia))|exact (land_ones_mod x 1 ltac:(lia))]. }
  destruct (L (w .>> 30)) as (-> & _). destruct (L (w .>> 22)) as (_ & -> & _).
  destruct (L w) as (_ & _ & -> & _). destruct (L (w .>> 21)) as (_ & _ & _ & ->).
  rewrite !Z.shiftr_div_pow2 by lia. unfold enc, is_u in *.
  change (2 ^ 32) with 0x100000000 in *. change (2 ^ 30) with 0x40000000 in *. change (2 ^ 22) with 0x400000 in *.
  change (2 ^ 21) with 0x200000 in *. change (2 ^ 8) with 256 in *.
  generalize dependent (a_mask a). generalize dependent (a_dwoff a). intros dw Hd mk Hm.
  destruct (a_store a), (a_space a); split; intros; Z.to_euclidean_division_equations; lia.
Qed.
Definition all_ok (l : list bool) : Prop := forallb (fun b => b) l = true.
Lemma all_ok_app l k : all_ok (l ++ k) <-> all_ok l /\ all_ok k.
Proof. unfold all_ok. by rewrite forallb_app, andb_true_iff. Qed.
Lemma all_ok_cons b l : all_ok (b :: l) <-> b = true /\ all_ok l.
Proof. unfold all_ok. cbn. by rewrite andb_true_iff. Qed.
Lemma rec_checks_spec r k a q :
  is_u 32 (w0 r) -> access_ok a ->
  all_ok (rec_checks r k (a :: q)) <->
  recno r = k /\ w0 r = enc a /\ (if a_store a then r_lanes r = a_lanes a else q = []).
Proof.
  intros Hw Ha. unfold rec_checks. rewrite !all_ok_cons, !Z.eqb_eq. rewrite <- word_fields by done.
  assert (all_ok [] <-> True) as -> by done.
  destruct (a_store a); [rewrite Z.eqb_eq; tauto|]. destruct q; [tauto|]. split; [by intros H; decompose [and] H|].
  intros (_ & _ & H). done.
Qed.
Lemma put_line_ok m a sd en b n : mem_ok m -> mem_ok (put_line m a sd en b n).
Proof. revert m b; induction n as [|n IH]; intros m b Hm; cbn; [done|]. apply IH. destruct (en b); auto with hw. Qed.
Lemma mem_phase_ok max_lat d o s : mem_ok (lines s) -> mem_ok (lines (fst (fst (mem_phase max_lat d o s)))).
Proof.
  intros Hm. unfold mem_phase. destruct (o_req_valid o); [|done]. destruct (mem_lat s <? 0); [done|].
  destruct (mem_lat s =? 0); [|done]. destruct (o_req_op o =? 6); cbn [lines fst]; by apply put_line_ok.
Qed.
Lemma ring_rec_w0 m c : mem_ok m -> is_u 32 (w0 (ring_rec m c)).
Proof.
  intros Hm. unfold ring_rec. cbn [w0]. pose proof (le_val_bound _ (mget_bytes_ok m (RING_PA + c mod RING_N * 16) 4 Hm)) as H.
  rewrite length_mget_bytes in H. exact H.
Qed.

(** The records [rs] consumed so far describe the accesses [as_] issued so far,
    in order and numbered from [k]; [q] is what is still to be consumed. *)
Inductive in_order : Z -> list access_t -> list rec_t -> list access_t -> Prop :=
| in_order_nil k q : in_order k q [] q
| in_order_rec k a as_ r rs q :
    recno r = k -> w0 r = enc a -> (a_store a = true -> r_lanes r = a_lanes a) ->
    in_order (k +32 1) as_ rs q -> in_order k (a :: as_) (r :: rs) q.

Section Proofs.
Context (E : Type) (eval : E -> bool -> gio_in -> E) (out : E -> gio_out) (max_lat : Z).
Abbreviation bench := (bench E).
Abbreviation cycle := (cycle E eval out max_lat).
Abbreviation run := (run E eval out max_lat).

Definition bench_ok (b : bench) : Prop := mem_ok (lines (b_ms _ b)) /\ Forall access_ok (issued (b_arm _ b)).
Definition checks (tr : list (list bool * option access_t * option rec_t)) : list bool := concat (map (fun o => fst (fst o)) tr).
Definition opt {A} (o : option A) : list A := match o with Some x => [x] | None => [] end.
Definition accesses (tr : list (list bool * option access_t * option rec_t)) : list access_t := concat (map (fun o => opt (snd (fst o))) tr).
Definition records (tr : list (list bool * option access_t * option rec_t)) : list rec_t := concat (map (fun o => opt (snd o)) tr).

(** What the ARM phase does to the queue. *)
Lemma arm_phase_queue d c m pp s i :
  mem_ok m -> Forall access_ok (issued s) ->
  let '(s', _, ks, r) := arm_phase d c m pp s i in
  all_ok ks ->
  match r with
  | None => issued s' = issued s /\ expect_recno s' = expect_recno s
  | Some r => exists a, issued s = a :: issued s' /\ expect_recno s' = expect_recno s +32 1 /\
      recno r = expect_recno s /\ w0 r = enc a /\ (a_store a = true -> r_lanes r = a_lanes a)
  end.
Proof.
  intros Hm Hq. unfold arm_phase. set (pause := if 0 <? arm_pause s then _ else _).
  set (delay := if 0 <? ans_delay s then ans_delay s - 1 else ans_delay s).
  destruct ((pause =? 0) && (delay <=? 0) && (cons s <? le_val (mget_bytes m PROD_PA 4)) && (d_cons d mod 4 =? 0)); [|done].
  set (r := ring_rec m (cons s)). destruct (issued s) as [|a q] eqn:Eq.
  - intros [_ H]%all_ok_cons. unfold rec_checks in H. by apply all_ok_cons in H as [_ [H _]%all_ok_cons].
  - pose proof (Forall_inv Hq) as Ha.
    assert (all_ok (rec_checks r (expect_recno s) (a :: q)) ->
      recno r = expect_recno s /\ w0 r = enc a /\ (a_store a = true -> r_lanes r = a_lanes a)) as Hr.
    { intros (H1 & H2 & H3)%rec_checks_spec; [|by apply ring_rec_w0|done]. split; [done|]. split; [done|].
      intros Hs. by rewrite Hs in H3. }
    destruct (a_store a) eqn:Es; intros [_ H]%all_ok_cons; exists a; cbn [issued expect_recno];
      rewrite Es; by pose proof (Hr H).
Qed.
Lemma cycle_queue d (b : bench) :
  bench_ok b ->
  let '(b', (ks, iss, r)) := cycle d b in
  all_ok ks -> bench_ok b' /\
  match r with
  | None => issued (b_arm _ b') = issued (b_arm _ b) ++ opt iss /\ expect_recno (b_arm _ b') = expect_recno (b_arm _ b)
  | Some r => exists a, issued (b_arm _ b) ++ opt iss = a :: issued (b_arm _ b') /\
      expect_recno (b_arm _ b') = expect_recno (b_arm _ b) +32 1 /\
      recno r = expect_recno (b_arm _ b) /\ w0 r = enc a /\ (a_store a = true -> r_lanes r = a_lanes a)
  end.
Proof.
  intros [Hm Hq]. unfold GioBench.cycle.
  assert (let '(b1, _, iss) := cpu_issue E eval out d b in
    b_ms _ b1 = b_ms _ b /\ issued (b_arm _ b1) = issued (b_arm _ b) ++ opt iss /\
    expect_recno (b_arm _ b1) = expect_recno (b_arm _ b) /\ Forall access_ok (issued (b_arm _ b1))) as H1.
  { unfold cpu_issue. destruct (_ && _); cbn; [|by rewrite app_nil_r]. do 3 (split; [done|]).
    apply Forall_app_2; [done|]. apply Forall_cons_2; [apply new_access_ok|apply Forall_nil_2]. }
  destruct (cpu_issue E eval out d b) as [[b1 k1] iss]. destruct H1 as (Hms & Hiss & Hex & Hq1).
  pose proof (mem_phase_ok max_lat d (out (b_e _ b1)) (b_ms _ b1)) as Hm1. rewrite Hms in *.
  destruct (mem_phase max_lat d (out (b_e _ b1)) (b_ms _ b)) as [[s rsp] k2]. specialize (Hm1 Hm). cbn [fst] in Hm1.
  set (i := set_rsp _ _). set (e := eval _ true i).
  destruct (cpu_done _ _ _) as [c k3].
  pose proof (arm_phase_queue d c (lines s) (o_prod (out e)) (b_arm _ b1) i Hm1 Hq1) as Ha.
  destruct (arm_phase _ _ _ _ _ _) as [[[a i'] k4] r]. cbn [b_arm b_ms].
  intros (_ & (_ & (_ & Hk)%all_ok_app)%all_ok_app)%all_ok_app. specialize (Ha Hk). rewrite Hiss, Hex in Ha.
  destruct r as [r|].
  - destruct Ha as (x & Hx & Ha). split; [|by exists x]. split; [done|]. rewrite Hiss, Hx in Hq1. by apply Forall_inv_tail in Hq1.
  - destruct Ha as [Ha1 Ha2]. split; [|done]. split; [done|]. cbn [b_arm]. by rewrite Ha1, <- Hiss.
Qed.

(** C37.  A run of the bench whose checks all pass has
    consumed from the capture ring, for any block, memory timing and random
    draws, exactly one record per access in issue order, numbered consecutively,
    each carrying bit for bit the access's type, byte mask, space and offset, and
    a store's data; what is left in the queue are the accesses not yet consumed. *)
Theorem gio_passing_run_in_order (ds : list draws) (b : bench) :
  bench_ok b -> all_ok (checks (snd (run ds b))) ->
  in_order (expect_recno (b_arm _ b)) (issued (b_arm _ b) ++ accesses (snd (run ds b)))
    (records (snd (run ds b))) (issued (b_arm _ (fst (run ds b)))).
Proof.
  revert b; induction ds as [|d ds IH]; intros b Hb.
  { intros _. cbn. rewrite app_nil_r. constructor. }
  cbn [GioBench.run]. pose proof (cycle_queue d b Hb) as Hc. destruct (cycle d b) as [b1 [[ks iss] r]].
  specialize (IH b1). destruct (run ds b1) as [b2 tr]. cbn [fst snd] in *. unfold checks, accesses, records in *.
  cbn [map concat fst snd]. intros [Hk Ht]%all_ok_app. destruct (Hc Hk) as [Hb1 Hr]. specialize (IH Hb1 Ht).
  rewrite app_assoc. destruct r as [r|].
  - destruct Hr as (a & Hq & Hex & Hn & Hw & Hl). rewrite Hq. cbn [app opt]. constructor; [done..|]. by rewrite <- Hex.
  - destruct Hr as [Hq Hex]. by rewrite <- Hq, <- Hex.
Qed.
End Proofs.

(** ** Witness: a block that captures the one access the draws make, a byte
    store at doubleword 2, as a record line followed by the producer index. *)
Definition toy_reqs : list (Z * list Z) := [(RING_PA, [0x400002; 1; 0x5a; 0]); (PROD_PA, [1; 0; 0; 0])].
Definition toy_eval (e : bool * list (Z * list Z) * bool) (c : bool) (i : gio_in) : bool * list (Z * list Z) * bool :=
  let '(last, q, dn) := e in
  if negb last && c then
    let q1 := if i_rsp_valid i then tail q else q in
    let q2 := if i_sel i then toy_reqs else q1 in
    (c, q2, i_rsp_valid i && match q1 with [] => true | _ => false end)
  else (c, q, dn).
Definition toy_out (e : bool * list (Z * list Z) * bool) : gio_out :=
  match e with
  | (_, (a, sd) :: _, dn) => GioOut true true a 7 0xffff sd dn 0 0 0
  | (_, [], dn) => GioOut true false 0 0 0 [] dn 0 0 0
  end.
Definition toy_draws : draws := Draws 0 1 2 0 0 [0x5a] 1 0 1 0 0 0.
Definition toy_bench : bench (bool * list (Z * list Z) * bool) :=
  Bench _ (true, [], false) (GioIn false 0 0 [] false false false 0 0 0 0)
    (Cpu false (Access false 0 0 0 false) 0 0 0 0 0) (Ms ∅ (-1) 0 0) (Arm [] 1 0 0 0 0 (-1) 0 0).
Lemma gio_passing_run_in_order_witness :
  let r := run _ toy_eval toy_out 1 (repeat toy_draws 6) toy_bench in
  records (snd r) = [Rec 0x400002 1 0x5a] /\
  in_order 1 (accesses (snd r)) [Rec 0x400002 1 0x5a] (issued (b_arm _ (fst r))).
Proof.
  assert (records (snd (run _ toy_eval toy_out 1 (repeat toy_draws 6) toy_bench)) = [Rec 0x400002 1 0x5a]) as E
    by (vm_compute; reflexivity).
  split; [exact E|]. rewrite <- E.
  apply (gio_passing_run_in_order _ toy_eval toy_out 1 (repeat toy_draws 6) toy_bench).
  - split; [apply mem_ok_empty|apply Forall_nil_2].
  - vm_compute. reflexivity.
Defined.
