(* ===== verification/Retire.v ===== *)
(** * Retire: the consumers of the retirement ports

    Every cycle the core reports up to two retirements, head then next-head.
    This file models what the run loop of sim/henry_tb.cpp does with them
    besides the checker: the counters and the no-retire watchdog, the register
    shadow [g_rf], USRETLOG, RETIRETRACE (with sim/inst_record.hh), PCHASH, the
    ctrace capture, the PRFAULT ring, the retired-PC trace and the TIP profile. *)
From S2P Require Import Prelude AddressMap GuestMem Checkpoint Scsi Ctrace.

(** ** Ports *)

Record port := Port {
  p_pc : Z; p_rv : bool; p_rp : Z; p_rd : Z; p_fp : option (Z * Z); p_fcr : option (Z * Z) }.
(** The integer register write, when [retire_reg_valid]. *)
Definition p_reg (p : port) : option (Z * Z) := if p_rv p then Some (p_rp p, p_rd p) else None.
Record rcycle := RCycle { slot0 : option port; slot1 : option port; head_pc : Z; cur_asid : Z }.
(** The cycle's retirements in program order. *)
Definition opt_list' {A} (o : option A) : list A := match o with Some x => [x] | None => [] end.
Definition retires (c : rcycle) : list port := opt_list' (slot0 c) ++ opt_list' (slot1 c).
Definition stream (cs : list rcycle) : list port := concat (map retires cs).

(** ** The run loop's counters and the watchdog *)

Record loop_st := LoopSt {
  l_cyc : Z; l_retired : Z; l_last_pc : Z; l_last_retire_cyc : Z; l_halted : bool; l_deadlock : bool }.
(** The loop condition; [$finish] is left out. *)
Definition loop_cond (max_cyc max_icnt : Z) (s : loop_st) : bool :=
  (l_cyc s <? max_cyc) && ((max_icnt =? 0) || (l_retired s <? max_icnt)) && negb (l_halted s).
(** One cycle's bookkeeping.  [lv_active] is [g_trace_loadval &&
    g_trace_ref_lv.size() < 2000000]: the watchdog is the [else] of that test. *)
Definition loop_step (NO_RETIRE_LIMIT : Z) (lv_active : bool) (c : rcycle) (s : loop_st) : loop_st :=
  let s := match slot0 c with
           | Some p => LoopSt (l_cyc s) (l_retired s + 1) (p_pc p) (l_cyc s) (l_halted s) (l_deadlock s)
           | None => s
           end in
  let trip := negb lv_active && negb (NO_RETIRE_LIMIT =? 0) && (NO_RETIRE_LIMIT <? u64 (l_cyc s - l_last_retire_cyc s)) in
  LoopSt (l_cyc s + 1) (l_retired s) (l_last_pc s) (l_last_retire_cyc s) (l_halted s || trip) (l_deadlock s || trip).
Fixpoint loop_run (max_cyc max_icnt limit : Z) (ins : list (bool * rcycle)) (s : loop_st) : loop_st :=
  match ins with
  | [] => s
  | (lv, c) :: t =>
      if loop_cond max_cyc max_icnt s then loop_run max_cyc max_icnt limit t (loop_step limit lv c s) else s
  end.

(** [g_rf[ptr & 31] = data], both slots. *)
Definition rf_step (rf : list Z) (p : port) : list Z :=
  match p_reg p with Some (r, d) => <[Z.to_nat (r .& 31) := d]> rf | None => rf end.
Definition rf_cycle (rf : list Z) (c : rcycle) : list Z := fold_left rf_step (retires c) rf.

(** ** USRETLOG *)

(** [usret_t]: 24 bytes, the ASID in [pad[0]]. *)
Record usret_t := Usret { u_pc : Z; u_cyc : Z; u_val : Z; u_dst : Z; u_asid : Z }.
Definition usret_bytes (r : usret_t) : list Z :=
  le_bytes 4 (u_pc r) ++ le_bytes 4 (u_cyc r) ++ le_bytes 8 (u_val r) ++ [u_dst r] ++ [u_asid r] ++ repeat 0 6.
Definition usret_of (cyc asid : Z) (p : port) : usret_t :=
  let '(dst, val) := match p_reg p with Some (r, d) => (r, d) | None => (0, 0) end in
  Usret (u32 (p_pc p)) (u32 cyc) (u64 val) (u8 dst) (u8 asid).
Definition usret_add (cyc asid : Z) (p : port) (file : list Z) : list Z := file ++ usret_bytes (usret_of cyc asid p).
Definition usret_wanted (g_usr_kernel : bool) (p : port) : bool := g_usr_kernel || (u64 (p_pc p) <? 0x80000000).
Definition usret_cycle (g_usr_kernel : bool) (cyc : Z) (c : rcycle) (file : list Z) : list Z :=
  fold_left (fun f p => if usret_wanted g_usr_kernel p then usret_add cyc (cur_asid c) p f else f) (retires c) file.

(** ** RETIRETRACE *)

Record inst_record := InstRecord { ir_pc : Z; ir_vpc : Z; ir_inst : Z }.
Record rt_cfg := RtCfg {
  rt_useronly : bool; rt_trig_user : bool; rt_lo : Z; rt_hi : Z; rt_capacity : Z; rt_ring : nat; rt_stop_pc : Z }.
Record rt_st := RtSt { rt_recs : list inst_record; rt_ifail : Z; rt_armed : bool; rt_stopped : bool }.
Definition rt_emit (k : rt_cfg) (g_mem : mem) (vpc : Z) (s : rt_st) : rt_st :=
  if rt_useronly k && (0x80000000 <=? vpc) then s
  else
    let inst := if (0x80000000 <=? vpc) && (vpc <? 0xc0000000) then be32 g_mem (vpc .& 0x1fffffff) else 0 in
    let recs := rt_recs s ++ [InstRecord vpc vpc inst] in
    let recs := if negb (rt_ring k =? 0)%nat && (rt_ring k <? length recs)%nat then drop 1 recs else recs in
    RtSt recs (if inst =? 0 then rt_ifail s + 1 else rt_ifail s) (rt_armed s) (rt_stopped s).
Definition rt_cycle (k : rt_cfg) (g_mem : mem) (retired : Z) (c : rcycle) (s : rt_st) : rt_st :=
  if rt_stopped s then s
  else
    let user := existsb (fun p => u32 (p_pc p) <? 0x80000000) (retires c) in
    let s := RtSt (rt_recs s) (rt_ifail s) (rt_armed s || (rt_trig_user k && user)) false in
    let win := (rt_lo k <=? retired) && ((rt_hi k =? 0) || (retired <? rt_hi k))
               && ((rt_capacity k =? 0) || (Z.of_nat (length (rt_recs s)) <? rt_capacity k)) in
    let s := if (negb (rt_trig_user k) || rt_armed s) && win
             then fold_left (fun s p => rt_emit k g_mem (u32 (p_pc p)) s) (retires c) s else s in
    let stop := negb (rt_stop_pc k =? 0) && existsb (fun p => u32 (p_pc p) =? rt_stop_pc k) (retires c) in
    RtSt (rt_recs s) (rt_ifail s) (rt_armed s) stop.

(** ** PCHASH *)

(** Running FNV-1a over the 32-bit PCs; the reports are (icnt, hash, pc). *)
Definition pchash_one (s : Z * Z * list (Z * Z * Z)) (pc : Z) : Z * Z * list (Z * Z * Z) :=
  let '(h, n, out) := s in
  let h := fnv1 h (u32 pc) in
  let n := n + 1 in
  (h, n, if n .& 0xffff =? 0 then out ++ [(n, h, u32 pc)] else out).
Definition pchash_init : Z * Z * list (Z * Z * Z) := (FNV_BASIS, 0, []).
Definition pchash_cycle (s : Z * Z * list (Z * Z * Z)) (c : rcycle) : Z * Z * list (Z * Z * Z) :=
  let s := match slot0 c with Some p => pchash_one s (p_pc p) | None => s end in
  match slot1 c with Some p => pchash_one s (p_pc p) | None => s end.

(** ** The ctrace capture *)

Definition CTF_FP : Z := 0x1.
Definition CTF_FCR : Z := 0x2.
Definition CTF_SLOT1 : Z := 0x4.
Definition ct_rec_of (f : Z) (p : port) : ct_rec :=
  match p_reg p, p_fp p, p_fcr p with
  | Some (d, v), _, _ => CtRec (u64 (p_pc p)) (u8 d) (u64 v) f
  | None, Some (d, v), _ => CtRec (u64 (p_pc p)) (u8 d) (u64 v) (f .| CTF_FP)
  | None, None, Some (d, v) => CtRec (u64 (p_pc p)) (u8 d) (u64 v) (f .| CTF_FCR)
  | None, None, None => CtRec (u64 (p_pc p)) 0 0 f
  end.
Definition ct_cycle (c : rcycle) (irq : option (Z * Z * Z)) : list ct_op :=
  map (fun p => Add (ct_rec_of 0 p)) (opt_list' (slot0 c)) ++ map (fun p => Add (ct_rec_of CTF_SLOT1 p)) (opt_list' (slot1 c))
  ++ match irq with Some (cause, epc, badv) => [AddException (u8 cause) epc badv] | None => [] end.

(** ** PRFAULT_PROBE's ring *)

Definition pf_rec : Type := Z * Z * Z.
Definition pf_of (p : port) : pf_rec :=
  (u32 (p_pc p), if p_rv p && negb (p_rp p .& 31 =? 0) then p_rp p .& 31 else -1, p_rd p).
Section Ring.
Variable RN : nat.
(** The arrays and [r_i]. *)
Definition pf_push (s : list pf_rec * nat) (x : pf_rec) : list pf_rec * nat :=
  let '(a, i) := s in (<[(i mod RN)%nat := x]> a, S i).
Definition pf_cycle (s : list pf_rec * nat) (c : rcycle) : list pf_rec * nat :=
  fold_left (fun s p => pf_push s (pf_of p)) (retires c) s.
Definition pf_dump (s : list pf_rec * nat) : list pf_rec :=
  let '(a, i) := s in
  let start := if (RN <? i)%nat then (i - RN)%nat else 0%nat in
  map (fun k => nth (k mod RN) a (0, 0, 0)) (seq start (i - start)).
End Ring.

(** ** The retired-PC trace (--trace) *)

Definition trace_one (kentry : Z) (cyc : Z) (is0 : bool) (s : bool * list (Z * Z)) (p : port) : bool * list (Z * Z) :=
  let '(started, out) := s in
  let pc := u32 (p_pc p) in
  let started := started || (is0 && (pc =? kentry)) in
  (started, if started then out ++ [(pc, cyc)] else out).
Definition trace_cycle (kentry cyc : Z) (c : rcycle) (s : bool * list (Z * Z)) : bool * list (Z * Z) :=
  let s := match slot0 c with Some p => trace_one kentry cyc true s p | None => s end in
  match slot1 c with Some p => trace_one kentry cyc false s p | None => s end.

(** ** TIP *)

(** Time in half cycles, which the doubles of [g_tip] represent exactly. *)
Definition tip_add (k d : Z) (t : gmap Z Z) : gmap Z Z := <[k := default 0 (t !! k) + d]> t.
Definition tip_cycle (t : gmap Z Z) (c : rcycle) : gmap Z Z :=
  match slot0 c, slot1 c with
  | Some p, Some q => tip_add (u32 (p_pc q)) 1 (tip_add (u32 (p_pc p)) 1 t)
  | Some p, None | None, Some p => tip_add (u32 (p_pc p)) 2 t
  | None, None => tip_add (u32 (head_pc c)) 2 t
  end.
Definition tip_total (t : gmap Z Z) : Z := map_fold (fun _ v acc => v + acc) 0 t.

(** ** Lemmas *)

Lemma stream_cons c cs : stream (c :: cs) = retires c ++ stream cs.
Proof. done. Qed.

(** *** Watchdog *)

(** No cycle is more than [limit] cycles after the last head retirement; [gap]
    is the distance at the first cycle of the list. *)
Fixpoint gaps_ok (limit gap : Z) (cs : list rcycle) : bool :=
  match cs with
  | [] => true
  | c :: t => match slot0 c with
              | Some _ => gaps_ok limit 1 t
              | None => (gap <=? limit) && gaps_ok limit (gap + 1) t
              end
  end.
Lemma loop_run_halted max_cyc max_icnt limit ins s :
  l_halted s = true -> loop_run max_cyc max_icnt limit ins s = s.
Proof. intros H. destruct ins as [|[lv c] t]; [done|]. cbn. unfold loop_cond. by rewrite H, andb_false_r. Qed.
Lemma loop_run_watchdog max_cyc limit cs : forall s,
  1 <= limit -> l_halted s = false -> l_deadlock s = false ->
  0 <= l_last_retire_cyc s <= l_cyc s -> l_cyc s + Z.of_nat (length cs) <= max_cyc -> max_cyc < 2 ^ 64 ->
  l_deadlock (loop_run max_cyc 0 limit (map (pair false) cs) s)
  = negb (gaps_ok limit (l_cyc s - l_last_retire_cyc s) cs).
Proof.
  induction cs as [|c cs IH]; intros s Hl Hh Hd Hc Hn Hm; cbn [map loop_run gaps_ok length] in *; [by rewrite Hd|].
  unfold loop_cond. rewrite Hh. replace (l_cyc s <? max_cyc) with true by lia. cbn [andb orb negb Z.eqb].
  unfold loop_step. cbn [negb andb]. replace (limit =? 0) with false by lia. cbn [negb andb].
  destruct (slot0 c) as [p|] eqn:E.
  - cbn [l_cyc l_last_retire_cyc l_halted l_deadlock l_retired l_last_pc]. rewrite Z.sub_diag.
    replace (limit <? u64 0) with false by (symmetry; apply Z.ltb_ge; change (u64 0) with 0; lia). rewrite !orb_false_r.
    rewrite IH; cbn [l_cyc l_last_retire_cyc l_halted l_deadlock]; try done; try lia. do 2 f_equal. lia.
  - rewrite u64_small by lia. destruct (Z.leb_spec (l_cyc s - l_last_retire_cyc s) limit).
    + replace (limit <? l_cyc s - l_last_retire_cyc s) with false by lia. rewrite !orb_false_r.
      rewrite IH; cbn [l_cyc l_last_retire_cyc l_halted l_deadlock]; try done; try lia. cbn [andb]. do 2 f_equal. lia.
    + replace (limit <? l_cyc s - l_last_retire_cyc s) with true by lia. rewrite !orb_true_r.
      by rewrite loop_run_halted.
Qed.

(** *** PCHASH *)

Definition PERIOD : nat := Z.to_nat 0x10000.
Definition pchash_reports (pcs : list Z) : list (Z * Z * Z) :=
  map (fun j => let n := (j * PERIOD)%nat in
         (Z.of_nat n, fnv FNV_BASIS (map u32 (take n pcs)), u32 (nth (n - 1) pcs 0)))
      (seq 1 (length pcs / PERIOD)).
Lemma PERIOD_pos : (0 < PERIOD)%nat.
Proof. unfold PERIOD. lia. Qed.
Lemma fnv_snoc h xs x : fnv h (xs ++ [x]) = fnv1 (fnv h xs) x.
Proof. unfold fnv. by rewrite foldl_app. Qed.
Lemma div_succ P n : (0 < P)%nat ->
  (if (S n mod P =? 0)%nat then S n = S (n / P) * P /\ S n / P = S (n / P) else S n / P = n / P)%nat.
Proof.
  intros HP. pose proof (Nat.div_mod_eq n P) as Hn. pose proof (Nat.mod_upper_bound n P ltac:(lia)) as Hr.
  destruct (decide (S (n mod P) = P)) as [He|He].
  - assert (HS : S n = (S (n / P) * P)%nat) by lia.
    assert (Hm : (S n mod P = 0)%nat) by (rewrite HS; by apply Nat.Div0.mod_mul).
    rewrite Hm. split; [done|]. rewrite HS. apply Nat.div_mul. lia.
  - assert (HS : S n = (P * (n / P) + S (n mod P))%nat) by lia.
    assert (Hm : (S n mod P = S (n mod P))%nat) by (symmetry; eapply Nat.mod_unique; [lia|exact HS]).
    rewrite Hm. cbn [Nat.eqb]. symmetry. eapply Nat.div_unique; [|exact HS]. lia.
Qed.
Lemma pchash_reports_snoc pcs pc :
  pchash_reports (pcs ++ [pc]) = pchash_reports pcs ++
    (if (S (length pcs) mod PERIOD =? 0)%nat
     then [(Z.of_nat (S (length pcs)), fnv FNV_BASIS (map u32 (pcs ++ [pc])), u32 pc)] else []).
Proof.
  unfold pchash_reports. rewrite length_app. cbn [length]. rewrite Nat.add_1_r.
  set (f := fun l j => let n := (j * PERIOD)%nat in
         (Z.of_nat n, fnv FNV_BASIS (map u32 (take n l)), u32 (nth (n - 1) l 0))).
  change (map (f (pcs ++ [pc])) (seq 1 (S (length pcs) / PERIOD)) = map (f pcs) (seq 1 (length pcs / PERIOD)) ++
    (if (S (length pcs) mod PERIOD =? 0)%nat
     then [(Z.of_nat (S (length pcs)), fnv FNV_BASIS (map u32 (pcs ++ [pc])), u32 pc)] else [])).
  assert (Hext : map (f (pcs ++ [pc])) (seq 1 (length pcs / PERIOD)) = map (f pcs) (seq 1 (length pcs / PERIOD))).
  { apply map_ext_in. intros j Hj. apply in_seq in Hj. unfold f. cbv zeta.
    pose proof (Nat.Div0.mul_div_le (length pcs) PERIOD). pose proof PERIOD_pos.
    assert (j * PERIOD <= length pcs)%nat by (transitivity (length pcs / PERIOD * PERIOD)%nat; [apply Nat.mul_le_mono_r; lia|lia]).
    assert (1 * PERIOD <= j * PERIOD)%nat by (apply Nat.mul_le_mono_r; lia).
    rewrite take_app_le by lia. rewrite app_nth1 by lia. done. }
  pose proof (div_succ PERIOD (length pcs) PERIOD_pos) as Hd.
  destruct (Nat.eqb_spec (S (length pcs) mod PERIOD) 0) as [Hz|Hz].
  - destruct Hd as [Hn Hq]. rewrite Hq, seq_S, map_app, Hext. f_equal. cbn [map]. unfold f. cbv zeta.
    rewrite Nat.add_1_l, <- Hn. rewrite take_ge by (rewrite length_app; cbn [length]; lia).
    replace (S (length pcs) - 1)%nat with (length pcs) by lia. rewrite app_nth2, Nat.sub_diag by lia. done.
  - rewrite Hd, Hext. by rewrite app_nil_r.
Qed.
Lemma pchash_stream cs s : fold_left pchash_cycle cs s = fold_left pchash_one (map p_pc (stream cs)) s.
Proof.
  revert s; induction cs as [|c cs IH]; intros s; [done|]. cbn [fold_left]. rewrite stream_cons, map_app, fold_left_app, IH.
  f_equal. unfold pchash_cycle, retires. by destruct (slot0 c), (slot1 c).
Qed.
Lemma pchash_fold pcs :
  fold_left pchash_one pcs pchash_init = (fnv FNV_BASIS (map u32 pcs), Z.of_nat (length pcs), pchash_reports pcs).
Proof.
  induction pcs as [|pc pcs IH] using rev_ind; [done|]. rewrite fold_left_app, IH. cbn [fold_left pchash_one].
  rewrite map_app. cbn [map]. rewrite fnv_snoc, pchash_reports_snoc, length_app. cbn [length].
  replace (Z.of_nat (length pcs) + 1) with (Z.of_nat (length pcs + 1)) by lia. f_equal. rewrite Nat.add_1_r.
  change 0xffff with (2 ^ 16 - 1). rewrite land_ones_mod by lia.
  assert (Hb : (Z.of_nat (S (length pcs)) mod 2 ^ 16 =? 0) = (S (length pcs) mod PERIOD =? 0)%nat).
  { replace (2 ^ 16) with (Z.of_nat PERIOD) by (unfold PERIOD; lia). rewrite <- Nat2Z.inj_mod.
    destruct (Nat.eqb_spec (S (length pcs) mod PERIOD) 0); lia. }
  rewrite Hb. destruct (Nat.eqb _ _); [|by rewrite app_nil_r]. rewrite map_app. cbn [map]. by rewrite fnv_snoc.
Qed.

(** *** The PRFAULT ring *)

Section RingLemmas.
Variable RN : nat.
Hypothesis RN_pos : (0 < RN)%nat.
(** Slot [k mod RN] holds element [k] for the last [RN] indices [k]. *)
Definition ring_ok (xs : list pf_rec) (s : list pf_rec * nat) : Prop :=
  length (fst s) = RN /\ snd s = length xs /\
  forall k, (k < length xs)%nat -> (length xs <= k + RN)%nat -> nth (k mod RN) (fst s) (0, 0, 0) = nth k xs (0, 0, 0).
Lemma ring_push xs s x : ring_ok xs s -> ring_ok (xs ++ [x]) (pf_push RN s x).
Proof.
  destruct s as [a i]. intros (Hl & Hi & Hk). cbn [fst snd] in *. subst i. unfold pf_push, ring_ok. cbn [fst snd].
  rewrite length_insert, length_app. cbn [length]. split; [done|]. split; [lia|]. intros k Hk1 Hk2.
  pose proof (Nat.mod_upper_bound (length xs) RN ltac:(lia)) as Hub.
  destruct (decide (k = length xs)) as [->|Hne].
  - rewrite app_nth2, Nat.sub_diag by lia. cbn [nth]. apply nth_lookup_Some, list_lookup_insert_eq. lia.
  - rewrite app_nth1 by lia. rewrite <- Hk by lia.
    assert (Hneq : (k mod RN <> length xs mod RN)%nat).
    { intros Heq. pose proof (Nat.div_mod_eq k RN). pose proof (Nat.div_mod_eq (length xs) RN).
      assert (length xs - k = RN * (length xs / RN - k / RN))%nat by (rewrite Nat.mul_sub_distr_l; lia).
      destruct (length xs / RN - k / RN)%nat; nia. }
    rewrite !nth_lookup. by rewrite list_lookup_insert_ne.
Qed.
Lemma ring_pushes ps xs s : ring_ok xs s -> ring_ok (xs ++ map pf_of ps) (fold_left (fun s p => pf_push RN s (pf_of p)) ps s).
Proof.
  revert xs s; induction ps as [|p ps IH]; intros xs s Hs; cbn [fold_left map]; [by rewrite app_nil_r|].
  replace (xs ++ pf_of p :: map pf_of ps) with ((xs ++ [pf_of p]) ++ map pf_of ps) by (by rewrite <- app_assoc).
  by apply IH, ring_push.
Qed.
Lemma ring_cycles cs xs s : ring_ok xs s -> ring_ok (xs ++ map pf_of (stream cs)) (fold_left (pf_cycle RN) cs s).
Proof.
  revert xs s; induction cs as [|c cs IH]; intros xs s Hs; cbn [fold_left].
  { by rewrite app_nil_r. }
  rewrite stream_cons, map_app, app_assoc. apply IH. by apply ring_pushes.
Qed.
Lemma map_nth_seq {A} (xs : list A) d start n :
  (start + n <= length xs)%nat -> map (fun k => nth k xs d) (seq start n) = take n (drop start xs).
Proof.
  revert start; induction n as [|n IH]; intros start Hn; [done|]. cbn [seq map].
  rewrite IH by lia. destruct (lookup_lt_is_Some_2 xs start ltac:(lia)) as [x Hx].
  rewrite (drop_S xs x start Hx). cbn [take]. f_equal. by apply nth_lookup_Some.
Qed.
Lemma ring_dump xs s : ring_ok xs s -> pf_dump RN s = trim RN xs.
Proof.
  destruct s as [a i]. intros (Hl & Hi & Hk). cbn [fst snd] in *. subst i. unfold pf_dump.
  set (start := if (RN <? length xs)%nat then (length xs - RN)%nat else 0%nat).
  assert (Hst : start = (length xs - RN)%nat) by (unfold start; destruct (Nat.ltb_spec RN (length xs)); lia).
  transitivity (map (fun k => nth k xs (0, 0, 0)) (seq start (length xs - start))).
  - apply map_ext_in. intros k Hin. apply in_seq in Hin. apply Hk; lia.
  - rewrite map_nth_seq by lia. rewrite Hst. unfold trim. rewrite take_ge; [done|]. rewrite length_drop. lia.
Qed.
End RingLemmas.

(** *** USRETLOG *)

(** Reading the log back, 24 bytes at a time. *)
Definition usret_parse (b : list Z) : usret_t :=
  let '(pc, b) := rd 4 b in let '(cyc, b) := rd 4 b in let '(v, b) := rd 8 b in
  Usret pc cyc v (nth 0 b 0) (nth 1 b 0).
Definition usret_read (n : nat) (f : list Z) : list usret_t := read_recs 24 usret_parse n f.
Lemma length_usret_bytes r : length (usret_bytes r) = 24%nat.
Proof. unfold usret_bytes. by rewrite !length_app, !length_le_bytes. Qed.
Lemma usret_parse_bytes cyc asid p : usret_parse (usret_bytes (usret_of cyc asid p)) = usret_of cyc asid p.
Proof.
  unfold usret_of. destruct (match p_reg p with Some (r, d) => (r, d) | None => (0, 0) end) as [dst val].
  unfold usret_parse, usret_bytes. cbn [u_pc u_cyc u_val u_dst u_asid].
  by rewrite rd4, rd4, rd8 by apply u32_range || apply u64_range.
Qed.
(** The wanted records of a run that starts at cycle [cyc]. *)
Fixpoint usret_wanted_of (kernel : bool) (cyc : Z) (cs : list rcycle) : list usret_t :=
  match cs with
  | [] => []
  | c :: t => map (usret_of cyc (cur_asid c)) (List.filter (usret_wanted kernel) (retires c)) ++ usret_wanted_of kernel (cyc + 1) t
  end.
Fixpoint usret_run (kernel : bool) (cyc : Z) (cs : list rcycle) (file : list Z) : list Z :=
  match cs with [] => file | c :: t => usret_run kernel (cyc + 1) t (usret_cycle kernel cyc c file) end.
Lemma usret_cycle_app kernel cyc c file :
  usret_cycle kernel cyc c file
  = file ++ concat (map usret_bytes (map (usret_of cyc (cur_asid c)) (List.filter (usret_wanted kernel) (retires c)))).
Proof.
  unfold usret_cycle. generalize (retires c) as ps. intros ps. revert file.
  induction ps as [|p ps IH]; intros file; cbn [fold_left List.filter]; [by rewrite app_nil_r|].
  rewrite IH. destruct (usret_wanted kernel p); [|done]. cbn [map concat]. unfold usret_add. by rewrite <- app_assoc.
Qed.
Lemma usret_run_app kernel cs : forall cyc file,
  usret_run kernel cyc cs file = file ++ concat (map usret_bytes (usret_wanted_of kernel cyc cs)).
Proof.
  induction cs as [|c cs IH]; intros cyc file; cbn [usret_run usret_wanted_of]; [by rewrite app_nil_r|].
  rewrite IH, usret_cycle_app, map_app, concat_app. by rewrite <- app_assoc.
Qed.
Lemma usret_wanted_parse kernel cs : forall cyc,
  Forall (fun r => usret_parse (usret_bytes r) = r) (usret_wanted_of kernel cyc cs).
Proof.
  induction cs as [|c cs IH]; intros cyc; cbn [usret_wanted_of]; [constructor|]. apply Forall_app_2; [|apply IH].
  apply List.Forall_forall. intros r Hr. apply in_map_iff in Hr as (p & <- & _). apply usret_parse_bytes.
Qed.

(** *** RETIRETRACE *)

Definition rt_rec (g_mem : mem) (vpc : Z) : inst_record :=
  InstRecord vpc vpc (if (0x80000000 <=? vpc) && (vpc <? 0xc0000000) then be32 g_mem (vpc .& 0x1fffffff) else 0).
Definition rt_keeps (k : rt_cfg) (vpc : Z) : bool := negb (rt_useronly k && (0x80000000 <=? vpc)).
Definition rt_stream (k : rt_cfg) (g_mem : mem) (ps : list port) : list inst_record :=
  map (rt_rec g_mem) (List.filter (rt_keeps k) (map (fun p => u32 (p_pc p)) ps)).
Lemma rt_emit_recs k g_mem vpc s :
  (0 < rt_ring k)%nat -> (length (rt_recs s) <= rt_ring k)%nat ->
  rt_recs (rt_emit k g_mem vpc s) = trim (rt_ring k) (rt_recs s ++ (if rt_keeps k vpc then [rt_rec g_mem vpc] else [])) /\
  rt_armed (rt_emit k g_mem vpc s) = rt_armed s /\ rt_stopped (rt_emit k g_mem vpc s) = rt_stopped s.
Proof.
  intros Hr Hl. unfold rt_emit, rt_keeps. destruct (rt_useronly k && (0x80000000 <=? vpc)); cbn [negb].
  { rewrite app_nil_r, trim_short by lia. done. }
  cbn [rt_recs rt_armed rt_stopped]. split; [|done]. fold (rt_rec g_mem vpc).
  replace (rt_ring k =? 0)%nat with false by (symmetry; apply Nat.eqb_neq; lia). cbn [negb andb].
  unfold trim. rewrite length_app. cbn [length].
  destruct (Nat.ltb_spec (rt_ring k) (length (rt_recs s) + 1)).
  - by replace (length (rt_recs s) + 1 - rt_ring k)%nat with 1%nat by lia.
  - by replace (length (rt_recs s) + 1 - rt_ring k)%nat with 0%nat by lia.
Qed.
Lemma rt_emits_recs k g_mem ps : forall s,
  (0 < rt_ring k)%nat -> (length (rt_recs s) <= rt_ring k)%nat ->
  let s' := fold_left (fun s p => rt_emit k g_mem (u32 (p_pc p)) s) ps s in
  rt_recs s' = trim (rt_ring k) (rt_recs s ++ rt_stream k g_mem ps).
Proof.
  induction ps as [|p ps IH]; intros s Hr Hl; cbn [fold_left].
  { unfold rt_stream. cbn. by rewrite app_nil_r, trim_short. }
  destruct (rt_emit_recs k g_mem (u32 (p_pc p)) s Hr Hl) as (H1 & _ & _).
  cbv zeta. rewrite IH; [|done|rewrite H1, length_trim; lia]. rewrite H1, trim_trim_app, <- app_assoc.
  do 2 f_equal. unfold rt_stream. cbn [map List.filter]. by destruct (rt_keeps k _).
Qed.

(** The cycles up to and including the first in which the stop PC retires. *)
Definition stops_at (k : rt_cfg) (c : rcycle) : bool :=
  negb (rt_stop_pc k =? 0) && existsb (fun p => u32 (p_pc p) =? rt_stop_pc k) (retires c).
Fixpoint up_to_stop (k : rt_cfg) (cs : list rcycle) : list rcycle :=
  match cs with [] => [] | c :: t => c :: (if stops_at k c then [] else up_to_stop k t) end.
Fixpoint rt_run (k : rt_cfg) (g_mem : mem) (retired : Z) (cs : list rcycle) (s : rt_st) : rt_st :=
  match cs with
  | [] => s
  | c :: t =>
      let retired := match slot0 c with Some _ => retired + 1 | None => retired end in
      rt_run k g_mem retired t (rt_cycle k g_mem retired c s)
  end.
(** No retire-count window, no record cap, no trigger. *)
Definition rt_unlimited (k : rt_cfg) : Prop :=
  rt_trig_user k = false /\ rt_lo k = 0 /\ rt_hi k = 0 /\ rt_capacity k = 0 /\ (0 < rt_ring k)%nat.
Lemma rt_cycle_recs k g_mem retired c s :
  rt_unlimited k -> rt_stopped s = false -> 0 <= retired -> (length (rt_recs s) <= rt_ring k)%nat ->
  rt_recs (rt_cycle k g_mem retired c s) = trim (rt_ring k) (rt_recs s ++ rt_stream k g_mem (retires c)) /\
  rt_stopped (rt_cycle k g_mem retired c s) = stops_at k c.
Proof.
  intros (Ht & Hlo & Hhi & Hcap & Hr) Hst Hn Hl. unfold rt_cycle. rewrite Hst, Ht, Hlo, Hhi, Hcap.
  cbn [negb orb andb Z.eqb]. replace (0 <=? retired) with true by lia. cbn [andb rt_recs rt_stopped]. split; [|done].
  pose proof (rt_emits_recs k g_mem (retires c) (RtSt (rt_recs s) (rt_ifail s) (rt_armed s || false) false) Hr Hl) as H.
  exact H.
Qed.
Lemma rt_run_stopped k g_mem cs : forall retired s, rt_stopped s = true -> rt_run k g_mem retired cs s = s.
Proof.
  induction cs as [|c cs IH]; intros retired s Hs; cbn [rt_run]; [done|].
  assert (E : forall r, rt_cycle k g_mem r c s = s) by (intros r; unfold rt_cycle; by rewrite Hs).
  rewrite E. by apply IH.
Qed.
Lemma rt_run_recs k g_mem cs : forall retired s,
  rt_unlimited k -> rt_stopped s = false -> 0 <= retired -> (length (rt_recs s) <= rt_ring k)%nat ->
  rt_recs (rt_run k g_mem retired cs s) = trim (rt_ring k) (rt_recs s ++ rt_stream k g_mem (stream (up_to_stop k cs))).
Proof.
  induction cs as [|c cs IH]; intros retired s Hk Hs Hn Hl; cbn [rt_run up_to_stop].
  { unfold rt_stream. cbn. by rewrite app_nil_r, trim_short. }
  set (r' := match slot0 c with Some _ => retired + 1 | None => retired end).
  assert (Hr' : 0 <= r') by (unfold r'; destruct (slot0 c); lia).
  destruct (rt_cycle_recs k g_mem r' c s Hk Hs Hr' Hl) as [H1 H2].
  rewrite stream_cons.
  assert (Happ : forall ps qs, rt_stream k g_mem (ps ++ qs) = rt_stream k g_mem ps ++ rt_stream k g_mem qs).
  { intros ps qs. unfold rt_stream. by rewrite map_app, List.filter_app, map_app. }
  destruct (stops_at k c) eqn:E.
  - rewrite rt_run_stopped by done. rewrite H1. change (stream []) with (@nil port). by rewrite app_nil_r.
  - rewrite IH; [|done|done|done|rewrite H1, length_trim; lia].
    by rewrite H1, trim_trim_app, Happ, <- app_assoc.
Qed.

(** *** TIP *)

Lemma tip_total_add k d t : tip_total (tip_add k d t) = tip_total t + d.
Proof.
  unfold tip_add, tip_total.
  assert (Hfold : forall (m : gmap Z Z) i x, m !! i = None ->
    map_fold (fun _ v acc => v + acc) 0 (<[i := x]> m) = x + map_fold (fun _ v acc => v + acc) 0 m).
  { intros m i x Hi. apply (map_fold_insert_L (fun _ v acc => v + acc)); [|done]. intros. lia. }
  destruct (t !! k) as [v|] eqn:E; cbn [default].
  - rewrite <- insert_delete_eq, Hfold by apply lookup_delete_eq.
    rewrite <- (insert_delete_id t k v E) at 2. rewrite Hfold by apply lookup_delete_eq. unfold id. lia.
  - rewrite Hfold by done. unfold default. lia.
Qed.
Lemma tip_total_cycle c t : tip_total (tip_cycle t c) = tip_total t + 2.
Proof. unfold tip_cycle. destruct (slot0 c), (slot1 c); rewrite ?tip_total_add; lia. Qed.

(** ** Properties *)

(** Outside loadval capture, the no-retire watchdog stops a run
    exactly when some cycle is more than [NO_RETIRE_LIMIT] cycles after the last
    head retirement; it never fires on a run that keeps retiring. *)
Theorem watchdog_exact (max_cyc limit : Z) (cs : list rcycle) (s : loop_st) :
  1 <= limit -> l_halted s = false -> l_deadlock s = false -> 0 <= l_last_retire_cyc s <= l_cyc s ->
  l_cyc s + Z.of_nat (length cs) <= max_cyc -> max_cyc < 2 ^ 64 ->
  l_deadlock (loop_run max_cyc 0 limit (map (pair false) cs) s)
  = negb (gaps_ok limit (l_cyc s - l_last_retire_cyc s) cs).
Proof. apply loop_run_watchdog. Qed.
Definition idle_cycle : rcycle := RCycle None None 0x88000000 0.
Definition head_retire : rcycle := RCycle (Some (Port 0x88000000 false 0 0 None None)) None 0x88000000 0.
Definition loop_start : loop_st := LoopSt 0 0 0 0 false false.
Lemma watchdog_exact_witness :
  l_deadlock (loop_run 1000 0 3 (map (pair false) (head_retire :: repeat idle_cycle 4)) loop_start) = true /\
  l_deadlock (loop_run 1000 0 3 (map (pair false) (head_retire :: repeat idle_cycle 3)) loop_start) = false.
Proof.
  split.
  - rewrite (watchdog_exact 1000 3 (head_retire :: repeat idle_cycle 4) loop_start); cbn; try done; lia.
  - rewrite (watchdog_exact 1000 3 (head_retire :: repeat idle_cycle 3) loop_start); cbn; try done; lia.
Defined.

(** The watchdog is the [else] of the loadval capture: while that capture is
    active a core that never retires is never reported. *)
Theorem watchdog_blind_in_loadval (max_cyc limit : Z) (n : nat) :
  l_deadlock (loop_run max_cyc 0 limit (repeat (true, idle_cycle) n) loop_start) = false.
Proof.
  assert (H : l_deadlock loop_start = false) by done. revert H. generalize loop_start.
  induction n as [|n IH]; intros s Hs; cbn [repeat loop_run]; [done|]. destruct (loop_cond _ _ _); [|done].
  apply IH. unfold loop_step. cbn [slot0 idle_cycle negb andb l_deadlock]. by rewrite Hs.
Qed.

(** [retired] counts head retirements only: a dual-issue run of [n] cycles retires
    [2n] instructions and counts [n], so --maxicnt, the verify window and the
    monitor's [step] all run long. *)
Definition dual_retire : rcycle :=
  RCycle (Some (Port 0x88000000 false 0 0 None None)) (Some (Port 0x88000004 false 0 0 None None)) 0 0.
Theorem retired_counts_heads_only (n : nat) :
  l_retired (loop_run (Z.of_nat n) 0 0 (repeat (false, dual_retire) n) loop_start) = Z.of_nat n /\
  length (stream (repeat dual_retire n)) = (2 * n)%nat.
Proof.
  split.
  - assert (H : l_cyc loop_start = 0 /\ l_retired loop_start = 0 /\ l_halted loop_start = false) by done.
    revert H. generalize loop_start as s. intros s (Hc & Hr & Hh).
    enough (Hgen : forall k s, l_halted s = false -> l_cyc s + Z.of_nat k <= Z.of_nat n ->
      l_retired (loop_run (Z.of_nat n) 0 0 (repeat (false, dual_retire) k) s) = l_retired s + Z.of_nat k)
      by (rewrite Hgen by (done || lia); lia).
    clear. induction k as [|k IH]; intros s Hh Hc; cbn [repeat loop_run]; [lia|].
    unfold loop_cond. rewrite Hh. replace (l_cyc s <? Z.of_nat n) with true by lia. cbn [andb orb negb Z.eqb].
    rewrite IH; unfold loop_step; cbn [slot0 dual_retire l_halted l_cyc l_retired negb andb Z.eqb]; rewrite ?orb_false_r; try done; lia.
  - induction n as [|n IH]; [done|]. cbn [repeat]. rewrite stream_cons, length_app, IH. cbn. lia.
Qed.

(** PCHASH's hash, count and reports are a function of the
    retired PCs in program order alone, not of how they were paired into cycles;
    each report is the FNV-1a of the whole prefix.  That is what makes it
    comparable with the single-issue golden model. *)
Theorem pchash_of_stream (cs : list rcycle) :
  let pcs := map p_pc (stream cs) in
  fold_left pchash_cycle cs pchash_init = (fnv FNV_BASIS (map u32 pcs), Z.of_nat (length pcs), pchash_reports pcs).
Proof. cbv zeta. by rewrite pchash_stream, pchash_fold. Qed.

(** Whenever the probe dumps its ring it prints exactly the
    last [RN] retirements (all of them before the first wrap), oldest first. *)
Theorem prfault_ring_tail (RN : nat) (cs : list rcycle) :
  (0 < RN)%nat ->
  pf_dump RN (fold_left (pf_cycle RN) cs (repeat (0, 0, 0) RN, 0%nat)) = trim RN (map pf_of (stream cs)).
Proof.
  intros H. rewrite (ring_dump RN H (map pf_of (stream cs))); [done|].
  apply (ring_cycles RN H cs []). unfold ring_ok. cbn [fst snd length]. split; [apply repeat_length|]. split; [done|]. intros. lia.
Qed.
Lemma prfault_ring_tail_witness :
  pf_dump 3 (fold_left (pf_cycle 3) [dual_retire; head_retire; dual_retire] (repeat (0, 0, 0) 3, 0%nat))
  = [(0x88000000, -1, 0); (0x88000000, -1, 0); (0x88000004, -1, 0)].
Proof. rewrite (prfault_ring_tail 3 [dual_retire; head_retire; dual_retire]); [vm_compute; reflexivity|lia]. Defined.

(** Reading a USRETLOG file back 24 bytes at a time yields the
    wanted retirements in program order, with cycle, value, register and ASID. *)
Theorem usret_log_decodes (kernel : bool) (cyc : Z) (cs : list rcycle) :
  let rs := usret_wanted_of kernel cyc cs in
  usret_read (length rs) (usret_run kernel cyc cs []) = rs /\ length (usret_run kernel cyc cs []) = (24 * length rs)%nat.
Proof.
  intros rs. rewrite usret_run_app. cbn [app]. split.
  - rewrite <- (app_nil_r (concat _)). apply (read_recs_app 24 usret_parse usret_bytes); [apply length_usret_bytes|apply usret_wanted_parse].
  - apply (length_recs 24), length_usret_bytes.
Qed.

(** With RETIRETRACE_RING=N, what is left when the stop
    PC retires is the last N selected retirements up to and including that cycle:
    the crash lead-up, nothing after it. *)
Theorem retiretrace_crash_window (k : rt_cfg) (g_mem : mem) (retired : Z) (cs : list rcycle) :
  rt_unlimited k -> 0 <= retired ->
  rt_recs (rt_run k g_mem retired cs (RtSt [] 0 false false))
  = trim (rt_ring k) (rt_stream k g_mem (stream (up_to_stop k cs))).
Proof. intros Hk Hr. rewrite rt_run_recs; [done|done|done|done|cbn; lia]. Qed.
Definition sample_rt : rt_cfg := RtCfg false false 0 0 0 2 0x88000004.
Lemma retiretrace_crash_window_witness :
  rt_recs (rt_run sample_rt ∅ 0 [head_retire; dual_retire; head_retire] (RtSt [] 0 false false))
  = [InstRecord 0x88000000 0x88000000 0; InstRecord 0x88000004 0x88000004 0].
Proof.
  rewrite (retiretrace_crash_window sample_rt ∅ 0 [head_retire; dual_retire; head_retire]); [vm_compute; reflexivity| |lia].
  repeat split. cbn. lia.
Defined.

(** The ctrace records of a run are its retirements in
    program order, one each, with slot 1 marked; interrupts add no record. *)
Theorem ctrace_capture_in_order (cs : list (rcycle * option (Z * Z * Z))) :
  let rs := adds (concat (map (fun ci => ct_cycle (fst ci) (snd ci)) cs)) in
  map r_pc rs = map (fun p => u64 (p_pc p)) (stream (map fst cs)) /\
  map (fun r => Z.testbit (r_flags r) 2) rs
  = concat (map (fun ci => map (fun _ => false) (opt_list' (slot0 (fst ci))) ++ map (fun _ => true) (opt_list' (slot1 (fst ci)))) cs).
Proof.
  assert (Happ : forall a b, adds (a ++ b) = adds a ++ adds b) by (intros; unfold adds; apply omap_app).
  assert (Hadd : forall f ps, adds (map (fun p => Add (ct_rec_of f p)) ps) = map (ct_rec_of f) ps).
  { intros f ps. induction ps as [|p ps IH]; [done|]. cbn [map]. unfold adds in *. cbn. by rewrite IH. }
  assert (Hpc : forall f p, r_pc (ct_rec_of f p) = u64 (p_pc p)).
  { intros f p. unfold ct_rec_of. by destruct (p_reg p) as [[]|], (p_fp p) as [[]|], (p_fcr p) as [[]|]. }
  assert (Hfl : forall p, Z.testbit (r_flags (ct_rec_of 0 p)) 2 = false /\ Z.testbit (r_flags (ct_rec_of CTF_SLOT1 p)) 2 = true).
  { intros p. unfold ct_rec_of. by destruct (p_reg p) as [[]|], (p_fp p) as [[]|], (p_fcr p) as [[]|]. }
  assert (Hcyc : forall c irq, adds (ct_cycle c irq) = map (ct_rec_of 0) (opt_list' (slot0 c)) ++ map (ct_rec_of CTF_SLOT1) (opt_list' (slot1 c))).
  { intros c irq. unfold ct_cycle. rewrite !Happ, !Hadd. f_equal. by destruct irq as [[[]]|]; rewrite app_nil_r. }
  cbv zeta. induction cs as [|[c irq] cs [IH1 IH2]]; [done|]. cbn [map concat fst snd].
  rewrite stream_cons, Happ, Hcyc, !map_app, IH1, IH2. unfold retires. rewrite map_app.
  split; f_equal; destruct (slot0 c), (slot1 c); cbn [opt_list' map app];
    by rewrite ?Hpc, ?(proj1 (Hfl _)), ?(proj2 (Hfl _)).
Qed.

(** The TIP profile charges every cycle exactly once, so its
    total is the number of cycles observed. *)
Theorem tip_conserves_cycles (cs : list rcycle) :
  tip_total (fold_left tip_cycle cs ∅) = 2 * Z.of_nat (length cs).
Proof.
  enough (H : forall t, tip_total (fold_left tip_cycle cs t) = tip_total t + 2 * Z.of_nat (length cs)) by (rewrite H; done).
  induction cs as [|c cs IH]; intros t; cbn [fold_left length]; [lia|]. rewrite IH, tip_total_cycle. lia.
Qed.

(** --trace starts at the first head retirement of the kernel entry: an entry that
    retires in slot 1 does not start it. *)
Theorem trace_misses_slot1_entry :
  trace_cycle 0x88000004 7 dual_retire (false, []) = (false, []) /\
  In 0x88000004 (map p_pc (retires dual_retire)).
Proof. split; [reflexivity|]. right. left. reflexivity. Qed.
