(* ===== verification/Console.v ===== *)
(** * Console: serial input, scripted input and console watching

    The --rx drip, RXSCRIPT (parsing, typing, expect matching) and the crash
    detector on the drained console bytes, from the main loop of
    sim/henry_tb.cpp.  Text is a list of bytes. *)
From S2P Require Import Prelude.

(** ** Text *)

(** [s.find(pat) != npos]. *)
Definition prefix_b (pat s : list Z) : bool := bool_decide (take (length pat) s = pat).
Fixpoint contains (pat s : list Z) : bool :=
  prefix_b pat s || match s with [] => false | _ :: t => contains pat t end.
(** Split at the first occurrence of a byte; [None] = [npos]. *)
Fixpoint cut (c : Z) (s : list Z) : list Z * option (list Z) :=
  match s with
  | [] => ([], None)
  | x :: t => if x =? c then ([], Some t) else let '(a, r) := cut c t in (x :: a, r)
  end.

(** ** RXSCRIPT *)

Record rxstep_t := RxStep { expect : list Z; type : list Z }.
(** The [while(p0 <= all.size())] loop; a line per newline plus the last one. *)
Fixpoint script_lines (fuel : nat) (all : list Z) : list (list Z) :=
  match fuel with
  | O => []
  | S k => let '(line, rest) := cut 10 all in
           line :: match rest with Some r => script_lines k r | None => [] end
  end.
Definition script_step (line : list Z) : option rxstep_t :=
  let '(e, r) := cut 9 line in match r with Some t => Some (RxStep e t) | None => None end.
Definition rxscript (all : list Z) : list rxstep_t := omap script_step (script_lines (S (length all)) all).

Record console := Console { rx_idx : nat; rxstep : nat; rxpend : list Z; contail : list Z }.
Definition console_init : console := Console 0 0 [] [].

Section Drive.
Variable rx_bytes : list Z.
Variable steps : list rxstep_t.

(** The byte driven into the SCC this cycle: the drip has priority. *)
Inductive typed_byte := Drip (b : Z) | Script (b : Z).
Definition rx_drive (cyc : Z) (s : console) : console * option typed_byte :=
  match rx_bytes !! rx_idx s with
  | Some b =>
      if (2000 <=? cyc) && (cyc mod 64 =? 0)
      then (Console (S (rx_idx s)) (rxstep s) (rxpend s) (contail s), Some (Drip b))
      else match rxpend s with
           | c :: t => if cyc mod 4096 =? 0 then (Console (rx_idx s) (rxstep s) t (contail s), Some (Script c)) else (s, None)
           | [] => (s, None)
           end
  | None =>
      match rxpend s with
      | c :: t => if cyc mod 4096 =? 0 then (Console (rx_idx s) (rxstep s) t (contail s), Some (Script c)) else (s, None)
      | [] => (s, None)
      end
  end.
(** A drained console byte: expect matching on a 512-byte tail. *)
Definition con_byte (ch : Z) (s : console) : console :=
  match steps !! rxstep s, rxpend s with
  | Some st, [] =>
      let tail := trim 512 (contail s ++ [ch]) in
      if contains (expect st) tail
      then Console (rx_idx s) (S (rxstep s)) (type st ++ [13]) []
      else Console (rx_idx s) (rxstep s) (rxpend s) tail
  | _, _ => s
  end.

(** One cycle: drive, then the byte drained from the console, if any. *)
Definition con_cycle (cyc : Z) (ch : option Z) (s : console) : console * option typed_byte :=
  let '(s, b) := rx_drive cyc s in
  (match ch with Some c => con_byte c s | None => s end, b).
Fixpoint con_run (cyc : Z) (chs : list (option Z)) (s : console) (out : list typed_byte) : console * list typed_byte :=
  match chs with
  | [] => (s, out)
  | ch :: t =>
      let '(s, b) := con_cycle cyc ch s in
      con_run (cyc + 1) t s (out ++ match b with Some b => [b] | None => [] end)
  end.
End Drive.

(** ** Crash detection *)

(** The 256-byte tail [ct] and the two once-only flags. *)
Record watch := Watch { w_ct : list Z; sig_hit : bool; crash_hit : bool }.
Definition watch_init : watch := Watch [] false false.
Definition watch_byte (w : watch) (ch : Z) : watch :=
  let ct := trim 256 (w_ct w ++ [ch]) in
  Watch ct (sig_hit w || contains (chars "Signal: ") ct)
    (crash_hit w || (contains (chars "died due to signal") ct || contains (chars "cc returned") ct)).

(** ** Lemmas *)

Lemma prefix_b_app pat s : prefix_b pat (pat ++ s) = true.
Proof. unfold prefix_b. by rewrite take_app_length, bool_decide_true. Qed.
Lemma contains_spec pat s : contains pat s = true <-> exists a b, s = a ++ pat ++ b.
Proof.
  split.
  - induction s as [|x s IH]; cbn [contains]; intros H; apply orb_true_iff in H as [H|H]; try done.
    + apply bool_decide_eq_true in H. exists [], []. rewrite app_nil_r. by destruct pat.
    + apply bool_decide_eq_true in H. exists [], (drop (length pat) (x :: s)). cbn [app].
      transitivity (take (length pat) (x :: s) ++ drop (length pat) (x :: s)); [by rewrite take_drop|by rewrite H].
    + destruct (IH H) as (a & b & ->). by exists (x :: a), b.
  - intros (a & b & ->). induction a as [|x a IH]; cbn [app].
    + destruct (pat ++ b) eqn:E; cbn [contains]; rewrite <- E, prefix_b_app; done.
    + cbn [contains]. by rewrite IH, orb_true_r.
Qed.
(** The occurrences the tail window decides: those that end in the newest byte. *)
Definition ends_with (pat s : list Z) : Prop := exists a, s = a ++ pat.
Lemma contains_snoc pat s c :
  pat <> [] -> contains pat (s ++ [c]) = true <-> contains pat s = true \/ ends_with pat (s ++ [c]).
Proof.
  intros Hp. rewrite !contains_spec. split.
  - intros (a & b & H). destruct b as [|y b] using rev_ind.
    + right. exists a. by rewrite app_nil_r in H.
    + left. clear IHb. exists a, b. rewrite !app_assoc in H. apply app_inj_tail in H as [-> _]. by rewrite app_assoc.
  - intros [(a & b & ->)|[a H]].
    + exists a, (b ++ [c]). by rewrite <- !app_assoc.
    + exists a, []. by rewrite H, app_nil_r.
Qed.
Lemma trim_ends_with n pat s : (length pat <= n)%nat -> ends_with pat s -> ends_with pat (trim n s).
Proof.
  intros Hl [a ->]. unfold trim. rewrite length_app. rewrite drop_app_le by lia.
  by exists (drop (length a + length pat - n) a).
Qed.
Lemma contains_trim n pat s : contains pat (trim n s) = true -> contains pat s = true.
Proof.
  rewrite !contains_spec. intros (a & b & H). exists (take (length s - n) s ++ a), b.
  rewrite <- app_assoc, <- H. unfold trim. by rewrite take_drop.
Qed.

Lemma cut_absent c s : ~ In c s -> cut c s = (s, None).
Proof.
  induction s as [|x s IH]; intros H; cbn [cut]; [done|]. replace (x =? c) with false.
  - rewrite IH; [done|]. intros Hin. apply H. by right.
  - symmetry. apply Z.eqb_neq. intros ->. apply H. by left.
Qed.
Lemma cut_at c a b : ~ In c a -> cut c (a ++ c :: b) = (a, Some b).
Proof.
  induction a as [|x a IH]; intros H; cbn [app cut]; [by rewrite Z.eqb_refl|]. replace (x =? c) with false.
  - rewrite IH; [done|]. intros Hin. apply H. by right.
  - symmetry. apply Z.eqb_neq. intros ->. apply H. by left.
Qed.

Fixpoint watch_run (w : watch) (s : list Z) : watch :=
  match s with [] => w | c :: t => watch_run (watch_byte w c) t end.
Lemma watch_run_app w s t : watch_run w (s ++ t) = watch_run (watch_run w s) t.
Proof. revert w. induction s as [|c s IH]; intros w; [done|apply IH]. Qed.

(** One byte: matching on the tail adds exactly the occurrences that end in it. *)
Lemma window_step n pat s c :
  pat <> [] -> (length pat <= n)%nat ->
  contains pat s || contains pat (trim n (s ++ [c])) = contains pat (s ++ [c]).
Proof.
  intros Hp Hl. apply eq_true_iff_eq. rewrite orb_true_iff, (contains_snoc pat s c Hp). split.
  - intros [H|H]; [by left|]. apply contains_trim in H. by apply contains_snoc in H.
  - intros [H|H]; [by left|]. right. apply (trim_ends_with n) in H; [|done].
    destruct H as [a H]. apply contains_spec. exists a, []. by rewrite app_nil_r.
Qed.

Definition watch_spec (s : list Z) : watch :=
  Watch (trim 256 s) (contains (chars "Signal: ") s)
    (contains (chars "died due to signal") s || contains (chars "cc returned") s).
Lemma watch_step s c : watch_byte (watch_spec s) c = watch_spec (s ++ [c]).
Proof.
  unfold watch_byte, watch_spec. cbn [w_ct sig_hit crash_hit]. rewrite trim_trim_app. f_equal.
  - apply window_step; [done|vm_compute; lia].
  - rewrite <- (window_step 256 (chars "died due to signal") s c) by first [done|vm_compute; lia].
    rewrite <- (window_step 256 (chars "cc returned") s c) by first [done|vm_compute; lia].
    destruct (contains (chars "died due to signal") s), (contains (chars "cc returned") s),
      (contains (chars "died due to signal") (trim 256 (s ++ [c])));
      try reflexivity.
Qed.
Lemma watch_run_spec s : watch_run watch_init s = watch_spec s.
Proof.
  induction s as [|c s IH] using rev_ind; [reflexivity|].
  rewrite watch_run_app, IH. apply watch_step.
Qed.

(** The crash detector keeps only the last 256 bytes, yet its flags are
    exact for the whole console stream: [sig_hit] is set iff "Signal: " occurs
    anywhere in it and [hit] iff "died due to signal" or "cc returned" does,
    however long the stream and wherever the window was cut. *)
Theorem console_crash_detector s :
  let w := watch_run watch_init s in
  (sig_hit w = true <-> exists a b, s = a ++ chars "Signal: " ++ b) /\
  (crash_hit w = true <->
     (exists a b, s = a ++ chars "died due to signal" ++ b) \/ (exists a b, s = a ++ chars "cc returned" ++ b)).
Proof.
  cbv zeta. rewrite watch_run_spec. unfold watch_spec. cbn [sig_hit crash_hit].
  rewrite orb_true_iff, !contains_spec. done.
Qed.

(** ** RXSCRIPT typing *)

Definition typed_script (out : list typed_byte) : list Z :=
  omap (fun t => match t with Script b => Some b | Drip _ => None end) out.
Definition typed_drip (out : list typed_byte) : list Z :=
  omap (fun t => match t with Drip b => Some b | Script _ => None end) out.
Definition script_text (st : rxstep_t) : list Z := type st ++ [13].

Lemma take_S_concat (steps : list rxstep_t) k st :
  steps !! k = Some st ->
  concat (map script_text (take (S k) steps)) = concat (map script_text (take k steps)) ++ script_text st.
Proof. intros H. rewrite (take_S_r _ _ _ H), map_app, concat_app. cbn [map concat]. by rewrite app_nil_r. Qed.
Lemma take_S_rx (rx : list Z) k b : rx !! k = Some b -> take (S k) rx = take k rx ++ [b].
Proof. apply take_S_r. Qed.

(** The invariant of the typed stream. *)
Definition con_inv (rx : list Z) (steps : list rxstep_t) (s : console) (out : list typed_byte) : Prop :=
  typed_script out ++ rxpend s = concat (map script_text (take (rxstep s) steps)) /\
  typed_drip out = take (rx_idx s) rx.
Lemma rx_drive_inv rx steps cyc s s' b out :
  rx_drive rx cyc s = (s', b) -> con_inv rx steps s out ->
  con_inv rx steps s' (out ++ match b with Some b => [b] | None => [] end).
Proof.
  destruct s as [ri rs rp ct]. intros H [Hs Hd]. unfold rx_drive in H. unfold con_inv, typed_script, typed_drip in *.
  cbn [rxpend rxstep rx_idx contail] in *. rewrite !omap_app.
  repeat case_match; simplify_eq; cbn [omap list_omap rxpend rxstep rx_idx];
    rewrite ?app_nil_r, <- ?app_assoc; split; try done.
  2, 3: by rewrite app_nil_r in Hs.
  rewrite Hd. symmetry. by apply take_S_rx.
Qed.
Lemma con_byte_inv rx steps c s out :
  con_inv rx steps s out -> con_inv rx steps (con_byte steps c s) out.
Proof.
  intros [Hs Hd]. unfold con_byte. destruct (steps !! rxstep s) as [st|] eqn:E; [|done].
  destruct (rxpend s) as [|x t] eqn:Ep; [|by unfold con_inv; rewrite Ep].
  case_match; split; cbn [rxpend rxstep rx_idx]; try done.
  rewrite (take_S_concat _ _ _ E), <- Hs, app_nil_r. done.
Qed.
Lemma con_run_inv rx steps chs : forall cyc s out,
  con_inv rx steps s out ->
  con_inv rx steps (con_run rx steps cyc chs s out).1 (con_run rx steps cyc chs s out).2.
Proof.
  induction chs as [|ch chs IH]; intros cyc s out H; cbn [con_run]; [done|].
  unfold con_cycle. destruct (rx_drive rx cyc s) as [s1 b] eqn:E.
  pose proof (rx_drive_inv _ _ _ _ _ _ _ E H) as H1.
  destruct ch as [c|]; apply IH; [by apply con_byte_inv|done].
Qed.

Lemma con_init_inv rx steps : con_inv rx steps console_init [].
Proof. done. Qed.

(** On every run from start-up, whatever the console prints and however
    the --rx drip interleaves, the bytes the script has typed followed by the bytes
    still pending are exactly the lines of the first [rxstep] steps in order, each
    ended by a carriage return, and the drip has sent exactly a prefix of its string. *)
Theorem rxscript_types_in_order rx steps cyc chs :
  let '(s, out) := con_run rx steps cyc chs console_init [] in
  typed_script out ++ rxpend s = concat (map (fun st => type st ++ [13]) (take (rxstep s) steps)) /\
  typed_drip out = take (rx_idx s) rx.
Proof.
  pose proof (con_run_inv rx steps chs cyc _ _ (con_init_inv rx steps)) as H.
  destruct (con_run rx steps cyc chs console_init []) as [s out]. exact H.
Qed.

(** ** Script syntax *)

Definition print_step (st : rxstep_t) : list Z := expect st ++ 9 :: type st.
Fixpoint print_script (l : list rxstep_t) : list Z :=
  match l with [] => [] | [st] => print_step st | st :: t => print_step st ++ 10 :: print_script t end.
(** A step whose expect string holds no tab or newline and whose line no newline. *)
Definition step_ok (st : rxstep_t) : Prop := ~ In 9 (expect st) /\ ~ In 10 (expect st) /\ ~ In 10 (type st).

Lemma print_step_line st : step_ok st -> ~ In 10 (print_step st).
Proof. intros (_ & H1 & H2) H. unfold print_step in H. apply in_app_iff in H as [H|[H|H]]; done. Qed.
Lemma script_step_print st : step_ok st -> script_step (print_step st) = Some st.
Proof. intros (H & _). unfold script_step, print_step. rewrite cut_at by done. by destruct st. Qed.
Lemma script_lines_print st l fuel :
  Forall step_ok (st :: l) -> (length l < fuel)%nat ->
  script_lines fuel (print_script (st :: l)) = map print_step (st :: l).
Proof.
  revert st fuel. induction l as [|st' l IH]; intros st fuel H Hf; destruct fuel as [|fuel]; try (cbn in Hf; lia);
    pose proof (Forall_inv H) as Hs; pose proof (Forall_inv_tail H) as Hl; clear H.
  - cbn [print_script script_lines map]. by rewrite cut_absent by (by apply print_step_line).
  - cbn [length] in Hf. change (print_script (st :: st' :: l)) with (print_step st ++ 10 :: print_script (st' :: l)).
    cbn [script_lines]. rewrite cut_at by (by apply print_step_line). cbn [map]. f_equal.
    apply IH; [done|lia].
Qed.
Lemma length_print_script st l : (length l < S (length (print_script (st :: l))))%nat.
Proof.
  revert st. induction l as [|st' l IH]; intros st; [cbn; lia|].
  change (print_script (st :: st' :: l)) with (print_step st ++ 10 :: print_script (st' :: l)).
  rewrite length_app. cbn [length]. specialize (IH st'). lia.
Qed.

(** Every script of steps with no tab in the expect string and no newline in
    either part is read back by the RXSCRIPT parser exactly as written. *)
Theorem rxscript_parses_printed l :
  Forall step_ok l -> rxscript (print_script l) = l.
Proof.
  intros H. unfold rxscript. destruct l as [|st l]; [reflexivity|].
  rewrite script_lines_print by (done || apply length_print_script).
  induction H as [|x xs Hx H IH]; [done|]. cbn [map]. cbn [omap list_omap] in *.
  rewrite script_step_print by done. by f_equal.
Qed.
Lemma rxscript_parses_printed_witness :
  Forall step_ok [RxStep (chars "login:") (chars "root"); RxStep (chars "# ") (chars "cc a.c")] /\
  rxscript (print_script [RxStep (chars "login:") (chars "root"); RxStep (chars "# ") (chars "cc a.c")])
  = [RxStep (chars "login:") (chars "root"); RxStep (chars "# ") (chars "cc a.c")].
Proof.
  assert (H : Forall step_ok [RxStep (chars "login:") (chars "root"); RxStep (chars "# ") (chars "cc a.c")]).
  { repeat apply Forall_cons_2; try apply Forall_nil_2; repeat split; vm_compute; intuition discriminate. }
  split; [exact H|exact (rxscript_parses_printed _ H)].
Defined.
