(* ===== verification/Probes.v ===== *)
(** * Probes: cache-line histories, address pairs, FSM trace, flush driver

    Diagnostic state machines of sim/henry_tb.cpp: the L1D/L1I line lifecycle
    records ([l1d_fill], [l1d_cacheop], [l1i_fill], [l1i_flush], the history
    [rd_log] reports), VAPALOG ([vapa_log]), STTRACE, the --extflush /
    --xfpages driver, and BADVA_PROBE.  The watch printouts of the fill and
    invalidate hooks are left out. *)
From S2P Require Import Prelude AddressMap GuestMem Checkpoint.

(** ** Line lifecycle *)

Record linerec := LineRec {
  fill_cyc : Z; fill_pc : Z; inval_cyc : Z; inval_pc : Z; fill_lo : Z; fill_hi : Z }.
Definition linerec0 : linerec := LineRec 0 0 0 0 0 0.
Abbreviation lines := (gmap Z linerec).
Definition line_of (pa : Z) : Z := Z.ldiff pa 0x1f.
(** [auto &r = g_l1d_lines[line]]: a missing record is created zeroed. *)
Definition line_ref (ls : lines) (line : Z) : linerec := default linerec0 (ls !! line).

Definition l1d_fill (g_cur_cyc pc pa lo hi : Z) (ls : lines) : lines :=
  let r := line_ref ls (line_of pa) in
  <[line_of pa := LineRec g_cur_cyc (u64 pc) (inval_cyc r) (inval_pc r) lo hi]> ls.
Definition l1d_cacheop (g_cur_cyc pc pa inval : Z) (ls : lines) : lines :=
  if inval =? 0 then ls
  else
    let r := line_ref ls (line_of pa) in
    <[line_of pa := LineRec (fill_cyc r) (fill_pc r) g_cur_cyc (u64 pc) (fill_lo r) (fill_hi r)]> ls.
Definition l1i_fill (cyc pa : Z) (ls : lines) : lines :=
  let r := line_ref ls (line_of pa) in
  <[line_of pa := LineRec cyc pa (inval_cyc r) (inval_pc r) (fill_lo r) (fill_hi r)]> ls.
Definition l1i_flush (cyc : Z) (ls : lines) : Z * lines :=
  (cyc, (fun r => LineRec (fill_cyc r) (fill_pc r) cyc 0 (fill_lo r) (fill_hi r)) <$> ls).
(** [rd_log], the hook of every L1D load.  A report carries the line's record,
    zeros when it has none.  [LDWATCH] = 0xffffffff lists the first 20 loads; any
    other non-zero value watches a 64-byte region, at most 2000 times; then come
    the PC window and the crash word of the copy. *)
Record rd_cfg := RdCfg { LDWATCH : Z; STACKRD_LO : Z; STACKRD_HI : Z; BCOPYTRACE : bool }.
Record load_ev := LoadEv { ld_cyc : Z; ld_pc : Z; ld_addr : Z; ld_data : Z; ld_hit : Z }.
Inductive rd_report :=
  | LdAll (e : load_ev)
  | LdWatch (e : load_ev) (r : linerec)
  | StackRd (e : load_ev) (r : linerec)
  | BcopyRd (e : load_ev) (r : linerec).
Definition crashword (pa : Z) : bool := pa .& 0xfff =? 0x1c0.
Definition rd_history (ls : lines) (addr : Z) : linerec := line_ref ls (line_of addr).
Definition rd_log (k : rd_cfg) (ls : lines) (e : load_ev) (n : Z * Z) : (Z * Z) * list rd_report :=
  let '(n_all, lw_n) := n in
  let p := u32 (ld_pc e) in
  let r := rd_history ls (ld_addr e) in
  let all := (LDWATCH k =? 0xffffffff) && (n_all <? 20) in
  let n_all := if all then n_all + 1 else n_all in
  let watched := negb (LDWATCH k =? 0) && negb (LDWATCH k =? 0xffffffff) &&
                 (Z.ldiff (ld_addr e) 63 =? Z.ldiff (LDWATCH k) 63) in
  let lw_n := if watched then lw_n + 1 else lw_n in
  ((n_all, lw_n),
   (if all then [LdAll e] else []) ++ (if watched && (lw_n <=? 2000) then [LdWatch e r] else []) ++
   (if (STACKRD_LO k <=? p) && (p <=? STACKRD_HI k) then [StackRd e r]
    else if BCOPYTRACE k && crashword (ld_addr e) then [BcopyRd e r] else [])).

(** ** VAPALOG *)

Record vapa_rec_t := VapaRec {
  v_cyc : Z; v_pc : Z; v_va : Z; v_pa : Z;
  v_is_store : Z; v_mapped : Z; v_hit : Z; v_tlb_hit : Z; v_tlb_valid : Z }.
(** The 64-byte record, padding included. *)
Definition vapa_bytes (r : vapa_rec_t) : list Z :=
  le_bytes 8 (v_cyc r) ++ le_bytes 8 (v_pc r) ++ le_bytes 8 (v_va r) ++ le_bytes 8 (v_pa r) ++
  le_bytes 4 (v_is_store r) ++ le_bytes 4 (v_mapped r) ++ le_bytes 4 (v_hit r) ++
  le_bytes 4 (v_tlb_hit r) ++ le_bytes 4 (v_tlb_valid r) ++ repeat 0 12.
(** [opens]: VAPALOG is set and [fopen] succeeds. *)
Record vapa_cfg := VapaCfg { vapa_from : Z; vapa_max : Z; vapa_opens : bool }.
Definition vapa_log (k : vapa_cfg) (r : vapa_rec_t) (s : list Z * Z) : list Z * Z :=
  if (v_cyc r <? vapa_from k) || (vapa_max k <=? snd s) then s
  else if vapa_opens k then (fst s ++ vapa_bytes r, snd s + 1) else s.

(** ** STTRACE *)

Record fsm := Fsm { core_state : Z; l1i_state : Z; l1d_state : Z; l2_state : Z; l2_rsp_state : Z }.
Definition st_key (x : fsm) : Z :=
  (core_state x .<< 32) .| (l1i_state x .<< 24) .| (l1d_state x .<< 16) .| (l2_state x .<< 8) .| l2_rsp_state x.
Definition st_cycle (st_a st_b cyc : Z) (x : fsm) (s : Z * list (Z * fsm)) : Z * list (Z * fsm) :=
  if negb (st_b =? 0) && (st_a <=? cyc) && (cyc <=? st_b) then
    if negb (st_key x =? fst s) then (st_key x, snd s ++ [(cyc, x)]) else s
  else s.

(** ** The external flush driver *)

Record xf_cfg := XfCfg { xf_period : Z; xfpg_base : Z; xfpg_n : Z; xfpg_drop : bool }.
Record xf_in := XfIn { ext_flush_stat : Z; ext_flush_cycles : Z }.
(** The ports it drives; [go] carries [ext_pg_drop]. *)
Record xf_out := XfOut { flush_ctl : bool; pg_push : option Z; pg_go : option bool }.
Record xf_st := XfSt {
  xf_k : Z; xf_state : Z;
  xf_edges : Z; xf_done : Z; xf_sum : Z; xf_min : Z; xf_max : Z; xf_busy_since : Z; xf_prev_cnt : Z }.
Definition xf_init : xf_st := XfSt 0 0 0 0 0 (2 ^ 64 - 1) 0 0 0.

Definition on_period (k : xf_cfg) (cyc : Z) : bool := (0 <? cyc) && (cyc mod xf_period k =? 0).
(** The request part: one flush edge, or one step of the page list. *)
Definition xf_request (k : xf_cfg) (cyc : Z) (busy : bool) (kk st edges : Z) : Z * Z * Z * xf_out :=
  if xfpg_n k =? 0 then
    let ctl := on_period k cyc in (kk, st, if ctl then edges + 1 else edges, XfOut ctl None None)
  else
    let '(kk, st, edges) :=
      if (st =? 0) && on_period k cyc && negb busy then (0, 1, edges + 1) else (kk, st, edges) in
    if st =? 1 then
      let push := u32 (xfpg_base k + kk) in
      let kk := kk + 1 in
      (kk, if kk =? xfpg_n k then 2 else st, edges, XfOut false (Some push) None)
    else if st =? 2 then (kk, 0, edges, XfOut false None (Some (xfpg_drop k)))
    else (kk, st, edges, XfOut false None None).
Definition xf_cycle (k : xf_cfg) (cyc : Z) (i : xf_in) (s : xf_st) : xf_st * xf_out :=
  if xf_period k =? 0 then (s, XfOut false None None)
  else
    let cnt := ext_flush_stat i .>> 16 in
    let busy := negb (ext_flush_stat i .& 1 =? 0) in
    let '(kk, st, edges, out) := xf_request k cyc busy (xf_k s) (xf_state s) (xf_edges s) in
    let since := if busy && (xf_busy_since s =? 0) then cyc else xf_busy_since s in
    if negb (cnt =? xf_prev_cnt s) then
      let c := ext_flush_cycles i .& 0x7fffffff in
      (XfSt kk st edges (xf_done s + 1) (u64 (xf_sum s + c)) (Z.min (xf_min s) c) (Z.max (xf_max s) c) 0 cnt, out)
    else (XfSt kk st edges (xf_done s) (xf_sum s) (xf_min s) (xf_max s) since (xf_prev_cnt s), out).
Fixpoint xf_run (k : xf_cfg) (cyc : Z) (ins : list xf_in) (s : xf_st) : xf_st * list xf_out :=
  match ins with
  | [] => (s, [])
  | i :: t =>
      let '(s, o) := xf_cycle k cyc i s in
      let '(s, os) := xf_run k (cyc + 1) t s in (s, o :: os)
  end.
(** The min, average and max of the final report. *)
Definition xf_report (s : xf_st) : Z * Z * Z :=
  (if xf_done s =? 0 then 0 else xf_min s, if xf_done s =? 0 then 0 else xf_sum s / xf_done s, xf_max s).

(** ** BADVA_PROBE *)

Definition rdi (g_mem : mem) (va : Z) : option Z :=
  if (0x80000000 <=? va) && (va <? 0xc0000000) then
    let '(o, bad) := fpga_map (va .& 0x1fffffff) in if bad then None else Some (be32 g_mem o)
  else None.
Definition opcode (insn : Z) : Z := insn .>> 26.
Definition is_br (insn : Z) : bool :=
  let op := opcode insn in
  ((op =? 0) && ((insn .& 0x3f =? 8) || (insn .& 0x3f =? 9))) || (op =? 1) ||
  ((2 <=? op) && (op <=? 7)) || ((0x14 <=? op) && (op <=? 0x17)).
Definition is_mem (insn : Z) : bool :=
  let op := opcode insn in
  ((0x20 <=? op) && (op <=? 0x2e)) || (op =? 0x30) || (op =? 0x31) || (op =? 0x34) || (op =? 0x35) ||
  (op =? 0x37) || (op =? 0x38) || (op =? 0x39) || (op =? 0x3c) || (op =? 0x3d) || (op =? 0x3f).
Definition fault_insn (g_mem : mem) (epc : Z) : option (Z * Z) :=
  match rdi g_mem epc with
  | None => None
  | Some insn =>
      if is_br insn then
        match rdi g_mem (epc +32 4) with Some d => Some (d, epc +32 4) | None => Some (insn, epc) end
      else Some (insn, epc)
  end.
Definition ea_of (g_rf : list Z) (insn : Z) : Z :=
  u64 (nth (Z.to_nat ((insn .>> 21) .& 31)) g_rf 0 + s16 (insn .& 0xffff)).
(** A report is (fault pc, instruction, EA, BadVAddr). *)
Definition badva_probe (g_mem : mem) (g_rf : list Z) (cause epc badv : Z) (prev_key : Z) : Z * option (Z * Z * Z * Z) :=
  let key := u64 (epc .<< 6) .^ u32 cause .^ u64 (badv .<< 20) in
  if ((u32 cause =? 2) || (u32 cause =? 3)) && negb (key =? prev_key) then
    (key,
     match fault_insn g_mem (u32 epc) with
     | Some (insn, fpc) =>
         if is_mem insn && negb (Z.ldiff (ea_of g_rf insn) 0x1fff =? Z.ldiff badv 0x1fff)
         then Some (fpc, insn, ea_of g_rf insn, badv) else None
     | None => None
     end)
  else (prev_key, None).

(** ** Line lifecycle: the record is the history *)

Inductive l1d_ev :=
  | Fill (cyc pc pa lo hi : Z)
  | CacheOp (cyc pc pa inval : Z).
Definition stamp (e : l1d_ev) : Z := match e with Fill c _ _ _ _ => c | CacheOp c _ _ _ => c end.
Definition l1d_step (ls : lines) (e : l1d_ev) : lines :=
  match e with
  | Fill c pc pa lo hi => l1d_fill c pc pa lo hi ls
  | CacheOp c pc pa inval => l1d_cacheop c pc pa inval ls
  end.
Definition l1d_run (evs : list l1d_ev) : lines := fold_left l1d_step evs ∅.
Definition fills (line : Z) (e : l1d_ev) : bool :=
  match e with Fill _ _ pa _ _ => line_of pa =? line | CacheOp _ _ _ _ => false end.
Definition invalidates (line : Z) (e : l1d_ev) : bool :=
  match e with Fill _ _ _ _ _ => false | CacheOp _ _ pa inval => negb (inval =? 0) && (line_of pa =? line) end.
(** The newest event of a kind. *)
Definition newest (f : l1d_ev -> bool) (evs : list l1d_ev) : option l1d_ev := list.last (List.filter f evs).
Definition line_spec (line : Z) (evs : list l1d_ev) : linerec :=
  let '(fc, fp, lo, hi) := match newest (fills line) evs with
                           | Some (Fill c pc _ lo hi) => (c, u64 pc, lo, hi) | _ => (0, 0, 0, 0) end in
  let '(ic, ip) := match newest (invalidates line) evs with
                   | Some (CacheOp c pc _ _) => (c, u64 pc) | _ => (0, 0) end in
  LineRec fc fp ic ip lo hi.

Lemma newest_snoc f evs e : newest f (evs ++ [e]) = if f e then Some e else newest f evs.
Proof.
  unfold newest. rewrite List.filter_app. cbn [List.filter].
  destruct (f e); [apply last_snoc|by rewrite app_nil_r].
Qed.
Lemma line_ref_insert ls a r b : line_ref (<[a := r]> ls) b = if a =? b then r else line_ref ls b.
Proof.
  unfold line_ref. destruct (Z.eqb_spec a b) as [->|H]; [by rewrite lookup_insert_eq|by rewrite lookup_insert_ne].
Qed.
Lemma l1d_run_snoc evs e : l1d_run (evs ++ [e]) = l1d_step (l1d_run evs) e.
Proof. unfold l1d_run. by rewrite fold_left_app. Qed.
Lemma l1d_run_spec line evs : line_ref (l1d_run evs) line = line_spec line evs.
Proof.
  induction evs as [|e evs IH] using rev_ind; [reflexivity|].
  rewrite l1d_run_snoc. unfold line_spec. rewrite !newest_snoc.
  destruct e as [c pc pa lo hi|c pc pa inval]; cbn [l1d_step fills invalidates]; unfold l1d_fill, l1d_cacheop.
  - rewrite line_ref_insert. destruct (Z.eqb_spec (line_of pa) line) as [->|H]; [|exact IH].
    rewrite IH. unfold line_spec. repeat case_match; reflexivity.
  - destruct (inval =? 0); cbn [negb andb]; [exact IH|].
    rewrite line_ref_insert. destruct (Z.eqb_spec (line_of pa) line) as [->|H]; [|exact IH].
    rewrite IH. unfold line_spec. repeat case_match; reflexivity.
Qed.

(** One clock: stamps are non-negative and never run backwards. *)
Definition clocked (evs : list l1d_ev) : Prop :=
  Forall (fun e => 0 <= stamp e) evs /\
  forall i j a b, (i < j)%nat -> evs !! i = Some a -> evs !! j = Some b -> stamp a <= stamp b.
Lemma clocked_snoc evs e : clocked (evs ++ [e]) -> clocked evs /\ 0 <= stamp e /\ Forall (fun a => stamp a <= stamp e) evs.
Proof.
  intros [H1 H2]. apply Forall_app in H1 as [H1 He]. split_and!.
  - split; [done|]. intros i j a b Hij Ha Hb.
    by apply (H2 i j); [|rewrite (lookup_app_l_Some _ _ _ _ Ha)|rewrite (lookup_app_l_Some _ _ _ _ Hb)].
  - exact (Forall_inv He).
  - apply Forall_lookup. intros i a Ha. apply (H2 i (length evs)); [by eapply lookup_lt_Some| |].
    + by apply lookup_app_l_Some.
    + by rewrite lookup_app_r, Nat.sub_diag by lia.
Qed.
Lemma newest_in f evs e : newest f evs = Some e -> In e evs /\ f e = true.
Proof.
  intros H. apply last_Some_elem_of in H. by apply list_elem_of_In, List.filter_In in H.
Qed.
Lemma fill_cyc_bound line evs b :
  0 <= b -> Forall (fun a => stamp a <= b) evs -> fill_cyc (line_spec line evs) <= b.
Proof.
  intros Hb H. unfold line_spec.
  destruct (newest (fills line) evs) as [[c pc pa lo hi|]|] eqn:E;
    destruct (newest (invalidates line) evs) as [[|]|]; cbn [fill_cyc]; try done;
    apply newest_in in E as [E _]; rewrite Forall_forall in H; exact (H _ E).
Qed.

(** C39.  The record printed for a loaded address is its 32-byte line's history: the
    newest fill with its data and the newest invalidate.  When the stamps come from
    one clock, a record with [fill_cyc > inval_cyc] proves that the line was filled
    after its last invalidate, the "stale speculative refill" verdict. *)
Theorem line_history_sound (evs : list l1d_ev) (addr : Z) :
  let r := rd_history (l1d_run evs) addr in
  r = line_spec (line_of addr) evs /\
  (clocked evs -> inval_cyc r < fill_cyc r ->
   exists pre e post, evs = pre ++ e :: post /\ fills (line_of addr) e = true /\
     Forall (fun x => invalidates (line_of addr) x = false) post).
Proof.
  cbv zeta. unfold rd_history. rewrite l1d_run_spec. split; [reflexivity|].
  generalize (line_of addr) as line. intros line.
  induction evs as [|e evs IH] using rev_ind; [cbn; lia|]. intros Hc Hlt.
  apply clocked_snoc in Hc as (Hc & He & Hall). unfold line_spec in Hlt. rewrite !newest_snoc in Hlt.
  destruct (fills line e) eqn:Ef.
  { exists evs, e, []. split_and!; [done|done|constructor]. }
  destruct (invalidates line e) eqn:Ei.
  - exfalso. pose proof (fill_cyc_bound line evs (stamp e) He Hall) as Hb. unfold line_spec in Hb.
    destruct e as [|c pc pa inval]; [done|]. cbn [stamp] in *.
    repeat case_match; simplify_eq; cbn [fill_cyc inval_cyc] in *; lia.
  - destruct (IH Hc Hlt) as (pre & f & post & -> & Hf & Hp). exists pre, f, (post ++ [e]).
    split_and!; [by rewrite <- app_assoc|done|]. apply Forall_app. split; [done|by constructor].
Qed.

(** The record is kept per 32 bytes while the L1D line is 16 bytes: invalidating
    one half makes the other half, still resident and never invalidated, look as if
    it had been invalidated after its fill. *)
Theorem half_line_inval_misattributed :
  let r := rd_history (l1d_run [Fill 10 0x88000000 0x08001000 1 2; CacheOp 20 0x88000010 0x08001010 1]) 0x08001000 in
  (inval_cyc r, fill_cyc r) = (20, 10).
Proof. reflexivity. Qed.
Lemma line_history_sound_witness :
  let evs := [Fill 10 0x88000000 0x08001000 1 2; CacheOp 20 0x88000010 0x08001000 1; Fill 30 0x88000020 0x08001010 3 4] in
  clocked evs /\ inval_cyc (rd_history (l1d_run evs) 0x08001004) < fill_cyc (rd_history (l1d_run evs) 0x08001004) /\
  exists pre e post, evs = pre ++ e :: post /\ fills (line_of 0x08001004) e = true /\
     Forall (fun x => invalidates (line_of 0x08001004) x = false) post.
Proof.
  cbv zeta. set (evs := [_; _; _]).
  assert (Hc : clocked evs).
  { split; [repeat (apply Forall_cons_2; [cbn; lia|]); apply Forall_nil_2|].
    intros [|[|[|i]]] [|[|[|j]]] a b; cbn; intros; simplify_eq; cbn; lia. }
  assert (Hl : inval_cyc (rd_history (l1d_run evs) 0x08001004) < fill_cyc (rd_history (l1d_run evs) 0x08001004)) by (vm_compute; reflexivity).
  split_and!; [exact Hc|exact Hl|]. exact (proj2 (line_history_sound evs 0x08001004) Hc Hl).
Defined.

(** ** VAPALOG *)

Definition vapa_rec_ok (r : vapa_rec_t) : Prop :=
  is_u 64 (v_cyc r) /\ is_u 64 (v_pc r) /\ is_u 64 (v_va r) /\ is_u 64 (v_pa r) /\
  is_u 32 (v_is_store r) /\ is_u 32 (v_mapped r) /\ is_u 32 (v_hit r) /\ is_u 32 (v_tlb_hit r) /\ is_u 32 (v_tlb_valid r).
(** A reader of the log, 64 bytes at a time. *)
Definition vapa_parse (b : list Z) : vapa_rec_t :=
  let '(cyc, b) := rd 8 b in let '(pc, b) := rd 8 b in let '(va, b) := rd 8 b in let '(pa, b) := rd 8 b in
  let '(st, b) := rd 4 b in let '(mp, b) := rd 4 b in let '(ht, b) := rd 4 b in let '(th, b) := rd 4 b in
  let '(tv, b) := rd 4 b in VapaRec cyc pc va pa st mp ht th tv.
(** The calls that reach the file: at or after VAPA_FROM_CYC, the first VAPA_MAX. *)
Definition vapa_kept (k : vapa_cfg) (rs : list vapa_rec_t) : list vapa_rec_t :=
  if vapa_opens k then take (Z.to_nat (vapa_max k)) (List.filter (fun r => vapa_from k <=? v_cyc r) rs) else [].

Lemma length_vapa_bytes r : length (vapa_bytes r) = 64%nat.
Proof. unfold vapa_bytes. by rewrite !length_app, !length_le_bytes. Qed.
Lemma vapa_parse_bytes r : vapa_rec_ok r -> vapa_parse (vapa_bytes r) = r.
Proof.
  intros (H1 & H2 & H3 & H4 & H5 & H6 & H7 & H8 & H9). unfold vapa_parse, vapa_bytes.
  rewrite !rd8, !rd4 by done. by destruct r.
Qed.
Lemma take_snoc_filter (k : vapa_cfg) rs r :
  vapa_kept k (rs ++ [r]) =
  if vapa_opens k && (vapa_from k <=? v_cyc r) && (Z.of_nat (length (vapa_kept k rs)) <? vapa_max k)
  then vapa_kept k rs ++ [r] else vapa_kept k rs.
Proof.
  unfold vapa_kept. destruct (vapa_opens k); [|done]. rewrite List.filter_app. cbn [List.filter andb].
  set (l := List.filter _ rs). destruct (vapa_from k <=? v_cyc r); [|by rewrite app_nil_r]. cbn [andb].
  rewrite length_take. destruct (Z.ltb_spec (Z.of_nat (Z.to_nat (vapa_max k) `min` length l)) (vapa_max k)).
  - rewrite take_app_ge, (take_ge l) by lia. f_equal. rewrite take_ge; [done|cbn; lia].
  - rewrite take_app_le by lia. done.
Qed.
Lemma vapa_run_spec k rs :
  fold_left (fun s r => vapa_log k r s) rs ([], 0)
  = (concat (map vapa_bytes (vapa_kept k rs)), Z.of_nat (length (vapa_kept k rs))).
Proof.
  induction rs as [|r rs IH] using rev_ind.
  - unfold vapa_kept. destruct (vapa_opens k); cbn [List.filter]; rewrite ?take_nil; done.
  - rewrite fold_left_app. cbn [fold_left]. rewrite IH, take_snoc_filter. unfold vapa_log. cbn [fst snd].
    rewrite Z.ltb_antisym, (Z.ltb_antisym (vapa_max k)).
    destruct (vapa_from k <=? v_cyc r), (vapa_max k <=? _), (vapa_opens k); cbn [negb orb andb]; try done.
    rewrite map_app, concat_app, length_app. cbn [map concat length]. rewrite app_nil_r. f_equal. lia.
Qed.

(** Whatever the core reports, reading the VAPALOG file back 64 bytes at a
    time yields, in order, the first VAPA_MAX accesses at or after VAPA_FROM_CYC
    with every field intact; nothing is written when the file cannot be opened. *)
Theorem vapa_log_decodes (k : vapa_cfg) (rs : list vapa_rec_t) :
  Forall vapa_rec_ok rs ->
  let '(file, n) := fold_left (fun s r => vapa_log k r s) rs ([], 0) in
  read_recs 64 vapa_parse (Z.to_nat n) file = vapa_kept k rs /\ Z.of_nat (length file) = 64 * n.
Proof.
  intros H. rewrite vapa_run_spec, Nat2Z.id. split; [|rewrite (length_recs 64) by apply length_vapa_bytes; lia].
  rewrite <- (app_nil_r (concat _)). apply read_recs_app; [apply length_vapa_bytes|].
  apply List.Forall_forall. intros r Hr. apply vapa_parse_bytes. rewrite List.Forall_forall in H. apply H.
  unfold vapa_kept in Hr. destruct (vapa_opens k); [|done].
  apply list_elem_of_In, elem_of_take in Hr as (i & Hi & _). apply list_elem_of_lookup_2, list_elem_of_In, List.filter_In in Hi. tauto.
Qed.
Definition vapa_sample (c : Z) : vapa_rec_t := VapaRec c 0x88000000 0x10000 0x08010000 1 1 0 1 1.
Lemma vapa_log_decodes_witness :
  read_recs 64 vapa_parse 2 (fst (fold_left (fun s r => vapa_log (VapaCfg 5 2 true) r s) (map vapa_sample [3; 7; 4; 9; 11]) ([], 0)))
  = map vapa_sample [7; 9].
Proof.
  pose proof (vapa_log_decodes (VapaCfg 5 2 true) (map vapa_sample [3; 7; 4; 9; 11])
    ltac:(repeat (apply Forall_cons_2; [vm_compute; intuition discriminate|]); apply Forall_nil_2)) as H.
  destruct (fold_left _ _ _) as [file n] eqn:E. assert (n = 2) as -> by (apply (f_equal snd) in E; vm_compute in E; congruence).
  exact (proj1 H).
Defined.

(** ** STTRACE *)

Definition fsm_ok (x : fsm) : Prop :=
  is_u 8 (core_state x) /\ is_u 8 (l1i_state x) /\ is_u 8 (l1d_state x) /\ is_u 8 (l2_state x) /\ is_u 8 (l2_rsp_state x).
(** The packed key is a positional code. *)
Lemma st_key_sum x : fsm_ok x ->
  st_key x = core_state x * 2 ^ 32 + l1i_state x * 2 ^ 24 + l1d_state x * 2 ^ 16 + l2_state x * 2 ^ 8 + l2_rsp_state x.
Proof.
  unfold fsm_ok, is_u. intros (H1 & H2 & H3 & H4 & H5). unfold st_key.
  change 32 with (24 + 8) at 1. change 24 with (16 + 8) at 1 2. change 16 with (8 + 8) at 1 2 3.
  rewrite <- !Z.shiftl_shiftl by lia. rewrite <- !Z.shiftl_lor.
  rewrite !(lor_shiftl_add _ _ 8) by lia. lia.
Qed.
Lemma st_key_inj x y : fsm_ok x -> fsm_ok y -> st_key x = st_key y -> x = y.
Proof.
  intros Hx Hy. rewrite !st_key_sum by done. destruct x as [a b c d e], y as [a' b' c' d' e'].
  unfold fsm_ok, is_u in *. cbn [core_state l1i_state l1d_state l2_state l2_rsp_state] in *. intros H. f_equal; lia.
Qed.
Fixpoint st_run (st_a st_b cyc : Z) (xs : list fsm) (s : Z * list (Z * fsm)) : Z * list (Z * fsm) :=
  match xs with [] => s | x :: t => st_run st_a st_b (cyc + 1) t (st_cycle st_a st_b cyc x s) end.
Definition st_init : Z * list (Z * fsm) := (2 ^ 64 - 1, []).
Definition st_inv (s : Z * list (Z * fsm)) : Prop :=
  s = st_init \/ exists c x, list.last (snd s) = Some (c, x) /\ fst s = st_key x /\ fsm_ok x.
Lemma st_cycle_inv a b cyc x s : fsm_ok x -> st_inv s ->
  st_inv (st_cycle a b cyc x s) /\
  (b <> 0 -> a <= cyc <= b -> exists c, list.last (snd (st_cycle a b cyc x s)) = Some (c, x)).
Proof.
  intros Hx Hs. unfold st_cycle. destruct (negb (b =? 0) && (a <=? cyc) && (cyc <=? b)) eqn:E.
  - destruct (Z.eqb_spec (st_key x) (fst s)) as [Hk|Hk]; cbn [negb].
    + split; [done|]. intros _ _. destruct Hs as [->|(c & y & Hl & Hy & Hok)].
      * exfalso. cbn [fst st_init] in Hk. rewrite st_key_sum in Hk by done. unfold fsm_ok, is_u in Hx. lia.
      * rewrite Hy in Hk. apply st_key_inj in Hk as ->; [|done..]. by exists c.
    + split; [right|intros _ _]; exists cyc; [exists x|]; cbn [fst snd]; rewrite last_snoc; done.
  - split; [done|]. intros Hb Hw. exfalso. apply andb_false_iff in E as [E|E]; [apply andb_false_iff in E as [E|E]|];
      try apply negb_false_iff in E; lia.
Qed.
Lemma st_run_app a b xs : forall cyc ys s,
  st_run a b cyc (xs ++ ys) s = st_run a b (cyc + Z.of_nat (length xs)) ys (st_run a b cyc xs s).
Proof.
  induction xs as [|x xs IH]; intros cyc ys s; cbn [app st_run length]; [by rewrite Z.add_0_r|].
  rewrite IH. f_equal. lia.
Qed.
Lemma st_run_inv a b xs : forall cyc s, Forall fsm_ok xs -> st_inv s -> st_inv (st_run a b cyc xs s).
Proof.
  induction xs as [|x xs IH]; intros cyc s H Hs; cbn [st_run]; [done|].
  apply IH; [exact (Forall_inv_tail H)|]. by apply st_cycle_inv; [exact (Forall_inv H)|].
Qed.

(** Printing only the changes loses nothing: at every cycle of the STTRACE
    window the newest line printed so far shows exactly the current states of all
    five machines. *)
Theorem sttrace_reconstructs (a b cyc : Z) (xs : list fsm) (x : fsm) :
  Forall fsm_ok (xs ++ [x]) -> b <> 0 -> a <= cyc + Z.of_nat (length xs) <= b ->
  exists c, list.last (snd (st_run a b cyc (xs ++ [x]) st_init)) = Some (c, x).
Proof.
  intros H Hb Hw. apply Forall_app in H as [H Hx]. rewrite st_run_app. cbn [st_run].
  apply st_cycle_inv; [exact (Forall_inv Hx)|apply st_run_inv; [done|by left]|done|done].
Qed.
Lemma sttrace_reconstructs_witness :
  exists c, list.last (snd (st_run 1 9 0 ([Fsm 1 2 3 4 5; Fsm 1 2 3 4 5] ++ [Fsm 1 2 3 4 6]) st_init)) = Some (c, Fsm 1 2 3 4 6).
Proof.
  apply (sttrace_reconstructs 1 9 0); [|lia|vm_compute; intuition discriminate].
  repeat (apply Forall_cons_2; [vm_compute; intuition discriminate|]). apply Forall_nil_2.
Defined.

(** ** The external flush driver *)

Section FlushDriver.
Variable k : xf_cfg.
Hypothesis period_pos : xf_period k <> 0.
Hypothesis list_mode : 1 <= xfpg_n k.

(** The page list of a request, and the list the device has collected so far. *)
Definition page_list : list Z := map (fun j => u32 (xfpg_base k + Z.of_nat j)) (seq 0 (Z.to_nat (xfpg_n k))).
Definition device_step (d : list (list Z) * list Z) (o : xf_out) : list (list Z) * list Z :=
  let pend := match pg_push o with Some p => snd d ++ [p] | None => snd d end in
  match pg_go o with Some _ => (fst d ++ [pend], []) | None => (fst d, pend) end.
Definition device_run (os : list xf_out) : list (list Z) * list Z := fold_left device_step os ([], []).

Lemma length_page_list : length page_list = Z.to_nat (xfpg_n k).
Proof. unfold page_list. by rewrite length_map, length_seq. Qed.
Lemma page_list_next j : 0 <= j < xfpg_n k ->
  take (S (Z.to_nat j)) page_list = take (Z.to_nat j) page_list ++ [u32 (xfpg_base k + j)].
Proof.
  intros H. apply take_S_r. unfold page_list. rewrite list_lookup_fmap, lookup_seq_lt by lia. cbn. do 2 f_equal. lia.
Qed.
Definition xf_inv (s : xf_st) (d : list (list Z) * list Z) : Prop :=
  Forall (fun b => b = page_list) (fst d) /\
  xf_edges s = Z.of_nat (length (fst d)) + (if xf_state s =? 0 then 0 else 1) /\
  ((xf_state s = 0 /\ snd d = []) \/
   (xf_state s = 1 /\ 0 < xf_k s < xfpg_n k /\ snd d = take (Z.to_nat (xf_k s)) page_list) \/
   (xf_state s = 2 /\ snd d = page_list)).

(** One push, from a list of which [kk] pages are out. *)
Lemma push_step kk edges d :
  0 <= kk < xfpg_n k -> snd d = take (Z.to_nat kk) page_list -> Forall (fun b => b = page_list) (fst d) ->
  edges = Z.of_nat (length (fst d)) + 1 ->
  forall sum mn mx bs pc dn,
  xf_inv (XfSt (kk + 1) (if kk + 1 =? xfpg_n k then 2 else 1) edges dn sum mn mx bs pc)
    (device_step d (XfOut false (Some (u32 (xfpg_base k + kk))) None)).
Proof.
  intros Hk Hd Hf -> sum mn mx bs pc dn. unfold xf_inv, device_step. cbn [pg_push pg_go fst snd xf_edges xf_state xf_k].
  rewrite Hd, <- page_list_next by done.
  replace (S (Z.to_nat kk)) with (Z.to_nat (kk + 1)) by lia.
  destruct (Z.eqb_spec (kk + 1) (xfpg_n k)) as [E|E]; cbn [Z.eqb].
  - split_and!; [done|done|]. right. right. split; [done|]. rewrite take_ge; [done|]. rewrite length_page_list. lia.
  - split_and!; [done|done|]. right. left. split_and!; [done|lia|lia|done].
Qed.
Lemma xf_cycle_inv cyc i s d :
  xf_inv s d -> let '(s', o) := xf_cycle k cyc i s in xf_inv s' (device_step d o).
Proof.
  intros (Hf & He & Hs). unfold xf_cycle. replace (xf_period k =? 0) with false by (symmetry; by apply Z.eqb_neq).
  cbv zeta. unfold xf_request. replace (xfpg_n k =? 0) with false by (symmetry; apply Z.eqb_neq; lia).
  destruct Hs as [[Hst Hp]|[(Hst & Hk & Hp)|[Hst Hp]]]; rewrite Hst in *; cbn [Z.eqb andb] in *.
  - destruct (on_period k cyc && negb (negb (ext_flush_stat i .& 1 =? 0))); cbn [Z.eqb].
    + pose proof (push_step 0 (xf_edges s + 1) d ltac:(lia)) as P. rewrite Hp in P. specialize (P eq_refl Hf ltac:(lia)).
      destruct (negb _); apply P.
    + assert (forall s', xf_state s' = 0 -> xf_edges s' = xf_edges s -> xf_inv s' (device_step d (XfOut false None None))) as G.
      { intros s' H1 H2. unfold xf_inv, device_step. cbn [pg_push pg_go fst snd]. rewrite H1, H2, He. cbn [Z.eqb].
        split_and!; [done|done|by left]. }
      destruct (negb _); apply G; done.
  - pose proof (push_step (xf_k s) (xf_edges s) d ltac:(lia) Hp Hf He) as P. destruct (negb _); apply P.
  - assert (forall s', xf_state s' = 0 -> xf_edges s' = xf_edges s ->
      xf_inv s' (device_step d (XfOut false None (Some (xfpg_drop k))))) as G.
    { intros s' H1 H2. unfold xf_inv, device_step. cbn [pg_push pg_go fst snd]. rewrite H1, H2, He, Hp, length_app. cbn [Z.eqb length].
      split_and!; [apply Forall_app_2; [done|by constructor]|lia|by left]. }
    destruct (negb _); apply G; done.
Qed.
Definition push_out (j : nat) : xf_out := XfOut false (Some (u32 (xfpg_base k + Z.of_nat j))) None.
(** With [m] pages of the list left, [m + 1] cycles finish it, whatever the device reports. *)
Lemma burst_rest m : forall ins cyc s,
  xf_state s = (if (m =? 0)%nat then 2 else 1) -> xf_k s = xfpg_n k - Z.of_nat m -> (m <= Z.to_nat (xfpg_n k))%nat ->
  length ins = S m ->
  snd (xf_run k cyc ins s)
  = map push_out (seq (Z.to_nat (xfpg_n k) - m) m) ++ [XfOut false None (Some (xfpg_drop k))].
Proof.
  induction m as [|m IH]; intros [|i ins] cyc s Hst Hk Hm Hl; try done; cbn [length] in Hl; cbn [xf_run Nat.eqb] in *;
    unfold xf_cycle; (replace (xf_period k =? 0) with false by (symmetry; by apply Z.eqb_neq)); cbv zeta; unfold xf_request;
    (replace (xfpg_n k =? 0) with false by (symmetry; apply Z.eqb_neq; lia)); rewrite Hst; cbn [Z.eqb andb Pos.eqb].
  - destruct ins; [|done]. destruct (negb _); reflexivity.
  - assert (E : xf_k s = Z.of_nat (Z.to_nat (xfpg_n k) - S m)) by lia.
    assert (En : (xf_k s + 1 =? xfpg_n k) = (m =? 0)%nat) by (destruct (Z.eqb_spec (xf_k s + 1) (xfpg_n k)), (Nat.eqb_spec m 0); lia).
    rewrite En. cbn [seq map app]. replace (S (Z.to_nat (xfpg_n k) - S m)) with (Z.to_nat (xfpg_n k) - m)%nat by lia.
    match goal with |- context [if ?b then (?x, ?o) else (?y, ?o)] => destruct b end;
    match goal with |- context [xf_run k ?c ins ?s'] =>
      specialize (IH ins c s' ltac:(cbn [xf_state]; done) ltac:(cbn [xf_k]; lia) ltac:(lia) ltac:(lia));
      destruct (xf_run k c ins s') as [s2 os] end; cbn [snd] in *; rewrite IH; cbn [app]; unfold push_out; by rewrite E.
Qed.
Lemma xf_run_inv ins : forall cyc s d, xf_inv s d ->
  xf_inv (fst (xf_run k cyc ins s)) (fold_left device_step (snd (xf_run k cyc ins s)) d).
Proof.
  induction ins as [|i ins IH]; intros cyc s d H; cbn [xf_run]; [done|].
  pose proof (xf_cycle_inv cyc i s d H) as H'. destruct (xf_cycle k cyc i s) as [s1 o].
  specialize (IH (cyc + 1) s1 _ H'). destruct (xf_run k (cyc + 1) ins s1) as [s2 os]. exact IH.
Qed.
End FlushDriver.

(** With --xfpages, whatever the device reports, every [go] the driver issues
    closes exactly the configured page list, in order and with nothing pushed twice
    or left over from an earlier list; an unfinished list is a prefix of it, and the
    reported request count is the number of lists begun. *)
Theorem flush_lists_whole (k : xf_cfg) (cyc : Z) (ins : list xf_in) :
  xf_period k <> 0 -> 1 <= xfpg_n k ->
  let '(s, os) := xf_run k cyc ins xf_init in
  let '(walked, pend) := device_run os in
  Forall (fun b => b = page_list k) walked /\ pend = take (length pend) (page_list k) /\
  xf_edges s = Z.of_nat (length walked) + (if xf_state s =? 0 then 0 else 1).
Proof.
  intros Hp Hn. pose proof (xf_run_inv k Hp Hn ins cyc xf_init ([], [])
    ltac:(split_and!; [apply Forall_nil_2|reflexivity|by left])) as (H1 & H2 & H3).
  destruct (xf_run k cyc ins xf_init) as [s os]. cbn [fst snd] in *. unfold device_run.
  destruct (fold_left device_step os ([], [])) as [walked pend]. cbn [fst snd] in *. split_and!; [done| |done].
  destruct H3 as [[_ ->]|[(_ & Hk & ->)|[_ ->]]]; [done| |by rewrite firstn_all].
  rewrite length_take. f_equal. pose proof (length_page_list k). lia.
Qed.
Lemma flush_lists_whole_witness :
  let '(s, os) := xf_run (XfCfg 4 0x8000 2 true) 0 (repeat (XfIn 0 0) 12) xf_init in
  let '(walked, pend) := device_run os in
  walked = [[0x8000; 0x8001]; [0x8000; 0x8001]] /\ Forall (fun b => b = page_list (XfCfg 4 0x8000 2 true)) walked.
Proof.
  pose proof (flush_lists_whole (XfCfg 4 0x8000 2 true) 0 (repeat (XfIn 0 0) 12) ltac:(discriminate) ltac:(vm_compute; discriminate)) as H.
  assert (E : fst (device_run (snd (xf_run (XfCfg 4 0x8000 2 true) 0 (repeat (XfIn 0 0) 12) xf_init))) = [[0x8000; 0x8001]; [0x8000; 0x8001]])
    by (vm_compute; reflexivity).
  destruct (xf_run _ _ _ _) as [s os]. cbn [snd] in E. destruct (device_run os) as [walked pend]. cbn [fst] in E.
  split; [exact E|exact (proj1 H)].
Defined.

(** A request taken while the device is idle is carried out at once: the next [n]
    cycles push the [n] pages of the list, one per cycle, and the cycle after them
    issues [go], whatever the device reports meanwhile. *)
Theorem flush_list_completes (k : xf_cfg) (cyc : Z) (i : xf_in) (ins : list xf_in) (s : xf_st) :
  xf_period k <> 0 -> 1 <= xfpg_n k -> xf_state s = 0 -> on_period k cyc = true -> ext_flush_stat i .& 1 = 0 ->
  length ins = Z.to_nat (xfpg_n k) ->
  snd (xf_run k cyc (i :: ins) s)
  = map (push_out k) (seq 0 (Z.to_nat (xfpg_n k))) ++ [XfOut false None (Some (xfpg_drop k))].
Proof.
  intros Hp Hn Hst Hc Hb Hl.
  pose proof (burst_rest k Hp Hn (Z.to_nat (xfpg_n k)) (i :: ins) cyc
    (XfSt 0 1 (xf_edges s + 1) (xf_done s) (xf_sum s) (xf_min s) (xf_max s) (xf_busy_since s) (xf_prev_cnt s))) as H.
  rewrite Nat.sub_diag in H. rewrite <- H; try (cbn [xf_k xf_state length]; lia).
  - cbn [xf_run]. replace (xf_cycle k cyc i s) with (xf_cycle k cyc i (XfSt 0 1 (xf_edges s + 1) (xf_done s) (xf_sum s) (xf_min s) (xf_max s) (xf_busy_since s) (xf_prev_cnt s))); [done|].
    unfold xf_cycle, xf_request. cbn [xf_k xf_state xf_edges xf_done xf_sum xf_min xf_max xf_busy_since xf_prev_cnt].
    rewrite Hst, Hc, Hb. replace (xfpg_n k =? 0) with false by (symmetry; apply Z.eqb_neq; lia).
    replace (xf_period k =? 0) with false by (symmetry; by apply Z.eqb_neq). reflexivity.
  - cbn [xf_state]. destruct (Nat.eqb_spec (Z.to_nat (xfpg_n k)) 0); [lia|done].
Qed.
Lemma flush_list_completes_witness :
  snd (xf_run (XfCfg 4 0x8000 2 true) 8 [XfIn 0 0; XfIn 1 0; XfIn 1 0] xf_init)
  = [push_out (XfCfg 4 0x8000 2 true) 0; push_out (XfCfg 4 0x8000 2 true) 1; XfOut false None (Some true)].
Proof.
  exact (flush_list_completes (XfCfg 4 0x8000 2 true) 8 (XfIn 0 0) [XfIn 1 0; XfIn 1 0] xf_init
    ltac:(discriminate) ltac:(vm_compute; discriminate) eq_refl eq_refl eq_refl eq_refl).
Defined.

(** ** BADVA_PROBE *)

(** Jumps and branches with a delay slot, coprocessor branches apart. *)
Inductive delay_branch (w : Z) : Prop :=
  | JumpReg : opcode w = 0 -> w .& 0x3f = 8 \/ w .& 0x3f = 9 -> delay_branch w
  | JumpBranch : In (opcode w) [1; 2; 3; 4; 5; 6; 7; 0x14; 0x15; 0x16; 0x17] -> delay_branch w.
(** The load or store that faulted and its address: at EPC, or in the delay slot of
    the branch at EPC. *)
Inductive faulting (g_mem : mem) (epc : Z) : Z -> Z -> Prop :=
  | AtEpc insn : rdi g_mem epc = Some insn -> faulting g_mem epc epc insn
  | InSlot br insn : rdi g_mem epc = Some br -> delay_branch br -> rdi g_mem (epc +32 4) = Some insn ->
      faulting g_mem epc (epc +32 4) insn.
Definition effective_address (g_rf : list Z) (insn : Z) : Z :=
  (nth (Z.to_nat ((insn / 2 ^ 21) mod 32)) g_rf 0 + s16 (insn mod 2 ^ 16)) mod 2 ^ 64.

Lemma is_mem_not_br insn : is_mem insn = true -> is_br insn = false.
Proof.
  unfold is_mem, is_br. cbv zeta. generalize (opcode insn) as op. intros op H.
  repeat (apply orb_true_iff in H as [H|H]); bool_props;
    rewrite !orb_false_iff, !andb_false_iff; lia.
Qed.
Lemma delay_branch_is_br w : delay_branch w -> is_br w = true.
Proof.
  unfold is_br. cbv zeta. intros [H0 H|H].
  - rewrite H0. destruct H as [-> | ->]; reflexivity.
  - cbn [In] in H. repeat (destruct H as [<-|H]; [rewrite ?orb_true_r; reflexivity|]). done.
Qed.
Lemma fault_insn_spec g_mem epc fpc insn :
  faulting g_mem epc fpc insn -> is_mem insn = true -> fault_insn g_mem epc = Some (insn, fpc).
Proof.
  intros [w Hw|br w Hb Hd Hw] Hm; unfold fault_insn.
  - by rewrite Hw, is_mem_not_br.
  - by rewrite Hb, (delay_branch_is_br _ Hd), Hw.
Qed.
Lemma ea_of_spec g_rf insn : ea_of g_rf insn = effective_address g_rf insn.
Proof.
  unfold ea_of, effective_address, u64. change 0xffff with (2 ^ 16 - 1). rewrite land_ones_mod by lia.
  change 31 with (2 ^ 5 - 1). rewrite land_ones_mod, Z.shiftr_div_pow2 by lia. reflexivity.
Qed.
Lemma same_page a b : (Z.ldiff a 0x1fff =? Z.ldiff b 0x1fff) = bool_decide (a / 8192 = b / 8192).
Proof.
  change 0x1fff with (2 ^ 13 - 1). rewrite !ldiff_ones_align by lia. change (2 ^ 13) with 8192.
  pose proof (Z.div_mod a 8192). pose proof (Z.div_mod b 8192).
  destruct (Z.eqb_spec (a - a mod 8192) (b - b mod 8192)); case_bool_decide; lia.
Qed.

(** For a new TLB load or store fault whose faulting instruction the probe can
    read, at EPC or in the delay slot of a jump or branch there, it reports the
    fault exactly when base register plus offset and the hardware's BadVAddr lie on
    different 8 KB pages, and a fault that stays on the ports is reported once. *)
Theorem badva_probe_exact (g_mem : mem) (g_rf : list Z) (cause epc badv prev_key fpc insn : Z) :
  u32 cause = 2 \/ u32 cause = 3 ->
  u64 (epc .<< 6) .^ u32 cause .^ u64 (badv .<< 20) <> prev_key ->
  faulting g_mem (u32 epc) fpc insn -> is_mem insn = true ->
  let '(key, report) := badva_probe g_mem g_rf cause epc badv prev_key in
  (report = if bool_decide (effective_address g_rf insn / 8192 = badv / 8192) then None
            else Some (fpc, insn, effective_address g_rf insn, badv)) /\
  badva_probe g_mem g_rf cause epc badv key = (key, None).
Proof.
  intros Hc Hk Hf Hm. unfold badva_probe.
  replace ((u32 cause =? 2) || (u32 cause =? 3)) with true by (destruct Hc as [-> | ->]; reflexivity).
  apply Z.eqb_neq in Hk. rewrite Hk. cbn [andb negb]. rewrite Z.eqb_refl. cbn [andb negb].
  rewrite (fault_insn_spec _ _ _ _ Hf Hm), Hm, ea_of_spec, same_page. split; [|done].
  by case_bool_decide.
Qed.
(** jr ra with a load of 0(sp) in its delay slot, at 0x88001000. *)
Definition sample_fault : mem := put_be32 (put_be32 ∅ 0x08001000 0x03e00008) 0x08001004 0x8fa20000.
Definition sample_rf : list Z := repeat 0 29 ++ [0x7fff0000] ++ repeat 0 2.
Lemma badva_probe_exact_witness :
  snd (badva_probe sample_fault sample_rf 2 0x88001000 0x7fff0010 0) = None /\
  snd (badva_probe sample_fault sample_rf 2 0x88001000 0x7ffe0010 0) = Some (0x88001004, 0x8fa20000, 0x7fff0000, 0x7ffe0010).
Proof.
  assert (Hf : faulting sample_fault 0x88001000 0x88001004 0x8fa20000).
  { apply (InSlot sample_fault 0x88001000 0x03e00008 0x8fa20000); [vm_compute; reflexivity| |vm_compute; reflexivity].
    apply JumpReg; [reflexivity|left; reflexivity]. }
  pose proof (badva_probe_exact sample_fault sample_rf 2 0x88001000 0x7fff0010 0 _ _ ltac:(left; reflexivity) ltac:(vm_compute; discriminate) Hf eq_refl) as H1.
  pose proof (badva_probe_exact sample_fault sample_rf 2 0x88001000 0x7ffe0010 0 _ _ ltac:(left; reflexivity) ltac:(vm_compute; discriminate) Hf eq_refl) as H2.
  destruct (badva_probe _ _ _ _ 0x7fff0010 _) as [k1 r1]. destruct (badva_probe _ _ _ _ 0x7ffe0010 _) as [k2 r2].
  destruct H1 as [-> _], H2 as [-> _]. split; vm_compute; reflexivity.
Defined.

(** The delay-slot test knows no coprocessor branch: a fault in the slot of BC1T with
    a wrong BadVAddr goes unreported. *)
Theorem badva_blind_after_bc1 :
  let m := put_be32 (put_be32 ∅ 0x08001000 0x45010010) 0x08001004 0x8fa20000 in
  effective_address sample_rf 0x8fa20000 / 8192 <> 0x10000 / 8192 /\
  snd (badva_probe m sample_rf 2 0x88001000 0x10000 0) = None.
Proof. vm_compute. split; [discriminate|reflexivity]. Qed.
