(* ===== verification/Cosim.v ===== *)
(** * Cosim: one cycle of the run loop as far as it touches the golden model

    The parts that share the ISS, composed in the order of the main loop of
    sim/henry_tb.cpp: the DPI hooks that fire in the clock edge push committed
    stores and TLB writes, the checker block steps the ISS with the two
    retirements and drains the store queues, and bus servicing mirrors every RTL
    memory write into the ISS's memory.  The theorem relates a whole run to the
    model executing on its own. *)
From S2P Require Import Prelude AddressMap GuestMem MemBus Checkpoint StoreCheck TlbMirror Checker.

Section Cosim.
Context {R : Type}.
Variable execMips : iss R -> iss R * list store_rec.
Variable raise_int : iss R -> Z -> Z -> iss R.
Variable last_ld_va : iss R -> Z.
Variable apply_tlb_write : iss R -> pend_tlb_t -> iss R.
Variable no_mapskip : bool.
Variables gprchk gprchk_poison : Z.
Variable ck : option cp_header.
Variable sc_max : Z.
Variable no_sc_stop : bool.
Variable bc : cfg.

(** What the RTL shows the loop in one cycle. *)
Record cyc_in := CycIn {
  ci_stores : list store_rec;     (** [wr_log] calls of the clock edge *)
  ci_tlb : list pend_tlb_t;       (** queued by [tlb_wr_log] *)
  ci_rtl : rtl_cycle;             (** retirement and CP0 ports *)
  ci_host : mem -> mem;           (** what the device services write to DRAM before the bus is served *)
  ci_reqs : req * req }.          (** the two memory lanes *)
Record cosim := Cosim { w_cyc : Z; w_gate : gate; w_pend : list pend_tlb_t; w_chk : chk R; w_bus : bus }.

Definition set_mem (s : iss R) (m : mem) : iss R :=
  Iss (i_pc s) (i_hi s) (i_lo s) (i_gpr s) (i_cpr0 s) (i_cpr0_64 s) (i_cpr1 s) (i_fcr1 s) (i_tlb s) m (i_brk s) (i_priv s).
Definition bus_with_iss (host : mem -> mem) (b : bus) (m : option mem) : bus :=
  Bus (Mems (host (dram (b_mems b))) m) (b_memlat b) (b_lane0 b) (b_lane1 b) (b_rsp0 b) (b_rsp1 b) (b_halted b)
    (b_unaligned b) (b_lane1_ops b).
(** Bus servicing with the ISS's memory plugged in, and the ISS with the result;
    [host] is the staging the device services did earlier in the cycle. *)
Definition bus_cycle (cyc : Z) (host : mem -> mem) (rqs : req * req) (b : bus) (s : iss R) : bus * iss R :=
  let b := bus_step bc cyc rqs (bus_with_iss host b (Some (i_mem s))) in
  (b, match MemBus.iss (b_mems b) with Some m => set_mem s m | None => s end).

(** One iteration; [true] is the [break] of the store check. *)
Definition cosim_cycle (ci : cyc_in) (w : cosim) : cosim * bool :=
  let c := with_st (w_chk w) (foldl (fun st x => wr_log true x st) (c_st (w_chk w)) (ci_stores ci)) in
  let '(g, q, c, stop) :=
    checker_cycle execMips raise_int last_ld_va apply_tlb_write no_mapskip gprchk gprchk_poison ck sc_max no_sc_stop
      (ci_rtl ci) (w_gate w) (w_pend w ++ ci_tlb ci) c in
  if stop then (Cosim (w_cyc w) g q c (w_bus w), true)
  else
    let '(b, s) := bus_cycle (w_cyc w) (ci_host ci) (ci_reqs ci) (w_bus w) (c_ss c) in
    (Cosim (w_cyc w + 1) g q (with_ss c s) b, false).
Fixpoint cosim_run (cis : list cyc_in) (w : cosim) : cosim * bool :=
  match cis with
  | [] => (w, false)
  | ci :: t => let '(w, stop) := cosim_cycle ci w in if stop then (w, true) else cosim_run t w
  end.

(** ** The model on its own *)

(** The next instruction, or nothing for the delay slot already executed. *)
Definition model_retire (m : iss R * option Z) (r : option ret) : iss R * option Z * list store_rec :=
  match r with
  | None => (m, [])
  | Some r =>
      if bool_decide (snd m = Some (u32 (r_pc r))) then (fst m, None, [])
      else let '(s, st) := execMips (fst m) in (s, next_ds (fst m) s, st)
  end.
(** A retirement that agrees with the model. *)
Definition agrees (m : iss R * option Z) (r : option ret) : Prop :=
  match r with
  | None => True
  | Some r =>
      i_brk (fst m) = false /\ dest_ok (fst (fst (model_retire m (Some r)))) r /\
      (snd m = Some (u32 (r_pc r)) \/
       (u32 (i_pc (fst m)) = u32 (r_pc r) /\ executable no_mapskip (u32 (r_pc r)) = true))
  end.
(** The model's cycle: CP0 mirror, two retirements, the RTL's TLB and memory writes. *)
Definition model_cycle (ci : cyc_in) (cyc : Z) (m : iss R * option Z) (b : bus)
    : iss R * option Z * bus * (list store_rec * list store_rec) :=
  let t := ci_rtl ci in
  let '(m1, st1) := model_retire (mirror_cp0 t (fst m), snd m) (t_ret0 t) in
  let '(m2, st2) := model_retire m1 (t_ret1 t) in
  let '(b, s) := bus_cycle cyc (ci_host ci) (ci_reqs ci) b (fold_left apply_tlb_write (ci_tlb ci) (fst m2)) in
  (s, snd m2, b, (st1, st2)).
Definition cycle_agrees (ci : cyc_in) (m : iss R * option Z) : Prop :=
  let t := ci_rtl ci in
  let m0 := (mirror_cp0 t (fst m), snd m) in
  agrees m0 (t_ret0 t) /\ agrees (fst (model_retire m0 (t_ret0 t))) (t_ret1 t).
Fixpoint run_agrees (cis : list cyc_in) (cyc : Z) (m : iss R * option Z) (b : bus) : Prop :=
  match cis with
  | [] => True
  | ci :: t =>
      cycle_agrees ci m /\
      let '(s, ds, b, _) := model_cycle ci cyc m b in run_agrees t (cyc + 1) (s, ds) b
  end.
(** The model's final state, and the stores the checker had seen from it at the last
    drain, which runs between the two retirements of a cycle. *)
Fixpoint model_run (cis : list cyc_in) (cyc : Z) (m : iss R * option Z) (b : bus) : iss R * bus :=
  match cis with
  | [] => (fst m, b)
  | ci :: t => let '(s, ds, b, _) := model_cycle ci cyc m b in model_run t (cyc + 1) (s, ds) b
  end.
Fixpoint drained_stores (cis : list cyc_in) (cyc : Z) (m : iss R * option Z) (b : bus) : list store_rec :=
  match cis with
  | [] => []
  | ci :: t =>
      let '(s, ds, b, (st1, st2)) := model_cycle ci cyc m b in
      st1 ++ match t with [] => [] | _ => st2 ++ drained_stores t (cyc + 1) (s, ds) b end
  end.
End Cosim.

(** ** The loop follows the model *)

Section CosimLemmas.
Context {R : Type}.
Variable execMips : iss R -> iss R * list store_rec.
Variable raise_int : iss R -> Z -> Z -> iss R.
Variable last_ld_va : iss R -> Z.
Variable apply_tlb_write : iss R -> pend_tlb_t -> iss R.
Variable no_mapskip : bool.
Variables gprchk gprchk_poison : Z.
Variable ck : option cp_header.
Variable sc_max : Z.
Variable bc : cfg.
Abbreviation step_one := (step_opt execMips raise_int last_ld_va no_mapskip gprchk gprchk_poison).
Abbreviation cycle := (cosim_cycle execMips raise_int last_ld_va apply_tlb_write no_mapskip gprchk gprchk_poison ck sc_max false bc).
Abbreviation run := (cosim_run execMips raise_int last_ld_va apply_tlb_write no_mapskip gprchk gprchk_poison ck sc_max false bc).
Abbreviation mcycle := (model_cycle execMips apply_tlb_write bc).

(** The checker's state tracks the model state [m]. *)
Definition tracks (m : iss R * option Z) (c : chk R) : Prop := c_ss c = fst m /\ c_ds c = snd m.

Lemma step_opt_tracks x r m c :
  agrees execMips no_mapskip m r -> tracks m c ->
  let '(m', st) := model_retire execMips m r in
  tracks m' (step_one x r c) /\ alarms (c_k (step_one x r c)) = alarms (c_k c) /\
  c_st (step_one x r c) = foldl (fun st x => iss_store x st) (c_st c) st.
Proof.
  intros Ha [Hs Hd]. destruct m as [s0 d0]. cbn [fst snd] in Hs, Hd. subst s0 d0.
  destruct r as [r|]; cbn [step_opt]; [|by cbn [model_retire foldl]].
  cbn [agrees model_retire fst snd] in *. destruct Ha as (Hb & Hdest & Hor).
  case_bool_decide as Hds.
  - cbn [fst] in Hdest. rewrite faithful_step_slot by done. done.
  - destruct Hor as [|[Hpc He]]; [done|]. destruct (execMips (c_ss c)) as [s st] eqn:Hx. cbn [fst] in Hdest.
    destruct (faithful_step_insn execMips raise_int last_ld_va no_mapskip gprchk gprchk_poison x r c s) as (H1 & H2 & H3);
      try done; [by rewrite Hx|].
    rewrite (faithful_step_insn_st execMips) by (try done; by rewrite Hx). by rewrite Hx.
Qed.

(** The invariant between iterations: [I] and [W] are the two store streams so far. *)
Record cosim_inv (m : iss R * option Z) (I W : list store_rec) (w : cosim) : Prop := CosimInv {
  inv_gate : gate_active (w_gate w) = true;
  inv_pend : w_pend w = [];
  inv_tracks : tracks m (w_chk w);
  inv_live : store_diverged (c_st (w_chk w)) = false;
  inv_queues : exists k, sc_inv I W (c_st (w_chk w)) k }.

Lemma checker_cycle_active t g q c :
  gate_active g = true ->
  checker_cycle execMips raise_int last_ld_va apply_tlb_write no_mapskip gprchk gprchk_poison ck sc_max false t g q c =
  let c := step_one (cycle_ctx t) (t_ret0 t) (with_ss c (mirror_cp0 t (c_ss c))) in
  let '(st, _, stop) := store_check_cycle sc_max false (c_st c) in
  let c := with_st c st in
  if stop then (g, q, c, true)
  else (g, [], apply_pending apply_tlb_write (step_one (cycle_ctx t) (t_ret1 t) c) q, false).
Proof. intros H. unfold checker_cycle. rewrite H. cbn [negb andb]. rewrite H. reflexivity. Qed.
Lemma rtl_pushes_diverged st xs : store_diverged (foldl (fun st x => wr_log true x st) st xs) = store_diverged st.
Proof. revert st; induction xs as [|x xs IH]; intros st; [done|]. cbn. by rewrite IH. Qed.

Lemma cosim_cycle_sim ci m I W w s ds b st1 st2 :
  cosim_inv m I W w -> cycle_agrees execMips no_mapskip ci m ->
  mcycle ci (w_cyc w) m (w_bus w) = (s, ds, b, (st1, st2)) ->
  let '(w', stop) := cycle ci w in
  if stop then streams_disagree (I ++ st1) (W ++ ci_stores ci)
  else ~ streams_disagree (I ++ st1) (W ++ ci_stores ci) /\
    cosim_inv (s, ds) (I ++ st1 ++ st2) (W ++ ci_stores ci) w' /\
    w_cyc w' = w_cyc w + 1 /\ w_bus w' = b /\ alarms (c_k (w_chk w')) = alarms (c_k (w_chk w)).
Proof.
  intros [Hg Hq [Hs Hd] Hl [k Hi]] [Ha0 Ha1] Hm. unfold cosim_cycle. rewrite checker_cycle_active by done.
  set (c0 := with_ss _ _).
  unfold model_cycle in Hm. set (m0 := (mirror_cp0 (ci_rtl ci) (fst m), snd m)) in *.
  assert (T0 : tracks m0 c0) by (split; [unfold c0; cbn [with_ss with_st c_ss]; by rewrite Hs|exact Hd]).
  pose proof (step_opt_tracks (cycle_ctx (ci_rtl ci)) _ _ c0 Ha0 T0) as P0.
  destruct (model_retire execMips m0 (t_ret0 (ci_rtl ci))) as [m1 s1]. destruct P0 as (T1 & K1 & S1). cbn [fst] in Ha1.
  set (c1 := step_one _ _ c0) in *. cbv zeta.
  assert (Hi1 : sc_inv (I ++ s1) (W ++ ci_stores ci) (c_st c1) k).
  { rewrite S1. apply sc_inv_iss. unfold c0. cbn [c_st with_ss with_st]. by apply sc_inv_rtl. }
  assert (Hl1 : store_diverged (c_st c1) = false).
  { rewrite S1, foldl_iss_store_fronts. unfold c0. cbn [c_st with_ss with_st]. by rewrite rtl_pushes_diverged. }
  destruct (store_check_cycle sc_max false (c_st c1)) as [[st ev] stop] eqn:E.
  pose proof (sc_inv_drain _ _ _ _ _ _ _ _ Hi1 Hl1 E) as P.
  destruct (model_retire execMips m1 (t_ret1 (ci_rtl ci))) as [m2 s2] eqn:Em.
  destruct (bus_cycle bc _ _ _ _ _) as [b' s'] eqn:Eb in Hm. injection Hm as -> <- -> -> ->.
  destruct stop; [exact P|]. destruct P as (Hl2 & [k' Hi2] & Hno).
  pose proof (step_opt_tracks (cycle_ctx (ci_rtl ci)) _ _ (with_st c1 st) Ha1 T1) as P1. rewrite Em in P1.
  set (c2 := step_one _ _ (with_st c1 st)) in *. destruct P1 as ([Hs2 Hd2] & K2 & S2).
  rewrite Hq. cbn [app]. unfold apply_pending at 1 2. cbn [c_ss with_ss]. rewrite Hs2, Eb.
  split; [done|]. split_and!; try done.
  - split; cbn [w_gate w_pend w_chk]; try done; cbn [apply_pending with_ss c_st].
    + by rewrite S2, foldl_iss_store_fronts.
    + exists k'. rewrite S2, app_assoc. by apply sc_inv_iss.
  - cbn [w_chk apply_pending with_ss c_k]. rewrite K2. exact K1.
Qed.

Lemma cosim_run_sim cis : forall m I W w,
  cosim_inv m I W w -> run_agrees execMips apply_tlb_write no_mapskip bc cis (w_cyc w) m (w_bus w) ->
  let '(w', stopped) := run cis w in
  (stopped = false ->
     tracks (fst (model_run execMips apply_tlb_write bc cis (w_cyc w) m (w_bus w)), c_ds (w_chk w')) (w_chk w') /\
     w_bus w' = snd (model_run execMips apply_tlb_write bc cis (w_cyc w) m (w_bus w)) /\
     alarms (c_k (w_chk w')) = alarms (c_k (w_chk w))) /\
  (cis <> [] -> stopped = true <->
     streams_disagree (I ++ drained_stores execMips apply_tlb_write bc cis (w_cyc w) m (w_bus w)) (W ++ concat (map ci_stores cis))).
Proof.
  induction cis as [|ci cis IH]; intros m I W w Hinv Hag; cbn [cosim_run].
  { split; [|done]. intros _. cbn. split_and!; try done. split; [apply Hinv|done]. }
  cbn [run_agrees model_run drained_stores map concat] in *. destruct Hag as [Hc Hag].
  destruct (mcycle ci (w_cyc w) m (w_bus w)) as [[[s ds] b] [st1 st2]] eqn:Em.
  pose proof (cosim_cycle_sim _ _ _ _ _ _ _ _ _ _ Hinv Hc Em) as P.
  destruct (cycle ci w) as [w1 stop]. destruct stop.
  { split; [done|]. intros _. split; [intros _|done]. rewrite !app_assoc. by apply streams_disagree_app. }
  destruct P as (Hno & Hinv1 & Hcyc & Hbus & Hal). rewrite <- Hcyc, <- Hbus in Hag.
  specialize (IH (s, ds) _ _ w1 Hinv1 Hag). rewrite Hcyc, Hbus in IH.
  destruct (run cis w1) as [w2 stopped] eqn:Hrun. destruct IH as [IH1 IH2]. split.
  - intros Hst. destruct (IH1 Hst) as (H1 & H2 & H3). by rewrite H3.
  - intros _. destruct cis as [|ci' cis].
    + cbn [cosim_run map concat] in *. injection Hrun as <- <-. rewrite !app_nil_r. by split.
    + rewrite !app_assoc in *. by apply IH2.
Qed.
End CosimLemmas.

(** ** Properties *)

(** Lockstep co-simulation is exact.  Take any run in which every retirement
    is the model's own (next instruction or pending delay slot, and the model's
    value), the model receiving each cycle the RTL's CP0 mirror, TLB writes and
    memory writes.  The loop breaks iff the committed stores of the RTL and the
    model's stores disagree at a position both had reached at some drain; and a run
    that is not broken ends in the model's own state with no divergence,
    suppression, resync or drift counted. *)
Theorem cosim_exact {R} (execMips : iss R -> iss R * list store_rec) (raise_int : iss R -> Z -> Z -> iss R)
    (last_ld_va : iss R -> Z) (apply_tlb_write : iss R -> pend_tlb_t -> iss R) (no_mapskip : bool)
    (gprchk gprchk_poison : Z) (ck : option cp_header) (sc_max : Z) (bc : cfg) (cis : list cyc_in) (w : cosim) :
  gate_active (w_gate w) = true -> w_pend w = [] -> c_st (w_chk w) = sc_init ->
  let m := (c_ss (w_chk w), c_ds (w_chk w)) in
  run_agrees execMips apply_tlb_write no_mapskip bc cis (w_cyc w) m (w_bus w) ->
  let '(w', stopped) :=
    cosim_run execMips raise_int last_ld_va apply_tlb_write no_mapskip gprchk gprchk_poison ck sc_max false bc cis w in
  (stopped = true <->
     streams_disagree (drained_stores execMips apply_tlb_write bc cis (w_cyc w) m (w_bus w)) (concat (map ci_stores cis))) /\
  (stopped = false ->
     (c_ss (w_chk w'), w_bus w') = model_run execMips apply_tlb_write bc cis (w_cyc w) m (w_bus w) /\
     alarms (c_k (w_chk w')) = alarms (c_k (w_chk w))).
Proof.
  intros Hg Hq Hst m Hag.
  assert (Hinv : cosim_inv m [] [] w).
  { split; try done; rewrite Hst; [done|]. exists 0%nat. exact sc_inv_init. }
  pose proof (cosim_run_sim execMips raise_int last_ld_va apply_tlb_write no_mapskip gprchk gprchk_poison ck sc_max bc
    cis m [] [] w Hinv Hag) as H.
  destruct (cosim_run _ _ _ _ _ _ _ _ _ _ _ cis w) as [w' stopped] eqn:E. destruct H as [H1 H2]. split.
  - destruct cis as [|ci cis]; [|by apply H2]. cbn in E. injection E as <- <-. split; [done|]. by intros (k & i & r & ? & _).
  - intros Hs. destruct (H1 Hs) as ([Ht _] & Hb & Ha). split; [|done]. cbn [fst] in Ht. rewrite Ht, Hb.
    by destruct (model_run _ _ _ _ _ _ _).
Qed.

(** A model whose every instruction stores 7 at 0x100. *)
Definition storing_exec (s : iss unit) : iss unit * list store_rec :=
  (fst (toy_exec s), [StoreRec (i_pc s) 0x100 7]).
Definition no_tlb (s : iss unit) (_ : pend_tlb_t) : iss unit := s.
Definition idle_req : req := Req false 0 0 0 [].
Definition sample_cycle (pc data : Z) : cyc_in :=
  CycIn [StoreRec pc 0x100 data] [] (RtlCycle (Some (Ret pc true 2 7)) None 0 0 0 0 0) id (idle_req, idle_req).
Definition sample_cosim : cosim :=
  Cosim 0 (Gate true 0) [] (toy_chk 0x88000000) (bus_init (Mems ∅ None) 1).
Definition sample_bus_cfg : cfg := Cfg 3 3 false.
Abbreviation sample_run cis :=
  (cosim_run storing_exec toy_raise toy_ld no_tlb false 0 (-1) None 200 false sample_bus_cfg cis sample_cosim).
Lemma sample_agrees d0 d1 :
  run_agrees storing_exec no_tlb false sample_bus_cfg [sample_cycle 0x88000000 d0; sample_cycle 0x88000004 d1] (w_cyc sample_cosim)
    (c_ss (w_chk sample_cosim), c_ds (w_chk sample_cosim)) (w_bus sample_cosim).
Proof.
  cbn [run_agrees]. split.
  - split; [|exact I]. split; [reflexivity|]. split; [intros _ _; reflexivity|right; split; reflexivity].
  - match goal with |- context [model_cycle ?e ?t ?c ?ci ?n ?m ?b] =>
      let v := eval vm_compute in (model_cycle e t c ci n m b) in
      replace (model_cycle e t c ci n m b) with v by (vm_compute; reflexivity) end.
    split; [|exact I]. split; [|exact I].
    split; [reflexivity|]. split; [intros _ _; reflexivity|right; split; reflexivity].
Qed.
Lemma cosim_exact_witness :
  snd (sample_run [sample_cycle 0x88000000 7; sample_cycle 0x88000004 7]) = false /\
  snd (sample_run [sample_cycle 0x88000000 7; sample_cycle 0x88000004 8]) = true.
Proof.
  split.
  - pose proof (cosim_exact storing_exec toy_raise toy_ld no_tlb false 0 (-1) None 200 sample_bus_cfg
      [sample_cycle 0x88000000 7; sample_cycle 0x88000004 7] sample_cosim eq_refl eq_refl eq_refl (sample_agrees 7 7)) as H.
    destruct (sample_run _) as [w stopped]. destruct H as [H _]. cbn [snd]. destruct stopped; [|reflexivity].
    exfalso. destruct (proj1 H eq_refl) as ([|[|k]] & i & r & Hi & Hr & Hne); vm_compute in Hi, Hr; simplify_eq; by apply Hne.
  - pose proof (cosim_exact storing_exec toy_raise toy_ld no_tlb false 0 (-1) None 200 sample_bus_cfg
      [sample_cycle 0x88000000 7; sample_cycle 0x88000004 8] sample_cosim eq_refl eq_refl eq_refl (sample_agrees 7 8)) as H.
    destruct (sample_run _) as [w stopped]. destruct H as [H _]. apply H. exists 1%nat. eexists _, _.
    split; [vm_compute; reflexivity|]. split; [vm_compute; reflexivity|]. intros (_ & _ & H'). discriminate H'.
Defined.
