(* ===== verification/Verdict.v ===== *)
(** * Verdict: what a clean run of the checker says about the RTL

    [Cosim.cosim_exact] starts from an RTL that follows the model.  Here nothing
    is assumed of the RTL: the traces the checker lets pass without raising a
    counter are characterised by a step relation on the model, first for
    [checker_step] of sim/henry_tb.cpp alone, then for the composed cycle of the
    main loop. *)
From S2P Require Import Prelude AddressMap GuestMem MemBus Checkpoint StoreCheck TlbMirror Checker Cosim.

(** ** The traces the model can explain *)

Section Model.
Context {R : Type}.
Variable execMips : iss R -> iss R * list store_rec.
Variable raise_int : iss R -> Z -> Z -> iss R.
Variable no_mapskip : bool.

(** The model's state: the ISS and its pending delay slot. *)
Definition model : Type := iss R * option Z.

(** What a retirement in mapped space makes of the model: its PC and result are taken over. *)
Definition take_over (s : iss R) (r : ret) : iss R :=
  let s := set_pc s (r_pc r) in
  if r_rv r && negb (r_rp r =? 0) then set_gpr s (r_rp r) (r_rd r) else s.

(** One retirement explained by the model, with the stores the model made.  The
    RTL chooses when an interrupt is taken; everything else is the model's.  A model that
    has stopped ([brk]) stays as it is: the checker then checks nothing. *)
Inductive explains (x : exc_ctx) (r : ret) : model -> model -> list store_rec -> Prop :=
  | ex_dead s ds :
      i_brk s = true -> explains x r (s, ds) (s, ds) []
  | ex_slot s :
      i_brk s = false -> dest_ok s r -> explains x r (s, Some (u32 (r_pc r))) (s, None) []
  | ex_mapped s ds :
      i_brk s = false -> ds <> Some (u32 (r_pc r)) -> executable no_mapskip (u32 (r_pc r)) = false ->
      explains x r (s, ds) (take_over s r, None) []
  | ex_insn s ds s' st :
      i_brk s = false -> ds <> Some (u32 (r_pc r)) -> executable no_mapskip (u32 (r_pc r)) = true ->
      u32 (i_pc s) = u32 (r_pc r) ->
      execMips s = (s', st) -> dest_ok s' r -> explains x r (s, ds) (s', next_ds s s') st
  | ex_interrupt s ds s1 s' st :
      i_brk s = false -> ds <> Some (u32 (r_pc r)) -> executable no_mapskip (u32 (r_pc r)) = true ->
      u32 (i_pc s) <> u32 (r_pc r) -> async_entry x (u32 (r_pc r)) = true ->
      set_pc (raise_int s (x_epc x) (x_cause_ip x)) (r_pc r) = s1 ->
      execMips s1 = (s', st) -> dest_ok s' r -> explains x r (s, ds) (s', next_ds s1 s') st
  | ex_fault s ds s1 st1 s' st :
      i_brk s = false -> ds <> Some (u32 (r_pc r)) -> executable no_mapskip (u32 (r_pc r)) = true ->
      u32 (i_pc s) <> u32 (r_pc r) -> exc_entry (u32 (r_pc r)) = true -> async_entry x (u32 (r_pc r)) = false ->
      execMips s = (s1, st1) -> u32 (i_pc s1) = u32 (r_pc r) ->
      execMips s1 = (s', st) -> dest_ok s' r -> explains x r (s, ds) (s', next_ds s1 s') (st1 ++ st).

Inductive explained : list (exc_ctx * ret) -> model -> model -> list store_rec -> Prop :=
  | explained_nil m : explained [] m m []
  | explained_cons x r rs m m1 m2 st1 st2 :
      explains x r m m1 st1 -> explained rs m1 m2 st2 -> explained ((x, r) :: rs) m m2 (st1 ++ st2).
(** The same by a model that has not stopped before any of the retirements. *)
Inductive explained_running : list (exc_ctx * ret) -> model -> model -> list store_rec -> Prop :=
  | running_nil m : explained_running [] m m []
  | running_cons x r rs m m1 m2 st1 st2 :
      i_brk (fst m) = false -> explains x r m m1 st1 -> explained_running rs m1 m2 st2 ->
      explained_running ((x, r) :: rs) m m2 (st1 ++ st2).

Lemma explained_stopped xs m : i_brk (fst m) = true -> explained xs m m [].
Proof.
  intros Hb. induction xs as [|[x r] xs IH]; [constructor|]. destruct m as [s ds].
  change (@nil store_rec) with (@nil store_rec ++ []). by eapply explained_cons; [apply ex_dead|].
Qed.
Lemma stopped_stays xs m m' st : explained xs m m' st -> i_brk (fst m) = true -> m' = m /\ st = [].
Proof.
  induction 1 as [m|x r xs m m1 m2 st1 st2 He Hr IH]; intros Hb; [done|].
  inversion He; subst; cbn [fst] in *; try congruence. by destruct (IH Hb) as [-> ->].
Qed.
(** A run is explained up to the point where the model stops, if it does. *)
Lemma explained_split xs m m' st :
  explained xs m m' st <->
  exists pre post, xs = pre ++ post /\ explained_running pre m m' st /\ (post = [] \/ i_brk (fst m') = true).
Proof.
  split.
  - induction 1 as [m|x r xs m m1 m2 st1 st2 He Hr IH]; [by exists [], []; split_and!; [|constructor|left]|].
    destruct (i_brk (fst m)) eqn:Hb.
    + destruct (stopped_stays ((x, r) :: xs) m m2 (st1 ++ st2)) as [-> ->]; [by econstructor|done|].
      exists [], ((x, r) :: xs). split; [done|]. split; [constructor|by right].
    + destruct IH as (pre & post & -> & Hp & Hend). exists ((x, r) :: pre), post. split; [done|].
      split; [by econstructor|done].
  - intros (pre & post & -> & Hp & Hend). induction Hp as [m|x r pre m m1 m2 st1 st2 Hb He Hp IH].
    + destruct Hend as [->|Hend]; [constructor|by apply explained_stopped].
    + cbn [app]. econstructor; [done|]. by apply IH.
Qed.
End Model.

(** ** Alarm counters *)

Definition alarms_le (k k' : counters) : Prop :=
  k_diverge k <= k_diverge k' /\ k_copsupp k <= k_copsupp k' /\ k_resync k <= k_resync k' /\ k_kdrift k <= k_kdrift k'.
#[export] Instance alarms_le_preorder : PreOrder alarms_le.
Proof. split; [intros k|intros k k1 k2]; unfold alarms_le; lia. Qed.
Lemma alarms_squeeze k k1 k2 :
  alarms_le k k1 -> alarms_le k1 k2 -> alarms k2 = alarms k -> alarms k1 = alarms k /\ alarms k2 = alarms k1.
Proof. destruct k, k1, k2. unfold alarms_le, alarms. cbn. intros H1 H2 [=]. split; repeat f_equal; lia. Qed.
Lemma alarms_eq_le k k' : alarms k' = alarms k -> alarms_le k k'.
Proof. unfold alarms_le, alarms. intros [=]. lia. Qed.
Lemma alarms_up k k' : alarms_le k k' -> k_resync k < k_resync k' -> alarms k' <> alarms k.
Proof. unfold alarms. intros _ H [=]. lia. Qed.
Ltac le_alarms := unfold alarms_le; cbn; lia.

Section StepExact.
Context {R : Type}.
Variable execMips : iss R -> iss R * list store_rec.
Variable raise_int : iss R -> Z -> Z -> iss R.
Variable last_ld_va : iss R -> Z.
Variable no_mapskip : bool.
Variables gprchk gprchk_poison : Z.
Abbreviation step := (checker_step execMips raise_int last_ld_va no_mapskip gprchk gprchk_poison).
Abbreviation execute := (step_execute execMips gprchk gprchk_poison).
Abbreviation expl := (explains execMips raise_int no_mapskip).

(** The part of the checker's state the model has. *)
Definition view (c : chk R) : model := (c_ss c, c_ds c).
Definition pushed (st : sc_state) (xs : list store_rec) : sc_state := foldl (fun st x => iss_store x st) st xs.
(** [c'] is [c] moved to model state [m] by [st], alarms unmoved. *)
Definition moved (c : chk R) (m : model) (st : list store_rec) (c' : chk R) : Prop :=
  view c' = m /\ c_st c' = pushed (c_st c) st /\ alarms (c_k c') = alarms (c_k c).

Lemma chk_compare_le (r : ret) dl (c : chk R) : alarms_le (c_k c) (c_k (chk_compare r dl c)).
Proof. unfold chk_compare. repeat case_test; le_alarms. Qed.
Lemma chk_compare_quiet (r : ret) dl (c : chk R) :
  alarms (c_k (chk_compare r dl c)) = alarms (c_k c) -> dest_ok (c_ss c) r.
Proof.
  unfold chk_compare. intros H Hv Hp. rewrite Hv, (proj2 (Z.eqb_neq _ _) Hp) in H. cbn [negb orb] in H.
  destruct (Z.eqb_spec (gpr (c_ss c) (r_rp r)) (r_rd r)) as [|_]; [done|exfalso]. cbn [negb] in H.
  revert H. repeat case_test; cbn; unfold alarms; intros [=]; lia.
Qed.

Lemma exec_one_moved (c : chk R) s st :
  execMips (c_ss c) = (s, st) -> moved c (s, c_ds c) st (exec_one execMips c).
Proof. intros H. unfold exec_one, moved, view. by rewrite H. Qed.
Lemma run_gpr_check_moved (c : chk R) : moved c (view c) [] (run_gpr_check gprchk gprchk_poison c).
Proof. unfold moved, view. by rewrite run_gpr_check_ss, run_gpr_check_ds, run_gpr_check_k, run_gpr_check_st. Qed.

(** The executed path: the model's instruction, and an alarm exactly when its
    result is not the one reported. *)
Lemma step_execute_exact r c s st :
  execMips (c_ss c) = (s, st) -> c_ds c = None ->
  alarms_le (c_k c) (c_k (execute r c false)) /\
  (alarms (c_k (execute r c false)) = alarms (c_k c) <-> dest_ok s r) /\
  (dest_ok s r -> moved c (s, next_ds (c_ss c) s) st (execute r c false)).
Proof.
  intros He Hds. unfold step_execute.
  set (c1 := if 0 <? _ then _ else _).
  assert (c_ss c1 = c_ss c /\ c_ds c1 = None /\ c_k c1 = c_k c /\ c_st c1 = c_st c) as (E1 & E2 & E3 & E4)
    by (unfold c1; by case_test).
  clearbody c1. set (dl := is_device_load _ _). clearbody dl.
  destruct (exec_one_moved c1 s st) as (V & S & K); [by rewrite E1|]. injection V as V1 V2.
  rewrite V1, E1. set (c3 := if negb _ then _ else _).
  assert (moved c (s, next_ds (c_ss c) s) st c3) as (V3 & S3 & K3).
  { unfold c3, next_ds, moved, view. destruct (u32 (i_pc s) =? _); cbn [negb with_ds c_ss c_ds c_st c_k];
      by rewrite V1, ?V2, ?E2, S, K, E3, E4. }
  clearbody c3. clear c1 E1 E2 E3 E4 V1 V2 S K.
  destruct (run_gpr_check_moved (chk_compare r dl c3)) as (V4 & S4 & K4). rewrite K4.
  assert (c_ss c3 = s) as Hs by (by injection V3).
  split; [etrans; [exact (alarms_eq_le _ _ K3)|]; etrans; [apply chk_compare_le|exact (alarms_eq_le _ _ K4)]|].
  assert (dest_ok s r -> chk_compare r dl c3 = c3) as Hc by (intros; apply chk_compare_agrees; by rewrite Hs).
  split; [split|].
  - intros H. rewrite <- K3 in H. rewrite <- Hs. by apply chk_compare_quiet in H.
  - intros H. by rewrite (Hc H).
  - intros H. rewrite (Hc H) in *. split; [by rewrite V4|]. by rewrite S4, S3, K4.
Qed.
Lemma step_execute_le r c rs : alarms_le (c_k c) (c_k (execute r c rs)).
Proof.
  unfold step_execute. rewrite run_gpr_check_k.
  set (c1 := if 0 <? _ then _ else _). assert (c_k c1 = c_k c) as E1 by (unfold c1; by case_test).
  set (c3 := if negb _ then _ else _).
  assert (alarms_le (c_k c) (c_k c3)) as E3.
  { unfold c3. case_test; cbn [with_ds c_k]; rewrite exec_one_k, E1; le_alarms. }
  clearbody c3. destruct rs.
  - by rewrite (proj1 (trust_settled r c3)).
  - etrans; [exact E3|]. apply chk_compare_le.
Qed.

Lemma moved_trans c m1 st1 c1 m2 st2 c2 : moved c m1 st1 c1 -> moved c1 m2 st2 c2 -> moved c m2 (st1 ++ st2) c2.
Proof. intros (_ & S1 & K1) (V2 & S2 & K2). split; [done|]. unfold pushed. by rewrite S2, S1, K2, K1, foldl_app. Qed.
Lemma mapskip_test vpc :
  negb no_mapskip && ((vpc <? 0x80000000) || (0xc0000000 <=? vpc)) = negb (executable no_mapskip vpc).
Proof.
  unfold executable, kseg01. destruct no_mapskip; [done|]. cbn. rewrite negb_andb. f_equal; [|by rewrite Z.leb_antisym].
  by rewrite Z.ltb_antisym.
Qed.
Lemma async_is_entry x vpc : async_entry x vpc = true -> exc_entry vpc = true.
Proof.
  unfold async_entry, exc_entry. intros [H _]%andb_true_iff. apply orb_true_iff in H as [->| ->]; by rewrite ?orb_true_r.
Qed.

(** Where the PC-divergence block leaves the checker without a resync, and that a resync is counted. *)
Lemma pc_divergence_exact x rpc (c : chk R) :
  match pc_divergence execMips raise_int x rpc c with
  | (c', false) =>
      (async_entry x (u32 rpc) = true /\ c' = with_ss c (set_pc (raise_int (c_ss c) (x_epc x) (x_cause_ip x)) rpc)) \/
      (exc_entry (u32 rpc) = true /\ async_entry x (u32 rpc) = false /\ c' = exec_one execMips c /\
       u32 (i_pc (fst (execMips (c_ss c)))) = u32 rpc)
  | (c', true) =>
      alarms_le (c_k c) (c_k c') /\ k_resync (c_k c) < k_resync (c_k c') /\ async_entry x (u32 rpc) = false /\
      (exc_entry (u32 rpc) = true -> u32 (i_pc (fst (execMips (c_ss c)))) <> u32 rpc)
  end.
Proof.
  unfold pc_divergence. destruct (exc_entry (u32 rpc)) eqn:Ex.
  - destruct (async_entry x (u32 rpc)) eqn:Ea; [by left|].
    rewrite exec_one_ss. destruct (Z.eqb_spec (u32 (i_pc (fst (execMips (c_ss c))))) (u32 rpc)) as [|Hne]; [by right|].
    split_and!; try done; case_test; cbn; rewrite ?exec_one_k; unfold alarms_le; cbn; lia.
  - assert (async_entry x (u32 rpc) = false) as Ha
      by (destruct (async_entry x (u32 rpc)) eqn:Ea; [apply async_is_entry in Ea; congruence|done]).
    split_and!; try done; case_test; cbn; unfold alarms_le; cbn; lia.
Qed.

(** ** One step of the checker *)

(** On a main-line retirement the step is the executed path, entered in one of three ways. *)
Definition entered (x : exc_ctx) (r : ret) (c c' : chk R) : Prop :=
  (u32 (i_pc (c_ss c)) = u32 (r_pc r) /\ c' = c) \/
  u32 (i_pc (c_ss c)) <> u32 (r_pc r) /\
  ((async_entry x (u32 (r_pc r)) = true /\
    c' = with_ss c (set_pc (raise_int (c_ss c) (x_epc x) (x_cause_ip x)) (r_pc r))) \/
   (exc_entry (u32 (r_pc r)) = true /\ async_entry x (u32 (r_pc r)) = false /\ c' = exec_one execMips c /\
    u32 (i_pc (fst (execMips (c_ss c)))) = u32 (r_pc r))).
Definition no_entry (x : exc_ctx) (r : ret) (s : iss R) : Prop :=
  u32 (i_pc s) <> u32 (r_pc r) /\ async_entry x (u32 (r_pc r)) = false /\
  (exc_entry (u32 (r_pc r)) = true -> u32 (i_pc (fst (execMips s))) <> u32 (r_pc r)).

Lemma main_line_step x r (c : chk R) :
  i_brk (c_ss c) = false -> c_ds c <> Some (u32 (r_pc r)) -> executable no_mapskip (u32 (r_pc r)) = true ->
  (exists c', entered x r (with_ds c None) c' /\ step x r c = execute r c' false) \/
  (no_entry x r (c_ss c) /\ alarms_le (c_k c) (c_k (step x r c)) /\ alarms (c_k (step x r c)) <> alarms (c_k c)).
Proof.
  intros Hb Hds He. unfold checker_step. rewrite Hb, bool_decide_eq_false_2, mapskip_test, He by done.
  cbn [negb]. cbn [with_ds c_ss].
  destruct (Z.eqb_spec (u32 (i_pc (c_ss c))) (u32 (r_pc r))) as [Hpc|Hpc]; cbn [negb].
  { left. exists (with_ds c None). split; [by left|done]. }
  pose proof (pc_divergence_exact x (r_pc r) (with_ds c None)) as H.
  destruct (pc_divergence _ _ _ _ _) as [c' [|]].
  - right. destruct H as (Hle & Hr & Ha & Hx). cbn [with_ds c_k c_ss] in *. split; [done|].
    pose proof (step_execute_le r c' true) as Hle'.
    assert (alarms_le (c_k c) (c_k (execute r c' true))) as Hle2 by (by etrans).
    split; [done|]. apply alarms_up; [done|]. unfold alarms_le in Hle'. lia.
  - left. exists c'. split; [right; by split|done].
Qed.

Ltac invert_explains H :=
  inversion H; subst; clear H; simplify_eq; try congruence;
  repeat match goal with E1 : ?f ?a = (_, _), E2 : ?f ?a = (_, _) |- _ => rewrite E1 in E2; simplify_eq end;
  try done.
Lemma entered_explains x r (c c' : chk R) s st :
  i_brk (c_ss c) = false -> c_ds c <> Some (u32 (r_pc r)) -> executable no_mapskip (u32 (r_pc r)) = true ->
  entered x r (with_ds c None) c' -> execMips (c_ss c') = (s, st) ->
  exists st1, moved c (c_ss c', None) st1 c' /\
    (dest_ok s r -> expl x r (view c) (s, next_ds (c_ss c') s) (st1 ++ st)) /\
    (forall m st', expl x r (view c) m st' -> dest_ok s r).
Proof.
  intros Hb Hds He Hen Hx. destruct Hen as [[Hpc ->]|[Hpc [[Ha ->]|(Hen & Ha & -> & Hto)]]];
    cbn [with_ds with_ss c_ss] in *.
  - exists []. split; [done|]. split; [by apply ex_insn|]. intros m st' H. invert_explains H.
  - exists []. split; [done|]. split; [by eapply ex_interrupt|]. intros m st' H. invert_explains H.
  - destruct (execMips (c_ss c)) as [s1 st1] eqn:Hx1. cbn [fst] in Hto.
    pose proof (exec_one_moved (with_ds c None) s1 st1 Hx1) as M. destruct (M) as (V & _ & _). injection V as V _.
    rewrite V in *. exists st1. split; [done|]. split; [by eapply ex_fault|]. intros m st' H. invert_explains H.
Qed.
Lemma no_entry_unexplained x r (c : chk R) m st :
  i_brk (c_ss c) = false -> c_ds c <> Some (u32 (r_pc r)) -> executable no_mapskip (u32 (r_pc r)) = true ->
  no_entry x r (c_ss c) -> ~ expl x r (view c) m st.
Proof.
  intros Hb Hds He (Hpc & Ha & Hx) H. invert_explains H.
  match goal with E : execMips (c_ss c) = _ |- _ => rewrite E in Hx end. by apply Hx.
Qed.

(** Every step is either explained by the model, and then moves the checker
    along it with the alarms unmoved, or moves them. *)
Lemma checker_step_exact x r (c : chk R) :
  alarms_le (c_k c) (c_k (step x r c)) /\
  ((exists st, expl x r (view c) (view (step x r c)) st /\ moved c (view (step x r c)) st (step x r c)) \/
   (alarms (c_k (step x r c)) <> alarms (c_k c) /\ forall m st, ~ expl x r (view c) m st)).
Proof.
  destruct (i_brk (c_ss c)) eqn:Hb.
  { unfold checker_step. rewrite Hb. split; [done|]. left. exists []. split; [by apply ex_dead|done]. }
  destruct (decide (c_ds c = Some (u32 (r_pc r)))) as [Hds|Hds].
  { unfold checker_step. rewrite Hb, bool_decide_eq_true_2 by done. cbv zeta.
    set (dl := _ || _). clearbody dl. split; [apply (chk_compare_le r dl (with_ds c None))|].
    destruct (decide (alarms (c_k (chk_compare r dl (with_ds c None))) = alarms (c_k c))) as [Hq|Hq].
    - left. exists []. assert (Hd := chk_compare_quiet r dl (with_ds c None) Hq). rewrite chk_compare_agrees by done.
      split; [|done]. unfold view. rewrite Hds. by apply ex_slot.
    - right. split; [done|]. intros m st H. apply Hq.
      assert (dest_ok (c_ss c) r) as Hd by (unfold view in H; rewrite Hds in H; invert_explains H).
      by rewrite chk_compare_agrees. }
  destruct (executable no_mapskip (u32 (r_pc r))) eqn:He.
  2: { unfold checker_step. rewrite Hb, bool_decide_eq_false_2, mapskip_test, He by done. cbn [negb].
       unfold trust. split; [case_test; le_alarms|]. left. exists [].
       assert (expl x r (view c) (take_over (c_ss c) r, None) []) as H by (by apply ex_mapped).
       unfold take_over in H. by case_test. }
  destruct (main_line_step x r c Hb Hds He) as [(c' & Hen & ->)|(Hno & Hle & Hne)].
  2: { split; [done|]. right. split; [done|]. intros m st. by apply no_entry_unexplained. }
  destruct (execMips (c_ss c')) as [s st] eqn:Hx.
  destruct (entered_explains x r c c' s st Hb Hds He Hen Hx) as (st1 & M & Hyes & Honly).
  destruct (M) as (V & _ & K). injection V as V.
  destruct (step_execute_exact r c' s st Hx V) as (Hle & Hiff & Hmv).
  split; [etrans; [exact (alarms_eq_le _ _ K)|done]|]. rewrite <- K.
  destruct (decide (alarms (c_k (execute r c' false)) = alarms (c_k c'))) as [Hq|Hq].
  - left. apply Hiff in Hq. exists (st1 ++ st). pose proof (moved_trans _ _ _ _ _ _ _ M (Hmv Hq)) as Hm.
    destruct (Hm) as (-> & _). auto.
  - right. split; [done|]. intros m st' H. apply Hq, Hiff. by eapply Honly.
Qed.

Lemma explains_fun x r m m1 m2 st1 st2 : expl x r m m1 st1 -> expl x r m m2 st2 -> m1 = m2 /\ st1 = st2.
Proof.
  intros H1 H2. inversion H1; subst; clear H1; invert_explains H2.
Qed.
(** The two directions of [checker_step_exact]. *)
Lemma step_quiet x r c :
  alarms (c_k (step x r c)) = alarms (c_k c) ->
  exists st, expl x r (view c) (view (step x r c)) st /\ moved c (view (step x r c)) st (step x r c).
Proof. intros H. by destruct (checker_step_exact x r c) as [_ [|[]]]. Qed.
Lemma step_follows x r c m st : expl x r (view c) m st -> moved c m st (step x r c).
Proof.
  intros H. destruct (checker_step_exact x r c) as [_ [(st' & H' & M)|[_ Hno]]]; [|by destruct (Hno _ _ H)].
  by destruct (explains_fun _ _ _ _ _ _ _ H H') as [-> ->].
Qed.

Definition checker_steps (xs : list (exc_ctx * ret)) (c : chk R) : chk R :=
  foldl (fun c p => step (fst p) (snd p) c) c xs.
Lemma checker_steps_le xs c : alarms_le (c_k c) (c_k (checker_steps xs c)).
Proof.
  revert c. induction xs as [|[x r] xs IH]; intros c; [done|]. cbn [checker_steps foldl].
  etrans; [apply (checker_step_exact x r c)|apply IH].
Qed.
Lemma checker_steps_quiet xs c :
  alarms (c_k (checker_steps xs c)) = alarms (c_k c) ->
  exists st, explained execMips raise_int no_mapskip xs (view c) (view (checker_steps xs c)) st.
Proof.
  revert c. induction xs as [|[x r] xs IH]; intros c H; [exists []; constructor|]. cbn [checker_steps foldl] in *.
  destruct (alarms_squeeze _ _ _ (proj1 (checker_step_exact x r c)) (checker_steps_le xs (step x r c)) H) as [H1 H2].
  destruct (step_quiet x r c H1) as (st1 & He & _). destruct (IH _ H2) as (st2 & Hr).
  exists (st1 ++ st2). by econstructor.
Qed.
Lemma checker_steps_follow xs c m st :
  explained execMips raise_int no_mapskip xs (view c) m st -> moved c m st (checker_steps xs c).
Proof.
  remember (view c) as m0 eqn:Em. intros H. revert c Em.
  induction H as [m|x r xs m m1 m2 st1 st2 He Hr IH]; intros c ->; [done|]. cbn [checker_steps foldl].
  pose proof (step_follows x r c _ _ He) as M. destruct (M) as (V & _). eapply moved_trans; [exact M|].
  by apply IH.
Qed.
End StepExact.

(** ** The composed cycle *)

Section LoopModel.
Context {R : Type}.
Variable execMips : iss R -> iss R * list store_rec.
Variable raise_int : iss R -> Z -> Z -> iss R.
Variable apply_tlb_write : iss R -> pend_tlb_t -> iss R.
Variable no_mapskip : bool.
Variable bc : cfg.

Inductive explains_opt (x : exc_ctx) : option ret -> @model R -> @model R -> list store_rec -> Prop :=
  | explains_none m : explains_opt x None m m []
  | explains_some r m m' st : explains execMips raise_int no_mapskip x r m m' st -> explains_opt x (Some r) m m' st.
(** A cycle of an RTL that conforms to the model: both retirements are explained,
    the model taking over the CP0 mirror, the TLB writes and the memory writes. *)
Inductive conforms_cycle (ci : cyc_in) (cyc : Z) (m : model) (b : bus) : model -> bus -> list store_rec -> list store_rec -> Prop :=
  | conforms_intro m1 m2 st1 st2 b' s :
      explains_opt (cycle_ctx (ci_rtl ci)) (t_ret0 (ci_rtl ci)) (mirror_cp0 (ci_rtl ci) (fst m), snd m) m1 st1 ->
      explains_opt (cycle_ctx (ci_rtl ci)) (t_ret1 (ci_rtl ci)) m1 m2 st2 ->
      bus_cycle bc cyc (ci_host ci) (ci_reqs ci) b (fold_left apply_tlb_write (ci_tlb ci) (fst m2)) = (b', s) ->
      conforms_cycle ci cyc m b (s, snd m2) b' st1 st2.
(** A conforming run, with the model's stores of each cycle before and after the drain. *)
Inductive conforms : list cyc_in -> Z -> model -> bus -> model -> bus -> list (list store_rec * list store_rec) -> Prop :=
  | conforms_nil cyc m b : conforms [] cyc m b m b []
  | conforms_cons ci cis cyc m b m1 b1 st1 st2 m2 b2 sts :
      conforms_cycle ci cyc m b m1 b1 st1 st2 -> conforms cis (cyc + 1) m1 b1 m2 b2 sts ->
      conforms (ci :: cis) cyc m b m2 b2 ((st1, st2) :: sts).
(** The stores seen by the last drain. *)
Fixpoint seen_stores (sts : list (list store_rec * list store_rec)) : list store_rec :=
  match sts with
  | [] => []
  | (st1, st2) :: t => st1 ++ match t with [] => [] | _ => st2 ++ seen_stores t end
  end.
End LoopModel.

Section LoopExact.
Context {R : Type}.
Variable execMips : iss R -> iss R * list store_rec.
Variable raise_int : iss R -> Z -> Z -> iss R.
Variable last_ld_va : iss R -> Z.
Variable apply_tlb_write : iss R -> pend_tlb_t -> iss R.
Variable no_mapskip : bool.
Variables gprchk gprchk_poison : Z.
Variable ck : option cp_header.
Variable sc_max : Z.
Variable bc : cfg.
Abbreviation step_one := (step_opt execMips raise_int last_ld_va no_mapskip gprchk gprchk_poison).
Abbreviation cycle := (cosim_cycle execMips raise_int last_ld_va apply_tlb_write no_mapskip gprchk gprchk_poison ck sc_max false bc).
Abbreviation run := (cosim_run execMips raise_int last_ld_va apply_tlb_write no_mapskip gprchk gprchk_poison ck sc_max false bc).
Abbreviation expl_opt := (explains_opt execMips raise_int no_mapskip).
Abbreviation conf_cycle := (conforms_cycle execMips raise_int apply_tlb_write no_mapskip bc).
Abbreviation conf := (conforms execMips raise_int apply_tlb_write no_mapskip bc).
Abbreviation alarms_of w := (alarms (c_k (w_chk w))).

Lemma step_opt_le x r c : alarms_le (c_k c) (c_k (step_one x r c)).
Proof. destruct r as [r|]; [|done]. apply checker_step_exact. Qed.
Lemma step_opt_quiet x r c :
  alarms (c_k (step_one x r c)) = alarms (c_k c) ->
  exists st, expl_opt x r (view c) (view (step_one x r c)) st /\ moved c (view (step_one x r c)) st (step_one x r c).
Proof.
  destruct r as [r|]; intros H; [|exists []; split; [constructor|done]].
  destruct (step_quiet _ _ _ _ _ _ _ _ _ H) as (st & He & M). exists st. split; [by constructor|done].
Qed.
Lemma step_opt_follows x r c m st : expl_opt x r (view c) m st -> moved c m st (step_one x r c).
Proof. intros H. inversion H; subst; [done|]. by apply step_follows. Qed.

(** The invariant between iterations; [I] and [W] are the two store streams so far. *)
Record quiet_inv (I W : list store_rec) (w : @cosim R) : Prop := QuietInv {
  q_gate : gate_active (w_gate w) = true;
  q_pend : w_pend w = [];
  q_live : store_diverged (c_st (w_chk w)) = false;
  q_queues : exists k, sc_inv I W (c_st (w_chk w)) k }.

(** The checker before the drain, and the verdict of the drain. *)
Definition head_chk (ci : cyc_in) (w : @cosim R) : chk R :=
  let c := with_st (w_chk w) (foldl (fun st x => wr_log true x st) (c_st (w_chk w)) (ci_stores ci)) in
  with_ss c (mirror_cp0 (ci_rtl ci) (c_ss c)).
Lemma cycle_active ci w :
  gate_active (w_gate w) = true -> w_pend w = [] ->
  cycle ci w =
  let x := cycle_ctx (ci_rtl ci) in
  let c1 := step_one x (t_ret0 (ci_rtl ci)) (head_chk ci w) in
  let '(st, _, stop) := store_check_cycle sc_max false (c_st c1) in
  let c1 := with_st c1 st in
  if stop then (Cosim (w_cyc w) (w_gate w) (ci_tlb ci) c1 (w_bus w), true)
  else
    let c2 := step_one x (t_ret1 (ci_rtl ci)) c1 in
    let '(b, s) := bus_cycle bc (w_cyc w) (ci_host ci) (ci_reqs ci) (w_bus w) (fold_left apply_tlb_write (ci_tlb ci) (c_ss c2)) in
    (Cosim (w_cyc w + 1) (w_gate w) [] (with_ss (apply_pending apply_tlb_write c2 (ci_tlb ci)) s) b, false).
Proof.
  intros Hg Hq. unfold cosim_cycle. rewrite checker_cycle_active, Hq by done. cbn [app]. cbv zeta.
  unfold head_chk. by destruct (store_check_cycle _ _ _) as [[st ev] [|]].
Qed.
Lemma cycle_keeps ci w w' :
  gate_active (w_gate w) = true -> w_pend w = [] -> cycle ci w = (w', false) ->
  gate_active (w_gate w') = true /\ w_pend w' = [] /\ alarms_le (c_k (w_chk w)) (c_k (w_chk w')).
Proof.
  intros Hg Hq. rewrite cycle_active by done. cbv zeta.
  pose proof (step_opt_le (cycle_ctx (ci_rtl ci)) (t_ret0 (ci_rtl ci)) (head_chk ci w)) as H1.
  set (c1 := step_one _ _ (head_chk ci w)) in *.
  destruct (store_check_cycle _ _ _) as [[st ev] [|]]; [done|].
  pose proof (step_opt_le (cycle_ctx (ci_rtl ci)) (t_ret1 (ci_rtl ci)) (with_st c1 st)) as H2.
  destruct (bus_cycle _ _ _ _ _ _) as [b s]. intros [= <-]. split_and!; try done.
  cbn [w_chk apply_pending with_ss c_k]. by etrans.
Qed.
Lemma run_le cis : forall w w',
  gate_active (w_gate w) = true -> w_pend w = [] -> run cis w = (w', false) ->
  alarms_le (c_k (w_chk w)) (c_k (w_chk w')).
Proof.
  induction cis as [|ci cis IH]; intros w w' Hg Hq H; [by injection H as <-|]. cbn [cosim_run] in H.
  destruct (cycle ci w) as [w1 [|]] eqn:E; [done|]. destruct (cycle_keeps _ _ _ Hg Hq E) as (Hg1 & Hq1 & Hle).
  etrans; [exact Hle|]. by apply IH.
Qed.

(** The drain of a cycle whose head retirement moved the checker along the model. *)
Lemma head_drain ci I W w m1 st1 c1 st ev stop :
  quiet_inv I W w -> moved (head_chk ci w) m1 st1 c1 -> store_check_cycle sc_max false (c_st c1) = (st, ev, stop) ->
  if stop then streams_disagree (I ++ st1) (W ++ ci_stores ci)
  else store_diverged st = false /\ (exists k, sc_inv (I ++ st1) (W ++ ci_stores ci) st k) /\
    ~ streams_disagree (I ++ st1) (W ++ ci_stores ci).
Proof.
  intros [_ _ Hl [k Hi]] (_ & S & _). unfold head_chk in S. cbn [with_ss with_st c_st] in S. apply (sc_inv_drain _ _ _ _ k).
  - rewrite S. apply sc_inv_iss. by apply sc_inv_rtl.
  - rewrite S. unfold pushed. by rewrite foldl_iss_store_fronts, rtl_pushes_diverged.
Qed.
(** What a cycle that raised no alarm and did not stop leaves behind. *)
Definition cycle_moved (ci : cyc_in) (I W : list store_rec) (w : @cosim R) (m : @model R) (b : bus) (st1 st2 : list store_rec) (w' : @cosim R) : Prop :=
  view (w_chk w') = m /\ w_bus w' = b /\ w_cyc w' = w_cyc w + 1 /\ alarms_of w' = alarms_of w /\
  quiet_inv (I ++ st1 ++ st2) (W ++ ci_stores ci) w' /\ ~ streams_disagree (I ++ st1) (W ++ ci_stores ci).
Lemma tail_moved ci I W w m1 st1 c1 st ev m2 st2 c2 b s :
  quiet_inv I W w -> moved (head_chk ci w) m1 st1 c1 -> store_check_cycle sc_max false (c_st c1) = (st, ev, false) ->
  moved (with_st c1 st) m2 st2 c2 ->
  cycle_moved ci I W w (s, snd m2) b st1 st2
    (Cosim (w_cyc w + 1) (w_gate w) [] (with_ss (apply_pending apply_tlb_write c2 (ci_tlb ci)) s) b).
Proof.
  intros Hinv M1 E M2. destruct (head_drain _ _ _ _ _ _ _ _ _ _ Hinv M1 E) as (Hl & [k Hk] & Hno).
  destruct M1 as (V1 & S1 & K1), M2 as (V2 & S2 & K2). cbn [with_st c_st c_k] in S2, K2.
  unfold cycle_moved. cbn [w_chk w_bus w_cyc]. unfold view, apply_pending. cbn [with_ss c_ss c_ds c_k].
  rewrite K2, K1. split_and!; try done; [by rewrite <- V2|].
  split; cbn [w_gate w_pend w_chk with_ss c_st]; try done; [apply Hinv| |].
  - rewrite S2. unfold pushed. by rewrite foldl_iss_store_fronts.
  - exists k. rewrite S2, app_assoc. by apply sc_inv_iss.
Qed.
Lemma cycle_quiet ci I W w w' :
  quiet_inv I W w -> cycle ci w = (w', false) -> alarms_of w' = alarms_of w ->
  exists st1 st2, conf_cycle ci (w_cyc w) (view (w_chk w)) (w_bus w) (view (w_chk w')) (w_bus w') st1 st2 /\
    cycle_moved ci I W w (view (w_chk w')) (w_bus w') st1 st2 w'.
Proof.
  intros Hinv. rewrite cycle_active by apply Hinv. cbv zeta. set (x := cycle_ctx _).
  pose proof (step_opt_le x (t_ret0 (ci_rtl ci)) (head_chk ci w)) as L1.
  pose proof (step_opt_quiet x (t_ret0 (ci_rtl ci)) (head_chk ci w)) as Q1. set (c1 := step_one _ _ (head_chk ci w)) in *.
  destruct (store_check_cycle _ _ _) as [[st ev] [|]] eqn:E; [done|].
  pose proof (step_opt_le x (t_ret1 (ci_rtl ci)) (with_st c1 st)) as L2.
  pose proof (step_opt_quiet x (t_ret1 (ci_rtl ci)) (with_st c1 st)) as Q2. set (c2 := step_one _ _ (with_st c1 st)) in *.
  destruct (bus_cycle _ _ _ _ _ _) as [b s] eqn:Eb. intros [= <-] Hal. cbn [w_chk apply_pending with_ss c_k] in Hal.
  destruct (alarms_squeeze _ _ _ L1 L2 Hal) as [H1 H2].
  destruct (Q1 H1) as (st1 & X1 & M1), (Q2 H2) as (st2 & X2 & M2).
  exists st1, st2. split; [exact (conforms_intro execMips raise_int apply_tlb_write no_mapskip bc ci (w_cyc w) (view (w_chk w)) (w_bus w)
      (view c1) (view c2) st1 st2 b s X1 X2 Eb)|].
  exact (tail_moved ci I W w _ _ _ _ _ _ _ _ b s Hinv M1 E M2).
Qed.
Lemma cycle_follows ci I W w m b st1 st2 :
  quiet_inv I W w -> conf_cycle ci (w_cyc w) (view (w_chk w)) (w_bus w) m b st1 st2 ->
  let '(w', stop) := cycle ci w in
  if stop then streams_disagree (I ++ st1) (W ++ ci_stores ci) else cycle_moved ci I W w m b st1 st2 w'.
Proof.
  intros Hinv H. rewrite cycle_active by apply Hinv. cbv zeta.
  destruct H as [m1 m2 st1 st2 b s X1 X2 Eb].
  pose proof (step_opt_follows _ _ (head_chk ci w) _ _ X1) as M1. set (c1 := step_one _ _ (head_chk ci w)) in *.
  destruct (store_check_cycle _ _ _) as [[st ev] stop] eqn:E.
  pose proof (head_drain _ _ _ _ _ _ _ _ _ _ Hinv M1 E) as D. destruct stop; [exact D|].
  assert (view (with_st c1 st) = m1) as V1 by apply M1. rewrite <- V1 in X2.
  pose proof (step_opt_follows _ _ (with_st c1 st) _ _ X2) as M2. set (c2 := step_one _ _ (with_st c1 st)) in *.
  assert (c_ss c2 = fst m2) as V2 by (by destruct M2 as (<- & _)). rewrite V2, Eb.
  exact (tail_moved ci I W w _ _ _ _ _ _ _ _ b s Hinv M1 E M2).
Qed.

Lemma seen_stores_cons st1 st2 sts (tail : list cyc_in) :
  length sts = length tail -> seen_stores ((st1, st2) :: sts) = st1 ++ (if tail is [] then [] else st2 ++ seen_stores sts).
Proof. by destruct sts, tail. Qed.
Lemma conforms_length cis cyc m b m' b' sts : conf cis cyc m b m' b' sts -> length sts = length cis.
Proof. induction 1; cbn; congruence. Qed.

(** The streams the checker has compared after a run agree. *)
Definition seen_agree (cis : list cyc_in) (I W : list store_rec) (sts : list (list store_rec * list store_rec)) : Prop :=
  cis = [] \/ ~ streams_disagree (I ++ seen_stores sts) (W ++ concat (map ci_stores cis)).
Lemma seen_agree_cons ci cis I W st1 st2 sts :
  length sts = length cis ->
  seen_agree (ci :: cis) I W ((st1, st2) :: sts) <->
  ~ streams_disagree (I ++ st1) (W ++ ci_stores ci) /\ seen_agree cis (I ++ st1 ++ st2) (W ++ ci_stores ci) sts.
Proof.
  intros Hl. unfold seen_agree. rewrite (seen_stores_cons _ _ _ cis) by done. cbn [map concat].
  destruct cis as [|ci' cis]; cbn [map concat].
  - rewrite !app_nil_r. split; [|tauto]. intros [|]; [done|]. by split; [|left].
  - rewrite !app_assoc. split.
    + intros [|H]; [done|]. split; [|by right]. intros Hd. apply H. rewrite <- !(app_assoc (I ++ st1)).
      rewrite <- !(app_assoc (W ++ ci_stores ci)). by apply streams_disagree_app.
    + intros [_ [|]]; [done|by right].
Qed.

Lemma run_quiet cis : forall I W w w',
  quiet_inv I W w -> run cis w = (w', false) -> alarms_of w' = alarms_of w ->
  exists sts, conf cis (w_cyc w) (view (w_chk w)) (w_bus w) (view (w_chk w')) (w_bus w') sts /\ seen_agree cis I W sts.
Proof.
  induction cis as [|ci cis IH]; intros I W w w' Hinv H Hal; cbn [cosim_run] in H.
  { injection H as <-. exists []. split; [constructor|by left]. }
  destruct (cycle ci w) as [w1 [|]] eqn:E; [done|].
  destruct (cycle_keeps _ _ _ (q_gate _ _ _ Hinv) (q_pend _ _ _ Hinv) E) as (Hg1 & Hq1 & Hle).
  destruct (alarms_squeeze _ _ _ Hle (run_le _ _ _ Hg1 Hq1 H) Hal) as [H1 H2].
  destruct (cycle_quiet _ _ _ _ _ Hinv E H1) as (st1 & st2 & Hc & (_ & _ & Hcyc & _ & Hinv1 & Hno)).
  destruct (IH _ _ _ _ Hinv1 H H2) as (sts & Hr & Hag). rewrite Hcyc in Hr.
  exists ((st1, st2) :: sts). split; [by econstructor|]. apply seen_agree_cons; [by eapply conforms_length|done].
Qed.
Lemma run_follows cis : forall I W w m b sts,
  quiet_inv I W w -> conf cis (w_cyc w) (view (w_chk w)) (w_bus w) m b sts -> seen_agree cis I W sts ->
  exists w', run cis w = (w', false) /\ alarms_of w' = alarms_of w /\ view (w_chk w') = m /\ w_bus w' = b.
Proof.
  induction cis as [|ci cis IH]; intros I W w m b sts Hinv H Hag; inversion H; subst; [by exists w|].
  match goal with Hc : conf_cycle _ _ _ _ _ _ _ _, Hr : conf cis _ _ _ _ _ _ |- _ =>
    pose proof (cycle_follows _ _ _ _ _ _ _ _ Hinv Hc) as P; rename Hr into Hrest end.
  apply seen_agree_cons in Hag as [Hno Hag]; [|by eapply conforms_length].
  cbn [cosim_run]. destruct (cycle ci w) as [w1 [|]]; [done|].
  destruct P as (V & B & Hcyc & Hal & Hinv1 & _). rewrite <- V, <- B, <- Hcyc in Hrest.
  destruct (IH _ _ _ _ _ _ Hinv1 Hrest Hag) as (w' & Hrun & Hal' & Hm & Hb). exists w'. by rewrite Hal'.
Qed.
End LoopExact.

(** ** Properties *)

(** C3.  The checker is exact while the ISS runs: from any state, for any sequence of
    retirements and exception contexts, it raises no alarm (no divergence, suppressed
    compare, resync or k0/k1 drift counted) iff the running model explains the sequence,
    or the part of it up to a point where the model stops ([brk]), after which nothing is
    checked: each retirement is the model's next instruction, its pending delay slot, the
    first instruction of an interrupt or of a fault the model takes itself, each with the
    model's result, or lies in mapped space and is taken over.  The checker then ends in
    the state the explanation ends in. *)
Theorem checker_exact {R} (execMips : iss R -> iss R * list store_rec) (raise_int : iss R -> Z -> Z -> iss R)
    (last_ld_va : iss R -> Z) (no_mapskip : bool) (gprchk gprchk_poison : Z) (xs : list (exc_ctx * ret)) (c : chk R) (m : model) :
  let c' := checker_steps execMips raise_int last_ld_va no_mapskip gprchk gprchk_poison xs c in
  (exists st checked unchecked, xs = checked ++ unchecked /\
     explained_running execMips raise_int no_mapskip checked (view c) m st /\
     (unchecked = [] \/ i_brk (fst m) = true)) <->
  alarms (c_k c') = alarms (c_k c) /\ view c' = m.
Proof.
  cbv zeta. split.
  - intros (st & H). apply explained_split in H.
    destruct (checker_steps_follow _ _ last_ld_va _ gprchk gprchk_poison _ _ _ _ H) as (? & _ & ?). done.
  - intros [H <-]. destruct (checker_steps_quiet _ _ _ _ _ _ _ _ H) as [st Hst]. exists st. by apply explained_split.
Qed.

(** The verdict of a run is exact.  With the gate open and empty queues, the
    main loop runs to the end without a store divergence and with every alarm
    counter unmoved iff the RTL conforms to the golden model (each retirement of
    each cycle explained by the model, which takes over the CP0 mirror, the TLB
    writes and the memory writes) and its committed stores agree with the model's
    wherever both streams have reached a position by the last drain.  The checker
    and the memory end in the state the conforming execution ends in. *)
Theorem verdict_exact {R} (execMips : iss R -> iss R * list store_rec) (raise_int : iss R -> Z -> Z -> iss R)
    (last_ld_va : iss R -> Z) (apply_tlb_write : iss R -> pend_tlb_t -> iss R) (no_mapskip : bool)
    (gprchk gprchk_poison : Z) (ck : option cp_header) (sc_max : Z) (bc : cfg) (cis : list cyc_in) (w : cosim)
    (m : model) (b : bus) :
  gate_active (w_gate w) = true -> w_pend w = [] -> c_st (w_chk w) = sc_init ->
  let '(w', stopped) :=
    cosim_run execMips raise_int last_ld_va apply_tlb_write no_mapskip gprchk gprchk_poison ck sc_max false bc cis w in
  stopped = false /\ alarms (c_k (w_chk w')) = alarms (c_k (w_chk w)) /\ view (w_chk w') = m /\ w_bus w' = b <->
  exists sts, conforms execMips raise_int apply_tlb_write no_mapskip bc cis (w_cyc w) (view (w_chk w)) (w_bus w) m b sts /\
    ~ streams_disagree (seen_stores sts) (concat (map ci_stores cis)).
Proof.
  intros Hg Hq Hst.
  assert (Hinv : quiet_inv [] [] w).
  { split; try done; rewrite Hst; [done|]. exists 0%nat. exact sc_inv_init. }
  assert (Hnil : ~ streams_disagree [] []) by (by intros (k & i & r & ? & _)).
  destruct (cosim_run _ _ _ _ _ _ _ _ _ _ _ cis w) as [w' stopped] eqn:E. split.
  - intros (-> & Hal & <- & <-).
    destruct (run_quiet execMips raise_int last_ld_va _ _ _ _ _ _ _ cis [] [] w w' Hinv E Hal) as (sts & Hc & Hag).
    exists sts. split; [done|]. destruct Hag as [->|]; [|done]. by inversion Hc; subst.
  - intros (sts & Hc & Hag).
    destruct (run_follows execMips raise_int last_ld_va apply_tlb_write no_mapskip gprchk gprchk_poison ck sc_max bc
      cis [] [] w m b sts Hinv Hc (or_intror Hag)) as (w1 & Hrun & ? & ? & ?).
    rewrite Hrun in E. by injection E as <- <-.
Qed.

(** The two-instruction run of [Cosim]: clean when the RTL reports what the model
    computes, and no model execution explains it when the second result is off. *)
Definition reporting (v : Z) : list cyc_in :=
  [sample_cycle 0x88000000 7;
   CycIn [StoreRec 0x88000004 0x100 7] [] (RtlCycle (Some (Ret 0x88000004 true 2 v)) None 0 0 0 0 0) id (idle_req, idle_req)].
Lemma verdict_exact_witness :
  (exists m b sts, conforms storing_exec toy_raise no_tlb false sample_bus_cfg (reporting 7) 0 (view (w_chk sample_cosim))
     (w_bus sample_cosim) m b sts) /\
  (forall m b sts, conforms storing_exec toy_raise no_tlb false sample_bus_cfg (reporting 8) 0 (view (w_chk sample_cosim))
     (w_bus sample_cosim) m b sts -> ~ streams_disagree (seen_stores sts) [StoreRec 0x88000000 0x100 7; StoreRec 0x88000004 0x100 7] -> False).
Proof.
  split.
  - set (w' := fst (sample_run (reporting 7))).
    pose proof (verdict_exact storing_exec toy_raise toy_ld no_tlb false 0 (-1) None 200 sample_bus_cfg (reporting 7)
      sample_cosim (view (w_chk w')) (w_bus w') eq_refl eq_refl eq_refl) as H.
    assert (snd (sample_run (reporting 7)) = false) as H1 by (vm_compute; reflexivity).
    assert (alarms (c_k (w_chk w')) = (0, 0, 0, 0)) as H2 by (vm_compute; reflexivity).
    subst w'. destruct (sample_run (reporting 7)) as [w' stopped]. cbn [fst snd] in *.
    destruct (proj1 H) as (sts & Hc & _); [split_and!; done|]. eexists _, _, _. exact Hc.
  - intros m b sts Hc Hag.
    pose proof (verdict_exact storing_exec toy_raise toy_ld no_tlb false 0 (-1) None 200 sample_bus_cfg (reporting 8)
      sample_cosim m b eq_refl eq_refl eq_refl) as H.
    assert (k_diverge (c_k (w_chk (fst (sample_run (reporting 8))))) = 1) as H1 by (vm_compute; reflexivity).
    destruct (sample_run (reporting 8)) as [w' stopped]. cbn [fst] in H1.
    destruct (proj2 H) as (_ & Hal & _); [by exists sts|]. injection Hal as Hd _ _ _. rewrite H1 in Hd. discriminate.
Defined.
