(* ===== verification/Gates.v ===== *)
(** * Gates: the save gate and the verify gate of the run loop

    Two tests of sim/henry_tb.cpp's main loop that decide when to stop: the
    --save-at gate with the image it writes and the --restore that reads it back,
    and the --verify-ckpt compare with the PREAMBLE_PC offset.  The Verilated
    model is a parameter: its evaluation on an edge and its ports. *)
From S2P Require Import Prelude AddressMap GuestMem MemBus Scsi.

(** ** Saving and restoring *)

(** The servicers write DRAM directly. *)
Definition host_write (m : mem) (b : bus) : bus :=
  Bus (Mems m (MemBus.iss (b_mems b))) (b_memlat b) (b_lane0 b) (b_lane1 b) (b_rsp0 b) (b_rsp1 b) (b_halted b)
    (b_unaligned b) (b_lane1_ops b).
(** [quiescent] is [g_scsi_quiescent], just computed. *)
Definition save_gate (g_save_at : Z) (quiescent armed : bool) (retired : Z) (b : bus) : bool :=
  armed || (negb (g_save_at =? 0) && (g_save_at <=? retired) && quiescent && bus_quiescent b).
Definition rsps (b : bus) : rsp * rsp := (b_rsp0 b, b_rsp1 b).

Section Save.
Context {M Disk RingSt : Type}.
Variable posedge negedge : rsp * rsp -> M -> M.   (** the model's evaluation, memory responses presented *)
Variable ports : M -> req * req.                  (** the two memory request ports *)
Variable retire_valid : M -> bool.
Variable scsi_port : M -> scsi_req.               (** the mailbox ports *)
Variable present : list scsi_out -> M -> M.       (** [post_rsp] sets the response ports *)
(** The other services, on the model's ports, their host state and DRAM. *)
Variable host_poll : Z -> M -> RingSt * mem -> M * (RingSt * mem).
Variable scsi_service_run : scsi_req -> Disk -> list Z -> scsi_rsp * list Z * bool * Z.
Variable block_write : Z -> list Z -> Disk -> Disk.
Variable stage_read : RingSt * mem -> list Z -> Z -> RingSt * mem.
Variable ring_poll : RingSt * mem -> Z -> option scsi_cqe * (RingSt * mem).
Variable read_wr : RingSt * mem -> nat -> list Z * (RingSt * mem).
Variable ring_init : RingSt.
Variables st_ok tgt_good : Z.
Variables scsihash disk_ok : bool.
Variable bc : cfg.
Variable g_save_at : Z.

(** The run loop as far as a continued run depends on it: model, servicer
    statics, disk, host state of the other services, bus and counters.  The
    responses are inputs of the model, so they travel with it. *)
Record sim := Sim {
  s_tb : M; s_scsi : scsi_state; s_disk : Disk; s_ring : RingSt; s_bus : bus; s_cyc : Z; s_retired : Z; s_armed : bool }.
(** The image and its copy of the disk. *)
Record vsave := VSave {
  v_tb : M; v_rsp : rsp * rsp; v_disk : Disk; v_mem : mem; v_cyc : Z; v_retired : Z; v_memlat : Z }.

Definition save_image (s : sim) : vsave :=
  VSave (s_tb s) (b_rsp0 (s_bus s), b_rsp1 (s_bus s)) (s_disk s) (dram (b_mems (s_bus s))) (s_cyc s) (s_retired s)
    (b_memlat (s_bus s)).
(** The locals of the loop and every static start afresh, the servicer's
    sequence number and the watchdog's origin included. *)
Definition restore_image (v : vsave) : sim :=
  Sim (v_tb v) scsi_init (v_disk v) ring_init
    (Bus (Mems (v_mem v) None) (v_memlat v) lane_init lane_init (fst (v_rsp v)) (snd (v_rsp v)) false 0 (repeat 0 8))
    (v_cyc v) (v_retired v) false.

(** The clock edge and the services of the iteration. *)
Record sim_served := SimServed {
  sv_tb : M; sv_scsi : scsi_state; sv_disk : Disk; sv_ring : RingSt; sv_mem : mem; sv_out : list scsi_out }.
Definition sim_serve (s : sim) : sim_served :=
  let tb := posedge (rsps (s_bus s)) (s_tb s) in
  let '(tb, rm) := host_poll (s_cyc s) tb (s_ring s, dram (b_mems (s_bus s))) in
  let '(sc, d, (rg, m), out) :=
    scsi_cycle scsi_service_run block_write stage_read ring_poll read_wr st_ok tgt_good scsihash disk_ok
      (s_cyc s) (scsi_port tb) snd (s_disk s) rm (s_scsi s) in
  SimServed (present out tb) sc d rg m out.
(** One iteration.  The image is written at the top of the iteration after the
    arming one. *)
Definition sim_cycle (s : sim) : sim + vsave :=
  if s_armed s then inr (save_image s)
  else
    let e := sim_serve s in
    let retired := if retire_valid (posedge (rsps (s_bus s)) (s_tb s)) then s_retired s + 1 else s_retired s in
    let armed := save_gate g_save_at (scsi_quiescent (sv_scsi e)) (s_armed s) retired (s_bus s) in
    let b := bus_step bc (s_cyc s) (ports (sv_tb e)) (host_write (sv_mem e) (s_bus s)) in
    inl (Sim (negedge (rsps b) (sv_tb e)) (sv_scsi e) (sv_disk e) (sv_ring e) b (s_cyc s + 1) retired armed).
(** [n] iterations at most. *)
Fixpoint sim_run (n : nat) (s : sim) : sim + vsave :=
  match n with
  | O => inl s
  | S n => match sim_cycle s with inl s => sim_run n s | inr v => inr v end
  end.
Definition disarm (s : sim) : sim :=
  Sim (s_tb s) (s_scsi s) (s_disk s) (s_ring s) (s_bus s) (s_cyc s) (s_retired s) false.
End Save.

Section SaveProofs.
Context {M Disk RingSt : Type}.
Variable posedge negedge : rsp * rsp -> M -> M.
Variable ports : M -> req * req.
Variable retire_valid : M -> bool.
Variable scsi_port : M -> scsi_req.
Variable present : list scsi_out -> M -> M.
Variable host_poll : Z -> M -> RingSt * mem -> M * (RingSt * mem).
Variable scsi_service_run : scsi_req -> Disk -> list Z -> scsi_rsp * list Z * bool * Z.
Variable block_write : Z -> list Z -> Disk -> Disk.
Variable stage_read : RingSt * mem -> list Z -> Z -> RingSt * mem.
Variable ring_poll : RingSt * mem -> Z -> option scsi_cqe * (RingSt * mem).
Variable read_wr : RingSt * mem -> nat -> list Z * (RingSt * mem).
Variable ring_init : RingSt.
Variables st_ok tgt_good : Z.
Variables scsihash disk_ok : bool.
Variable bc : cfg.
Abbreviation st := (sim (M:=M) (Disk:=Disk) (RingSt:=RingSt)).
Abbreviation image := (vsave (M:=M) (Disk:=Disk)).
Abbreviation serve := (sim_serve posedge scsi_port present host_poll scsi_service_run block_write stage_read ring_poll
  read_wr st_ok tgt_good scsihash disk_ok).
Abbreviation cycle := (sim_cycle posedge negedge ports retire_valid scsi_port present host_poll scsi_service_run block_write
  stage_read ring_poll read_wr st_ok tgt_good scsihash disk_ok bc).
Abbreviation run := (sim_run posedge negedge ports retire_valid scsi_port present host_poll scsi_service_run block_write
  stage_read ring_poll read_wr st_ok tgt_good scsihash disk_ok bc).
Abbreviation restored := (restore_image ring_init).

(** Equal up to latches no idle lane reads. *)
Definition sim_eqv (s s' : st) : Prop :=
  (s_tb s = s_tb s' /\ s_scsi s = s_scsi s' /\ s_disk s = s_disk s' /\ s_ring s = s_ring s') /\
  bus_eqv (s_bus s) (s_bus s') /\ s_cyc s = s_cyc s' /\ s_retired s = s_retired s' /\ s_armed s = s_armed s'.
Definition res_eqv (r r' : st + image) : Prop :=
  match r, r' with
  | inl s, inl s' => sim_eqv s s'
  | inr v, inr v' => v = v'
  | _, _ => False
  end.

Lemma bus_eqv_quiescent b b' : bus_eqv b b' -> bus_quiescent b = bus_quiescent b'.
Proof. intros (_ & _ & (E1 & E2 & _) & (E3 & E4 & _) & _). unfold bus_quiescent. by rewrite E1, E2, E3, E4. Qed.
Lemma bus_eqv_rsps b b' : bus_eqv b b' -> rsps b = rsps b'.
Proof. intros (_ & _ & _ & _ & E1 & E2 & _). unfold rsps. by rewrite E1, E2. Qed.
Lemma host_write_eqv m b b' : bus_eqv b b' -> bus_eqv (host_write m b) (host_write m b').
Proof.
  intros (E1 & E2 & E3 & E4 & E5 & E6 & E7). unfold host_write. rewrite E1.
  split; [done|]. by split_and!.
Qed.
Lemma save_image_eqv s s' : sim_eqv s s' -> save_image s = save_image s'.
Proof.
  intros ((E1 & _ & E0 & _) & (E2 & E3 & _ & _ & E4 & E5 & _) & E6 & E7 & _). unfold save_image. congruence.
Qed.
Lemma serve_eqv s s' : sim_eqv s s' -> serve s = serve s'.
Proof.
  intros ((E1 & E2 & E3 & E4) & Hb & E6 & _). unfold sim_serve.
  rewrite <- E1, <- E2, <- E3, <- E4, <- E6, <- (bus_eqv_rsps _ _ Hb). destruct Hb as (Em & _). by rewrite <- Em.
Qed.

Lemma sim_cycle_eqv at_ s s' : 0 <= s_cyc s -> sim_eqv s s' -> res_eqv (cycle at_ s) (cycle at_ s').
Proof.
  intros Hc Heq. unfold sim_cycle. rewrite <- (serve_eqv _ _ Heq).
  pose proof Heq as ((E1 & _) & E2 & E3 & E4 & E5). destruct (s_armed s) eqn:Ha; rewrite <- E5.
  - cbn. by apply save_image_eqv.
  - rewrite <- E1, <- E3, <- E4, <- (bus_eqv_rsps _ _ E2).
    pose proof (bus_step_eqv bc (s_cyc s) (ports (sv_tb (serve s))) _ _ Hc (host_write_eqv (sv_mem (serve s)) _ _ E2)) as Hb.
    cbn [res_eqv]. rewrite <- (bus_eqv_rsps _ _ Hb).
    unfold save_gate. rewrite <- (bus_eqv_quiescent _ _ E2). split; [done|]. split; [exact Hb|done].
Qed.
Lemma sim_cycle_cyc at_ s s2 : cycle at_ s = inl s2 -> s_cyc s2 = s_cyc s + 1.
Proof. unfold sim_cycle. destruct (s_armed s); [done|]. by intros [= <-]. Qed.
Lemma sim_run_eqv at_ n s s' : 0 <= s_cyc s -> sim_eqv s s' -> res_eqv (run at_ n s) (run at_ n s').
Proof.
  revert s s'; induction n as [|n IH]; intros s s' Hc Heq; cbn [sim_run]; [done|].
  pose proof (sim_cycle_eqv at_ s s' Hc Heq) as Hr. pose proof (sim_cycle_cyc at_ s) as Hn.
  destruct (cycle at_ s) as [s2|v], (cycle at_ s') as [s2'|v']; try done.
  apply IH; [|done]. rewrite (Hn s2); [lia|done].
Qed.

(** A quiescent bus on which no request rises stays quiescent. *)
Lemma quiet_step_quiescent cyc rqs b :
  0 <= cyc -> bus_quiescent b = true -> rq_valid (fst rqs) = false -> rq_valid (snd rqs) = false ->
  bus_quiescent (bus_step bc cyc rqs b) = true.
Proof.
  intros Hc Hq H0 H1. destruct rqs as [r0 r1]. cbn in H0, H1. unfold bus_quiescent in *. bool_props.
  destruct b as [ms ml [p0 v0 ? ? ? ? ? ? ?] [p1 v1 ? ? ? ? ? ? ?] ? ? ? ? ?]; cbn in *. subst.
  unfold bus_step, lane0_accept, lane1_accept, lane0_reply, lane1_reply. rewrite H0, H1.
  cbn [andb b_lane0 b_lane1 l_reply l_prev]. rewrite (proj2 (Z.eqb_neq (-1) cyc)) by lia.
  cbn. by rewrite ?H0, ?H1.
Qed.
Lemma restore_image_eqv (s : st) :
  bus_quiescent (s_bus s) = true -> iss (b_mems (s_bus s)) = None -> b_halted (s_bus s) = false ->
  s_scsi s = scsi_init -> s_ring s = ring_init -> sim_eqv (disarm s) (restored (save_image s)).
Proof.
  intros Hq Hi Hh Hs Hr. unfold bus_quiescent in Hq. bool_props.
  destruct s as [tb sc dk rg [[d i] ml [r0 v0 ? ? ? ? ? ? ?] [r1 v1 ? ? ? ? ? ? ?] ? ? ? ? ?] c r a]; cbn in *. subst.
  repeat split; cbn; done.
Qed.
Lemma armed_quiescent at_ (s s2 : st) :
  0 <= s_cyc s -> s_armed s = false -> cycle at_ s = inl s2 -> s_armed s2 = true ->
  rq_valid (fst (ports (sv_tb (serve s)))) = false -> rq_valid (snd (ports (sv_tb (serve s)))) = false ->
  bus_quiescent (s_bus s2) = true.
Proof.
  intros Hc Ha E Ha2 H0 H1. unfold sim_cycle in E. rewrite Ha in E. injection E as <-. cbn [s_bus s_armed] in *.
  apply quiet_step_quiescent; [done| |done|done]. unfold save_gate in Ha2. cbn [orb] in Ha2. by apply andb_prop in Ha2 as [_ ?].
Qed.

End SaveProofs.

(** ** The gate is tested before the cycle's bus servicing *)

(** A core that raises a load at cycle 3, holds it until it is answered and
    counts the cycles it waited; it rings no doorbell and no service has work. *)
Record toy := Toy { t_cyc : Z; t_req : bool; t_waited : Z; t_answered : bool }.
Definition toy_posedge (p : rsp * rsp) (t : toy) : toy :=
  let ans := rs_valid (fst p) in
  let req := (t_req t || (t_cyc t =? 3)) && negb ans in
  Toy (t_cyc t + 1) req (if t_req t then t_waited t + 1 else t_waited t) (t_answered t || ans).
Definition toy_ports (t : toy) : req * req := (Req (t_req t) 0x08000040 4 0 [], Req false 0 0 0 []).
Definition toy_cmd (q : scsi_req) (d : unit) (b : list Z) : scsi_rsp * list Z * bool * Z :=
  (ScsiRsp 0 0 0x42 0 SCSI_DONE_COMPLETE, [], false, 0).
(** [seq]: the doorbell number on the mailbox ports. *)
Definition toy_run (seq : Z) :=
  sim_run toy_posedge (fun _ t => t) toy_ports (fun _ => true) (fun _ => ScsiReq seq 0 0 [] 0 0 0) (fun _ t => t)
    (fun _ t x => (t, x)) toy_cmd (fun _ _ d => d) (fun (r : unit * mem) _ _ => r) (fun r _ => (None, r))
    (fun r n => (repeat 0 n, r)) 0x16 0 false true (Cfg 2 40 false).
Definition toy_start : sim := Sim (Toy 0 false 0 false) scsi_init tt tt (bus_init (Mems ∅ None) 1) 0 0 false.
(** Cycles the load waited. *)
Definition waited (r : sim (M:=toy) (Disk:=unit) (RingSt:=unit) + vsave (M:=toy) (Disk:=unit)) : option (Z * bool) :=
  match r with inl s => Some (t_waited (s_tb s), t_answered (s_tb s)) | inr _ => None end.

(** The arming test runs before bus servicing and is not repeated: a request
    accepted in the arming cycle is in flight when the image is written.  The
    restored run accepts it a second time and draws a second latency, so the load
    is answered at a different time than without the save. *)
Theorem save_gate_misses_request :
  exists s v, toy_run 0 4 4 toy_start = inl s /\ s_armed s = true /\ bus_quiescent (s_bus s) = false /\
    toy_run 0 4 5 toy_start = inr v /\
    waited (toy_run 0 0 100 toy_start) <> waited (toy_run 0 0 96 (restore_image tt v)).
Proof.
  destruct (toy_run 0 4 4 toy_start) as [s|?] eqn:E1; [|by vm_compute in E1].
  destruct (toy_run 0 4 5 toy_start) as [?|v] eqn:E2; [by vm_compute in E2|].
  exists s, v. split; [done|]. vm_compute in E1, E2. injection E1 as <-. injection E2 as <-.
  split; [done|]. split; [done|]. split; [done|]. by vm_compute.
Qed.
Definition toy_serve (seq : Z) :=
  sim_serve toy_posedge (fun _ => ScsiReq seq 0 0 [] 0 0 0) (fun _ t => t) (fun _ t x => (t, x)) toy_cmd (fun _ _ d => d)
    (fun (r : unit * mem) _ _ => r) (fun r _ => (None, r)) (fun r n => (repeat 0 n, r)) 0x16 0 false true.
(** The second half: doorbell 5, answered before the save, is served again. *)
Example restore_replays_doorbell :
  exists s2 v s3, toy_run 5 1 1 toy_start = inl s2 /\ s_last_seq (s_scsi s2) = 5 /\ toy_run 5 1 2 toy_start = inr v /\
    toy_run 5 0 1 (restore_image tt v) = inl s3 /\ s_last_seq (s_scsi (restore_image (RingSt:=unit) tt v)) = 0 /\
    s_last_seq (s_scsi s3) = 5.
Proof.
  destruct (toy_run 5 1 1 toy_start) as [s2|?] eqn:E1; [|by vm_compute in E1].
  destruct (toy_run 5 1 2 toy_start) as [?|v] eqn:E2; [by vm_compute in E2|].
  destruct (toy_run 5 0 1 (restore_image tt v)) as [s3|?] eqn:E3; [|vm_compute in E2; injection E2 as <-; by vm_compute in E3].
  exists s2, v, s3. vm_compute in E1, E2. injection E1 as <-. injection E2 as <-. vm_compute in E3. injection E3 as <-. done.
Qed.

(** ** The verify gate *)

(** [hit], [g_verify_target] and the preamble's address; [pc = 0] when
    PREAMBLE_PC is not set.  The flag is the compare, which ends the run. *)
Record vgate := VGate { vg_hit : bool; vg_target : Z }.
Definition verify_gate (preamble_pc : Z) (verify : bool) (retire_pc : option Z) (retired : Z) (g : vgate) : vgate * bool :=
  let hit := negb (preamble_pc =? 0) && negb (vg_hit g) &&
             match retire_pc with Some pc => u32 pc =? preamble_pc | None => false end in
  let g := if hit then VGate true (if verify then u64 (vg_target g + retired) else vg_target g) else g in
  (g, verify && (vg_target g <=? retired)).
(** The loop over the head retirements of its cycles: the number of cycles run
    when the compare fires. *)
Fixpoint verify_run (preamble_pc : Z) (heads : list (option Z)) (retired : Z) (g : vgate) : option nat :=
  match heads with
  | [] => None
  | h :: t =>
      let retired := match h with Some _ => retired + 1 | None => retired end in
      let '(g, fire) := verify_gate preamble_pc true h retired g in
      if fire then Some 1%nat else option_map S (verify_run preamble_pc t retired g)
  end.

Definition head_count (heads : list (option Z)) : Z := Z.of_nat (length (omap id heads)).
Definition is_hit (preamble_pc : Z) (h : option Z) : bool :=
  match h with Some pc => u32 pc =? preamble_pc | None => false end.
Lemma head_count_cons h t : head_count (h :: t) = match h with Some _ => 1 | None => 0 end + head_count t.
Proof. unfold head_count. destruct h; cbn [omap list_omap id]; [|lia]. cbn [length]. lia. Qed.
Lemma head_count_0 t : head_count (take 0 t) = 0.
Proof. done. Qed.
Lemma head_count_nonneg t : 0 <= head_count t.
Proof. unfold head_count. lia. Qed.

(** Without a hit ahead the gate waits for its target. *)
Lemma verify_run_plain pc heads retired g n :
  pc = 0 \/ vg_hit g = true ->
  verify_run pc heads retired g = Some n <->
  (0 < n <= length heads)%nat /\ vg_target g <= retired + head_count (take n heads) /\
  forall k, (0 < k < n)%nat -> retired + head_count (take k heads) < vg_target g.
Proof.
  intros Hp. assert (forall h, negb (pc =? 0) && negb (vg_hit g) && is_hit pc h = false) as Hno.
  { intros h. destruct Hp as [->| ->]; cbn; [done|]. by rewrite andb_false_r. }
  revert retired n; induction heads as [|h t IH]; intros retired n; cbn [verify_run].
  - split; [done|]. cbn. lia.
  - set (r := match h with Some _ => retired + 1 | None => retired end).
    unfold verify_gate. fold (is_hit pc h). rewrite Hno. cbn [andb].
    assert (forall k, retired + head_count (take (S k) (h :: t)) = r + head_count (take k t)) as Hk.
    { intros k. cbn [take]. rewrite head_count_cons. unfold r. destruct h; lia. }
    destruct (vg_target g <=? r) eqn:E; bool_props.
    + split.
      * intros [= <-]. rewrite Hk, head_count_0. cbn [length]. split_and!; lia.
      * intros (Hn & Ht & Hlt). destruct n as [|[|n]]; [lia|done|].
        specialize (Hlt 1%nat ltac:(lia)). rewrite Hk, head_count_0 in Hlt. lia.
    + destruct n as [|n].
      { split; [|lia]. by destruct (verify_run _ _ _ _). }
      rewrite Hk. transitivity (verify_run pc t r g = Some n).
      { destruct (verify_run pc t r g); cbn; split; congruence. }
      rewrite IH. cbn [length]. split; intros (Hn & Ht & Hlt).
      * split; [lia|]. split; [done|]. intros [|[|k]] Hk'; [lia| |].
        -- rewrite Hk, head_count_0. lia.
        -- rewrite Hk. apply Hlt. lia.
      * assert (n <> 0%nat) as Hn0. { intros ->. rewrite head_count_0 in Ht. lia. }
        split; [lia|]. split; [done|]. intros k Hk'. rewrite <- Hk. apply Hlt. lia.
Qed.

(** [n] is the first number of cycles in which [T] head retirements happen. *)
Definition first_reach (T : Z) (heads : list (option Z)) (n : nat) : Prop :=
  (0 < n <= length heads)%nat /\ T <= head_count (take n heads) /\
  forall k, (0 < k < n)%nat -> head_count (take k heads) < T.

Lemma verify_run_before pc pre t retired g :
  (forall h, h ∈ pre -> is_hit pc h = false) -> retired + head_count pre < vg_target g ->
  verify_run pc (pre ++ t) retired g = option_map (Nat.add (length pre)) (verify_run pc t (retired + head_count pre) g).
Proof.
  revert retired; induction pre as [|h pre IH]; intros retired Hh Hc; cbn [app length verify_run].
  - unfold head_count; cbn. rewrite Z.add_0_r. by destruct (verify_run _ _ _ _).
  - rewrite head_count_cons in *. pose proof (head_count_nonneg pre).
    unfold verify_gate. fold (is_hit pc h). rewrite Hh, andb_false_r by set_solver.
    cbn [andb]. rewrite (proj2 (Z.leb_gt _ _)) by (destruct h; lia).
    rewrite IH; [|set_solver|destruct h; lia].
    replace (match h with Some _ => retired + 1 | None => retired end + head_count pre)
      with (retired + (match h with Some _ => 1 | None => 0 end + head_count pre)) by (destruct h; lia).
    by destruct (verify_run _ _ _ _).
Qed.

(** C23.  The compare happens exactly once its window is over.
    Resumed from a checkpoint, the run ends with the first cycle in which the
    target number of head retirements is reached.  Resumed through a preamble
    that is shorter than the window, it ends with the first cycle in which that
    many have followed the retirement of the checkpoint's PC, however many the
    preamble took. *)
Theorem verify_window_exact (pc p T : Z) (pre rest : list (option Z)) (n : nat) :
  pc <> 0 -> u32 p = pc -> (forall h, h ∈ pre -> is_hit pc h = false) ->
  0 < T -> head_count pre < T -> T + head_count pre + 1 < 2 ^ 64 ->
  (verify_run 0 rest 0 (VGate false T) = Some n <-> first_reach T rest n) /\
  (verify_run pc (pre ++ Some p :: rest) 0 (VGate false T) = Some (length pre + S n)%nat <-> first_reach T rest n).
Proof.
  intros Hpc Hp Hpre HT Hc Hw. split.
  - rewrite verify_run_plain by (by left). done.
  - rewrite verify_run_before by done. cbn [verify_run]. pose proof (head_count_nonneg pre).
    unfold verify_gate. rewrite Hp, Z.eqb_refl, (proj2 (Z.eqb_neq pc 0)) by done.
    cbn [andb negb vg_hit vg_target]. rewrite u64_small by (cbn in *; lia).
    rewrite (proj2 (Z.leb_gt _ _)) by lia.
    transitivity (verify_run pc rest (0 + head_count pre + 1) (VGate true (T + (0 + head_count pre + 1))) = Some n).
    { destruct (verify_run _ _ _ _); cbn; [|done].
      split; [intros [= E]; f_equal; lia|intros [= ->]; done]. }
    rewrite verify_run_plain by (by right). cbn [vg_target]. unfold first_reach.
    split; intros (H1 & H2 & H3); split_and!; try lia; intros k Hk; specialize (H3 k Hk); lia.
Qed.
Lemma verify_window_exact_witness :
  verify_run 0x100 ([Some 4; None; Some 8] ++ Some 0x100 :: map Some [0x104; 0x108; 0x10c; 0x110]) 0 (VGate false 3)
  = Some (3 + 4)%nat.
Proof.
  apply (verify_window_exact 0x100 0x100 3 [Some 4; None; Some 8] (map Some [0x104; 0x108; 0x10c; 0x110]) 3); try done.
  - intros h Hh. repeat (apply elem_of_cons in Hh as [->|Hh]; [done|]). by apply elem_of_nil in Hh.
  - split; [cbn; lia|]. split; [by vm_compute|]. intros [|[|[|k]]] Hk; try lia; by vm_compute.
Defined.

(** The offset counts the checkpoint PC's own retirement to the preamble,
    so the window after a preamble is one instruction longer than the window
    after a direct resume, which starts with that instruction. *)
Theorem preamble_window_one_long :
  let code := map Some [0x100; 0x104; 0x108; 0x10c; 0x110] in
  verify_run 0 code 0 (VGate false 3) = Some 3%nat /\
  verify_run 0x100 ([Some 4; Some 8] ++ code) 0 (VGate false 3) = Some (2 + 4)%nat.
Proof. by vm_compute. Qed.
(** A window shorter than the preamble is compared before the state is
    restored; without a resume image the target is 0 and the first cycle ends
    the run; a checkpoint PC retired in the second slot is never seen. *)
Theorem verify_gate_early :
  verify_run 0x100 (map Some [4; 8; 12; 0x100; 0x104]) 0 (VGate false 3) = Some 3%nat /\
  verify_run 0 [None; Some 4] 0 (VGate false 0) = Some 1%nat /\
  verify_run 0x100 [Some 4; Some 0xfc; Some 0x104; Some 0x108] 0 (VGate false 3) = Some 3%nat.
Proof. by vm_compute. Qed.
