(* ===== verification/MainLoop.v ===== *)
(** * MainLoop: the run loop of main() as a whole

    One iteration of the main loop of sim/henry_tb.cpp with every part that can end
    the run or that shares state with another part, in the order of the code: the
    save gate, the monitor, the DPI hooks of the clock edge, the retirement counters
    and the watchdog, the verify gate, the checker block, the SCSI servicer, the save
    gate's arming test and bus servicing.  The recorders and printing probes only read
    what passes by and are left to their own files.  The RTL is an input: what it
    shows the loop in each cycle. *)
From S2P Require Import Prelude AddressMap GuestMem MemBus Checkpoint StoreCheck TlbMirror Checker Scsi Ctrace Monitor Retire Cosim Verdict Gates.

(** What one iteration sees from outside: the monitor's socket (at the top and while
    frozen), the DPI hooks, the ports of the model, and [$finish]. *)
Record tick := Tick {
  k_poll : poll_in; k_frozen : list poll_in;
  k_stores : list store_rec; k_tlb : list pend_tlb_t; k_timer : bool;
  k_slots : rcycle; k_pc : Z; k_lv : bool;
  k_count : Z; k_epc : Z; k_badv : Z; k_cause : Z; k_cause_ip : Z;
  k_scsi : scsi_req; k_reqs : req * req; k_finish : bool }.
Definition ret_of (p : port) : ret := Ret (p_pc p) (p_rv p) (p_rp p) (p_rd p).
Definition rtl_of (k : tick) : rtl_cycle :=
  RtlCycle (option_map ret_of (slot0 (k_slots k))) (option_map ret_of (slot1 (k_slots k)))
    (k_count k) (k_epc k) (k_badv k) (k_cause k) (k_cause_ip k).

Section Main.
Context {R Disk RingSt : Type}.
Variable execMips : iss R -> iss R * list store_rec.
Variable raise_int : iss R -> Z -> Z -> iss R.
Variable last_ld_va : iss R -> Z.
Variable apply_tlb_write : iss R -> pend_tlb_t -> iss R.
(** The SCSI service headers; the staging slots are in DRAM.  [host_poll] is the polls of
    the other services, on the same rings and slots; what they read besides (tap, station
    address, keyboard) is given by the cycle. *)
Variable scsi_service_run : scsi_req -> Disk -> list Z -> scsi_rsp * list Z * bool * Z.
Variable block_write : Z -> list Z -> Disk -> Disk.
Variable stage_read : RingSt * mem -> list Z -> Z -> RingSt * mem.
Variable ring_poll : RingSt * mem -> Z -> option scsi_cqe * (RingSt * mem).
Variable read_wr : RingSt * mem -> nat -> list Z * (RingSt * mem).
Variable host_poll : Z -> RingSt * mem -> RingSt * mem.
Variables st_ok tgt_good : Z.
(** Options and knobs. *)
Variables checker no_mapskip no_sc_stop scsihash disk_ok : bool.
Variables gprchk gprchk_poison sc_max : Z.
Variable ck : option cp_header.
Variable bc : cfg.
Variables max_cyc max_icnt NO_RETIRE_LIMIT g_save_at preamble_pc : Z.
Variable verify : bool.

Record main := Main {
  n_loop : loop_st; n_finish : bool; n_armed : bool; n_mon : mon; n_timer : list Z; n_vg : vgate;
  n_gate : gate; n_pend : list pend_tlb_t; n_chk : chk R;
  n_scsi : scsi_state; n_disk : Disk; n_ring : RingSt; n_out : list scsi_out; n_bus : bus }.
Definition n_cyc (w : main) : Z := l_cyc (n_loop w).
Definition n_mem (w : main) : mem := dram (b_mems (n_bus w)).

(** How the loop is left: its condition fails, or one of its [break]s; [Frozen] is a
    halted monitor whose socket has nothing more to say. *)
Inductive exit := Done (w : main) | Saved (w : main) | Verified (w : main) | StoreStop (w : main) | Frozen (w : main).
Definition last_state (e : exit) : main :=
  match e with Done w | Saved w | Verified w | StoreStop w | Frozen w => w end.

Definition main_cond (w : main) : bool := loop_cond max_cyc max_icnt (n_loop w) && negb (n_finish w).
Definition loop_at (cyc : Z) (halt : bool) (l : loop_st) : loop_st :=
  LoopSt cyc (l_retired l) (l_last_pc l) (l_last_retire_cyc l) (l_halted l || halt) (l_deadlock l).

(** The monitor at the top of the iteration; [None] = frozen for good. *)
Definition mon_section (mon_on : bool) (k : tick) (w : main) : option mon :=
  if mon_on then
    let ss := if checker then Some (c_ss (n_chk w)) else None in
    mon_freeze ss (n_mem w) (n_timer w) (k_frozen k)
      (mon_top ss (n_mem w) (n_timer w) (k_poll k) (n_cyc w) (l_retired (n_loop w)) (l_last_pc (n_loop w)) (n_mon w))
  else Some (n_mon w).
(** The DPI hooks of the clock edge, then the counters. *)
Definition edge_section (k : tick) (mo : mon) (w : main) : main :=
  Main (loop_at (n_cyc w) false (loop_step NO_RETIRE_LIMIT (k_lv k) (k_slots k) (n_loop w)))
    (n_finish w || k_finish k) (n_armed w) mo (if k_timer k then n_timer w ++ [n_cyc w] else n_timer w) (n_vg w)
    (n_gate w) (if checker then n_pend w ++ k_tlb k else n_pend w)
    (with_st (n_chk w) (foldl (fun st x => wr_log checker x st) (c_st (n_chk w)) (k_stores k)))
    (n_scsi w) (n_disk w) (n_ring w) (n_out w) (n_bus w).
Definition with_vg (vg : vgate) (w : main) : main :=
  Main (n_loop w) (n_finish w) (n_armed w) (n_mon w) (n_timer w) vg (n_gate w) (n_pend w) (n_chk w)
    (n_scsi w) (n_disk w) (n_ring w) (n_out w) (n_bus w).
Definition step_section (k : tick) (w : main) : main :=
  Main (n_loop w) (n_finish w) (n_armed w) (mon_step_done (l_retired (n_loop w)) (k_pc k) (n_mon w)) (n_timer w) (n_vg w)
    (n_gate w) (n_pend w) (n_chk w) (n_scsi w) (n_disk w) (n_ring w) (n_out w) (n_bus w).
Definition chk_section (k : tick) (w : main) : main * bool :=
  if checker then
    let '(g, q, c, stop) :=
      checker_cycle execMips raise_int last_ld_va apply_tlb_write no_mapskip gprchk gprchk_poison ck sc_max no_sc_stop
        (rtl_of k) (n_gate w) (n_pend w) (n_chk w) in
    (Main (n_loop w) (n_finish w) (n_armed w) (n_mon w) (n_timer w) (n_vg w) g q c
       (n_scsi w) (n_disk w) (n_ring w) (n_out w) (n_bus w), stop)
  else (w, false).
(** The SCSI servicer, working on DRAM through the staging ring. *)
(** The polls before it: Ethernet, GIO window, Ethernet. *)
Definition host_section (w : main) : main :=
  let '(rg, m) := host_poll (n_cyc w) (n_ring w, n_mem w) in
  Main (n_loop w) (n_finish w) (n_armed w) (n_mon w) (n_timer w) (n_vg w) (n_gate w) (n_pend w) (n_chk w)
    (n_scsi w) (n_disk w) rg (n_out w) (host_write m (n_bus w)).
Definition scsi_section (k : tick) (w : main) : main :=
  let '(s, d, (rg, m), out) :=
    scsi_cycle scsi_service_run block_write stage_read ring_poll read_wr st_ok tgt_good scsihash disk_ok
      (n_cyc w) (k_scsi k) snd (n_disk w) (n_ring w, n_mem w) (n_scsi w) in
  Main (n_loop w) (n_finish w) (n_armed w) (n_mon w) (n_timer w) (n_vg w) (n_gate w) (n_pend w) (n_chk w)
    s d rg (n_out w ++ out) (host_write m (n_bus w)).
(** The services of the iteration in their order. *)
Definition service_section (k : tick) (w : main) : main := scsi_section k (host_section w).
(** The arming test, then the two lanes and [cyc++]. *)
Definition bus_section (k : tick) (w : main) : main :=
  let armed := save_gate g_save_at (scsi_quiescent (n_scsi w)) (n_armed w) (l_retired (n_loop w)) (n_bus w) in
  let '(b, s) :=
    if checker then bus_cycle bc (n_cyc w) id (k_reqs k) (n_bus w) (c_ss (n_chk w))
    else (bus_step bc (n_cyc w) (k_reqs k) (bus_with_iss id (n_bus w) None), c_ss (n_chk w)) in
  Main (loop_at (n_cyc w + 1) (b_halted b) (n_loop w)) (n_finish w) armed (n_mon w) (n_timer w) (n_vg w)
    (n_gate w) (n_pend w) (with_ss (n_chk w) s) (n_scsi w) (n_disk w) (n_ring w) (n_out w) b.

Definition main_cycle (mon_on : bool) (k : tick) (w : main) : main + exit :=
  if n_armed w then inr (Saved w)
  else
    match mon_section mon_on k w with
    | None => inr (Frozen w)
    | Some mo =>
        let w := edge_section k mo w in
        let '(vg, fire) := verify_gate preamble_pc verify (option_map p_pc (slot0 (k_slots k))) (l_retired (n_loop w)) (n_vg w) in
        let w := with_vg vg w in
        if fire then inr (Verified w)
        else
          let '(w, stop) := chk_section k (step_section k w) in
          if stop then inr (StoreStop w) else inl (bus_section k (service_section k w))
    end.
(** [ks c] is what the outside shows in cycle [c]; [None] = out of fuel. *)
Fixpoint main_run (mon_on : bool) (ks : Z -> tick) (fuel : nat) (w : main) : option exit :=
  match fuel with
  | O => None
  | S n =>
      if main_cond w then
        match main_cycle mon_on (ks (n_cyc w)) w with
        | inl w => main_run mon_on ks n w
        | inr e => Some e
        end
      else Some (Done w)
  end.

(** The closing line of the run. *)
Inductive final_word := Wedged | Halted | ReachedMax.
Definition closing (e : exit) : final_word :=
  let l := n_loop (last_state e) in
  if l_deadlock l then Wedged else if l_halted l then Halted else ReachedMax.
End Main.

Section MainLemmas.
Context {R Disk RingSt : Type}.
Variable execMips : iss R -> iss R * list store_rec.
Variable raise_int : iss R -> Z -> Z -> iss R.
Variable last_ld_va : iss R -> Z.
Variable apply_tlb_write : iss R -> pend_tlb_t -> iss R.
Variable scsi_service_run : scsi_req -> Disk -> list Z -> scsi_rsp * list Z * bool * Z.
Variable block_write : Z -> list Z -> Disk -> Disk.
Variable stage_read : RingSt * mem -> list Z -> Z -> RingSt * mem.
Variable ring_poll : RingSt * mem -> Z -> option scsi_cqe * (RingSt * mem).
Variable read_wr : RingSt * mem -> nat -> list Z * (RingSt * mem).
Variable host_poll : Z -> RingSt * mem -> RingSt * mem.
Variables st_ok tgt_good : Z.
Variables checker no_mapskip no_sc_stop scsihash disk_ok : bool.
Variables gprchk gprchk_poison sc_max : Z.
Variable ck : option cp_header.
Variable bc : cfg.
Variables max_cyc max_icnt NO_RETIRE_LIMIT g_save_at preamble_pc : Z.
Variable verify : bool.
Abbreviation cycle chk := (main_cycle execMips raise_int last_ld_va apply_tlb_write scsi_service_run block_write stage_read
  ring_poll read_wr host_poll st_ok tgt_good chk no_mapskip no_sc_stop scsihash disk_ok gprchk gprchk_poison sc_max ck bc
  NO_RETIRE_LIMIT g_save_at preamble_pc verify).
Abbreviation run chk := (main_run execMips raise_int last_ld_va apply_tlb_write scsi_service_run block_write stage_read
  ring_poll read_wr host_poll st_ok tgt_good chk no_mapskip no_sc_stop scsihash disk_ok gprchk gprchk_poison sc_max ck bc
  max_cyc max_icnt NO_RETIRE_LIMIT g_save_at preamble_pc verify).
Abbreviation scsi := (service_section scsi_service_run block_write stage_read ring_poll read_wr host_poll st_ok tgt_good scsihash disk_ok).
Abbreviation check chk := (chk_section execMips raise_int last_ld_va apply_tlb_write chk no_mapskip no_sc_stop gprchk
  gprchk_poison sc_max ck).
Abbreviation edge chk := (edge_section chk NO_RETIRE_LIMIT).
Abbreviation st := (@main R Disk RingSt).

(** ** How an iteration ends *)

(** Up to and including the edge and the verify gate. *)
Definition gated (chk : bool) (k : tick) (mo : mon) (w : st) : st * bool :=
  let w := edge chk k mo w in
  let '(vg, fire) := verify_gate preamble_pc verify (option_map p_pc (slot0 (k_slots k))) (l_retired (n_loop w)) (n_vg w) in
  (with_vg vg w, fire).
Lemma main_cycle_gated chk mon_on k (w : st) :
  cycle chk mon_on k w =
  if n_armed w then inr (Saved w)
  else
    match mon_section chk mon_on k w with
    | None => inr (Frozen w)
    | Some mo =>
        let '(w1, fire) := gated chk k mo w in
        if fire then inr (Verified w1)
        else
          let '(w2, stop) := check chk k (step_section k w1) in
          if stop then inr (StoreStop w2) else inl (bus_section chk bc g_save_at k (scsi k w2))
    end.
Proof.
  unfold main_cycle, gated. destruct (n_armed w); [done|]. destruct (mon_section _ _ _ _); [|done]. cbv zeta.
  by destruct (verify_gate _ _ _ _ _).
Qed.
Lemma main_cycle_cases chk mon_on k (w : st) :
  match cycle chk mon_on k w with
  | inl w' => exists mo w1, n_armed w = false /\ gated chk k mo w = (w1, false) /\
      exists w2, check chk k (step_section k w1) = (w2, false) /\ w' = bus_section chk bc g_save_at k (scsi k w2)
  | inr (StoreStop w') => exists mo w1, gated chk k mo w = (w1, false) /\ check chk k (step_section k w1) = (w', true)
  | inr (Verified w') => exists mo, gated chk k mo w = (w', true)
  | inr (Saved w') | inr (Frozen w') => w' = w
  | inr (Done _) => False
  end.
Proof.
  rewrite main_cycle_gated. destruct (n_armed w) eqn:Ea; [done|].
  destruct (mon_section chk mon_on k w) as [mo|]; [|done].
  destruct (gated chk k mo w) as [w1 [|]] eqn:Eg; [by exists mo|].
  destruct (check chk k _) as [w2 [|]] eqn:Ec; exists mo, w1; [done|]. split_and!; try done. by exists w2.
Qed.

Lemma check_frame chk k (w w' : st) stop : check chk k w = (w', stop) ->
  n_loop w' = n_loop w /\ n_scsi w' = n_scsi w /\ n_disk w' = n_disk w /\ n_ring w' = n_ring w /\ n_bus w' = n_bus w /\
  n_armed w' = n_armed w /\ n_mon w' = n_mon w /\ n_timer w' = n_timer w /\ n_vg w' = n_vg w /\
  n_finish w' = n_finish w /\ n_out w' = n_out w.
Proof.
  unfold chk_section. destruct chk; [|by intros [= <- <-]].
  destruct (checker_cycle _ _ _ _ _ _ _ _ _ _ _ _ _ _) as [[[g q] c] s]. by intros [= <- <-].
Qed.
Lemma gated_frame chk k mo (w w1 : st) b : gated chk k mo w = (w1, b) ->
  n_cyc w1 = n_cyc w /\ n_scsi w1 = n_scsi w /\ n_disk w1 = n_disk w /\ n_ring w1 = n_ring w /\ n_bus w1 = n_bus w /\
  n_gate w1 = n_gate w /\ n_pend w1 = (if chk then n_pend w ++ k_tlb k else n_pend w) /\
  n_chk w1 = with_st (n_chk w) (foldl (fun st x => wr_log chk x st) (c_st (n_chk w)) (k_stores k)).
Proof. unfold gated. destruct (verify_gate _ _ _ _ _). by intros [= <- <-]. Qed.
Lemma host_frame (w : st) : let w' := host_section host_poll w in
  n_loop w' = n_loop w /\ n_gate w' = n_gate w /\ n_pend w' = n_pend w /\ n_chk w' = n_chk w.
Proof. unfold host_section. by destruct (host_poll _ _). Qed.
Lemma scsi_frame k (w : st) :
  n_loop (scsi k w) = n_loop w /\ n_gate (scsi k w) = n_gate w /\ n_pend (scsi k w) = n_pend w /\ n_chk (scsi k w) = n_chk w.
Proof.
  unfold service_section, scsi_section. destruct (host_frame w) as (<- & <- & <- & <-).
  by destruct (scsi_cycle _ _ _ _ _ _ _ _ _ _ _ _ _ _ _) as [[[? ?] [? ?]] ?].
Qed.

Lemma main_cycle_cyc chk mon_on k w w' : cycle chk mon_on k w = inl w' -> n_cyc w' = n_cyc w + 1.
Proof.
  intros H. pose proof (main_cycle_cases chk mon_on k w) as P. rewrite H in P.
  destruct P as (mo & w1 & _ & Hg & w2 & Hc & ->). apply gated_frame in Hg as [Hg _]. apply check_frame in Hc as [Hc _].
  unfold bus_section. destruct (if chk then _ else _) as [b s]. unfold n_cyc in *. cbn [n_loop loop_at l_cyc].
  by rewrite (proj1 (scsi_frame k w2)), Hc, <- Hg.
Qed.

(** ** The checker's view of the run *)

(** The loop as the composed cycle of [Cosim] sees it; the servicer's writes are
    those of the same cycle. *)
Definition co (w : st) : cosim := Cosim (n_cyc w) (n_gate w) (n_pend w) (n_chk w) (n_bus w).
Definition ci_of (k : tick) (w : st) : cyc_in :=
  CycIn (k_stores k) (k_tlb k) (rtl_of k) (fun _ => n_mem (scsi k w)) (k_reqs k).
(** The cycles of a run that reached the checker block. *)
Fixpoint executed (mon_on : bool) (ks : Z -> tick) (fuel : nat) (w : st) : list cyc_in :=
  match fuel with
  | O => []
  | S n =>
      if main_cond max_cyc max_icnt w then
        match cycle true mon_on (ks (n_cyc w)) w with
        | inl w' => ci_of (ks (n_cyc w)) w :: executed mon_on ks n w'
        | inr (StoreStop _) => [ci_of (ks (n_cyc w)) w]
        | inr _ => []
        end
      else []
  end.
Abbreviation ccycle := (cosim_cycle execMips raise_int last_ld_va apply_tlb_write no_mapskip gprchk gprchk_poison ck sc_max no_sc_stop bc).
Abbreviation crun := (cosim_run execMips raise_int last_ld_va apply_tlb_write no_mapskip gprchk gprchk_poison ck sc_max no_sc_stop bc).

Lemma host_same (w w' : st) :
  n_cyc w' = n_cyc w -> n_scsi w' = n_scsi w -> n_disk w' = n_disk w -> n_ring w' = n_ring w -> n_bus w' = n_bus w ->
  let h := host_section host_poll w in let h' := host_section host_poll w' in
  n_cyc h' = n_cyc h /\ n_scsi h' = n_scsi h /\ n_disk h' = n_disk h /\ n_ring h' = n_ring h /\ n_bus h' = n_bus h /\
  exists m, n_bus h = host_write m (n_bus w).
Proof.
  intros H1 H2 H3 H4 H5. unfold host_section, n_mem. rewrite H1, H4, H5. destruct (host_poll _ _) as [rg m].
  cbn. split_and!; try done. by exists m.
Qed.
Lemma scsi_mem k (w w' : st) :
  n_cyc w' = n_cyc w -> n_scsi w' = n_scsi w -> n_disk w' = n_disk w -> n_ring w' = n_ring w -> n_bus w' = n_bus w ->
  n_mem (scsi k w') = n_mem (scsi k w) /\ n_bus (scsi k w') = host_write (n_mem (scsi k w)) (n_bus w).
Proof.
  intros H1 H2 H3 H4 H5. destruct (host_same w w' H1 H2 H3 H4 H5) as (S1 & S2 & S3 & S4 & S5 & m & Hm).
  unfold service_section, scsi_section, n_mem. rewrite S1, S2, S3, S4, S5, Hm.
  by destruct (scsi_cycle _ _ _ _ _ _ _ _ _ _ _ _ _ _ _) as [[[? ?] [? ?]] ?].
Qed.
Lemma main_cycle_projects mon_on k w :
  match cycle true mon_on k w with
  | inl w' => ccycle (ci_of k w) (co w) = (co w', false)
  | inr (StoreStop w') => ccycle (ci_of k w) (co w) = (co w', true)
  | inr (Verified w') => view (n_chk w') = view (n_chk w) /\ c_k (n_chk w') = c_k (n_chk w)
  | inr (Saved w') | inr (Frozen w') => w' = w
  | inr (Done _) => False
  end.
Proof.
  pose proof (main_cycle_cases true mon_on k w) as P. unfold cosim_cycle.
  destruct (cycle true mon_on k w) as [w'|[w'|w'|w'|w'|w']]; try done.
  - destruct P as (mo & w1 & _ & Hg & w2 & Hc & ->).
    destruct (gated_frame _ _ _ _ _ _ Hg) as (G1 & G2 & G3 & G4 & G5 & G6 & G7 & G8).
    pose proof (check_frame _ _ _ _ _ Hc) as (C1 & C2 & C3 & C4 & C5 & _).
    cbn [step_section n_loop n_scsi n_disk n_ring n_bus] in C1, C2, C3, C4, C5.
    destruct (scsi_mem k w w2) as [_ Hb]; [unfold n_cyc in *; by rewrite C1|congruence..|].
    pose proof (scsi_frame k w2) as (S1 & S2 & S3 & S4).
    unfold chk_section in Hc. cbn [step_section n_gate n_pend n_chk] in Hc. rewrite G6, G7, G8 in Hc.
    cbn [co ci_of ci_stores ci_tlb ci_rtl ci_host ci_reqs w_chk w_gate w_pend w_cyc w_bus].
    destruct (checker_cycle _ _ _ _ _ _ _ _ _ _ _ _ _ _) as [[[g q] c] stop].
    assert (n_gate w2 = g /\ n_pend w2 = q /\ n_chk w2 = c /\ stop = false) as (D1 & D2 & D3 & ->)
      by (by injection Hc as <- ->).
    clear Hc. unfold bus_section, n_cyc. rewrite S4, S2, S3, S1, C1, D1, D2, D3, Hb.
    unfold bus_cycle, n_cyc in *. cbn [dram b_mems host_write bus_with_iss]. rewrite G1. reflexivity.
  - destruct P as (mo & Hg). destruct (gated_frame _ _ _ _ _ _ Hg) as (_ & _ & _ & _ & _ & _ & _ & ->). done.
  - destruct P as (mo & w1 & Hg & Hc).
    destruct (gated_frame _ _ _ _ _ _ Hg) as (G1 & G2 & G3 & G4 & G5 & G6 & G7 & G8).
    pose proof (check_frame _ _ _ _ _ Hc) as (C1 & _ & _ & _ & C5 & _).
    unfold chk_section in Hc. cbn [step_section n_gate n_pend n_chk n_loop n_bus] in *.
    cbn [co ci_of ci_stores ci_tlb ci_rtl w_chk w_gate w_pend w_cyc w_bus].
    rewrite G6, G7, G8 in Hc. destruct (checker_cycle _ _ _ _ _ _ _ _ _ _ _ _ _ _) as [[[g q] c] stop].
    injection Hc as <- ->. unfold co, n_cyc in *. cbn [n_chk n_gate n_pend n_loop n_bus] in *. by rewrite G1, G5.
Qed.

Lemma run_projects mon_on ks fuel : forall (w : st) e,
  run true mon_on ks fuel w = Some e ->
  let '(c', stopped) := crun (executed mon_on ks fuel w) (co w) in
  view (w_chk c') = view (n_chk (last_state e)) /\ c_k (w_chk c') = c_k (n_chk (last_state e)) /\
  (stopped = true <-> exists w', e = StoreStop w').
Proof.
  induction fuel as [|n IH]; intros w e H; cbn [main_run executed] in *; [done|].
  destruct (main_cond max_cyc max_icnt w).
  2: { injection H as <-. cbn. split_and!; try done. split; [done|]. by intros [? ?]. }
  pose proof (main_cycle_projects mon_on (ks (n_cyc w)) w) as P.
  destruct (cycle true mon_on (ks (n_cyc w)) w) as [w'|e'] eqn:E.
  - cbn [cosim_run]. rewrite P. by apply IH.
  - injection H as ->. destruct e as [w'|w'|w'|w'|w']; try done; try subst w'; cbn [cosim_run last_state].
    1,4: split_and!; try done; split; [done|by intros [? ?]].
    + destruct P as [P1 P2]. split_and!; try done; split; [done|by intros [? ?]].
    + rewrite P. split_and!; try done. split; [by exists w'|done].
Qed.
(** Enough fuel: one iteration per cycle that is left, and the last test. *)
Lemma main_run_total chk mon_on ks : forall n (w : st),
  max_cyc - n_cyc w <= Z.of_nat n -> exists e, run chk mon_on ks (S n) w = Some e.
Proof.
  induction n as [|n IH]; intros w Hn; cbn [main_run].
  - unfold main_cond, loop_cond. fold (n_cyc w). rewrite (proj2 (Z.ltb_ge _ _)) by lia. by eexists.
  - destruct (main_cond max_cyc max_icnt w); [|by eexists].
    destruct (cycle chk mon_on (ks (n_cyc w)) w) as [w'|e] eqn:E; [|by eexists].
    apply IH. rewrite (main_cycle_cyc _ _ _ _ _ E). lia.
Qed.

(** ** The monitor only watches *)

Definition set_mon (mo : mon) (w : st) : st :=
  Main (n_loop w) (n_finish w) (n_armed w) mo (n_timer w) (n_vg w) (n_gate w) (n_pend w) (n_chk w)
    (n_scsi w) (n_disk w) (n_ring w) (n_out w) (n_bus w).
Definition map_exit (f : st -> st) (e : exit) : exit :=
  match e with
  | Done w => Done (f w) | Saved w => Saved (f w) | Verified w => Verified (f w)
  | StoreStop w => StoreStop (f w) | Frozen w => Frozen (f w)
  end.
(** Two inputs that differ in what the monitor's client types. *)
Definition same_but_typed (k k' : tick) : Prop :=
  k' = Tick (k_poll k') (k_frozen k') (k_stores k) (k_tlb k) (k_timer k) (k_slots k) (k_pc k) (k_lv k) (k_count k)
    (k_epc k) (k_badv k) (k_cause k) (k_cause_ip k) (k_scsi k) (k_reqs k) (k_finish k).

Lemma check_mon chk k mo (w : st) :
  check chk k (set_mon mo w) = let '(w', s) := check chk k w in (set_mon mo w', s).
Proof.
  unfold chk_section. destruct chk; [|done]. cbn [set_mon n_gate n_pend n_chk].
  by destruct (checker_cycle _ _ _ _ _ _ _ _ _ _ _ _ _ _) as [[[g q] c] s].
Qed.
Lemma scsi_mon k mo (w : st) : scsi k (set_mon mo w) = set_mon mo (scsi k w).
Proof.
  assert (host_section host_poll (set_mon mo w) = set_mon mo (host_section host_poll w)) as Hh
    by (unfold host_section, n_cyc, n_mem; cbn [set_mon n_loop n_ring n_bus]; by destruct (host_poll _ _)).
  unfold service_section, scsi_section. rewrite Hh. unfold n_cyc, n_mem. cbn [set_mon n_loop n_scsi n_disk n_ring n_bus].
  by destruct (scsi_cycle _ _ _ _ _ _ _ _ _ _ _ _ _ _ _) as [[[? ?] [? ?]] ?].
Qed.
Lemma bus_mon chk k mo (w : st) :
  bus_section chk bc g_save_at k (set_mon mo w) = set_mon mo (bus_section chk bc g_save_at k w).
Proof. unfold bus_section, n_cyc. cbn [set_mon n_loop n_armed n_scsi n_bus n_chk]. by destruct (if chk then _ else _). Qed.
Lemma gated_mon chk k k' mo mo' m0 (w : st) :
  same_but_typed k k' -> gated chk k' mo' (set_mon m0 w) = (set_mon mo' (fst (gated chk k mo w)), snd (gated chk k mo w)).
Proof.
  intros Hk. rewrite Hk. unfold gated. cbv zeta.
  cbn [k_slots edge_section set_mon n_loop n_vg]. by destruct (verify_gate _ _ _ _ _).
Qed.
Lemma cycle_mon chk mon_on mon_on' k k' m0 (w : st) :
  same_but_typed k k' ->
  (forall w', cycle chk mon_on k w <> inr (Frozen w')) -> (forall w', cycle chk mon_on' k' (set_mon m0 w) <> inr (Frozen w')) ->
  exists m1, cycle chk mon_on' k' (set_mon m0 w) =
    match cycle chk mon_on k w with inl w' => inl (set_mon m1 w') | inr e => inr (map_exit (set_mon m1) e) end.
Proof.
  intros Hk. rewrite !main_cycle_gated. cbn [set_mon n_armed]. fold (set_mon m0 w).
  destruct (n_armed w); [intros; by exists m0|].
  destruct (mon_section chk mon_on k w) as [mo|]; [|intros H; by destruct (H w)].
  destruct (mon_section chk mon_on' k' (set_mon m0 w)) as [mo'|]; [|intros _ H; by destruct (H (set_mon m0 w))].
  intros _ _. rewrite (gated_mon chk k k' mo mo' m0 w Hk).
  destruct (gated chk k mo w) as [w1 [|]]; cbn [fst snd]; [by exists mo'|].
  set (m1 := mon_step_done (l_retired (n_loop w1)) (k_pc k') mo').
  assert (step_section k' (set_mon mo' w1) = set_mon m1 (step_section k w1)) as -> by done.
  assert (forall v, check chk k' v = check chk k v /\ scsi k' v = scsi k v /\
     bus_section chk bc g_save_at k' v = bus_section chk bc g_save_at k v) as Hsame by (by rewrite Hk).
  rewrite (proj1 (Hsame _)), check_mon. exists m1.
  destruct (check chk k (step_section k w1)) as [w2 [|]]; [done|].
  by rewrite (proj1 (proj2 (Hsame _))), (proj2 (proj2 (Hsame _))), scsi_mon, bus_mon.
Qed.
Lemma run_mon chk mon_on mon_on' ks ks' fuel : (forall c, same_but_typed (ks c) (ks' c)) -> forall m0 (w : st) e e',
  run chk mon_on ks fuel w = Some e -> run chk mon_on' ks' fuel (set_mon m0 w) = Some e' ->
  (forall w', e <> Frozen w') -> (forall w', e' <> Frozen w') ->
  exists m1, e' = map_exit (set_mon m1) e.
Proof.
  intros Hk. induction fuel as [|n IH]; intros m0 w e e' H H' He He'; cbn [main_run] in *; [done|].
  change (n_cyc (set_mon m0 w)) with (n_cyc w) in H'.
  change (main_cond max_cyc max_icnt (set_mon m0 w)) with (main_cond max_cyc max_icnt w) in H'.
  destruct (main_cond max_cyc max_icnt w); [|injection H as <-; injection H' as <-; by exists m0].
  destruct (cycle_mon chk mon_on mon_on' (ks (n_cyc w)) (ks' (n_cyc w)) m0 w (Hk _)) as [m1 E].
  { intros w' E. rewrite E in H. injection H as <-. by apply (He w'). }
  { intros w' E. rewrite E in H'. injection H' as <-. by apply (He' w'). }
  rewrite E in H'. destruct (cycle chk mon_on (ks (n_cyc w)) w) as [w'|e0].
  - by eapply IH.
  - injection H as <-. injection H' as <-. by exists m1.
Qed.
End MainLemmas.

(** ** Properties *)

Section MainTheorems.
Context {R Disk RingSt : Type}.
Variable execMips : iss R -> iss R * list store_rec.
Variable raise_int : iss R -> Z -> Z -> iss R.
Variable last_ld_va : iss R -> Z.
Variable apply_tlb_write : iss R -> pend_tlb_t -> iss R.
Variable scsi_service_run : scsi_req -> Disk -> list Z -> scsi_rsp * list Z * bool * Z.
Variable block_write : Z -> list Z -> Disk -> Disk.
Variable stage_read : RingSt * mem -> list Z -> Z -> RingSt * mem.
Variable ring_poll : RingSt * mem -> Z -> option scsi_cqe * (RingSt * mem).
Variable read_wr : RingSt * mem -> nat -> list Z * (RingSt * mem).
Variable host_poll : Z -> RingSt * mem -> RingSt * mem.
Variables st_ok tgt_good : Z.
Variables no_mapskip scsihash disk_ok : bool.
Variables gprchk gprchk_poison sc_max : Z.
Variable ck : option cp_header.
Variable bc : cfg.
Variables max_cyc max_icnt NO_RETIRE_LIMIT g_save_at preamble_pc : Z.
Variable verify : bool.
Abbreviation run chk no_sc_stop := (main_run execMips raise_int last_ld_va apply_tlb_write scsi_service_run block_write stage_read
  ring_poll read_wr host_poll st_ok tgt_good chk no_mapskip no_sc_stop scsihash disk_ok gprchk gprchk_poison sc_max ck bc
  max_cyc max_icnt NO_RETIRE_LIMIT g_save_at preamble_pc verify).
Abbreviation reached := (executed execMips raise_int last_ld_va apply_tlb_write scsi_service_run block_write stage_read
  ring_poll read_wr host_poll st_ok tgt_good no_mapskip false scsihash disk_ok gprchk gprchk_poison sc_max ck bc
  max_cyc max_icnt NO_RETIRE_LIMIT g_save_at preamble_pc verify).

(** C1.  The verdict of a --checker run is exact.  From a state whose gate is open
    and whose queues are empty the main loop ends within --maxcyc, or stays where the
    monitor's client halted it, whatever the RTL and the SCSI servicer do; and it ends without a store
    divergence and with every alarm counter unmoved iff, over the cycles that reached
    the checker, the RTL conforms to the golden model (every retirement explained by
    the model, which takes over the CP0 mirror, the TLB writes and the memory writes)
    and its committed stores agree with the model's wherever both streams have
    reached a position by the last drain. *)
Theorem main_verdict (mon_on : bool) (ks : Z -> tick) (w : main) :
  gate_active (n_gate w) = true -> n_pend w = [] -> c_st (n_chk w) = sc_init ->
  let fuel := S (Z.to_nat (max_cyc - n_cyc w)) in
  exists e, run true false mon_on ks fuel w = Some e /\
    ((forall w', e <> StoreStop w') /\ alarms (c_k (n_chk (last_state e))) = alarms (c_k (n_chk w)) <->
     exists m b sts,
       conforms execMips raise_int apply_tlb_write no_mapskip bc (reached mon_on ks fuel w) (n_cyc w) (view (n_chk w)) (n_bus w) m b sts /\
       ~ streams_disagree (seen_stores sts) (concat (map ci_stores (reached mon_on ks fuel w)))).
Proof.
  intros Hg Hq Hst fuel.
  destruct (main_run_total execMips raise_int last_ld_va apply_tlb_write scsi_service_run block_write stage_read ring_poll
    read_wr host_poll st_ok tgt_good no_mapskip false scsihash disk_ok gprchk gprchk_poison sc_max ck bc max_cyc max_icnt
    NO_RETIRE_LIMIT g_save_at preamble_pc verify true mon_on ks (Z.to_nat (max_cyc - n_cyc w)) w ltac:(lia)) as [e He].
  exists e. split; [exact He|]. apply run_projects in He. fold fuel in He.
  pose proof (verdict_exact execMips raise_int last_ld_va apply_tlb_write no_mapskip gprchk gprchk_poison ck sc_max bc
    (reached mon_on ks fuel w) (co w)) as V.
  destruct (cosim_run _ _ _ _ _ _ _ _ _ _ _ _ (co w)) as [c' stopped]. destruct He as (Hv & Hk & Hs).
  cbn [co w_gate w_pend w_chk w_cyc w_bus] in V. split.
  - intros [Hns Hal]. destruct (proj1 (V (view (w_chk c')) (w_bus c') Hg Hq Hst)) as (sts & Hc & Hag).
    + split_and!; try done; [|by rewrite Hk]. destruct stopped; [|done].
      destruct (proj1 Hs eq_refl) as [w' Hw]. by destruct (Hns w' Hw).
    + by exists (view (w_chk c')), (w_bus c'), sts.
  - intros (m & b & sts & Hc). destruct (proj2 (V m b Hg Hq Hst)) as (-> & Hal & _); [by exists sts|].
    rewrite <- Hk. split; [|done]. intros w' Hw. pose proof (proj2 Hs (ex_intro _ w' Hw)). done.
Qed.

(** C2.  The monitor only watches.  Two runs of the loop whose inputs differ in what
    the monitor's client types (halt, step, commands, disconnects), or of which only
    one has a monitor, and which are not left frozen, end the same way and in the same
    state but for the monitor's own. *)
Theorem monitor_transparent (chk no_sc_stop mon_on mon_on' : bool) (ks ks' : Z -> tick) (fuel : nat) (m0 : mon) (w : main) (e e' : exit) :
  (forall c, same_but_typed (ks c) (ks' c)) ->
  run chk no_sc_stop mon_on ks fuel w = Some e -> run chk no_sc_stop mon_on' ks' fuel (set_mon m0 w) = Some e' ->
  (forall w', e <> Frozen w') -> (forall w', e' <> Frozen w') ->
  exists m1, e' = map_exit (set_mon m1) e.
Proof. intros Hk H H'. by eapply run_mon. Qed.
End MainTheorems.

(** A loop over the storing model of [Cosim], no disk: [v] is what the RTL reports
    for the second instruction. *)
Definition sample_tick (v : Z) (poll : poll_in) (c : Z) : tick :=
  Tick poll [] [StoreRec (0x88000000 + 4 * c) 0x100 7] [] false
    (RCycle (Some (Port (0x88000000 + 4 * c) true 2 (if c =? 1 then v else 7) None None)) None 0 0) 0 false 0 0 0 0 0
    (sample_req 0) (idle_req, idle_req) false.
Definition sample_main : @main unit unit Z :=
  Main (LoopSt 0 0 0 0 false false) false false mon_start [] (VGate false 0) (Gate true 0) [] (toy_chk 0x88000000)
    scsi_init tt 0 [] (bus_init (Mems ∅ None) 1).
Definition no_service (q : scsi_req) (d : unit) (b : list Z) : scsi_rsp * list Z * bool * Z := (rsp_zero, b, false, 0).
Abbreviation sample_exit mon_on ks w :=
  (main_run storing_exec toy_raise toy_ld no_tlb no_service (fun _ _ d => d) (fun r _ _ => r) (fun r _ => (None, r))
     (fun r n => (repeat 0 n, r)) (fun _ x => x) 0 0 true false false false false 0 (-1) 200 None sample_bus_cfg 2 0 65536 0 0 false mon_on ks 3 w).
Abbreviation sample_reached ks :=
  (executed storing_exec toy_raise toy_ld no_tlb no_service (fun _ _ d => d) (fun r _ _ => r) (fun r _ => (None, r))
     (fun r n => (repeat 0 n, r)) (fun _ x => x) 0 0 false false false false 0 (-1) 200 None sample_bus_cfg 2 0 65536 0 0 false false ks 3 sample_main).
Lemma main_verdict_witness :
  (exists m b sts, conforms storing_exec toy_raise no_tlb false sample_bus_cfg (sample_reached (sample_tick 7 no_input)) 0
     (view (n_chk sample_main)) (n_bus sample_main) m b sts) /\
  (exists e, sample_exit false (sample_tick 8 no_input) sample_main = Some e /\
     alarms (c_k (n_chk (last_state e))) <> alarms (c_k (n_chk sample_main))).
Proof.
  split.
  - destruct (main_verdict storing_exec toy_raise toy_ld no_tlb no_service (fun _ _ d => d) (fun r _ _ => r) (fun r _ => (None, r))
      (fun r n => (repeat 0 n, r)) (fun _ x => x) 0 0 false false false 0 (-1) 200 None sample_bus_cfg 2 0 65536 0 0 false false
      (sample_tick 7 no_input) sample_main eq_refl eq_refl eq_refl) as (e & He & Hiff).
    assert (option_map (fun e => (alarms (c_k (n_chk (last_state e))), match e with StoreStop _ => true | _ => false end))
      (Some e) = Some ((0, 0, 0, 0), false)) as Hv by (rewrite <- He; vm_compute; reflexivity).
    injection Hv as H1 H2 H3 H4 H5.
    destruct (proj1 Hiff) as (m & b & sts & Hc & _); [|exists m, b, sts; exact Hc].
    split; [intros w' ->; discriminate H5|]. unfold alarms. rewrite H1, H2, H3, H4. reflexivity.
  - eexists. split; [vm_compute; reflexivity|]. vm_compute. discriminate.
Defined.
(** One client halts the loop at cycle 0 and lets it go again, the other says nothing. *)
Definition halting (c : Z) : tick :=
  let k := sample_tick 7 (PollIn true None) c in
  Tick (k_poll k) [PollIn false (Some [103; 13])] (k_stores k) (k_tlb k) (k_timer k) (k_slots k) (k_pc k) (k_lv k) (k_count k)
    (k_epc k) (k_badv k) (k_cause k) (k_cause_ip k) (k_scsi k) (k_reqs k) (k_finish k).
Definition paused_mon : mon := Mon true true true 0 (repeat 0 LINE_SIZE) 0 0 0 0 [].
Lemma monitor_transparent_witness :
  exists e e' m1, sample_exit false (sample_tick 7 no_input) sample_main = Some e /\
    sample_exit true halting (set_mon paused_mon sample_main) = Some e' /\ e' = map_exit (set_mon m1) e /\
    m_out (n_mon (last_state e')) <> [].
Proof.
  destruct (sample_exit false (sample_tick 7 no_input) sample_main) as [e|] eqn:E; [|vm_compute in E; discriminate E].
  destruct (sample_exit true halting (set_mon paused_mon sample_main)) as [e'|] eqn:E'; [|vm_compute in E'; discriminate E'].
  destruct (monitor_transparent storing_exec toy_raise toy_ld no_tlb no_service (fun _ _ d => d) (fun r _ _ => r)
    (fun r _ => (None, r)) (fun r n => (repeat 0 n, r)) (fun _ x => x) 0 0 false false false 0 (-1) 200 None sample_bus_cfg 2 0 65536 0 0 false
    true false false true (sample_tick 7 no_input) halting 3 paused_mon sample_main e e') as [m1 H].
  - reflexivity.
  - exact E.
  - exact E'.
  - intros w' ->. vm_compute in E. discriminate E.
  - intros w' ->. vm_compute in E'. discriminate E'.
  - exists e, e', m1. split; [reflexivity|]. split; [reflexivity|]. split; [exact H|].
    assert (option_map (fun e => bool_decide (m_out (n_mon (last_state e)) = [])) (Some e') = Some false) as Hv
      by (rewrite <- E'; vm_compute; reflexivity).
    injection Hv as Hv. apply bool_decide_eq_false in Hv. exact Hv.
Defined.
