(* ===== verification/Boot.v ===== *)
(** * Boot: command line and boot selection

    The first half of main() of sim/henry_tb.cpp: the option loop, and the choice
    between a checkpoint, a page image with its preamble, a PROM and a kernel, up
    to the PC the core is resumed at.  It composes the loaders with the seeding of
    the golden ISS, so its theorems say in which state a run begins. *)
From stdpp Require Import strings.
From S2P Require Import Prelude AddressMap GuestMem MemBus Checkpoint Checker Loader Monitor Cosim.
Open Scope Z_scope.

(** ** Numbers on the command line *)

(** Digits of [strtoull(s, nullptr, 0)] and of scanf's [%lli]: the value, the rest
    and whether there was a digit. *)
Fixpoint scan_digits (base acc : Z) (seen : bool) (l : list Z) : Z * list Z * bool :=
  match l with
  | c :: t => match hexval c with
              | Some d => if d <? base then scan_digits base (acc * base + d) true t else (acc, l, seen)
              | None => (acc, l, seen)
              end
  | [] => (acc, [], seen)
  end.
Definition scan_sign (l : list Z) : bool * list Z :=
  match l with 45 :: t => (true, t) | 43 :: t => (false, t) | _ => (false, l) end.
(** [base = 0] detects the prefix. *)
Definition scan_num (base : Z) (l : list Z) : option (bool * Z * list Z) :=
  let '(neg, l) := scan_sign (skip_space l) in
  let '(v, r, seen) :=
    match l with
    | 48 :: x :: t =>
        if (base =? 0) && ((x =? 120) || (x =? 88)) && match t with c :: _ => bool_decide (is_Some (hexval c)) | [] => false end
        then scan_digits 16 0 false t else scan_digits (if base =? 0 then 8 else base) 0 false l
    | _ => scan_digits (if base =? 0 then 10 else base) 0 false l
    end in
  if seen then Some (neg, v, r) else None.
Definition strtoull (l : list Z) : Z :=
  match scan_num 0 l with
  | Some (neg, v, _) => if 2 ^ 64 <=? v then 2 ^ 64 - 1 else if neg then u64 (- v) else v
  | None => 0
  end.
(** [%lli] saturates at the signed limits. *)
Definition scan_lli (l : list Z) : option (Z * list Z) :=
  match scan_num 0 l with
  | Some (neg, v, r) => Some (u64 (if neg then Z.max (- v) (- 2 ^ 63) else Z.min v (2 ^ 63 - 1)), r)
  | None => None
  end.
Definition scan_llu (l : list Z) : option (Z * list Z) :=
  match scan_num 10 l with
  | Some (neg, v, r) => Some (if 2 ^ 64 <=? v then 2 ^ 64 - 1 else if neg then u64 (- v) else v, r)
  | None => None
  end.
Definition comma (l : list Z) : option (list Z) := match l with 44 :: t => Some t | _ => None end.
(** [sscanf(s, "%lli,%llu,%llu", ...) == 3]. *)
Definition scan_xfpages (l : list Z) : option (Z * Z * Z) :=
  '(b, l) ← scan_lli l; l ← comma l; '(n, l) ← scan_llu l; l ← comma l; '(d, _) ← scan_llu l; Some (b, n, d).

(** ** The option loop *)

Inductive sopt := Kernel | Arcs | Prom | TraceFile | RxStr | DiskPath | SaveFile | RestoreFile | CkptFile | CimgFile
  | VerifyPath | IssSeedFile.
Inductive nopt := ArcsAddr | MaxCyc | ExtflushPeriod | MaxIcnt | StartPc | SaveAt | XfpgBase | XfpgN | XfpgDrop.
#[export] Instance sopt_eq_dec : EqDecision sopt.
Proof. solve_decision. Defined.
#[export] Instance nopt_eq_dec : EqDecision nopt.
Proof. solve_decision. Defined.

(** The locals and globals the options set; an empty string is "not given". *)
Record opts := Opts {
  str : sopt -> list Z; num : nopt -> Z; disk_rw : bool; g_checker : bool;
  dump_pas : list Z; taps : list (list Z) }.
Definition opts0 : opts :=
  Opts (fun _ => [])
    (fun k => match k with ArcsAddr => 0x1fc00000 | MaxCyc => 120000000 | _ => 0 end) false false [] [].
Definition set_str (k : sopt) (v : list Z) (o : opts) : opts :=
  Opts (fun k' => if decide (k' = k) then v else str o k') (num o) (disk_rw o) (g_checker o) (dump_pas o) (taps o).
Definition set_num (k : nopt) (v : Z) (o : opts) : opts :=
  Opts (str o) (fun k' => if decide (k' = k) then v else num o k') (disk_rw o) (g_checker o) (dump_pas o) (taps o).

(** The options that take a value. *)
Inductive valued := VStr (k : sopt) | VNum (k : nopt) | VXfpages | VDump | VTap.
Definition option_table : list (string * valued) :=
  [("--kernel", VStr Kernel); ("--arcs", VStr Arcs); ("--prom", VStr Prom); ("--arcs-addr", VNum ArcsAddr);
   ("--maxcyc", VNum MaxCyc); ("--extflush", VNum ExtflushPeriod); ("--xfpages", VXfpages);
   ("--maxicnt", VNum MaxIcnt); ("--start-pc", VNum StartPc); ("--dump", VDump); ("--trace", VStr TraceFile);
   ("--rx", VStr RxStr); ("--disk", VStr DiskPath); ("--save-at", VNum SaveAt); ("--save-file", VStr SaveFile);
   ("--restore", VStr RestoreFile); ("--enet-tap", VTap); ("--checkpoint", VStr CkptFile);
   ("--cimg", VStr CimgFile); ("--verify-ckpt", VStr VerifyPath); ("--iss-seed", VStr IssSeedFile)]%string.
Fixpoint find_option (a : list Z) (tbl : list (string * valued)) : option valued :=
  match tbl with
  | [] => None
  | (n, v) :: t => if bool_decide (a = chars n) then Some v else find_option a t
  end.
(** Storing a value; [None] is the [return 1] of a malformed --xfpages. *)
Definition store_value (k : valued) (v : list Z) (o : opts) : option opts :=
  match k with
  | VStr k => Some (set_str k v o)
  | VNum StartPc => Some (set_num StartPc (u32 (strtoull v)) o)
  | VNum k => Some (set_num k (strtoull v) o)
  | VXfpages => '(b, n, d) ← scan_xfpages v; Some (set_num XfpgDrop d (set_num XfpgN n (set_num XfpgBase b o)))
  | VDump => Some (Opts (str o) (num o) (disk_rw o) (g_checker o) (dump_pas o ++ [strtoull v]) (taps o))
  | VTap => Some (Opts (str o) (num o) (disk_rw o) (g_checker o) (dump_pas o) (taps o ++ [v]))
  end.
Definition set_flag (a : list Z) (o : opts) : opts :=
  if bool_decide (a = chars "--disk-write") then Opts (str o) (num o) true (g_checker o) (dump_pas o) (taps o)
  else if bool_decide (a = chars "--checker") then Opts (str o) (num o) (disk_rw o) true (dump_pas o) (taps o)
  else o.
(** A valued option that is the last argument, and any other word, is ignored. *)
Fixpoint parse_args (args : list (list Z)) (o : opts) : option opts :=
  match args with
  | [] => Some o
  | a :: t =>
      match find_option a option_table, t with
      | Some k, v :: t' => o ← store_value k v o; parse_args t' o
      | _, _ => parse_args t (set_flag a o)
      end
  end.

(** ** Boot selection *)

Section Boot.
Context {R : Type}.
(** [fs path]: the file's contents, [None] when it cannot be opened. *)
Variable fs : list Z -> option (list Z).
(** The golden ISS as [initState] leaves it, on an empty memory. *)
Variable iss0 : iss R.

Inductive failure := Usage | NeedsArcs | Load (e : load_error) | Elf (e : elf_error) | CannotOpenFile.
(** [g_ckpt] before any load. *)
Definition ckpt_zero : cp_header :=
  CpHeader 0 0 (repeat 0 32) 0 0 (repeat 0 32) (repeat 0 32) (repeat 0 32) (repeat 0 5)
    (repeat (CpTlb 0 0 0 0 0) 48) 0 0.
Definition set_icnt (h : cp_header) (n : Z) : cp_header :=
  CpHeader (cp_magic h) (cp_pc h) (cp_gpr h) (cp_hi h) (cp_lo h) (cp_cpr0 h) (cp_cpr0_64 h) (cp_cpr1 h)
    (cp_fcr1 h) (cp_tlbs h) n (cp_num_pages h).

Record machine := Machine {
  g_mem : mem; ss : option (iss R); g_ckpt : cp_header; g_have_ckpt : bool; g_gate : gate;
  g_verify : option (Z * Z);   (** [(g_verify_icnt_y, g_verify_target)] when the path survives [setup_verify] *)
  g_rf : list Z }.
(** What the DPI seed functions of the core serve. *)
Definition dpi (m : machine) : option cp_header := if g_have_ckpt m then Some (g_ckpt m) else None.
Definition iss_mem (m : machine) : option mem := option_map i_mem (ss m).
Definition with_mems (g : mem) (im : option mem) (m : machine) : machine :=
  Machine g (match ss m, im with Some s, Some im => Some (set_mem s im) | s, _ => s end) (g_ckpt m) (g_have_ckpt m)
    (g_gate m) (g_verify m) (g_rf m).
Definition with_ckpt (h : cp_header) (have : bool) (m : machine) : machine :=
  Machine (g_mem m) (ss m) h have (g_gate m) (g_verify m) (g_rf m).
Definition with_rf (rf : list Z) (m : machine) : machine :=
  Machine (g_mem m) (ss m) (g_ckpt m) (g_have_ckpt m) (g_gate m) (g_verify m) rf.
Definition with_gate (g : gate) (m : machine) : machine :=
  Machine (g_mem m) (ss m) (g_ckpt m) (g_have_ckpt m) g (g_verify m) (g_rf m).
Definition with_pc (pc : Z) (m : machine) : machine :=
  Machine (g_mem m) (option_map (fun s => set_pc s pc) (ss m)) (g_ckpt m) (g_have_ckpt m) (g_gate m) (g_verify m) (g_rf m).
Definition seed_iss (m : machine) : machine :=
  Machine (g_mem m) (option_map (seed_checker (dpi m)) (ss m)) (g_ckpt m) (g_have_ckpt m) (g_gate m) (g_verify m) (g_rf m).
(** [mmap] gives zeroed DRAM; the ISS exists under --checker. *)
Definition machine0 (o : opts) : machine :=
  Machine ∅ (if g_checker o then Some iss0 else None) ckpt_zero false (Gate true 0) None (repeat 0 32).

Definition given (v : list Z) : bool := negb (bool_decide (v = [])).
Definition verify_setup (o : opts) (m : machine) : machine :=
  Machine (g_mem m) (ss m) (g_ckpt m) (g_have_ckpt m) (g_gate m)
    (if given (str o VerifyPath) then f ← fs (str o VerifyPath); setup_verify f (cp_icnt (g_ckpt m)) else None) (g_rf m).
Definition blob (path : list Z) (pa : Z) (m : machine) : failure + machine :=
  match fs path with
  | None => inl CannotOpenFile
  | Some f => let '(g, im) := load_blob f pa (g_mem m) (iss_mem m) in inr (with_mems g im m)
  end.

(** --checkpoint: the machine and [entry]. *)
Definition boot_checkpoint (o : opts) (m : machine) : failure + machine * Z :=
  match fs (str o CkptFile) with
  | None => inl (Load CannotOpen)
  | Some f =>
      match load_checkpoint f (g_mem m) (iss_mem m) with
      | inl e => inl (Load e)
      | inr (h, g, im) =>
          let m := with_rf (cp_gpr h) (with_ckpt h true (with_mems g im m)) in
          inr (verify_setup o (seed_iss m), u32 (cp_pc h))
      end
  end.
(** --iss-seed reads a header over [g_ckpt]; a short file overwrites its prefix only. *)
Definition iss_seed (o : opts) (m : machine) : machine :=
  match fs (str o IssSeedFile) with
  | None => m
  | Some f =>
      match fread HDR_SIZE f with
      | None => with_ckpt (header_of (f ++ drop (length f) (header_bytes (g_ckpt m)))) (g_have_ckpt m) m
      | Some (b, _) =>
          let h := header_of b in
          if cp_magic h =? CKPT_MAGIC
          then with_gate (Gate false (u32 (cp_pc h))) (seed_iss (with_ckpt h true m))
          else with_ckpt h (g_have_ckpt m) m
      end
  end.
Definition boot_cimg (o : opts) (m : machine) : failure + machine * Z :=
  match fs (str o CimgFile) with
  | None => inl (Load CannotOpen)
  | Some f =>
      match load_cimg f (g_mem m) (iss_mem m) with
      | inl e => inl (Load e)
      | inr (icnt, (_, g, im)) =>
          let m := with_ckpt (set_icnt (g_ckpt m) icnt) (g_have_ckpt m) (with_mems g im m) in
          let m := if g_checker o && given (str o IssSeedFile) then iss_seed o m else m in
          if given (str o Arcs) then
            match blob (str o Arcs) (num o ArcsAddr) m with
            | inl e => inl e
            | inr m => inr (verify_setup o m, if num o StartPc =? 0 then 0xbfc00000 else num o StartPc)
            end
          else inl NeedsArcs
      end
  end.
Definition boot_prom (o : opts) (m : machine) : failure + machine * Z :=
  match blob (str o Prom) 0x1fc00000 m with
  | inl e => inl e
  | inr m => inr (with_mems (seed_bbram_mac (g_mem m)) (iss_mem m) m, 0xbfc00000)
  end.
(** The kernel-entry slot of the FSBL, in DRAM and in the ISS's memory. *)
Definition KENTRY_SLOT : Z := 0x1fc00008.
Definition patch_kentry (kentry : Z) (m : machine) : machine :=
  with_mems (put_be32 (g_mem m) (fst (fpga_map KENTRY_SLOT)) kentry)
    (option_map (fun im => mput_bytes im KENTRY_SLOT (be_bytes 4 kentry)) (iss_mem m)) m.
Definition boot_kernel (o : opts) (m : machine) : failure + machine * Z :=
  match fs (str o Kernel) with
  | None => inl CannotOpenFile
  | Some f =>
      match load_elf_be32 f (seed_bbram_mac (g_mem m)) (iss_mem m) with
      | inl e => inl (Elf e)
      | inr (kentry, g, im) =>
          let m := with_mems g im m in
          if given (str o Arcs) then
            match blob (str o Arcs) (num o ArcsAddr) m with
            | inl e => inl e
            | inr m =>
                let m := if num o ArcsAddr =? 0x1fc00000 then patch_kentry kentry m else m in
                if num o StartPc =? 0 then
                  let '(g, entry) := install_arcs_handoff kentry (g_mem m) in inr (with_mems g (iss_mem m) m, entry)
                else inr (m, num o StartPc)
            end
          else inr (m, kentry)
      end
  end.
Definition boot_select (o : opts) (m : machine) : failure + machine * Z :=
  if given (str o CkptFile) then boot_checkpoint o m
  else if given (str o CimgFile) then boot_cimg o m
  else if given (str o Prom) then boot_prom o m
  else boot_kernel o m.

(** [resume_pc64], and the ISS started there unless a checkpoint set its PC. *)
Definition resume_pc64 (o : opts) (m : machine) (entry : Z) : Z :=
  if given (str o CkptFile) then ckpt_pc_sext (cp_pc (g_ckpt m)) else u64 (s32 entry).
Definition boot (o : opts) : failure + machine * Z :=
  if negb (given (str o Kernel) || given (str o Prom) || given (str o CkptFile) || given (str o CimgFile)) then inl Usage
  else
    match boot_select o (machine0 o) with
    | inl e => inl e
    | inr (m, entry) =>
        let pc := resume_pc64 o m entry in
        inr (if given (str o CkptFile) then m else with_pc pc m, pc)
    end.
End Boot.

(** ** Lemmas *)

Section BootLemmas.
Context {R : Type}.
Variable fs : list Z -> option (list Z).
Variable iss0 : iss R.
Implicit Types m : machine (R:=R).

(** The ISS exists after a stage iff it did before. *)
Definition keeps_iss (m m' : machine (R:=R)) : Prop := is_Some (ss m') <-> is_Some (ss m).

Lemma with_mems_iss g im m : keeps_iss m (with_mems g im m).
Proof. unfold keeps_iss, with_mems; cbn. destruct (ss m), im; cbn; split; intros []; eauto; done. Qed.
Lemma seed_iss_iss m : keeps_iss m (seed_iss m).
Proof. unfold keeps_iss, seed_iss; cbn. apply fmap_is_Some. Qed.
#[local] Instance keeps_iss_equiv : Equivalence keeps_iss.
Proof. unfold keeps_iss. split; red; intros; [done|by symmetry|by etrans]. Qed.

Lemma blob_iss path pa m m' : blob fs path pa m = inr m' -> keeps_iss m m'.
Proof.
  unfold blob. destruct (fs path); [|done]. destruct (load_blob _ _ _ _). intros [= <-]. apply with_mems_iss.
Qed.
Lemma iss_seed_iss o m : keeps_iss m (iss_seed fs o m).
Proof.
  unfold iss_seed. destruct (fs _); [|done]. destruct (fread _ _) as [[b ?]|]; [|done].
  destruct (_ =? _); [|done]. exact (seed_iss_iss (with_ckpt (header_of b) true m)).
Qed.
Lemma boot_checkpoint_pc o m m' entry :
  boot_checkpoint fs o m = inr (m', entry) ->
  keeps_iss m m' /\ forall s, ss m' = Some s -> i_pc s = ckpt_pc_sext (cp_pc (g_ckpt m')).
Proof.
  unfold boot_checkpoint. destruct (fs _); [|done]. destruct (load_checkpoint _ _ _) as [?|[[h g] im]]; [done|].
  intros [= <- _]. split.
  - exact (transitivity (with_mems_iss g im m) (seed_iss_iss (with_rf (cp_gpr h) (with_ckpt h true (with_mems g im m))))).
  - cbn. intros s. destruct (match ss m with Some _ => _ | None => _ end) as [s0|]; [|done]. by intros [= <-].
Qed.
Lemma boot_cimg_iss o m m' entry : boot_cimg fs o m = inr (m', entry) -> keeps_iss m m'.
Proof.
  unfold boot_cimg. destruct (fs (str o CimgFile)); [|done]. destruct (load_cimg _ _ _) as [?|[icnt [[n g] im]]]; [done|].
  set (m1 := with_ckpt _ _ _). assert (keeps_iss m m1) as K1 by exact (with_mems_iss g im m).
  set (m2 := if _ && _ then _ else _).
  assert (keeps_iss m m2) as K2.
  { unfold m2. case_match; [|done]. etrans; [exact K1|apply iss_seed_iss]. }
  clearbody m2. destruct (given _); [|done]. destruct (blob fs (str o Arcs) _ _) as [?|m3] eqn:Eb; [done|].
  intros [= <- _]. etrans; [exact K2|]. exact (blob_iss _ _ _ _ Eb).
Qed.
Lemma boot_prom_iss o m m' entry : boot_prom fs o m = inr (m', entry) -> keeps_iss m m'.
Proof.
  unfold boot_prom. destruct (blob fs _ _ _) as [?|m1] eqn:Eb; [done|]. intros [= <- _].
  etrans; [exact (blob_iss _ _ _ _ Eb)|apply with_mems_iss].
Qed.
Lemma boot_kernel_iss o m m' entry : boot_kernel fs o m = inr (m', entry) -> keeps_iss m m'.
Proof.
  unfold boot_kernel. destruct (fs _); [|done]. destruct (load_elf_be32 _ _ _) as [?|[[k g] im]]; [done|].
  pose proof (with_mems_iss g im m) as K1. set (m1 := with_mems g im m) in *. clearbody m1.
  destruct (given _); [|by intros [= <- _]]. destruct (blob fs _ _ _) as [?|m2] eqn:Eb; [done|].
  pose proof (transitivity K1 (blob_iss _ _ _ _ Eb)) as K2. clear Eb K1.
  set (m3 := if num o ArcsAddr =? 0x1fc00000 then _ else _).
  assert (keeps_iss m m3) as K3.
  { unfold m3. case_match; [|done]. etrans; [exact K2|apply with_mems_iss]. }
  clearbody m3. destruct (_ =? _); [|by intros [= <- _]].
  destruct (install_arcs_handoff _ _) as [g' e]. intros [= <- _]. etrans; [exact K3|apply with_mems_iss].
Qed.

(** Whatever the command line and the files,
    a boot that succeeds under --checker has a golden ISS, and its PC is the full
    64-bit address the core is resumed at; without --checker there is none. *)
Theorem boot_iss_starts_where_rtl_does (o : opts) (m : machine) (pc : Z) :
  boot fs iss0 o = inr (m, pc) ->
  if g_checker o then exists s, ss m = Some s /\ i_pc s = pc else ss m = None.
Proof.
  unfold boot. destruct (negb _); [done|]. unfold boot_select, resume_pc64.
  assert (forall m', keeps_iss (machine0 iss0 o) m' ->
            if g_checker o then exists s, ss m' = Some s else ss m' = None) as K.
  { intros m' Hm. unfold keeps_iss, machine0 in Hm. cbn in Hm. destruct (g_checker o).
    - apply Hm. eauto.
    - apply eq_None_not_Some. rewrite Hm. by intros []. }
  destruct (given (str o CkptFile)).
  - destruct (boot_checkpoint fs o _) as [?|[m1 e]] eqn:E; [done|]. intros [= <- <-].
    destruct (boot_checkpoint_pc _ _ _ _ E) as [Hk Hpc]. specialize (K _ Hk).
    destruct (g_checker o); [|done]. destruct K as [s Hs]. exists s. auto.
  - set (r := if given (str o CimgFile) then _ else _).
    assert (forall m1 e, r = inr (m1, e) -> keeps_iss (machine0 iss0 o) m1) as Hr.
    { intros m1 e. unfold r. destruct (given (str o CimgFile)); [apply boot_cimg_iss|].
      destruct (given (str o Prom)); [apply boot_prom_iss|apply boot_kernel_iss]. }
    clearbody r. destruct r as [?|[m1 e]]; [done|]. intros [= <- <-].
    specialize (K _ (Hr _ _ eq_refl)). cbn. destruct (g_checker o); [|by rewrite K].
    destruct K as [s Hs]. rewrite Hs. by eexists.
Qed.

Lemma page_coherent g im p q :
  page_ok p -> unaliased (pg_va p) -> pg_va p mod 0x1000 = 0 -> coherent (Mems g (Some im)) -> unaliased q ->
  mget (mput_bytes im (pg_va p) (pg_data p)) q = mget (put_page g p) (fold_spec q).
Proof.
  intros Hp Hu Ha Hc Hq. pose proof Hp as [_ Hl]. rewrite put_page_get by done. cbv zeta.
  assert (0 <= pg_va p < 0x20000000) as Hr by (unfold unaliased in Hu; lia).
  pose proof (fold_spec_range _ Hr) as Hf. rewrite (proj2 (Z.leb_le _ _)) by lia. cbn [andb].
  assert (forall j, 0 <= j < 0x1000 -> fold_spec (pg_va p + j) = fold_spec (pg_va p) + j /\ unaliased (pg_va p + j)) as Hj.
  { intros j Hj. split; [apply fold_spec_page; lia|]. unfold unaliased in *. Z.to_euclidean_division_equations; lia. }
  destruct (decide (pg_va p <= q < pg_va p + 0x1000)) as [Hin|Hout].
  - rewrite mget_mput_in by (rewrite Hl; unfold PAGE; lia).
    destruct (Hj (q - pg_va p) ltac:(lia)) as [E _]. replace (pg_va p + (q - pg_va p)) with q in E by lia.
    rewrite E, (proj2 (Z.leb_le _ _)), (proj2 (Z.ltb_lt _ _)) by lia. cbn [andb]. f_equal. lia.
  - rewrite mget_mput_out by (rewrite Hl; unfold PAGE; lia).
    destruct (_ && _) eqn:E; [|exact (Hc im q eq_refl Hq)]. exfalso. bool_props.
    destruct (Hj (fold_spec q - fold_spec (pg_va p)) ltac:(lia)) as [E Hu'].
    apply Hout. rewrite (fold_spec_inj q (pg_va p + (fold_spec q - fold_spec (pg_va p)))); [lia|done|done|lia].
Qed.
(** Pages of one address range, written through the fold and directly, stay equal. *)
Lemma put_pages_coherent ps g im :
  Forall (fun p => page_ok p /\ unaliased (pg_va p) /\ pg_va p mod 0x1000 = 0) ps -> coherent (Mems g (Some im)) ->
  exists im', iss_put_pages (Some im) ps = Some im' /\ coherent (Mems (put_pages g ps) (Some im')).
Proof.
  intros H. revert g im; induction H as [|p ps (Hp & Hu & Ha) _ IH]; intros g im Hc; [eauto|].
  unfold iss_put_pages, put_pages. cbn [fold_left]. apply IH. intros im1 q [= <-] Hq. cbn [dram].
  by apply page_coherent.
Qed.

(** The machine a checkpoint boot leaves, before the verify target. *)
Lemma boot_checkpoint_eq o f h ps tail :
  given (str o CkptFile) = true -> g_checker o = true -> fs (str o CkptFile) = Some f -> f = ckpt_bytes h ps ++ tail ->
  header_ok h -> cp_magic h = CKPT_MAGIC -> Forall page_ok ps -> cp_num_pages h = Z.of_nat (length ps) ->
  exists m s, boot fs iss0 o = inr (m, ckpt_pc_sext (cp_pc h)) /\ ss m = Some s /\
    s = seed_checker (Some h) (set_mem iss0 (i_mem s)) /\ Some (i_mem s) = iss_put_pages (Some (i_mem iss0)) ps /\
    g_mem m = put_pages ∅ ps /\ dpi m = Some h /\ g_rf m = cp_gpr h /\ g_gate m = Gate true 0.
Proof.
  intros Hg Hc Hf -> Hh Hm Hps Hn. unfold boot. rewrite Hg, orb_true_r, orb_true_l. cbn [negb].
  unfold boot_select, boot_checkpoint, resume_pc64. rewrite Hg, Hf, load_checkpoint_bytes by done.
  unfold machine0. rewrite Hc. cbn [iss_mem ss option_map g_mem].
  assert (exists im, iss_put_pages (Some (i_mem iss0)) ps = Some im) as [im Him].
  { generalize (i_mem iss0). clear. induction ps as [|p ps IH]; intros im; [by eexists|]. apply IH. }
  rewrite Him. eexists _, _. split; [reflexivity|]. split; [reflexivity|]. done.
Qed.

(** A --checkpoint boot under --checker starts both
    machines in the checkpoint's state.  The core is resumed at the ISS's PC, every
    register the DPI hooks serve it equals the ISS's (so does the shadow of the
    register file), TLB entry by entry, the checker is live, and the two memories
    agree behind the address fold: the run begins inside the bus invariant. *)
Theorem checkpoint_boot_agrees (o : opts) (h : cp_header) (ps : list cp_page) (tail : list Z) (seed : Z) :
  given (str o CkptFile) = true -> g_checker o = true -> i_mem iss0 = ∅ ->
  fs (str o CkptFile) = Some (ckpt_bytes h ps ++ tail) ->
  header_ok h -> cp_magic h = CKPT_MAGIC -> cp_num_pages h = Z.of_nat (length ps) ->
  Forall (fun p => page_ok p /\ unaliased (pg_va p) /\ pg_va p mod 0x1000 = 0) ps ->
  exists m s, boot fs iss0 o = inr (m, i_pc s) /\ ss m = Some s /\ i_pc s = ckpt_pc_sext (cp_pc h) /\
    gate_active (g_gate m) = true /\
    (forall r, 0 <= r < 32 -> loadgpr (dpi m) r = gpr s r /\ nth (Z.to_nat r) (g_rf m) 0 = gpr s r /\
       loadfpr (dpi m) r = nth (Z.to_nat r) (i_cpr1 s) 0 /\
       loadcp0 (dpi m) r = cpr0 s (Z.to_nat r) /\ loadcp0_64 (dpi m) r = nth (Z.to_nat r) (i_cpr0_64 s) 0) /\
    loadhilo (dpi m) 0 = i_lo s /\ loadhilo (dpi m) 1 = i_hi s /\ loadfcsr (dpi m) = nth 4 (i_fcr1 s) 0 /\
    (forall e t, i_tlb s !! Z.to_nat e = Some t -> 0 <= e ->
       map (loadtlb (dpi m) e) [0; 1; 2; 3] = [entry_hi t; entry_lo0 t; entry_lo1 t; page_mask t]) /\
    bus_coherent (bus_init (Mems (g_mem m) (Some (i_mem s))) seed).
Proof.
  intros Hg Hc Hi Hf Hh Hm Hn Hps.
  assert (Forall page_ok ps) as Hpok by (eapply List.Forall_impl; [|exact Hps]; by intros ? [? _]).
  destruct (boot_checkpoint_eq o _ h ps tail Hg Hc Hf eq_refl Hh Hm Hpok Hn)
    as (m & s & Hb & Hs & Es & Him & Hgm & Hd & Hrf & Hgate).
  assert (i_pc s = ckpt_pc_sext (cp_pc h)) as Hpc by (rewrite Es; reflexivity).
  exists m, s. rewrite Hpc, Hd, Hrf, Hgate, Hgm.
  split; [exact Hb|]. split; [exact Hs|]. split; [reflexivity|]. split; [reflexivity|].
  split.
  { intros r Hr. assert (r .& 31 = r) as Er.
    { change 31 with (Z.ones 5). rewrite Z.land_ones by lia. apply Z.mod_small. lia. }
    unfold loadgpr, loadfpr, loadcp0, loadcp0_64, gpr, cpr0, Checkpoint.seed. rewrite Er, Es. cbn. done. }
  rewrite Es. split; [reflexivity|]. split; [reflexivity|]. split; [reflexivity|]. split.
  { cbn [seed_checker i_tlb]. intros e t Ht He. assert (e < 48) as He2.
    { apply lookup_lt_Some in Ht. rewrite (proj1 (ok_tlbs h Hh)) in Ht. lia. }
    unfold loadtlb, Checkpoint.seed. rewrite Z.mod_small by lia.
    assert (nth_error (cp_tlbs h) (Z.to_nat e) = Some t) as -> by (rewrite <- Ht; clear; generalize (Z.to_nat e);
      induction (cp_tlbs h) as [|x l IH]; intros [|n]; cbn; auto).
    reflexivity. }
  rewrite <- Es. rewrite Hi in Him.
  destruct (put_pages_coherent ps ∅ ∅ Hps) as (im' & E1 & E2).
  { intros im q [= <-] _. by rewrite !mget_empty. }
  rewrite E1 in Him. injection Him as ->.
  split; [exact E2|]. split; [by left|]. split; [by left|]. done.
Qed.
End BootLemmas.

(** ** Properties *)

Section BootProps.
Context {R : Type}.
Variable fs : list Z -> option (list Z).
Variable iss0 : iss R.

(** A --cimg boot without --iss-seed puts the page image of
    a checkpoint and then the preamble into DRAM, serves the core nothing through
    DPI, resumes it at the preamble, and arms the same verify window as a boot
    from the checkpoint itself. *)
Theorem preamble_boot_exact (o : opts) (h : cp_header) (ps : list cp_page) (b : list Z) :
  given (str o CkptFile) = false -> given (str o CimgFile) = true -> given (str o Arcs) = true ->
  given (str o IssSeedFile) = false ->
  fs (str o CimgFile) = Some (cimg_bytes (cp_icnt h) ps) -> fs (str o Arcs) = Some b ->
  header_ok h -> Forall page_ok ps -> cp_num_pages h = Z.of_nat (length ps) ->
  exists m : machine, boot fs iss0 o = inr (m, u64 (s32 (if num o StartPc =? 0 then 0xbfc00000 else num o StartPc))) /\
    g_mem m = mput_bytes (put_pages ∅ ps) (fst (fpga_map (memory_alias (u32 (num o ArcsAddr))))) b /\
    dpi m = None /\ have_checkpoint (dpi m) = 0 /\ gate_active (g_gate m) = true /\
    g_verify m = if given (str o VerifyPath) then f ← fs (str o VerifyPath); setup_verify f (cp_icnt h) else None.
Proof.
  intros Hk Hc Ha Hs Hf Hb Hh Hps Hn. unfold boot. rewrite Hc, orb_true_r. cbn [negb].
  unfold boot_select, resume_pc64, boot_cimg. rewrite Hk, Hc, Hf, Ha, Hs, andb_false_r.
  unfold load_cimg, cimg_bytes. rewrite fread_app by apply length_le_bytes.
  rewrite fread_app by apply length_le_bytes.
  rewrite !le_val_le_bytes by (first [apply (ok_icnt h Hh) | rewrite <- Hn; apply (ok_pages h Hh)]).
  rewrite Nat2Z.id.
  destruct (cimg_pages_bytes ps [] 0 (g_mem (machine0 iss0 o)) (iss_mem (machine0 iss0 o)) Hps) as [E1 E2].
  rewrite app_nil_r in E1, E2. destruct (cimg_pages _ _ _ _ _) as [[n g'] im'].
  cbn [fst snd] in E1, E2. subst g' im'.
  unfold blob. rewrite Hb. eexists. split; [reflexivity|]. done.
Qed.

(** With --iss-seed the same boot serves the whole checkpoint through DPI, so
    the core's registers are seeded before the preamble runs and the preamble is
    not what restores them; the comment on this path says there is no DPI. *)
Theorem seeded_preamble_serves_dpi (o : opts) (icnt : Z) (ps : list cp_page) (h : cp_header) (b tail : list Z) :
  given (str o CkptFile) = false -> given (str o CimgFile) = true -> given (str o Arcs) = true ->
  given (str o IssSeedFile) = true -> g_checker o = true ->
  fs (str o CimgFile) = Some (cimg_bytes icnt ps) -> fs (str o Arcs) = Some b ->
  fs (str o IssSeedFile) = Some (header_bytes h ++ tail) -> header_ok h -> cp_magic h = CKPT_MAGIC ->
  is_u 64 icnt -> is_u 32 (Z.of_nat (length ps)) -> Forall page_ok ps ->
  exists m pc, boot fs iss0 o = inr (m, pc) /\ dpi m = Some h /\ have_checkpoint (dpi m) = 1 /\
    g_verify m = if given (str o VerifyPath) then f ← fs (str o VerifyPath); setup_verify f (cp_icnt h) else None.
Proof.
  intros Hk Hc Ha Hs Hch Hf Hb Hsf Hh Hm Hi Hn Hps. unfold boot. rewrite Hc, orb_true_r. cbn [negb].
  unfold boot_select, resume_pc64, boot_cimg. rewrite Hk, Hc, Hf, Ha, Hs, Hch. cbn [andb].
  unfold load_cimg, cimg_bytes. rewrite fread_app by apply length_le_bytes.
  rewrite fread_app by apply length_le_bytes. rewrite !le_val_le_bytes by assumption. rewrite Nat2Z.id.
  destruct (cimg_pages _ _ _ _ _) as [[n g'] im']. unfold iss_seed. rewrite Hsf.
  rewrite fread_app by (by apply length_header_bytes).
  rewrite <- (app_nil_r (header_bytes h)), header_of_bytes, Hm by done.
  change (CKPT_MAGIC =? CKPT_MAGIC) with true. cbn match.
  unfold blob. rewrite Hb. eexists _, _. split; [reflexivity|]. done.
Qed.

(** A kernel boot through the FSBL started at --start-pc: the
    core is resumed there, and the word it loads from kseg1 0xbfc00008 is the
    kernel's ELF entry point; so is the ISS's under --checker. *)
Theorem fsbl_kentry_slot (o : opts) (f b : list Z) (kentry : Z) (g : mem) (im : option mem) :
  given (str o CkptFile) = false -> given (str o CimgFile) = false -> given (str o Prom) = false ->
  given (str o Kernel) = true -> given (str o Arcs) = true -> num o ArcsAddr = 0x1fc00000 -> num o StartPc <> 0 ->
  fs (str o Kernel) = Some f -> fs (str o Arcs) = Some b ->
  load_elf_be32 f (seed_bbram_mac ∅) (iss_mem (machine0 iss0 o)) = inr (kentry, g, im) ->
  mem_ok g -> (forall m, im = Some m -> mem_ok m) -> bytes_ok b -> is_u 32 kentry ->
  exists m : machine, boot fs iss0 o = inr (m, u64 (s32 (num o StartPc))) /\
    be32 (g_mem m) (core_off 0xbfc00008) = kentry /\
    (g_checker o = true -> forall s, ss m = Some s -> im <> None -> be32 (i_mem s) 0x1fc00008 = kentry).
Proof.
  intros H1 H2 H3 H4 Ha Haddr Hsp Hk Hb He Hg Him Hbb Hu. unfold boot. rewrite H4. cbn [orb negb].
  unfold boot_select, resume_pc64, boot_kernel. rewrite H1, H2, H3, Hk. change (g_mem (machine0 iss0 o)) with (∅ : mem).
  rewrite He, Ha, Haddr. change (0x1fc00000 =? 0x1fc00000) with true. rewrite (proj2 (Z.eqb_neq _ 0) Hsp).
  unfold blob. rewrite Hb. eexists. split; [reflexivity|]. split.
  - cbn [g_mem with_pc patch_kentry with_mems load_blob]. change (core_off 0xbfc00008) with (0x10c00008 mod MEM_SIZE).
    apply be32_put_be32; [|done]. auto with hw.
  - intros Hc s Hs Hi. revert Hs. cbn [ss with_pc patch_kentry with_mems load_blob iss_mem]. unfold machine0.
    rewrite Hc. cbn [ss option_map]. destruct im as [im|]; [|done]. cbn [iss_put option_map].
    remember (be_bytes 4 kentry) as w eqn:Ew. intros [= <-]. cbn [i_mem set_pc set_mem].
    change 0x1fc00008 with KENTRY_SLOT. pose proof (Him im eq_refl) as Hm0.
    rewrite be32_bytes by (apply mem_ok_mput; [by apply mem_ok_mput|rewrite Ew; apply be_bytes_ok]).
    replace 4%nat with (length w) by (by rewrite Ew).
    rewrite mget_bytes_mput, Ew. apply be_val_be_bytes. exact Hu.
Qed.
End BootProps.

(** ** The command line *)

(** A command line as settings: an option with its value, or any other word. *)
Inductive setting := Val (name v : list Z) | Word (w : list Z).
Definition render (s : setting) : list (list Z) := match s with Val n v => [n; v] | Word w => [w] end.
Definition setting_ok (s : setting) : Prop :=
  match s with Val n _ => find_option n option_table <> None | Word w => find_option w option_table = None end.
Definition apply_setting (o : opts) (s : setting) : option opts :=
  match s with
  | Val n v => k ← find_option n option_table; store_value k v o
  | Word w => Some (set_flag w o)
  end.

(** The option loop applies the settings of a command line
    in the order they stand, each valued option taking the next word whatever it
    looks like, up to the first malformed one, which ends the program. *)
Theorem parse_args_in_order (l : list setting) (o : opts) :
  Forall setting_ok l ->
  parse_args (concat (map render l)) o = foldl (fun acc s => o ← acc; apply_setting o s) (Some o) l.
Proof.
  intros H. revert o; induction H as [|s l Hs _ IH]; intros o; [done|]. cbn [map concat foldl].
  destruct s as [n v|w]; cbn [render app parse_args apply_setting setting_ok] in *.
  - destruct (find_option n option_table) as [k|]; [|done]. cbn [mbind option_bind].
    destruct (store_value k v o) as [o1|]; cbn [mbind option_bind]; [apply IH|].
    clear. induction l as [|s l IH]; [done|]. exact IH.
  - rewrite Hs. rewrite IH. by destruct (concat _).
Qed.

(** ** The ARCS handoff under --checker *)

Definition tiny_elf : list Z :=
  [0x7f; 0x45; 0x4c; 0x46; 1; 2] ++ repeat 0 18 ++ [0x88; 0x00; 0x59; 0x60] ++ repeat 0 24.
Definition toy_fs (path : list Z) : option (list Z) :=
  if bool_decide (path = chars "unix") then Some tiny_elf
  else if bool_decide (path = chars "arcs.bin") then Some [1; 2; 3; 4; 5; 6; 7; 8; 9; 10; 11; 12]
  else if bool_decide (path = chars "ck") then Some (ckpt_bytes (sample_header 2) [sample_page 0x08001000 1; sample_page 0x1fc00000 2])
  else if bool_decide (path = chars "cimg") then Some (cimg_bytes 123456 [sample_page 0x08001000 1])
  else None.
Definition cmdline (l : list string) : option opts := parse_args (map chars l) opts0.
Definition toy_opts (l : list string) : opts := default opts0 (cmdline l).

(** Both PCs, and the word each machine fetches there. *)
Definition first_fetch (r : failure + machine (R:=unit) * Z) : option (Z * Z * Z * Z) :=
  match r with
  | inr (m, pc) =>
      option_map (fun s => (pc, i_pc s, be32 (g_mem m) (core_off (u32 pc)), insn_at (i_mem s) (u32 (i_pc s)))) (ss m)
  | inl _ => None
  end.
(** [install_arcs_handoff] writes DRAM only.  A kernel boot with the handoff
    under --checker starts both machines at the stub, where the core reads its
    first instruction and the ISS reads an empty word. *)
Theorem handoff_not_mirrored :
  first_fetch (boot toy_fs (toy_iss 0) (toy_opts ["--kernel"; "unix"; "--arcs"; "arcs.bin"; "--checker"]))
  = Some (0xffffffff88ff0000, 0xffffffff88ff0000, 0x34040008, 0).
Proof. vm_compute. reflexivity. Qed.

Lemma boot_iss_starts_where_rtl_does_witness :
  match boot toy_fs (toy_iss 0) (toy_opts ["--kernel"; "unix"; "--checker"]) with
  | inr (m, pc) => exists s, ss m = Some s /\ i_pc s = pc
  | inl _ => False
  end.
Proof.
  assert (g_checker (toy_opts ["--kernel"; "unix"; "--checker"]) = true) as Hc by (vm_compute; reflexivity).
  assert (match boot toy_fs (toy_iss 0) (toy_opts ["--kernel"; "unix"; "--checker"]) with inr _ => true | inl _ => false end = true) as Hb
    by (vm_compute; reflexivity).
  pose proof (boot_iss_starts_where_rtl_does toy_fs (toy_iss 0) (toy_opts ["--kernel"; "unix"; "--checker"])) as H.
  rewrite Hc in H. destruct (boot toy_fs (toy_iss 0) _) as [e|[m pc]]; [discriminate Hb|]. exact (H m pc eq_refl).
Defined.
Lemma checkpoint_boot_agrees_witness :
  exists m s, boot toy_fs (toy_iss 0) (toy_opts ["--checkpoint"; "ck"; "--checker"]) = inr (m, i_pc s) /\ ss m = Some s.
Proof.
  destruct (checkpoint_boot_agrees toy_fs (toy_iss 0) (toy_opts ["--checkpoint"; "ck"; "--checker"]) (sample_header 2)
    [sample_page 0x08001000 1; sample_page 0x1fc00000 2] [] 1) as (m & s & H1 & H2 & _).
  - reflexivity.
  - reflexivity.
  - reflexivity.
  - rewrite app_nil_r. reflexivity.
  - by apply sample_header_ok.
  - reflexivity.
  - reflexivity.
  - pose proof sample_pages_ok as Hp. apply Forall_cons_2; [|apply Forall_cons_2; [|apply Forall_nil_2]].
    + split; [exact (Forall_inv Hp)|]. split; [left; cbn; lia|reflexivity].
    + split; [exact (Forall_inv (Forall_inv_tail Hp))|]. split; [right; cbn; lia|reflexivity].
  - exists m, s. split; [exact H1|exact H2].
Defined.
Lemma preamble_boot_exact_witness :
  exists m : machine, boot toy_fs (toy_iss 0) (toy_opts ["--cimg"; "cimg"; "--arcs"; "arcs.bin"]) = inr (m, 0xffffffffbfc00000) /\
    dpi m = None.
Proof.
  destruct (preamble_boot_exact toy_fs (toy_iss 0) (toy_opts ["--cimg"; "cimg"; "--arcs"; "arcs.bin"]) (sample_header 1)
    [sample_page 0x08001000 1] [1; 2; 3; 4; 5; 6; 7; 8; 9; 10; 11; 12]) as (m & H1 & _ & H2 & _); try reflexivity.
  - by apply sample_header_ok.
  - apply Forall_cons_2; [|apply Forall_nil_2]. by apply sample_page_ok.
  - exists m. split; [exact H1|exact H2].
Defined.
Lemma fsbl_kentry_slot_witness :
  exists m : machine,
    boot toy_fs (toy_iss 0) (toy_opts ["--kernel"; "unix"; "--arcs"; "arcs.bin"; "--start-pc"; "0xbfc00000"])
      = inr (m, 0xffffffffbfc00000) /\ be32 (g_mem m) (core_off 0xbfc00008) = 0x88005960.
Proof.
  destruct (fsbl_kentry_slot toy_fs (toy_iss 0)
    (toy_opts ["--kernel"; "unix"; "--arcs"; "arcs.bin"; "--start-pc"; "0xbfc00000"]) tiny_elf
    [1; 2; 3; 4; 5; 6; 7; 8; 9; 10; 11; 12] 0x88005960 (seed_bbram_mac ∅) None) as (m & H1 & H2 & _); try reflexivity.
  - done.
  - rewrite seed_bbram_mac_eq. repeat (apply mem_ok_insert; [|by vm_compute]). apply mem_ok_empty.
  - done.
  - repeat constructor; by vm_compute.
  - by vm_compute.
  - exists m. split; [exact H1|exact H2].
Defined.
Lemma parse_args_in_order_witness :
  parse_args (map chars ["--rx"; "--checker"; "--maxcyc"; "0x10"; "junk"]) opts0
  = Some (set_num MaxCyc 16 (set_str RxStr (chars "--checker") opts0)).
Proof.
  refine (parse_args_in_order [Val (chars "--rx") (chars "--checker"); Val (chars "--maxcyc") (chars "0x10");
    Word (chars "junk")] opts0 _).
  repeat constructor; by vm_compute.
Defined.
