(* ===== verification/BenchCheck.v ===== *)
(** * BenchCheck: the vocabulary of the benches' main functions

    The scripted cases of the DMA benches are sequences of state changes and
    [check]s.  A script is a state-passing function that also returns the
    verdicts in order; the byte loops of the checks are [bytes_at], [filled] and
    [pieces_ok], each with the statement about memory it decides. *)
From S2P Require Import Prelude GuestMem.

(** ** Scripts *)

Abbreviation verdicts := (list (string * bool)).
Definition script (S A : Type) : Type := S -> A * S * verdicts.
#[export] Instance script_ret S : MRet (script S) := fun A x s => (x, s, []).
#[export] Instance script_bind S : MBind (script S) := fun A B k m s =>
  let '(x, s, v) := m s in let '(y, s, w) := k x s in (y, s, v ++ w).
Definition modify {S} (f : S -> S) : script S unit := fun s => ((), f s, []).
Definition gets {S A} (f : S -> A) : script S A := fun s => (f s, s, []).
(** A call that returns a value and the new state. *)
Definition call {S A} (f : S -> A * S) : script S A := fun s => let '(x, s) := f s in (x, s, []).
Definition check {S} (what : string) (ok : bool) : script S unit := fun s => ((), s, [(what, ok)]).
(** [for(T x : l)]. *)
Fixpoint for_each {S A} (l : list A) (f : A -> script S unit) : script S unit :=
  match l with [] => mret () | x :: t => f x ;; for_each t f end.

Definition fails (v : verdicts) : nat := length (List.filter (fun x => negb (snd x)) v).
(** [return fails ? 1 : 0]. *)
Definition exit_code (v : verdicts) : Z := if (fails v =? 0)%nat then 0 else 1.
Definition all_pass (v : verdicts) : Prop := Forall (fun x => snd x = true) v.

Lemma exit_code_pass v : exit_code v = 0 <-> all_pass v.
Proof.
  unfold exit_code, all_pass, fails. induction v as [|[n b] v IH]; cbn; [split; [intros; apply Forall_nil_2|done]|].
  destruct b; cbn.
  - rewrite IH. split; [by apply Forall_cons_2|apply Forall_inv_tail].
  - split; [done|]. intros H. by apply Forall_inv in H.
Qed.
Lemma all_pass_app v w : all_pass (v ++ w) <-> all_pass v /\ all_pass w.
Proof. apply Forall_app. Qed.
Lemma all_pass_cons n b v : all_pass ((n, b) :: v) <-> b = true /\ all_pass v.
Proof. split; [intros H; split; [exact (Forall_inv H)|exact (Forall_inv_tail H)]|intros [? ?]; by apply Forall_cons_2]. Qed.
Lemma all_pass_nil : all_pass [] <-> True.
Proof. split; [done|]. intros. apply Forall_nil_2. Qed.

(** The end of a script, and a script whose verdicts all hold. *)
Definition final {S A} (m : script S A) (s : S) : S := snd (fst (m s)).
Definition passes {S A} (m : script S A) (s : S) : Prop := all_pass (snd (m s)).

Section Passes.
Context {S : Type}.
Implicit Types s : S.
Lemma passes_bind {A B} (m : script S A) (k : A -> script S B) s :
  passes (m ≫= k) s <-> passes m s /\ passes (k (fst (fst (m s)))) (final m s).
Proof.
  unfold passes, final, mbind, script_bind. destruct (m s) as [[x s1] v]. cbn [fst snd].
  destruct (k x s1) as [[y s2] w]. apply all_pass_app.
Qed.
Lemma passes_quiet_then {A B} (m : script S A) (k : A -> script S B) s :
  passes m s -> passes (m ≫= k) s <-> passes (k (fst (fst (m s)))) (final m s).
Proof. rewrite passes_bind. tauto. Qed.
Lemma passes_check what ok s : passes (check what ok) s <-> ok = true.
Proof. unfold passes, check. cbn [snd]. rewrite all_pass_cons, all_pass_nil. tauto. Qed.
Lemma passes_check_then {B} what ok (k : unit -> script S B) s :
  passes (check what ok ≫= k) s <-> ok = true /\ passes (k ()) s.
Proof. by rewrite passes_bind, passes_check. Qed.
Lemma passes_modify f s : passes (modify f) s <-> True.
Proof. apply all_pass_nil. Qed.
Lemma passes_modify_then {B} f (k : unit -> script S B) s : passes (modify f ≫= k) s <-> passes (k ()) (f s).
Proof. rewrite passes_bind, passes_modify. unfold final; cbn. tauto. Qed.
Lemma passes_gets_then {A B} (f : S -> A) (k : A -> script S B) s : passes (gets f ≫= k) s <-> passes (k (f s)) s.
Proof. rewrite passes_bind. unfold passes at 1. cbn. rewrite all_pass_nil. tauto. Qed.
Lemma passes_call_then {A B} (f : S -> A * S) (k : A -> script S B) s :
  passes (call f ≫= k) s <-> passes (k (fst (f s))) (snd (f s)).
Proof.
  rewrite passes_bind. unfold passes at 1, final, call. destruct (f s) as [x s1]. cbn. rewrite all_pass_nil. tauto.
Qed.
Lemma passes_call {A} (f : S -> A * S) s : passes (call f) s <-> True.
Proof. unfold passes, call. destruct (f s). apply all_pass_nil. Qed.
Lemma passes_for_each {A} (l : list A) (f : A -> script S unit) s :
  passes (for_each l f) s <->
  forall k x, l !! k = Some x -> passes (f x) (final (for_each (take k l) f) s).
Proof.
  revert s; induction l as [|x l IH]; intros s; cbn [for_each].
  - split; [done|]. intros _. apply Forall_nil_2.
  - rewrite passes_bind, IH. split.
    + intros [H0 H] [|k] y Hy; [by injection Hy as <-|]. cbn [take for_each]. unfold final, mbind, script_bind.
      specialize (H k y Hy). unfold final in H. destruct (f x s) as [[u s1] v]. cbn [fst snd] in *.
      by destruct (for_each (take k l) f s1) as [[u2 s2] w].
    + intros H. split; [exact (H O x eq_refl)|]. intros k y Hy. specialize (H (Datatypes.S k) y Hy). cbn [take for_each] in H.
      unfold final, mbind, script_bind in H. unfold final. destruct (f x s) as [[u s1] v]. cbn [fst snd] in *.
      by destruct (for_each (take k l) f s1) as [[u2 s2] w].
Qed.
End Passes.

(** Where scripts end. *)
Section Final.
Context {S : Type}.
Implicit Types s : S.
Lemma final_bind {A B} (m : script S A) (k : A -> script S B) s :
  final (m ≫= k) s = final (k (fst (fst (m s)))) (final m s).
Proof. unfold final, mbind, script_bind. destruct (m s) as [[x s1] v]. cbn. by destruct (k x s1) as [[??]?]. Qed.
Lemma final_check_then {B} what ok (k : unit -> script S B) s : final (check what ok ≫= k) s = final (k ()) s.
Proof. apply final_bind. Qed.
Lemma final_modify_then {B} f (k : unit -> script S B) s : final (modify f ≫= k) s = final (k ()) (f s).
Proof. apply final_bind. Qed.
Lemma final_gets_then {A B} (f : S -> A) (k : A -> script S B) s : final (gets f ≫= k) s = final (k (f s)) s.
Proof. apply final_bind. Qed.
Lemma final_call_then {A B} (f : S -> A * S) (k : A -> script S B) s :
  final (call f ≫= k) s = final (k (fst (f s))) (snd (f s)).
Proof. rewrite final_bind. unfold final, call. by destruct (f s). Qed.
Lemma final_modify f s : final (modify f) s = f s.
Proof. done. Qed.
Lemma final_call {A} (f : S -> A * S) s : final (call f) s = snd (f s).
Proof. unfold final, call. by destruct (f s). Qed.
Lemma final_check what ok s : final (check what ok) s = s.
Proof. done. Qed.
End Final.

(** A loop of checks that leaves the state alone. *)
Lemma for_each_pure {S A} (l : list A) (f : A -> script S unit) (s : S) :
  (forall x, final (f x) s = s) ->
  final (for_each l f) s = s /\ (passes (for_each l f) s <-> forall k x, l !! k = Some x -> passes (f x) s).
Proof.
  intros Hf. assert (forall l, final (for_each l f) s = s) as Hl.
  { clear l. induction l as [|x l IH]; [done|]. cbn [for_each]. by rewrite final_bind, Hf. }
  split; [apply Hl|]. rewrite passes_for_each. by setoid_rewrite Hl.
Qed.

(** What scripts return. *)
Definition value {S A} (m : script S A) (s : S) : A := fst (fst (m s)).
Section Value.
Context {S : Type}.
Implicit Types s : S.
Lemma value_bind {A B} (m : script S A) (k : A -> script S B) s : value (m ≫= k) s = value (k (value m s)) (final m s).
Proof. unfold value, final, mbind, script_bind. destruct (m s) as [[x s1] v]. cbn. by destruct (k x s1) as [[??]?]. Qed.
Lemma value_modify_then {B} f (k : unit -> script S B) s : value (modify f ≫= k) s = value (k ()) (f s).
Proof. apply value_bind. Qed.
Lemma value_gets_then {A B} (f : S -> A) (k : A -> script S B) s : value (gets f ≫= k) s = value (k (f s)) s.
Proof. apply value_bind. Qed.
Lemma value_call_then {A B} (f : S -> A * S) (k : A -> script S B) s :
  value (call f ≫= k) s = value (k (fst (f s))) (snd (f s)).
Proof. rewrite value_bind. unfold value, final, call. by destruct (f s). Qed.
Lemma value_ret {A} (x : A) s : value (mret x) s = x.
Proof. done. Qed.
End Value.

#[global] Opaque modify gets call check.
(** Reduce [passes m s <-> Q] to the conjunction of the checks of [m]. *)
Ltac passes_iff :=
  cbv beta;
  lazymatch goal with
  | |- passes (modify ?f ≫= ?k) ?s <-> _ => refine (iff_trans (passes_modify_then f k s) _); passes_iff
  | |- passes (gets ?f ≫= ?k) ?s <-> _ => refine (iff_trans (passes_gets_then f k s) _); passes_iff
  | |- passes (call ?f ≫= ?k) ?s <-> _ => refine (iff_trans (passes_call_then f k s) _); passes_iff
  | |- passes (check ?w ?o ≫= ?k) ?s <-> _ =>
      refine (iff_trans (passes_check_then w o k s) _); refine (and_iff_compat_l _ _); passes_iff
  | |- passes (modify ?f) ?s <-> _ => exact (passes_modify f s)
  | |- passes (check ?w ?o) ?s <-> _ => exact (passes_check w o s)
  | |- passes (call ?f) ?s <-> _ => exact (passes_call f s)
  | |- _ => reflexivity
  end.
Ltac script_passes := eapply iff_trans; [passes_iff|].
(** A script without checks passes. *)
Ltac script_quiet :=
  match goal with |- passes ?m ?s => refine (proj2 (_ : passes m s <-> True) I); passes_iff end.
(** Step over a first part that always passes. *)
Ltac script_skip H := eapply iff_trans; [exact (passes_quiet_then _ _ _ H)|].
Ltac script_final :=
  repeat match goal with
  | |- context [final (modify ?f ≫= ?k) ?s] => rewrite (final_modify_then f k s)
  | |- context [final (check ?w ?o ≫= ?k) ?s] => rewrite (final_check_then w o k s)
  | |- context [final (gets ?f ≫= ?k) ?s] => rewrite (final_gets_then f k s)
  | |- context [final (call ?f ≫= ?k) ?s] => rewrite (final_call_then f k s)
  | |- context [final (modify ?f) ?s] => rewrite (final_modify f s)
  | |- context [final (check ?w ?o) ?s] => rewrite (final_check w o s)
  | |- context [final (call ?f) ?s] => rewrite (final_call f s)
  end; cbv beta.
Ltac script_value :=
  repeat match goal with
  | |- context [value (modify ?f ≫= ?k) ?s] => rewrite (value_modify_then f k s)
  | |- context [value (gets ?f ≫= ?k) ?s] => rewrite (value_gets_then f k s)
  | |- context [value (call ?f ≫= ?k) ?s] => rewrite (value_call_then f k s)
  | |- context [value (mret ?x) ?s] => rewrite (value_ret x s)
  end; cbv beta.

(** ** Byte checks *)

(** [ok &= mem[a + k] == f[k]] for every [k]. *)
Definition bytes_at (m : mem) (a : Z) (f : list Z) : bool :=
  forallb (fun k => mget m (a + Z.of_nat k) =? nth k f 0) (seq 0 (length f)).
(** [guard &= mem[x] == v] for [a <= x < b]. *)
Definition filled (m : mem) (v a b : Z) : bool :=
  forallb (fun k => mget m (a + Z.of_nat k) =? v) (seq 0 (Z.to_nat (b - a))).
(** Consecutive pieces of [f], each in its own buffer. *)
Fixpoint pieces_ok (m : mem) (segs : list (Z * nat)) (f : list Z) : bool :=
  match segs with
  | [] => true
  | (a, n) :: t => bytes_at m a (take n f) && pieces_ok m t (drop n f)
  end.
(** The bytes of the buffers, in order. *)
Definition gather (m : mem) (segs : list (Z * nat)) : list Z := concat (map (fun s => mget_bytes m (fst s) (snd s)) segs).
Fixpoint size (segs : list (Z * nat)) : nat := match segs with [] => O | (_, n) :: t => (n + size t)%nat end.

Lemma bytes_at_iff m a f : bytes_at m a f = true <-> mget_bytes m a (length f) = f.
Proof.
  unfold bytes_at. rewrite forallb_forall. split.
  - intros H. apply (List.nth_ext _ _ 0 0); [apply length_mget_bytes|]. rewrite length_mget_bytes. intros k Hk.
    rewrite nth_mget_bytes by done. apply Z.eqb_eq, H, in_seq. lia.
  - intros E k [_ Hk]%in_seq. apply Z.eqb_eq. rewrite <- E. by rewrite nth_mget_bytes.
Qed.
Lemma filled_iff m v a b : filled m v a b = true <-> forall x, a <= x < b -> mget m x = v.
Proof.
  unfold filled. rewrite forallb_forall. split.
  - intros H x Hx. apply Z.eqb_eq. replace x with (a + Z.of_nat (Z.to_nat (x - a))) by lia. apply H, in_seq. lia.
  - intros H k [_ Hk]%in_seq. apply Z.eqb_eq, H. lia.
Qed.
Lemma pieces_iff m segs f : length f = size segs -> pieces_ok m segs f = true <-> gather m segs = f.
Proof.
  revert f; induction segs as [|[a n] t IH]; intros f Hl; cbn [pieces_ok size] in *.
  { destruct f; done. }
  rewrite andb_true_iff, bytes_at_iff, IH by (rewrite length_drop; lia).
  rewrite length_take, Nat.min_l by lia. unfold gather. cbn [map concat fst snd].
  split.
  - intros [-> ->]. apply take_drop.
  - intros E. rewrite <- E. rewrite take_app_length' , drop_app_length' by (by rewrite length_mget_bytes). done.
Qed.

(** A buffer at [a] holding [f] between guard bytes from [lo] up to [hi]. *)
Definition deposited (m : mem) (v lo a hi : Z) (f : list Z) : bool :=
  bytes_at m a f && (filled m v lo a && filled m v (a + Z.of_nat (length f)) hi).
Lemma filled_bytes m v a b : filled m v a b = true <-> mget_bytes m a (Z.to_nat (b - a)) = repeat v (Z.to_nat (b - a)).
Proof.
  rewrite filled_iff. split.
  - intros H. apply (List.nth_ext _ _ 0 0); [by rewrite length_mget_bytes, repeat_length|]. rewrite length_mget_bytes.
    intros k Hk. rewrite nth_mget_bytes, nth_repeat_lt by done. apply H. lia.
  - intros E x Hx. pose proof (f_equal (fun l => nth (Z.to_nat (x - a)) l 0) E) as H. cbn beta in H.
    rewrite nth_mget_bytes, nth_repeat_lt in H by lia. rewrite <- H. f_equal. lia.
Qed.
Lemma deposited_iff m v lo a hi f :
  lo <= a -> a + Z.of_nat (length f) <= hi ->
  deposited m v lo a hi f = true <->
  mget_bytes m lo (Z.to_nat (hi - lo)) =
    repeat v (Z.to_nat (a - lo)) ++ f ++ repeat v (Z.to_nat (hi - a - Z.of_nat (length f))).
Proof.
  intros Ha Hh. unfold deposited. rewrite !andb_true_iff, bytes_at_iff, !filled_bytes.
  replace (Z.to_nat (hi - lo)) with (Z.to_nat (a - lo) + (length f + Z.to_nat (hi - a - Z.of_nat (length f))))%nat by lia.
  rewrite !mget_bytes_app. replace (lo + Z.of_nat (Z.to_nat (a - lo))) with a by lia.
  replace (hi - (a + Z.of_nat (length f))) with (hi - a - Z.of_nat (length f)) by lia. split.
  - intros (-> & -> & ->). done.
  - intros E. apply app_inj_1 in E as [E1 E]; [|by rewrite length_mget_bytes, repeat_length].
    apply app_inj_1 in E as [E2 E3]; [|by rewrite length_mget_bytes]. done.
Qed.
(** A captured stream: its length, then byte by byte. *)
Definition captured_ok (l f : list Z) : bool :=
  (length l =? length f)%nat && forallb (fun k => nth k l 0 =? nth k f 0) (seq 0 (Nat.min (length f) (length l))).
Lemma captured_iff l f : captured_ok l f = true <-> l = f.
Proof.
  unfold captured_ok. rewrite andb_true_iff, Nat.eqb_eq, forallb_forall. split.
  - intros [Hl H]. apply (List.nth_ext _ _ 0 0); [done|]. intros k Hk. apply Z.eqb_eq, H, in_seq. lia.
  - intros ->. split; [done|]. intros. apply Z.eqb_refl.
Qed.
