(* ===== verification/StageMain.v ===== *)
(** * StageMain: the scripted cases of the SCSI staging bench

    main() of sim/scsi_stage_test/tb_scsi_stage.cpp over the bench of
    [StageBench]: the nine cases as scripts, whose verdicts decide the exit code.
    The engine is a parameter with two more output ports; [rand()] of case 9 is
    the list of its draws. *)
From S2P Require Import Prelude AddressMap GuestMem BenchPort StageBench BenchCheck.

Definition pat (seed k : Z) : Z := u8 (k * 11 + seed * 29 + 3).
Definition pats (seed from : Z) (n : nat) : list Z := map (fun i => pat seed (from + Z.of_nat i)) (seq 0 n).
(** [data]: 4096 bytes of pattern 1. *)
Definition data : list Z := pats 1 0 4096.
Definition from_ (k : nat) (n : nat) (l : list Z) : list Z := take n (drop k l).

Section Main.
Variable E : Type.
Variable eval : E -> bool -> stage_in -> E.
Variable dn_req : E -> req.
Variables busy done_ : E -> bool.
(** The default [lim] of [arm_wait_cq]. *)
Definition WAIT_LIM : nat := Z.to_nat 300000.

(** The bench and the entry [e], which [arm_wait_cq] overwrites when it drains. *)
Record st := St { s_b : bench E; s_e : cqe_t }.
Abbreviation act := (script st).
Definition on_bench (f : bench E -> bench E) : act unit := modify (fun s => St (f (s_b s)) (s_e s)).
Definition on_mem (f : mem -> mem) : act unit := on_bench (fun b => StageBench.set_mem E b (f (b_mem E b))).
Definition memory : act mem := gets (fun s => b_mem E (s_b s)).
Definition run_cycles (n : nat) : act unit := on_bench (fun b => fst (steps E eval dn_req n b)).
(** [arm_wait_cq(&e)]; its scan never runs out of fuel. *)
Definition wait_cq : act bool := call (fun s =>
  match arm_wait_cq E eval dn_req WAIT_LIM (s_b s) (s_e s) with
  | Some (got, b, e) => (got, St b e)
  | None => (false, s)
  end).
Definition entry : act cqe_t := gets s_e.
Definition set_cancel : act unit := on_bench (fun b => StageBench.set_in E b (fun i =>
  StageIn (i_go i) true (i_nbdp i) (i_to_dev i) (i_rd_beats i) (i_rd_seq i) (i_req_seq i) (i_cq_cons i)
    (i_rsp_valid i) (i_rsp_data i))).
Definition sidx : act Z := gets (fun s => get_le32 at_ (b_mem E (s_b s)) (STG + SIDX)).
Definition guest_fill (v a : Z) (n : nat) : act unit := on_mem (fun m => memset m a v n).
Definition guest_chain (base : Z) (s : list seg_t) : act unit := on_mem (fun m => chain m base s).
Definition guest_put (a : Z) (f : list Z) : act unit := on_mem (fun m => mput_bytes m a f).
Definition stage (f : list Z) (n : Z) : act unit := on_bench (fun b => arm_stage E eval dn_req b f n).
Definition select : act unit := on_bench (new_cmd E).
Definition do_go (nb to_dev : Z) : act unit := on_bench (fun b => go E eval dn_req b nb to_dev).
Definition do_cmd_go (nb to_dev : Z) : act unit := on_bench (fun b => cmd_go E eval dn_req b nb to_dev).
(** [(e.flags & 7) == r]. *)
Definition result (e : cqe_t) (r : Z) : bool := flags e .& 7 =? r.

(** ** The cases *)

Definition segs1 : list seg_t := [Seg 0x4000 200; Seg 0x5008 250; Seg 0x6003 150].
Definition bufs (s : list seg_t) : list (Z * nat) := map (fun g => (bp g, Z.to_nat (cnt g))) s.
(** The five guard bytes around the buffers of [segs1]. *)
Definition guards1 (m : mem) : bool :=
  (mget m (0x4000 + 200) =? GUARD) && (mget m 0x5007 =? GUARD) && (mget m (0x5008 + 250) =? GUARD) &&
  (mget m 0x6002 =? GUARD) && (mget m (0x6003 + 150) =? GUARD).
Definition start_read (n : Z) : act unit :=
  guest_fill GUARD 0 (Z.to_nat GMEMSZ) ;; guest_chain 0x1000 segs1 ;; select ;; stage data n ;; do_go 0x1000 0.
Definition case1 : act unit :=
  start_read 600 ;;
  got ← wait_cq; check "1 no completion" got ;;
  e ← entry; check "1 entry" ((bytes e =? 600) && result e 1 && (flags e .& 8 =? 0) && (nbdp e =? 0x1000)) ;;
  m ← memory; check "1 data" (pieces_ok m (bufs segs1) (take 600 data)) ;;
  check "1 wrote outside a buffer" (guards1 m).
Definition case2 : act unit :=
  start_read 400 ;;
  got ← wait_cq; check "2 no completion" got ;;
  e ← entry; check "2 starved entry" ((bytes e =? 400) && result e 2) ;;
  set_cancel ;; run_cycles 1 ;; run_cycles 2000 ;;
  i ← sidx; s ← gets s_b; check "2 extra entry after cancel" (i =? arm_cq_cons E s) ;;
  check "2 engine still busy after cancel" (negb (busy (b_e E s))).
Definition case3 : act unit :=
  guest_fill GUARD 0 (Z.to_nat GMEMSZ) ;; guest_chain 0x1000 [Seg 0x4004 300] ;;
  select ;; stage data 1000 ;; do_go 0x1000 0 ;;
  got ← wait_cq; e ← entry; check "3a entry" (got && (bytes e =? 300) && result e 1) ;;
  guest_chain 0x1100 [Seg 0x7001 700] ;;
  select ;; stage (drop 300 data) 700 ;; do_go 0x1100 0 ;;
  got ← wait_cq; e ← entry; check "3b entry" (got && (bytes e =? 700) && result e 1 && (nbdp e =? 0x1100)) ;;
  m ← memory; check "3 data across the resume" (pieces_ok m [(0x4004, 300%nat); (0x7001, 700%nat)] (take 1000 data)).
Definition case4 : act unit :=
  guest_fill GUARD 0 (Z.to_nat GMEMSZ) ;; guest_chain 0x1000 [Seg 0x4000 333] ;;
  do_cmd_go 0x1000 0 ;; run_cycles 3000 ;;
  i ← sidx; s ← gets s_b; check "4 posted before staging" (i =? arm_cq_cons E s) ;;
  stage (drop 7 data) 333 ;;
  got ← wait_cq; e ← entry; check "4 entry" (got && (bytes e =? 333) && result e 1) ;;
  m ← memory; check "4 data" (bytes_at m 0x4000 (from_ 7 333 data)).
Definition segs5 : list seg_t := [Seg 0x4002 100; Seg 0x5009 400; Seg 0x6000 200].
Definition start_write : act unit :=
  guest_put 0x4002 (pats 5 0 100) ;; guest_put 0x5009 (pats 5 100 400) ;; guest_put 0x6000 (pats 5 500 200) ;;
  guest_fill 0 (STG + WR) 4096 ;; guest_chain 0x1000 segs5 ;; do_cmd_go 0x1000 1.
Definition case5 : act unit :=
  start_write ;;
  got ← wait_cq; e ← entry; check "5 entry" (got && (bytes e =? 700) && result e 1 && negb (flags e .& 8 =? 0)) ;;
  m ← memory; check "5 write data in staging" (bytes_at m (STG + WR) (pats 5 0 700)).
Definition case6 : act unit :=
  guest_chain 0x1000 [Seg 0x4000 64] ;; do_cmd_go 0x1000 0 ;; run_cycles 500 ;; set_cancel ;; run_cycles 1 ;;
  got ← wait_cq; e ← entry; check "6 aborted entry" (got && result e 4 && (bytes e =? 0)).
(** Round [r] of case 7; [over r] is what lies behind the frame, which
    the over-staged copy reads too. *)
Definition frame7 (r : nat) : list Z := pats (100 + Z.of_nat r) 0 (17 + 97 * r).
Definition start7 (over : nat -> list Z) (r : nat) : act unit :=
  let f := frame7 r in let n := Z.of_nat (length f) in
  guest_fill GUARD 0x4000 (Z.to_nat 0x2000) ;; guest_chain 0x1000 [Seg (0x4000 + Z.of_nat (r mod 16)) n] ;;
  select ;; stage (f ++ over r) (n + 64) ;; do_go 0x1000 0.
Definition case7_round (over : nat -> list Z) (r : nat) : act unit :=
  let f := frame7 r in
  start7 over r ;;
  got ← wait_cq; e ← entry; m ← memory;
  check "7 back-to-back READ"
    (got && (bytes e =? Z.of_nat (length f)) && result e 1 && bytes_at m (0x4000 + Z.of_nat (r mod 16)) f).
Definition case7 (over : nat -> list Z) : act unit := for_each (seq 0 20) (case7_round over).
(** Case 8 waits with its own [e2], whose initial content is [junk]. *)
Definition wait_cq_local (junk : cqe_t) : act (bool * cqe_t) := call (fun s =>
  match arm_wait_cq E eval dn_req WAIT_LIM (s_b s) junk with
  | Some (got, b, e) => ((got, e), St b (s_e s))
  | None => ((false, junk), s)
  end).
(** [while(!d->done && g++ < lim) step()]. *)
Fixpoint until_done (lim : nat) (b : bench E) : bench E :=
  match lim with
  | O => b
  | S k => if done_ (b_e E b) then b else until_done k (fst (step E eval dn_req b))
  end.
Definition set_rd_beats (n : Z) : act unit := on_bench (fun b => StageBench.set_in E b (fun i =>
  StageIn (i_go i) (i_cancel i) (i_nbdp i) (i_to_dev i) n (i_rd_seq i) (i_req_seq i) (i_cq_cons i)
    (i_rsp_valid i) (i_rsp_data i))).
Definition set_rd_seq : act unit := on_bench (fun b => StageBench.set_in E b (fun i =>
  StageIn (i_go i) (i_cancel i) (i_nbdp i) (i_to_dev i) (i_rd_beats i) (cur_seq E b) (i_req_seq i) (i_cq_cons i)
    (i_rsp_valid i) (i_rsp_data i))).
Definition case8_round (junk : nat -> cqe_t) (r : nat) : act unit :=
  let n1 := 40 + 16 * Z.of_nat r in let n2 := (300 + 7 * r)%nat in
  let f1 := pats (200 + Z.of_nat r) 0 (Z.to_nat (n1 + 96)) in let f2 := pats (300 + Z.of_nat r) 0 n2 in
  guest_fill GUARD 0x4000 (Z.to_nat 0x4000) ;; guest_chain 0x1000 [Seg 0x4000 n1] ;;
  guest_chain 0x1100 [Seg 0x6005 (Z.of_nat n2)] ;;
  select ;; stage f1 (Z.of_nat (length f1)) ;; do_go 0x1000 0 ;;
  on_bench (until_done (Z.to_nat 100000)) ;;
  select ;; guest_fill 0 (STG + RD) (Z.to_nat (Z.ldiff (Z.of_nat n2 + 15) 15)) ;; guest_put (STG + RD) f2 ;;
  set_rd_beats ((Z.of_nat n2 + 15) / 16) ;; do_go 0x1100 0 ;; set_rd_seq ;;
  x ← wait_cq_local (junk r); let '(got, e2) := x in
  check "8 second entry" (got && (bytes e2 =? Z.of_nat n2) && (nbdp e2 =? 0x1100)) ;;
  m ← memory; check "8 second chain data (stale read-ahead?)" (bytes_at m 0x6005 f2).
Definition case8 (junk : nat -> cqe_t) : act unit := for_each (seq 0 16) (case8_round junk).

(** The draws of one round of case 9; [d_past] is what lies behind the frame in
    the over-staged READs. *)
Record draw9 := Draw9 { d_wr : bool; d_segs : list seg_t; d_over : Z; d_past : list Z }.
Definition case9_round (r : nat) (d : draw9) : act bool :=
  let n := total (d_segs d) in let f := pats (500 + Z.of_nat r) 0 n in
  guest_fill GUARD 0x8000 (Z.to_nat (4 * 0x3000)) ;; guest_chain 0x1000 (d_segs d) ;; select ;;
  (if d_wr d then
     on_mem (fun m => scatter m (d_segs d) f) ;;
     guest_fill 0x5a (STG + WR) (Z.to_nat (Z.ldiff (Z.of_nat n + 15) 15 + 32)) ;; do_go 0x1000 1
   else stage (f ++ d_past d) (Z.of_nat n + d_over d * 16) ;; do_go 0x1000 0) ;;
  got ← wait_cq; e ← entry; m ← memory;
  mret (got && (bytes e =? Z.of_nat n) && result e 1 && (nbdp e =? 0x1000) && case9_ok m (d_wr d) (d_segs d) f).
Fixpoint case9_rounds (r : nat) (ds : list draw9) : act bool :=
  match ds with
  | [] => mret true
  | d :: t => ok ← case9_round r d; oks ← case9_rounds (S r) t; mret (ok && oks)
  end.
Definition case9 (ds : list draw9) : act unit := ok ← case9_rounds 0 ds; check "9 random chains" ok.

(** main(), from the bench after its reset cycles. *)
Definition stage_main (over : nat -> list Z) (junk : nat -> cqe_t) (ds : list draw9) : act unit :=
  case1 ;; case2 ;; case3 ;; case4 ;; case5 ;; case6 ;; case7 over ;; case8 junk ;; case9 ds.
Definition stage_exit (over : nat -> list Z) (junk : nat -> cqe_t) (ds : list draw9) (s : st) : Z :=
  exit_code (snd (stage_main over junk ds s)).

End Main.

(** ** What the cases accept *)

Section Exact.
Context (E : Type) (eval : E -> bool -> stage_in -> E) (dn_req : E -> req) (busy done_ : E -> bool).
Abbreviation st := (st E).
Abbreviation wait := (wait_cq E eval dn_req).
(** What [arm_wait_cq] returns, and the bench after it. *)
Definition got (s : st) : bool := fst (fst (wait s)).
Definition after (s : st) : st := final wait s.
Definition mem_of (s : st) : mem := b_mem E (s_b E s).

Lemma passes_wait s : passes wait s.
Proof. unfold wait_cq. script_quiet. Qed.
Lemma wait_shape {B} (k : bool -> script st B) s : passes (wait ≫= k) s <-> passes (k (got s)) (after s).
Proof. exact (passes_quiet_then _ _ _ (passes_wait s)). Qed.

Lemma passes_start_read n s : passes (start_read E eval dn_req n) s.
Proof. unfold start_read, guest_fill, guest_chain, select, stage, do_go, on_mem, on_bench. script_quiet. Qed.
Lemma passes_start_write s : passes (start_write E eval dn_req) s.
Proof. unfold start_write, guest_put, guest_fill, guest_chain, do_cmd_go, on_mem, on_bench. script_quiet. Qed.
Lemma passes_start7 over r s : passes (start7 E eval dn_req over r) s.
Proof. unfold start7, guest_fill, guest_chain, select, stage, do_go, on_mem, on_bench. script_quiet. Qed.

(** Case 1 accepts exactly the runs in which the wait returns the
    entry of a complete READ of 600 bytes and, at that moment, the buffers of the
    chain hold the staged bytes in order, with the guard bytes around them. *)
Theorem case1_exact (s : st) :
  let s1 := final (start_read E eval dn_req 600) s in let e := s_e E (after s1) in
  passes (case1 E eval dn_req) s <->
  got s1 = true /\ (bytes e = 600 /\ flags e .& 7 = 1 /\ flags e .& 8 = 0 /\ nbdp e = 0x1000) /\
  gather (mem_of (after s1)) (bufs segs1) = take 600 data /\ guards1 (mem_of (after s1)) = true.
Proof.
  cbv zeta. unfold case1. script_skip (passes_start_read 600 s). set (s1 := final _ s).
  eapply iff_trans; [apply wait_shape|]. unfold entry, memory, result. script_passes. fold (mem_of (after s1)).
  rewrite pieces_iff by reflexivity. rewrite !andb_true_iff, !Z.eqb_eq. tauto.
Qed.

(** The guest memory case 5 writes from. *)
Definition guest5 (m : mem) : mem :=
  mput_bytes (mput_bytes (mput_bytes m 0x4002 (pats 5 0 100)) 0x5009 (pats 5 100 400)) 0x6000 (pats 5 500 200).
Lemma length_pats seed k n : length (pats seed k n) = n.
Proof. unfold pats. by rewrite length_map, length_seq. Qed.
Lemma gather5 m : gather (guest5 m) (bufs segs5) = pats 5 0 700.
Proof.
  assert (pats 5 0 700 = pats 5 0 100 ++ pats 5 100 400 ++ pats 5 500 200) as -> by (vm_compute; reflexivity).
  unfold gather, guest5. cbn [bufs segs5 map bp cnt concat fst snd].
  change (Z.to_nat 100) with 100%nat. change (Z.to_nat 400) with 400%nat. change (Z.to_nat 200) with 200%nat.
  rewrite app_nil_r. f_equal; [|f_equal].
  - rewrite !mget_bytes_mput_disj by (rewrite ?length_pats; lia).
    rewrite <- (length_pats 5 0 100) at 2. apply mget_bytes_mput.
  - rewrite mget_bytes_mput_disj by (rewrite ?length_pats; lia).
    rewrite <- (length_pats 5 100 400) at 2. apply mget_bytes_mput.
  - rewrite <- (length_pats 5 500 200) at 2. apply mget_bytes_mput.
Qed.

(** Case 5 accepts exactly the runs that end with the entry of a
    complete WRITE of 700 bytes and with the guest buffers of the chain, gathered
    in order, contiguous in the staging area. *)
Theorem case5_exact (s : st) :
  let s1 := final (start_write E eval dn_req) s in let e := s_e E (after s1) in
  passes (case5 E eval dn_req) s <->
  got s1 = true /\ (bytes e = 700 /\ flags e .& 7 = 1 /\ flags e .& 8 <> 0) /\
  mget_bytes (mem_of (after s1)) (STG + WR) 700 = gather (guest5 (mem_of s)) (bufs segs5).
Proof.
  cbv zeta. unfold case5. script_skip (passes_start_write s). set (s1 := final _ s).
  rewrite gather5. eapply iff_trans; [apply wait_shape|]. unfold entry, memory, result. script_passes. fold (mem_of (after s1)).
  rewrite bytes_at_iff, length_pats. rewrite !andb_true_iff, negb_true_iff, !Z.eqb_eq, Z.eqb_neq. tauto.
Qed.

(** Case 7 accepts exactly the runs whose twenty rounds, each from where the
    previous one ended, all complete with their own frame in their own buffer,
    whatever the over-staged bytes were. *)
Theorem case7_exact (over : nat -> list Z) (s : st) :
  passes (case7 E eval dn_req over) s <->
  forall r, (r < 20)%nat ->
    let s0 := final (for_each (seq 0 r) (case7_round E eval dn_req over)) s in
    let s1 := final (start7 E eval dn_req over r) s0 in let e := s_e E (after s1) in
    got s1 = true /\ bytes e = Z.of_nat (17 + 97 * r) /\ flags e .& 7 = 1 /\
    mget_bytes (mem_of (after s1)) (0x4000 + Z.of_nat (r mod 16)) (17 + 97 * r) = frame7 r.
Proof.
  assert (forall r s0, let s1 := final (start7 E eval dn_req over r) s0 in let e := s_e E (after s1) in
    passes (case7_round E eval dn_req over r) s0 <->
    got s1 = true /\ bytes e = Z.of_nat (17 + 97 * r) /\ flags e .& 7 = 1 /\
    mget_bytes (mem_of (after s1)) (0x4000 + Z.of_nat (r mod 16)) (17 + 97 * r) = frame7 r) as Hr.
  { intros r s0. cbv zeta. unfold case7_round. script_skip (passes_start7 over r s0). set (s1 := final _ s0).
    eapply iff_trans; [apply wait_shape|]. unfold entry, memory, result. script_passes. fold (mem_of (after s1)).
    assert (length (frame7 r) = (17 + 97 * r)%nat) as Hl by apply length_pats.
    rewrite !andb_true_iff, !Z.eqb_eq, bytes_at_iff, Hl. tauto. }
  unfold case7. rewrite passes_for_each. split.
  - intros H r Hlt. apply Hr. specialize (H r r). rewrite take_seq, Nat.min_l in H by lia.
    apply H. by rewrite lookup_seq_lt.
  - intros H k x Hx. apply lookup_seq in Hx as [-> Hk]. cbn [Nat.add]. apply Hr.
    rewrite take_seq, Nat.min_l by lia. by apply H.
Qed.

(** The bench exits with 0 exactly when every check of every case holds. *)
Theorem stage_exit_exact (over : nat -> list Z) (junk : nat -> cqe_t) (ds : list draw9) (s : st) :
  stage_exit E eval dn_req busy done_ over junk ds s = 0 <-> passes (stage_main E eval dn_req busy done_ over junk ds) s.
Proof. apply exit_code_pass. Qed.
End Exact.
