(* ===== verification/DmaMains.v ===== *)
(** * DmaMains: the scripted cases of the SCSI DMA and Ethernet DMA benches

    The main functions of sim/scsi_dma_test/tb_scsi_dma.cpp and
    sim/enet_dma_test/tb_enet_dma.cpp over the benches of [EnetBench], as scripts
    of [BenchCheck].  The engines are parameters. *)
From S2P Require Import Prelude AddressMap GuestMem BenchPort EnetBench BenchCheck.

(** Descriptor words are written straight into [mem]. *)
Definition poke32 (m : mem) (a v : Z) : mem := mput_bytes m a (be_bytes 4 v).
Definition desc (a bp bc dp : Z) (m : mem) : mem := poke32 (poke32 (poke32 m a bp) (a + 4) bc) (a + 8) dp.
Definition BC_XIE : Z := 0x20000000.
Definition BC_EOX : Z := 0x80000000.
Definition BC_ROWN : Z := 0x4000.
Definition BC_ETXD : Z := 0x8000.
Definition GUARD : Z := 0xa5.
Definition pat (seed k : Z) : Z := u8 (k * 7 + seed * 13 + 1).
Definition pats (seed : Z) (n : nat) : list Z := map (fun i => pat seed (Z.of_nat i)) (seq 0 n).
Definition clear (v : Z) (m : mem) : mem := memset m 0 v (Z.to_nat GMEMSZ).

(** ** tb_scsi_dma.cpp *)

Section ScsiMain.
Variable E : Type.
Variable eval : E -> bool -> scsi_in -> E.
Variable comb : E -> enet_comb.
Variable done_ : E -> bool.
Abbreviation act := (script (sbench E)).

(** [while(guard++ < 100000)]. *)
Definition RUN_LIM : nat := Z.to_nat 100000.
Definition scsi_start (f : mem -> mem) : act unit := modify (fun b =>
  SBench E (sb_e E b) (sb_data E b) (sb_port E b) (f (clear 0 (sb_mem E b))) 0 []).
Definition run (nbdp : Z) (to_dev : bool) : act bool := call (fun b =>
  let '(ok, b, _) := scsi_run E eval comb done_ RUN_LIM nbdp to_dev b in (ok, b)).
Definition scsi_case1 : act unit :=
  scsi_start (desc 0x1000 0x2000 (64 .| BC_EOX) 0) ;;
  ok ← run 0x1000 false; b ← gets id;
  check "READ single-desc 64B -> mem matches disk ramp" (ok && bytes_at (sb_mem E b) 0x2000 (ramp_from 0 64)).
Definition scsi_case2 : act unit :=
  scsi_start (fun m => desc 0x1010 0x3000 (32 .| BC_EOX) 0 (desc 0x1000 0x2000 32 0x1010 m)) ;;
  ok ← run 0x1000 false; b ← gets id;
  check "READ chained 32B+32B -> both buffers, ramp continuous"
    (ok && pieces_ok (sb_mem E b) [(0x2000, 32%nat); (0x3000, 32%nat)] (ramp_from 0 64)).
Definition scsi_case3 : act unit :=
  scsi_start (fun m => desc 0x1000 0x4000 (48 .| BC_XIE .| BC_EOX) 0 (mput_bytes m 0x4000 (ramp_from 0 48))) ;;
  ok ← run 0x1000 true; b ← gets id;
  check "WRITE single-desc 48B -> disk capture matches mem" (ok && captured_ok (wr_capture E b) (ramp_from 0 48)).
Definition scsi_main : act unit := scsi_case1 ;; scsi_case2 ;; scsi_case3.

(** What a run returns, and the bench after it. *)
Definition ran (nbdp : Z) (to_dev : bool) (b : sbench E) : bool * sbench E :=
  let '(ok, b, _) := scsi_run E eval comb done_ RUN_LIM nbdp to_dev b in (ok, b).

(** One transfer and its check: [f] writes the memory before it, [P] is what the
    check reads after it. *)
Lemma scsi_case_passes f nbdp to_dev what (P : sbench E -> bool) b :
  let m := (scsi_start f ;; ok ← run nbdp to_dev; b ← gets id; check what (ok && P b)) : act unit in
  let '(ok, r) := ran nbdp to_dev (final (scsi_start f) b) in
  (passes m b <-> ok = true /\ P r = true) /\ final m b = r.
Proof.
  cbv zeta. unfold scsi_start, run. fold (ran nbdp to_dev).
  script_final. set (b1 := SBench _ _ _ _ _ _ _). destruct (ran nbdp to_dev b1) as [ok r] eqn:Er.
  split; [|done]. script_passes. fold b1. rewrite Er. cbn [fst snd id]. by rewrite andb_true_iff.
Qed.
(** The bench exits with 0 exactly when each of its three transfers reports
    done and, then, the buffers of the READ chains hold the disk's first 64 bytes
    in order and the disk received the 48 bytes of the WRITE buffer and no more. *)
Theorem scsi_main_exact (b : sbench E) :
  let '(ok1, r1) := ran 0x1000 false (final (scsi_start (desc 0x1000 0x2000 (64 .| BC_EOX) 0)) b) in
  let '(ok2, r2) := ran 0x1000 false (final (scsi_start (fun m =>
    desc 0x1010 0x3000 (32 .| BC_EOX) 0 (desc 0x1000 0x2000 32 0x1010 m))) r1) in
  let '(ok3, r3) := ran 0x1000 true (final (scsi_start (fun m =>
    desc 0x1000 0x4000 (48 .| BC_XIE .| BC_EOX) 0 (mput_bytes m 0x4000 (ramp_from 0 48)))) r2) in
  exit_code (snd (scsi_main b)) = 0 <->
  (ok1 = true /\ gather (sb_mem E r1) [(0x2000, 64%nat)] = ramp_from 0 64) /\
  (ok2 = true /\ gather (sb_mem E r2) [(0x2000, 32%nat); (0x3000, 32%nat)] = ramp_from 0 64) /\
  (ok3 = true /\ wr_capture E r3 = ramp_from 0 48).
Proof.
  pose proof (scsi_case_passes (desc 0x1000 0x2000 (64 .| BC_EOX) 0) 0x1000 false
    "READ single-desc 64B -> mem matches disk ramp" (fun b => bytes_at (sb_mem E b) 0x2000 (ramp_from 0 64)) b) as H1.
  destruct (ran _ _ _) as [ok1 r1]. cbv zeta in H1. fold scsi_case1 in H1. destruct H1 as [H1 F1].
  pose proof (scsi_case_passes (fun m => desc 0x1010 0x3000 (32 .| BC_EOX) 0 (desc 0x1000 0x2000 32 0x1010 m)) 0x1000 false
    "READ chained 32B+32B -> both buffers, ramp continuous"
    (fun b => pieces_ok (sb_mem E b) [(0x2000, 32%nat); (0x3000, 32%nat)] (ramp_from 0 64)) r1) as H2.
  destruct (ran _ _ _) as [ok2 r2]. cbv zeta in H2. fold scsi_case2 in H2. destruct H2 as [H2 F2].
  pose proof (scsi_case_passes (fun m => desc 0x1000 0x4000 (48 .| BC_XIE .| BC_EOX) 0 (mput_bytes m 0x4000 (ramp_from 0 48)))
    0x1000 true "WRITE single-desc 48B -> disk capture matches mem"
    (fun b => captured_ok (wr_capture E b) (ramp_from 0 48)) r2) as H3.
  destruct (ran _ _ _) as [ok3 r3]. cbv zeta in H3. fold scsi_case3 in H3. destruct H3 as [H3 F3].
  rewrite exit_code_pass. change (all_pass (snd (scsi_main b))) with (passes scsi_main b). unfold scsi_main.
  rewrite !passes_bind, F1, F2, H1, H2, H3, pieces_iff, bytes_at_iff, captured_iff by reflexivity.
  unfold gather. cbn [map concat fst snd]. rewrite app_nil_r. done.
Qed.
End ScsiMain.

(** ** tb_enet_dma.cpp *)

Section EnetMain.
Variable E : Type.
Variable eval : E -> bool -> enet_in -> E.
Variable comb : E -> enet_comb.
Variable clk : E -> enet_clk.
Variable tx_len : E -> Z.
Abbreviation act := (script (bench E)).

Definition set_bmem (m : mem) (b : bench E) : bench E :=
  Bench E (b_e E b) (b_data E b) (b_rd E b) (b_port E b) m (rx_src E b) (rx_fifo E b) (tx_fifo E b) (tx_out E b)
    (n_rx_done E b) (n_rx_drop E b) (n_tx_done E b).
Definition clear_tx_out (b : bench E) : bench E :=
  Bench E (b_e E b) (b_data E b) (b_rd E b) (b_port E b) (b_mem E b) (rx_src E b) (rx_fifo E b) (tx_fifo E b) []
    (n_rx_done E b) (n_rx_drop E b) (n_tx_done E b).
Definition on_mem (f : mem -> mem) : act unit := modify (fun b => set_bmem (f (b_mem E b)) b).
(** [rx_frame(nbdp, f)] with its 200000-cycle limit, while [tx_pop_period = 1]. *)
Definition RX_LIM : nat := Z.to_nat 200000.
Definition rx (nbdp : Z) (f : list Z) : act Z := call (fun b =>
  let '(r, b, _) := rx_frame E eval comb clk 1 RX_LIM nbdp f b in (r, b)).
Definition fifos_empty (b : bench E) : bool :=
  match rx_fifo E b, rx_src E b with [], [] => true | _, _ => false end.

Definition BUFSZ : Z := 1600.
Definition lens : list nat := [3; 15; 16; 17; 61; 64; 310; 1517]%nat.
(** Offsets outermost; the pattern seed counts the rounds from 1. *)
Definition sweep : list (Z * nat) := concat (map (fun off => map (fun len => (Z.of_nat off, len)) lens) (seq 0 16)).
Definition rx_setup (bp : Z) : act unit :=
  on_mem (fun m => desc 0x1000 bp (BC_ROWN .| 0x20000000 .| BUFSZ) 0x1010 (clear GUARD m)).
Definition rx_round (seed : Z) (x : Z * nat) : act unit :=
  let '(off, len) := x in let bp := 0x4000 + off in let f := pats seed len in
  rx_setup bp ;;
  r ← rx 0x1000 f; check "RX: no rx_done" (r =? 1) ;;
  b ← gets id; let m := b_mem E b in
  check "RX: data mismatch" (bytes_at m bp f) ;;
  check "RX: wrote outside the frame"
    (filled m GUARD 0x3f00 bp && filled m GUARD (bp + Z.of_nat (length f)) (bp + BUFSZ + 64)) ;;
  (let bc := be32 m 0x1004 in
   check "RX: bad BC writeback" ((bc .& BC_ROWN =? 0) && (bc .& 0x3fff =? BUFSZ - Z.of_nat (length f)))) ;;
  check "RX: beats left in FIFO" (fifos_empty b).
Definition rx_sweep : act unit :=
  for_each (imap (fun i x => (Z.of_nat (S i), x)) sweep) (fun p => rx_round (fst p) (snd p)).

Definition f1 : list Z := pats 901 100.
Definition f2 : list Z := pats 902 77.
Definition rx_drop : act unit :=
  on_mem (fun m => desc 0x1010 0x5008 (BC_ROWN .| BUFSZ) 0x1020 (desc 0x1000 0x4008 (0x20000000 .| BUFSZ) 0x1010 (clear GUARD m))) ;;
  r ← rx 0x1000 f1; check "RX drop: expected rx_dropped" (r =? 2) ;;
  b ← gets id; check "RX drop: beats left" (fifos_empty b) ;;
  check "RX drop: buffer written" (filled (b_mem E b) GUARD 0x4000 (0x4000 + 200)) ;;
  r ← rx 0x1010 f2; check "RX after drop: no rx_done" (r =? 1) ;;
  b ← gets id; check "RX after drop: data mismatch (stale beats?)" (bytes_at (b_mem E b) 0x5008 f2).
Definition rx_clamp : act unit :=
  on_mem (fun m => desc 0x1010 0x5004 (BC_ROWN .| BUFSZ) 0x1020 (desc 0x1000 0x4008 (BC_ROWN .| 64) 0x1010 (clear GUARD m))) ;;
  r ← rx 0x1000 f1; check "RX clamp: no rx_done" (r =? 1) ;;
  b ← gets id; check "RX clamp: data, guard"
    (bytes_at (b_mem E b) 0x4008 (take 64 f1) && filled (b_mem E b) GUARD (0x4008 + 64) 0x4100) ;;
  r ← rx 0x1010 f2; check "RX after clamp: no rx_done" (r =? 1) ;;
  b ← gets id; check "RX after clamp: data mismatch" (bytes_at (b_mem E b) 0x5004 f2).

(** TX: three descriptors at odd offsets. *)
Definition tx_descs : list (Z * nat) := [(0x6002, 100%nat); (0x7008, 150%nat); (0x8000, 60%nat)].
Definition tx_piece (i : nat) (n : nat) : list Z := pats (950 + Z.of_nat i) n.
Fixpoint tx_memory (i : nat) (ds : list (Z * nat)) (m : mem) : mem :=
  match ds with
  | [] => m
  | (bp, n) :: t =>
      let a := 0x1100 + 16 * Z.of_nat i in
      tx_memory (S i) t (mput_bytes (desc a bp (Z.of_nat n .| (if (i =? 2)%nat then BC_EOX else 0)) (a + 16) m) bp (tx_piece i n))
  end.
Definition tx_want : list Z := concat (imap (fun i d => tx_piece i (snd d)) tx_descs).
(** [for(; g < lim && n_tx_done == td; g++) step(0,0,0,0,0)]. *)
Fixpoint tx_wait (period : Z) (lim : nat) (td : Z) (b : bench E) : bench E :=
  match lim with
  | O => b
  | S k => if n_tx_done E b =? td then tx_wait period k td (fst (step E eval comb clk period idle_args b)) else b
  end.
Definition tx_run (period : Z) : act unit := modify (fun b =>
  let td := n_tx_done E b in
  let b := fst (step E eval comb clk period (GoArgs false 0 0 true 0x1100) b) in
  let b := tx_wait period (Z.to_nat 400000) td b in
  fst (steps E eval comb clk period (repeat idle_args 4000) b)).
Definition tx_case (period : Z) : act unit :=
  on_mem (fun m => tx_memory 0 tx_descs (clear 0 m)) ;; modify clear_tx_out ;;
  td ← gets (n_tx_done E); tx_run period ;;
  b ← gets id; let m := b_mem E b in
  check "TX: no tx_done" (negb (n_tx_done E b =? td)) ;;
  check "TX: tx_len" (tx_len (b_e E b) =? 310) ;;
  check "TX: gathered bytes wrong"
    ((310 <=? length (tx_out E b))%nat && forallb (fun k => nth k (tx_out E b) 0 =? nth k tx_want 0) (seq 0 310)) ;;
  check "TX: ETXD not set" (negb (be32 m 0x1104 .& BC_ETXD =? 0) && negb (be32 m 0x1124 .& BC_ETXD =? 0)).
Definition enet_main : act unit := rx_sweep ;; rx_drop ;; rx_clamp ;; for_each [1; 200] tx_case.

(** ** What the cases accept *)

Definition rx_result (bp : Z) (f : list Z) (b : bench E) : Z * bench E :=
  let '(r, b, _) := rx_frame E eval comb clk 1 RX_LIM 0x1000 f (final (rx_setup bp) b) in (r, b).

Lemma passes_rx_setup bp b : passes (rx_setup bp) b.
Proof. unfold rx_setup, on_mem. script_quiet. Qed.

(** One round of the RX sweep accepts exactly a reported completion after which
    the buffer's surroundings, from 0x3f00 to 64 bytes past its end, are guard
    bytes but for the frame at its byte offset, the descriptor is handed back with
    the room that is left, and both queues are empty. *)
Theorem rx_round_exact (seed : Z) (off : Z) (len : nat) (b : bench E) :
  0 <= off < 16 -> (len <= 1517)%nat ->
  let bp := 0x4000 + off in let f := pats seed len in
  let '(r, b') := rx_result bp f b in
  passes (rx_round seed (off, len)) b <->
  r = 1 /\
  mget_bytes (b_mem E b') 0x3f00 (Z.to_nat (bp + BUFSZ + 64 - 0x3f00)) =
    repeat GUARD (Z.to_nat (bp - 0x3f00)) ++ f ++ repeat GUARD (Z.to_nat (BUFSZ + 64) - len) /\
  be32 (b_mem E b') 0x1004 .& BC_ROWN = 0 /\ be32 (b_mem E b') 0x1004 .& 0x3fff = BUFSZ - Z.of_nat len /\
  rx_fifo E b' = [] /\ rx_src E b' = [].
Proof.
  intros Hoff Hlen bp f. assert (length f = len) as Hl by (unfold f, pats; by rewrite length_map, length_seq).
  unfold rx_result. destruct (rx_frame _ _ _ _ _ _ _ f _) as [[r b1] os] eqn:Er.
  unfold rx_round, rx. fold bp f.
  script_skip (passes_rx_setup bp b).
  script_passes. rewrite Er. cbn [fst snd id]. rewrite Hl.
  pose proof (deposited_iff (b_mem E b1) GUARD 0x3f00 bp (bp + BUFSZ + 64) f) as Hd. rewrite Hl in Hd.
  replace (Z.to_nat (BUFSZ + 64) - len)%nat with (Z.to_nat (bp + BUFSZ + 64 - bp - Z.of_nat len)) by lia.
  rewrite <- Hd by (unfold bp, BUFSZ in *; lia). unfold deposited. rewrite Hl, !andb_true_iff, !Z.eqb_eq.
  assert (fifos_empty b1 = true <-> rx_fifo E b1 = [] /\ rx_src E b1 = []) as ->.
  { unfold fifos_empty. destruct (rx_fifo E b1), (rx_src E b1); split; intros; try done; by destruct H. }
  tauto.
Qed.

Lemma tx_want_gather m : gather (tx_memory 0 tx_descs (clear 0 m)) tx_descs = tx_want.
Proof.
  assert (tx_want = tx_piece 0 100 ++ tx_piece 1 150 ++ tx_piece 2 60) as -> by (vm_compute; reflexivity).
  generalize (clear 0 m). clear m. intros m.
  unfold gather. cbn [tx_memory tx_descs map concat fst snd]. rewrite app_nil_r. unfold desc, poke32.
  assert (forall i n, length (tx_piece i n) = n) as Hl by (intros; unfold tx_piece, pats; by rewrite length_map, length_seq).
  assert (forall a i n m', mget_bytes (mput_bytes m' a (tx_piece i n)) a n = tx_piece i n) as Hg.
  { intros a i n m'. rewrite <- (Hl i n) at 2. apply mget_bytes_mput. }
  apply (f_equal2 app); [|apply (f_equal2 app)];
    rewrite ?mget_bytes_mput_disj by (rewrite ?Hl, ?length_be_bytes; lia); apply Hg.
Qed.
Lemma prefix_ok (l f : list Z) n : length f = n ->
  (n <=? length l)%nat && forallb (fun k => nth k l 0 =? nth k f 0) (seq 0 n) = true <-> take n l = f.
Proof.
  intros <-. rewrite andb_true_iff, Nat.leb_le, forallb_forall. split.
  - intros [Hl H]. apply (List.nth_ext _ _ 0 0); [rewrite length_take; lia|]. rewrite length_take. intros k Hk.
    rewrite nth_firstn, (proj2 (Nat.ltb_lt _ _)) by lia. apply Z.eqb_eq, H, in_seq. lia.
  - intros Ep. assert (length f <= length l)%nat as Hl by (rewrite <- Ep at 1; rewrite length_take; lia).
    split; [done|]. intros k [_ Hk]%in_seq. apply Z.eqb_eq. rewrite <- Ep. rewrite nth_firstn, (proj2 (Nat.ltb_lt _ _)) by lia. done.
Qed.

(** A TX run is accepted exactly when the engine reports done and a length of
    310, the first 310 bytes of the sink are the buffers of the chain as they were in
    memory, in order, and the first and last descriptors are marked transmitted. *)
Theorem tx_case_exact (period : Z) (b : bench E) :
  let b0 := final (on_mem (fun m => tx_memory 0 tx_descs (clear 0 m)) ;; modify clear_tx_out) b in
  let b' := final (tx_run period) b0 in
  passes (tx_case period) b <->
  n_tx_done E b' <> n_tx_done E b0 /\ tx_len (b_e E b') = 310 /\
  take 310 (tx_out E b') = gather (b_mem E b0) tx_descs /\
  be32 (b_mem E b') 0x1104 .& BC_ETXD <> 0 /\ be32 (b_mem E b') 0x1124 .& BC_ETXD <> 0.
Proof.
  cbv zeta. unfold tx_case, on_mem, tx_run. script_final. script_passes. cbn [id].
  set (b0 := clear_tx_out _). set (b' := fst (steps _ _ _ _ _ _ _)).
  assert (gather (b_mem E b0) tx_descs = tx_want) as -> by apply (tx_want_gather (b_mem E b)).
  rewrite prefix_ok by (vm_compute; reflexivity).
  rewrite !andb_true_iff, !negb_true_iff, !Z.eqb_eq, !Z.eqb_neq. tauto.
Qed.
End EnetMain.
