(* ===== verification/RingMain.v ===== *)
(** * RingMain: the scripted cases of the Ethernet staging-ring bench

    main() of sim/enet_dma_test/tb_enet_ring_dma.cpp over the bench of
    [RingBench], as scripts of [BenchCheck]: the RX sweep and drop, the TX chain
    the guest edits, TX back pressure, RX with TX, the oversize packet and the
    random chains, whose [rand()] draws are an argument.  The engine is a
    parameter, with [rx_crbdp] as one more output. *)
From S2P Require Import Prelude AddressMap GuestMem BenchPort RingBench BenchCheck.

Definition TXCQ : Z := 0x1000.
Definition TXS : Z := 0x100000.
Definition STGSZ : Z := 2 ^ 22.
Definition BC_ROWN : Z := 0x4000.
Definition BC_ETXD : Z := 0x8000.
Definition BC_EOX : Z := 0x80000000.
Definition BC_EOXP : Z := 0x40000000.
Definition GUARD : Z := 0xa5.
Definition BUFSZ : Z := 1600.
Definition pat (seed k : Z) : Z := u8 (k * 7 + seed * 13 + 1).
Definition pats (seed : Z) (n : nat) : list Z := map (fun i => pat seed (Z.of_nat i)) (seq 0 n).
Definition put4 (pa v : Z) (m : mem) : mem := put_be32 at_ m pa v.
Definition get4 (m : mem) (pa : Z) : Z := get_be32 at_ m pa.
(** A descriptor: [put_be32] of its three words. *)
Definition desc (a bp bc dp : Z) (m : mem) : mem := put4 (a + 8) dp (put4 (a + 4) bc (put4 a bp m)).

(** ** The guest's TX chain *)

(** [td[4]]: buffer, length, flags; packet A is the first two. *)
Definition td : list (Z * nat * Z) :=
  [(0x6002, 100%nat, 0); (0x7008, 150%nat, BC_EOXP); (0x8000, 60%nat, BC_EOXP); (0x9005, 333%nat, BC_EOXP .| BC_EOX)].
Definition td_bc (x : Z * nat * Z) : Z := let '(_, n, fl) := x in Z.of_nat n .| fl.
Definition td_piece (i : nat) (n : nat) : list Z := pats (950 + Z.of_nat i) n.
Fixpoint td_memory (i : nat) (l : list (Z * nat * Z)) (m : mem) : mem :=
  match l with
  | [] => m
  | (bp, n, fl) :: t =>
      let a := 0x1100 + 16 * Z.of_nat i in
      td_memory (S i) t (mput_bytes (desc a bp (Z.of_nat n .| fl) (a + 16) m) bp (td_piece i n))
  end.
(** [for(int i = 0; i < 4; i++) put_be32(0x1104 + 16*i, td[i].cnt | td[i].flags)]. *)
Definition td_rearm (m : mem) : mem :=
  fold_left (fun m p => put4 (0x1104 + 16 * Z.of_nat (fst p)) (td_bc (snd p)) m) (imap pair td) m.
(** [want[3]]. *)
Definition want : list (list Z) :=
  [td_piece 0 100 ++ td_piece 1 150; td_piece 2 60; td_piece 3 333].

(** ** The random chains *)

(** The draws of one chain: its packets, each a list of (offset, length). *)
Abbreviation draws := (list (list (Z * nat))).
(** Memory, the next descriptor's address, the next buffer. *)
Record build := Build { u_mem : mem; u_a : Z; u_buf : Z }.
Definition put_desc (seed bc_flags : Z) (d : Z * nat) (u : build) : build :=
  let '(off, n) := d in let bp := u_buf u + off in
  let m := mput_bytes (u_mem u) bp (pats seed n) in
  Build (desc (u_a u) bp (Z.of_nat n .| bc_flags) (u_a u + 16) m) (u_a u + 16) (u_buf u + 0x800).
(** The descriptors [i ..] of a packet whose first pattern seed is [s]. *)
Fixpoint put_packet (s : Z) (last_p : bool) (i : nat) (ds : list (Z * nat)) (u : build) : build :=
  match ds with
  | [] => u
  | d :: t =>
      let last_d := match t with [] => true | _ => false end in
      put_packet s last_p (S i) t
        (put_desc (s + Z.of_nat i) ((if last_d then BC_EOXP else 0) .| (if last_d && last_p then BC_EOX else 0)) d u)
  end.
Fixpoint put_packets (r : Z) (p : nat) (pk : draws) (u : build) : build :=
  match pk with
  | [] => u
  | ds :: t =>
      put_packets r (S p) t
        (put_packet (3000 + r * 16 + Z.of_nat p * 4) (match t with [] => true | _ => false end) 0 ds u)
  end.
(** [pk[p]], built with the same indices. *)
Fixpoint packet_bytes (s : Z) (i : nat) (ds : list (Z * nat)) : list Z :=
  match ds with [] => [] | d :: t => pats (s + Z.of_nat i) (snd d) ++ packet_bytes s (S i) t end.
Fixpoint packets_bytes (r : Z) (p : nat) (pk : draws) : list (list Z) :=
  match pk with
  | [] => []
  | ds :: t => packet_bytes (3000 + r * 16 + Z.of_nat p * 4) 0 ds :: packets_bytes r (S p) t
  end.
(** [ndesc_total]. *)
Definition ndesc (pk : draws) : nat := length (concat pk).

(** ** Checks *)

(** The completion entry of [slot] reports the length of [w], and the slot holds it. *)
Definition entry_len (m : mem) (mask slot : Z) (w : list Z) : bool :=
  get_le32 at_ m (STG + TXCQ + 16 * slot) .& mask =? Z.of_nat (length w).
Definition slot_bytes (m : mem) (slot : Z) (w : list Z) : bool := bytes_at m (STG + TXS + slot * 2048) w.
Definition etxd_set (m : mem) (base : Z) (n : nat) : bool :=
  forallb (fun i => negb (get4 m (base + 16 * Z.of_nat i) .& BC_ETXD =? 0)) (seq 0 n).

(** ** The scripts *)

Section Main.
Variable E : Type.
Variable eval : E -> bool -> ring_in -> E.
Variable dma_req : E -> req.
Variable outs : E -> ring_out.
Variable rx_crbdp : E -> Z.
Abbreviation bench := (bench E).
Abbreviation act := (script bench).
Abbreviation rstep := (step E eval dma_req outs).
(** The default [lim] of [wait_for], and the bound of the TX loops. *)
Definition WAIT_LIM : nat := Z.to_nat 400000.

Definition set_in (f : ring_in -> ring_in) (b : bench) : bench :=
  Bench E (b_e E b) (f (b_in E b)) (b_port E b) (b_mem E b) (b_pr E b) (n_tx_done E b) (n_rx_done E b) (n_rx_drop E b)
    (arm_rx_prod E b).
Definition set_mem (m : mem) (b : bench) : bench :=
  Bench E (b_e E b) (b_in E b) (b_port E b) m (b_pr E b) (n_tx_done E b) (n_rx_done E b) (n_rx_drop E b) (arm_rx_prod E b).
Definition on_mem (f : mem -> mem) (b : bench) : bench := set_mem (f (b_mem E b)) b.
Definition rx_arm (b : bench) : bench := set_in (fun i => RingIn (i_tx_go i) (i_tx_nbdp i) (i_tx_cons i) true
  (i_rx_nbdp i) (i_rx_prod i) (i_rsp_valid i) (i_rsp_data i)) b.
Definition rx_at (nb : Z) (b : bench) : bench := set_in (fun i => RingIn (i_tx_go i) (i_tx_nbdp i) (i_tx_cons i)
  (i_rx_armed i) nb (i_rx_prod i) (i_rsp_valid i) (i_rsp_data i)) b.
Definition tx_consumed (c : Z) (b : bench) : bench := set_in (fun i => RingIn (i_tx_go i) (i_tx_nbdp i) c
  (i_rx_armed i) (i_rx_nbdp i) (i_rx_prod i) (i_rsp_valid i) (i_rsp_data i)) b.
(** [d->tx_nbdp = nb; d->tx_go = 1]. *)
Definition tx_start (nb : Z) (b : bench) : bench := set_in (fun i => RingIn true nb (i_tx_cons i)
  (i_rx_armed i) (i_rx_nbdp i) (i_rx_prod i) (i_rsp_valid i) (i_rsp_data i)) b.
Definition submit (f : list Z) (b : bench) : bench := arm_rx_submit E b f.
Definition run_cycles (n : nat) (b : bench) : bench := fst (steps E eval dma_req outs n b).
Definition wait (ctr : bench -> Z) (before : Z) : act bool := call (wait_for E eval dma_req outs ctr before WAIT_LIM).
Definition idx (k : Z) (b : bench) : Z := get_le32 at_ (b_mem E b) (STG + IDX + k).
Definition crbdp (b : bench) : Z := o_crbdp (outs (b_e E b)).

Definition lens : list nat := [3; 15; 16; 17; 61; 310; 1517]%nat.
(** Offsets outermost; the pattern seed counts the rounds from 1. *)
Definition sweep : list (Z * nat) := concat (map (fun off => map (fun len => (Z.of_nat off, len)) lens) (seq 0 16)).
Definition fill_guest (v : Z) (m : mem) : mem := memset m 0 v (Z.to_nat GMEMSZ).
Definition rx_setup (bp : Z) (f : list Z) (b : bench) : bench :=
  submit f (rx_at 0x1000 (on_mem (fun m =>
    desc 0x1000 bp (BC_ROWN .| 0x20000000 .| 0x01000000 .| BUFSZ) 0x1010 (fill_guest GUARD m)) b)).
Definition rx_round (seed : Z) (x : Z * nat) : act unit :=
  let '(off, len) := x in let bp := 0x4000 + off in let f := pats seed len in
  before ← gets (n_rx_done E); modify (rx_setup bp f) ;;
  ok ← wait (n_rx_done E) before; check "RX no rx_done" ok ;;
  modify (run_cycles 20) ;;
  b ← gets id; let m := b_mem E b in
  check "RX data mismatch" (bytes_at m bp f) ;;
  check "RX wrote outside the frame"
    (filled m GUARD 0x3f00 bp && filled m GUARD (bp + Z.of_nat (length f)) (bp + BUFSZ + 64)) ;;
  let bc := get4 m 0x1004 in
  check "RX bad BC writeback" ((bc .& BC_ROWN =? 0) && (bc .& 0x3fff =? BUFSZ - Z.of_nat (length f))) ;;
  check "RX BC bytes 4-5 touched" (Z.shiftr bc 16 =? 0x2100) ;;
  check "RX rx_cons not published" (idx 4 b =? arm_rx_prod E b) ;;
  check "RX crbdp" (rx_crbdp (b_e E b) =? 0x1000).
Definition rx_sweep : act unit :=
  modify rx_arm ;; for_each (imap (fun i x => (Z.of_nat (S i), x)) sweep) (fun p => rx_round (fst p) (snd p)).

Definition f1 : list Z := pats 901 100.
Definition rx_drop : act unit :=
  modify (on_mem (fun m => desc 0x1000 0x4008 BUFSZ 0x1010 (fill_guest GUARD m))) ;; modify (rx_at 0x1000) ;;
  dr0 ← gets (n_rx_drop E); modify (submit f1) ;;
  ok ← wait (n_rx_drop E) dr0; check "RX drop: no rx_dropped" ok ;;
  b ← gets id; check "RX drop: buffer written" (filled (b_mem E b) GUARD 0x4000 0x4100) ;;
  check "RX drop: drops not published" (idx 8 b =? 1) ;;
  check "RX drop: cons not advanced" (idx 4 b =? arm_rx_prod E b).

(** TX: the guest flips bit 0 of BC byte 4 of the first descriptor once the
    engine has read it. *)
Fixpoint tx_flip_loop (lim : nat) (td0 : Z) (flipped : bool) (b : bench) : bool * bench :=
  match lim with
  | O => (flipped, b)
  | S k =>
      if n_tx_done E b =? td0 then
        let b := fst (rstep b) in
        if negb flipped && (0 <? watch_hits (b_pr E b))
        then tx_flip_loop k td0 true (on_mem (fun m => mput_bytes m 0x1104 [Z.lxor (mget m 0x1104) 1]) b)
        else tx_flip_loop k td0 flipped b
      else (flipped, b)
  end.
Definition tx_setup (b : bench) : bench :=
  tx_start 0x1100 (clear_probes E (tx_consumed 0 (on_mem (fun m =>
    td_memory 0 td (memset (fill_guest 0 m) STG 0 (Z.to_nat STGSZ))) b)) 0x1100).
Definition packet_checks (m : mem) : act unit :=
  for_each (imap pair want) (fun p =>
    check "TX packet len" (entry_len m 0xffff (Z.of_nat (fst p)) (snd p)) ;;
    check "TX packet bytes" (slot_bytes m (Z.of_nat (fst p)) (snd p))).
Definition etxd_checks (m : mem) : act unit :=
  for_each (seq 0 4) (fun i => check "TX ETXD not set" (negb (get4 m (0x1104 + 16 * Z.of_nat i) .& BC_ETXD =? 0))).
Definition tx_case : act unit :=
  modify tx_setup ;; td0 ← gets (n_tx_done E);
  flipped ← call (tx_flip_loop WAIT_LIM td0 false);
  b ← gets id; check "TX no tx_done" (negb (n_tx_done E b =? td0)) ;;
  modify (run_cycles 20) ;;
  b ← gets id; let m := b_mem E b in
  check "TX tx_prod" (idx 0 b =? 3) ;;
  packet_checks m ;;
  etxd_checks m ;;
  check "TX clobbered guest byte 4" ((mget m 0x1104 .& 1 =? 1) && flipped) ;;
  check "TX EOX lost on last desc" (negb (get4 m 0x1134 .& BC_EOX =? 0)) ;;
  check "TX crbdp at done" (crbdp b =? 0x1140) ;;
  check "TX head ETXD before the packet's last descriptor was read" (etxd_check E b 0x1100 0x1110) ;;
  check "TX CRBDP exposed a mid-packet descriptor" (crbdp_check E b 0x1110).

Definition tx_backpressure : act unit :=
  modify (on_mem (fun m => td_rearm (memset m STG 0 (Z.to_nat (TXCQ + 4096))))) ;;
  modify (tx_consumed (u32 (3 + 1 - 256))) ;;
  td0 ← gets (n_tx_done E); modify (tx_start 0x1100) ;; modify (run_cycles (Z.to_nat 20000)) ;;
  b ← gets id; check "TX backpressure: posted past the free slots" ((n_tx_done E b =? td0) && (idx 0 b =? 4)) ;;
  modify (tx_consumed 4) ;;
  ok ← wait (n_tx_done E) td0; check "TX backpressure: never resumed" ok ;;
  modify (run_cycles 20) ;;
  b ← gets id; check "TX backpressure: tx_prod" (idx 0 b =? 6).

(** [for(g = 0; g < 400000 && (n_rx_done == rd0 || n_tx_done == td0); g++) step()]. *)
Fixpoint until_both (lim : nat) (rd0 td0 : Z) (b : bench) : bench :=
  match lim with
  | O => b
  | S k => if (n_rx_done E b =? rd0) || (n_tx_done E b =? td0) then until_both k rd0 td0 (fst (rstep b)) else b
  end.
Definition f2 : list Z := pats 990 777.
Definition rx_and_tx : act unit :=
  modify (on_mem (fun m => td_rearm (desc 0x1000 0x4004 (BC_ROWN .| BUFSZ) 0x1010 (memset m 0x4000 GUARD (Z.to_nat 0x1000))))) ;;
  modify (rx_at 0x1000) ;; modify (tx_consumed 6) ;;
  rd0 ← gets (n_rx_done E); td0 ← gets (n_tx_done E);
  modify (submit f2) ;; modify (tx_start 0x1100) ;; modify (until_both WAIT_LIM rd0 td0) ;;
  b ← gets id; check "RX+TX: both done" (negb (n_rx_done E b =? rd0) && negb (n_tx_done E b =? td0)) ;;
  check "RX+TX: RX data" (bytes_at (b_mem E b) 0x4004 f2) ;;
  modify (run_cycles 20) ;;
  b ← gets id; check "RX+TX: tx_prod" (idx 0 b =? 9).

Definition tx_oversize : act unit :=
  modify (on_mem (fun m => desc 0x1200 0x20000 (2100 .| BC_EOXP .| BC_EOX) 0x1210 (mput_bytes m 0x20000 (pats 77 2100)))) ;;
  modify (tx_consumed 9) ;; td0 ← gets (n_tx_done E); modify (tx_start 0x1200) ;;
  ok ← wait (n_tx_done E) td0; check "TX oversize: no done" ok ;;
  modify (run_cycles 20) ;;
  b ← gets id; let m := b_mem E b in let e9 := get_le32 at_ m (STG + TXCQ + 16 * 9) in
  check "TX oversize: len/trunc flag" ((e9 .& 0xffff =? 2100) && negb (e9 .& 0x10000 =? 0)) ;;
  check "TX oversize: first 2048 bytes" (slot_bytes m 9 (pats 77 2048)) ;;
  check "TX oversize: wrote past its slot" (mget m (STG + TXS + 10 * 2048) =? 0).

(** Round [r] of the random chains, from producer index [prod]. *)
Definition random_setup (r prod : Z) (pk : draws) (b : bench) : bench :=
  tx_start 0x1400 (tx_consumed prod (on_mem (fun m =>
    u_mem (put_packets r 0 pk (Build (memset m 0x10000 0 (Z.to_nat 0x30000)) 0x1400 0x10000))) b)).
Definition random_ok (r prod : Z) (pk : draws) (b : bench) : bool :=
  let m := b_mem E b in
  (idx 0 b =? (prod +32 Z.of_nat (length pk))) &&
  forallb (fun p => let slot := (prod +32 Z.of_nat (fst p)) .& 255 in
    entry_len m 0x1ffff slot (snd p) && slot_bytes m slot (snd p)) (imap pair (packets_bytes r 0 pk)) &&
  etxd_set m 0x1404 (ndesc pk) && (crbdp b =? 0x1400 + 16 * Z.of_nat (ndesc pk)).
Definition random_round (r prod : Z) (pk : draws) : act bool :=
  modify (random_setup r prod pk) ;; t0 ← gets (n_tx_done E);
  ok ← wait (n_tx_done E) t0; modify (run_cycles 20) ;;
  b ← gets id; mret (ok && random_ok r prod pk b).
Fixpoint random_rounds (r prod : Z) (ds : list draws) : act bool :=
  match ds with
  | [] => mret true
  | pk :: t => ok ← random_round r prod pk; oks ← random_rounds (r + 1) (prod +32 Z.of_nat (length pk)) t; mret (ok && oks)
  end.
Definition tx_random (ds : list draws) : act unit :=
  prod ← gets (idx 0); ok ← random_rounds 0 prod ds; check "TX random chains" ok.

(** main(), from the bench after its reset cycles. *)
Definition ring_main (ds : list draws) : act unit :=
  rx_sweep ;; rx_drop ;; tx_case ;; tx_backpressure ;; rx_and_tx ;; tx_oversize ;; tx_random ds.
Definition ring_exit (ds : list draws) (b : bench) : Z := exit_code (snd (ring_main ds b)).
End Main.

(** ** The random chains in memory *)

(** Where the packets' buffers are, the first at [buf]. *)
Fixpoint packet_bufs (buf : Z) (ds : list (Z * nat)) : list (Z * nat) :=
  match ds with [] => [] | d :: t => (buf + fst d, snd d) :: packet_bufs (buf + 0x800) t end.
Fixpoint packets_bufs (buf : Z) (pk : draws) : list (list (Z * nat)) :=
  match pk with
  | [] => []
  | ds :: t => packet_bufs buf ds :: packets_bufs (buf + 0x800 * Z.of_nat (length ds)) t
  end.
(** What the draws are: offsets below 16, lengths up to 480. *)
Definition draw_ok (d : Z * nat) : Prop := 0 <= fst d < 16 /\ (snd d <= 480)%nat.
(** Room for [k] more descriptors and buffers. *)
Definition room (u : build) (k : nat) : Prop :=
  0 <= u_a u /\ u_a u + 16 * Z.of_nat k <= 0x10000 /\ 0x10000 <= u_buf u /\ u_buf u + 0x800 * Z.of_nat k <= GMEMSZ.
(** What building [n] descriptors from [u] to [v] leaves alone: every byte from
    0x10000 on that is not in its [n] buffers. *)
Record built (u v : build) (n : nat) : Prop := {
  bu_a : u_a v = u_a u + 16 * Z.of_nat n;
  bu_buf : u_buf v = u_buf u + 0x800 * Z.of_nat n;
  bu_out : forall x, 0x10000 <= x -> x < u_buf u \/ u_buf v <= x -> mget (u_mem v) x = mget (u_mem u) x }.
Lemma built_refl u : built u u 0.
Proof. split; [lia|lia|done]. Qed.
Lemma built_trans u v w n k : built u v n -> built v w k -> built u w (n + k).
Proof.
  intros [A1 B1 O1] [A2 B2 O2]. split; [lia|lia|]. intros x Hx Hd. rewrite O2, O1; [done|done|lia|done|lia].
Qed.
Lemma room_built u v n k : room u (n + k) -> built u v n -> room v k.
Proof. intros R [A B _]. unfold room in *. lia. Qed.

Lemma ring_at_guest a : 0 <= a < GMEMSZ -> at_ a = a.
Proof. apply at_split_guest. Qed.
Lemma length_ring_pats s n : length (pats s n) = n.
Proof. unfold pats. by rewrite length_map, length_seq. Qed.
Lemma desc_out a bp bc dp m x :
  0 <= a -> a + 16 <= GMEMSZ -> x < a \/ a + 12 <= x -> mget (desc a bp bc dp m) x = mget m x.
Proof.
  intros H0 H1 Hx. unfold desc, put4, put_be32. rewrite !ring_at_guest by lia.
  by rewrite !mget_mput_out by (rewrite length_be_bytes; lia).
Qed.
Lemma put_desc_built seed fl d u : draw_ok d -> room u 1 -> built u (put_desc seed fl d u) 1.
Proof.
  destruct d as [off n]. intros [Ho Hn] R. cbn [fst snd] in *. unfold put_desc, room in *. split; cbn [u_a u_buf u_mem]; [lia|lia|].
  intros x Hx Hd. rewrite desc_out by lia. apply mget_mput_out. rewrite length_ring_pats. lia.
Qed.
Lemma put_desc_gather seed fl d u :
  draw_ok d -> room u 1 -> mget_bytes (u_mem (put_desc seed fl d u)) (u_buf u + fst d) (snd d) = pats seed (snd d).
Proof.
  destruct d as [off n]. intros [Ho Hn] R. cbn [fst snd] in *. unfold put_desc, room in *. cbn [u_mem].
  transitivity (mget_bytes (mput_bytes (u_mem u) (u_buf u + off) (pats seed n)) (u_buf u + off) n).
  - apply mget_bytes_ext. intros x Hx. apply desc_out; lia.
  - rewrite <- (length_ring_pats seed n) at 2. apply mget_bytes_mput.
Qed.
Lemma put_packet_built s lp i ds u :
  Forall draw_ok ds -> room u (length ds) -> built u (put_packet s lp i ds u) (length ds).
Proof.
  intros H. revert i u; induction H as [|d t Hd Ht IH]; intros i u R; cbn [put_packet length] in *; [apply built_refl|].
  pose proof (put_desc_built (s + Z.of_nat i) ((if match t with [] => true | _ => false end then BC_EOXP else 0) .|
    (if match t with [] => true | _ => false end && lp then BC_EOX else 0)) d u Hd) as Hb.
  assert (room u 1) as R1 by (unfold room in *; lia). specialize (Hb R1).
  apply (built_trans _ _ _ 1 (length t) Hb). apply IH. by apply (room_built u _ 1).
Qed.
Lemma built_gather u v n segs :
  built u v n -> Forall (fun s => 0x10000 <= fst s /\ fst s + Z.of_nat (snd s) <= u_buf u) segs ->
  gather (u_mem v) segs = gather (u_mem u) segs.
Proof.
  intros [_ _ O]. induction 1 as [|[a k] t [Ha Hb] Ht IH]; [done|]. unfold gather in *. cbn [map concat fst snd] in *.
  f_equal; [|exact IH]. apply mget_bytes_ext. intros x Hx. apply O; lia.
Qed.
Lemma packet_bufs_in buf ds :
  Forall draw_ok ds ->
  Forall (fun s => buf <= fst s /\ fst s + Z.of_nat (snd s) <= buf + 0x800 * Z.of_nat (length ds)) (packet_bufs buf ds).
Proof.
  intros H. revert buf; induction H as [|[off n] t [Ho Hn] Ht IH]; intros buf; cbn [packet_bufs length fst snd] in *; [apply Forall_nil_2|].
  apply Forall_cons_2; [cbn [fst snd]; lia|]. eapply List.Forall_impl; [|exact (IH (buf + 0x800))].
  intros [x k]; cbn [fst snd]. lia.
Qed.
Lemma put_packet_gather s lp i ds u :
  Forall draw_ok ds -> room u (length ds) ->
  gather (u_mem (put_packet s lp i ds u)) (packet_bufs (u_buf u) ds) = packet_bytes s i ds.
Proof.
  intros H. revert i u; induction H as [|d t Hd Ht IH]; intros i u R; [done|]. cbn [put_packet packet_bufs packet_bytes].
  set (fl := _ .| _). set (v := put_desc _ fl d u). cbn [length] in R.
  assert (room u 1) as R1 by (unfold room in *; lia).
  pose proof (put_desc_built (s + Z.of_nat i) fl d u Hd R1 : built u v 1) as Hb.
  assert (room v (length t)) as Rv by (by apply (room_built u _ 1)).
  unfold gather. cbn [map concat fst snd]. fold (gather (u_mem (put_packet s lp (S i) t v)) (packet_bufs (u_buf u + 0x800) t)).
  replace (u_buf u + 0x800) with (u_buf v) by (rewrite (bu_buf _ _ _ Hb); lia). rewrite IH by done. f_equal.
  transitivity (mget_bytes (u_mem v) (u_buf u + fst d) (snd d)).
  - pose proof (put_packet_built s lp (S i) t v Ht Rv) as Hb2. apply mget_bytes_ext. intros x Hx.
    destruct Hd. apply (bu_out _ _ _ Hb2); [unfold room in R; lia|]. rewrite (bu_buf _ _ _ Hb). lia.
  - by apply put_desc_gather.
Qed.
Lemma put_packets_spec r p pk u :
  Forall (Forall draw_ok) pk -> room u (ndesc pk) ->
  built u (put_packets r p pk u) (ndesc pk) /\
  map (gather (u_mem (put_packets r p pk u))) (packets_bufs (u_buf u) pk) = packets_bytes r p pk.
Proof.
  unfold ndesc. intros H. revert p u; induction H as [|ds t Hd Ht IH]; intros p u R; [split; [apply built_refl|done]|].
  cbn [put_packets packets_bufs packets_bytes map concat] in *. rewrite length_app in *.
  set (v := put_packet _ _ 0 ds u).
  assert (room u (length ds)) as R1 by (unfold room in *; lia).
  pose proof (put_packet_built _ _ 0 ds u Hd R1 : built u v (length ds)) as Hb.
  pose proof (put_packet_gather _ _ 0 ds u Hd R1 : gather (u_mem v) _ = _) as Hg.
  destruct (IH (S p) v) as [Hb2 Hg2]; [by apply (room_built u _ (length ds))|]. split; [by eapply built_trans|].
  rewrite <- (bu_buf _ _ _ Hb), Hg2. f_equal. rewrite <- Hg. apply (built_gather v _ _ _ Hb2).
  eapply List.Forall_impl; [|exact (packet_bufs_in (u_buf u) ds Hd)].
  intros [x k]; cbn [fst snd]. rewrite (bu_buf _ _ _ Hb). unfold room in R. lia.
Qed.

(** ** What the cases accept *)

Section Exact.
Context (E : Type) (eval : E -> bool -> ring_in -> E) (dma_req : E -> req) (outs : E -> ring_out) (rx_crbdp : E -> Z).
Abbreviation bench := (bench E).
Definition wait_tx (b : bench) : bool * bench := wait_for E eval dma_req outs (n_tx_done E) (n_tx_done E b) WAIT_LIM b.
Definition wait_rx (n : Z) (b : bench) : bool * bench := wait_for E eval dma_req outs (n_rx_done E) n WAIT_LIM b.
Abbreviation run20 := (run_cycles E eval dma_req outs 20).

(** The slot [p] packets after [prod] holds [w]: its completion entry says how
    long it is, untruncated, and its bytes are there. *)
Definition slot_holds (m : mem) (prod : Z) (p : nat) (w : list Z) : Prop :=
  let slot := (prod + Z.of_nat p) mod 256 in
  get_le32 at_ m (STG + TXCQ + 16 * slot) .& 0x1ffff = Z.of_nat (length w) /\
  mget_bytes m (STG + TXS + slot * 2048) (length w) = w.
Lemma slots_iff m prod (ws : list (list Z)) :
  forallb (fun p => let slot := (prod +32 Z.of_nat (fst p)) .& 255 in
    entry_len m 0x1ffff slot (snd p) && slot_bytes m slot (snd p)) (imap pair ws) = true <->
  forall p w, ws !! p = Some w -> slot_holds m prod p w.
Proof.
  assert (forall p, (prod +32 Z.of_nat p) .& 255 = (prod + Z.of_nat p) mod 256) as Hslot.
  { intros p. change 255 with (2 ^ 8 - 1). rewrite land_ones_mod by lia. unfold u32. apply Z.mod_mod_divide. by exists 0x1000000. }
  rewrite forallb_forall. split.
  - intros H p w Hw. specialize (H (p, w)). cbn [fst snd] in H. rewrite Hslot in H. unfold slot_holds.
    rewrite andb_true_iff in H. unfold entry_len, slot_bytes in H. rewrite bytes_at_iff, Z.eqb_eq in H. apply H.
    apply list_elem_of_In. apply list_elem_of_lookup. exists p. by rewrite list_lookup_imap, Hw.
  - intros H [p w] Hin%list_elem_of_In. apply list_elem_of_lookup in Hin as [k Hk]. rewrite list_lookup_imap in Hk.
    destruct (ws !! k) as [w'|] eqn:Ew; [|done]. injection Hk as <- <-. cbn [fst snd]. rewrite Hslot.
    unfold entry_len, slot_bytes. rewrite andb_true_iff, Z.eqb_eq, bytes_at_iff. exact (H k w' Ew).
Qed.
Lemma etxd_iff m base n :
  etxd_set m base n = true <-> forall i, (i < n)%nat -> get4 m (base + 16 * Z.of_nat i) .& BC_ETXD <> 0.
Proof.
  unfold etxd_set. rewrite forallb_forall. split.
  - intros H i Hi. apply Z.eqb_neq, negb_true_iff, H, in_seq. lia.
  - intros H i [_ Hi]%in_seq. apply negb_true_iff, Z.eqb_neq, H. lia.
Qed.

(** A random TX round is accepted exactly when the engine reports done
    within the wait and, twenty cycles later, the published index has advanced by
    the packets of the chain, the ring slots hold the packets gathered from guest
    memory as it was at the go, in order and across the wrap of the ring, every
    descriptor is marked transmitted and CRBDP is just past the last one. *)
Theorem random_round_exact (r prod : Z) (pk : list (list (Z * nat))) (b : bench) :
  Forall (Forall draw_ok) pk -> (ndesc pk <= 12)%nat ->
  let b0 := random_setup E r prod pk b in
  let '(ok, b1) := wait_tx b0 in
  let b' := run20 b1 in
  value (random_round E eval dma_req outs r prod pk) b = true <->
  ok = true /\ idx E 0 b' = (prod +32 Z.of_nat (length pk)) /\
  (forall p w, map (gather (b_mem E b0)) (packets_bufs 0x10000 pk) !! p = Some w -> slot_holds (b_mem E b') prod p w) /\
  (forall i, (i < ndesc pk)%nat -> get4 (b_mem E b') (0x1404 + 16 * Z.of_nat i) .& BC_ETXD <> 0) /\
  crbdp E outs b' = 0x1400 + 16 * Z.of_nat (ndesc pk).
Proof.
  intros Hpk Hn. cbv zeta. unfold random_round, wait. script_value. unfold wait_tx.
  set (b0 := random_setup E r prod pk b). destruct (wait_for _ _ _ _ _ _ _ b0) as [ok b1]. cbn [fst snd].
  set (b' := run20 b1). cbv beta delta [id]. unfold random_ok. rewrite !andb_true_iff, !Z.eqb_eq, slots_iff, etxd_iff.
  assert (map (gather (b_mem E b0)) (packets_bufs 0x10000 pk) = packets_bytes r 0 pk) as ->.
  { apply (put_packets_spec r 0 pk (Build (memset (b_mem E b) 0x10000 0 (Z.to_nat 0x30000)) 0x1400 0x10000) Hpk).
    unfold room, GMEMSZ. cbn [u_a u_buf]. lia. }
  tauto.
Qed.

(** A round of the RX sweep is accepted exactly when the engine reports
    done and, twenty cycles later, the surroundings of the buffer are guard bytes
    but for the frame at its byte offset, the descriptor is handed back with the
    room that is left and its guest-owned bytes as they were, the consumer index is
    published and CRBDP points at the descriptor. *)
Theorem ring_rx_round_exact (seed off : Z) (len : nat) (b : bench) :
  0 <= off < 16 -> (len <= 1517)%nat ->
  let bp := 0x4000 + off in let f := pats seed len in
  let '(ok, b1) := wait_rx (n_rx_done E b) (rx_setup E bp f b) in
  let b' := run20 b1 in let bc := get4 (b_mem E b') 0x1004 in
  passes (rx_round E eval dma_req outs rx_crbdp seed (off, len)) b <->
  ok = true /\
  mget_bytes (b_mem E b') 0x3f00 (Z.to_nat (bp + BUFSZ + 64 - 0x3f00)) =
    repeat GUARD (Z.to_nat (bp - 0x3f00)) ++ f ++ repeat GUARD (Z.to_nat (BUFSZ + 64) - len) /\
  bc .& BC_ROWN = 0 /\ bc .& 0x3fff = BUFSZ - Z.of_nat len /\ Z.shiftr bc 16 = 0x2100 /\
  idx E 4 b' = arm_rx_prod E b' /\ rx_crbdp (b_e E b') = 0x1000.
Proof.
  intros Hoff Hlen bp f. assert (length f = len) as Hl by apply length_ring_pats.
  destruct (wait_rx _ _) as [ok b1] eqn:Ew. set (b' := run20 b1). cbv zeta.
  unfold rx_round, wait. fold bp f. script_passes. unfold wait_rx in Ew. rewrite Ew. cbn [fst snd]. fold b'.
  cbv beta delta [id]. rewrite Hl.
  pose proof (deposited_iff (b_mem E b') GUARD 0x3f00 bp (bp + BUFSZ + 64) f) as Hd. rewrite Hl in Hd.
  replace (Z.to_nat (BUFSZ + 64) - len)%nat with (Z.to_nat (bp + BUFSZ + 64 - bp - Z.of_nat len)) by lia.
  rewrite <- Hd by (unfold bp, BUFSZ in *; lia). unfold deposited. rewrite Hl, !andb_true_iff, !Z.eqb_eq. tauto.
Qed.

(** The buffers of the three packets of [td]. *)
Definition td_bufs : list (list (Z * nat)) :=
  [[(0x6002, 100%nat); (0x7008, 150%nat)]; [(0x8000, 60%nat)]; [(0x9005, 333%nat)]].
Lemma td_gather m : map (gather (td_memory 0 td m)) td_bufs = want.
Proof.
  unfold gather, td_bufs, want. cbn [map concat fst snd td td_memory]. rewrite !app_nil_r.
  assert (forall i n, length (td_piece i n) = n) as Hl by (intros; apply length_ring_pats).
  assert (forall a i n m', mget_bytes (mput_bytes m' a (td_piece i n)) a n = td_piece i n) as Hg.
  { intros a i n m'. rewrite <- (Hl i n) at 2. apply mget_bytes_mput. }
  assert (forall a n b bp bc dp m', b + 16 <= a -> 0 <= b -> a <= 0x20000 ->
    mget_bytes (desc b bp bc dp m') a n = mget_bytes m' a n) as Hd.
  { intros. apply mget_bytes_ext. intros x Hx. apply desc_out; unfold GMEMSZ; lia. }
  repeat f_equal; repeat first [apply Hg | rewrite Hd by lia | rewrite mget_bytes_mput_disj by (rewrite Hl; lia)].
Qed.
Lemma packet_checks_iff m (s : bench) :
  final (packet_checks E m) s = s /\
  (passes (packet_checks E m) s <-> forall p w, want !! p = Some w ->
    get_le32 at_ m (STG + TXCQ + 16 * Z.of_nat p) .& 0xffff = Z.of_nat (length w) /\
    mget_bytes m (STG + TXS + Z.of_nat p * 2048) (length w) = w).
Proof.
  unfold packet_checks. destruct (for_each_pure (imap pair want) (fun p =>
    check "TX packet len" (entry_len m 0xffff (Z.of_nat (fst p)) (snd p)) ;;
    check "TX packet bytes" (slot_bytes m (Z.of_nat (fst p)) (snd p))) s) as [Hf Hp].
  { intros x. by script_final. }
  split; [exact Hf|]. rewrite Hp. setoid_rewrite passes_check_then. setoid_rewrite passes_check.
  unfold entry_len, slot_bytes. setoid_rewrite bytes_at_iff. setoid_rewrite Z.eqb_eq. split.
  - intros H p w Hw. apply (H p (p, w)). by rewrite list_lookup_imap, Hw.
  - intros H k [p w] Hk. rewrite list_lookup_imap in Hk. destruct (want !! k) as [w'|] eqn:Ew; [|done].
    injection Hk as <- <-. exact (H k w' Ew).
Qed.
Lemma etxd_checks_iff m (s : bench) :
  final (etxd_checks E m) s = s /\
  (passes (etxd_checks E m) s <-> forall i, (i < 4)%nat -> get4 m (0x1104 + 16 * Z.of_nat i) .& BC_ETXD <> 0).
Proof.
  unfold etxd_checks. destruct (for_each_pure (seq 0 4) (fun i =>
    check "TX ETXD not set" (negb (get4 m (0x1104 + 16 * Z.of_nat i) .& BC_ETXD =? 0))) s) as [Hf Hp].
  { intros x. by script_final. }
  split; [exact Hf|]. rewrite Hp. setoid_rewrite passes_check. setoid_rewrite negb_true_iff. setoid_rewrite Z.eqb_neq. split.
  - intros H i Hi. apply (H i i). by rewrite lookup_seq_lt.
  - intros H k x [-> Hk]%lookup_seq. by apply H.
Qed.

(** The TX case is accepted exactly when the engine reports done for the
    chain and, twenty cycles later, three packets are published, whose slots hold
    the chain's buffers as they were in guest memory, all four descriptors are marked
    transmitted, the bit the guest flipped after the engine had read the word is
    still flipped, the last descriptor keeps its EOX, CRBDP is past the chain and
    never pointed inside a packet, and the ordering probe accepts. *)
Theorem ring_tx_exact (b : bench) :
  let b0 := tx_setup E b in
  let '(flipped, b1) := tx_flip_loop E eval dma_req outs WAIT_LIM (n_tx_done E b0) false b0 in
  let b' := run20 b1 in let m := b_mem E b' in
  passes (tx_case E eval dma_req outs) b <->
  n_tx_done E b1 <> n_tx_done E b0 /\ idx E 0 b' = 3 /\
  (forall p w, map (gather (b_mem E b0)) td_bufs !! p = Some w ->
     get_le32 at_ m (STG + TXCQ + 16 * Z.of_nat p) .& 0xffff = Z.of_nat (length w) /\
     mget_bytes m (STG + TXS + Z.of_nat p * 2048) (length w) = w) /\
  (forall i, (i < 4)%nat -> get4 m (0x1104 + 16 * Z.of_nat i) .& BC_ETXD <> 0) /\
  (mget m 0x1104 .& 1 = 1 /\ flipped = true) /\ get4 m 0x1134 .& BC_EOX <> 0 /\
  crbdp E outs b' = 0x1140 /\ etxd_check E b' 0x1100 0x1110 = true /\ crbdp_check E b' 0x1110 = true.
Proof.
  cbv zeta. unfold tx_case. set (b0 := tx_setup E b).
  assert (map (gather (b_mem E b0)) td_bufs = want) as -> by apply td_gather.
  destruct (tx_flip_loop _ _ _ _ _ _ _ b0) as [flipped b1] eqn:Ef. set (b' := run20 b1).
  destruct (packet_checks_iff (b_mem E b') b') as [Fp Hp]. destruct (etxd_checks_iff (b_mem E b') b') as [Fe He].
  script_passes. fold b0. rewrite Ef. cbn [fst snd]. cbv beta delta [id]. fold b'. cbv beta.
  rewrite passes_bind, Hp, Fp, passes_bind, He, Fe.
  rewrite !passes_check_then, passes_check, !andb_true_iff, !negb_true_iff, !Z.eqb_eq, !Z.eqb_neq. tauto.
Qed.
End Exact.
