(* ===== verification/VdmaMain.v ===== *)
(** * VdmaMain: the random transfers of the VDMA unit test

    main of sim/vdma_test/tb_vdma.cpp over [VdmaBench]: the drawn descriptor
    ([draw_xfer]), one transfer with its comparison ([round]) and the loop over
    the transfers ([main_loop]).  Draws of rand() are arguments.  The drawn
    descriptors never leave the image: [drawn_transfer_local]. *)
From S2P Require Import Prelude AddressMap GuestMem Vdma VdmaBench.

(** ** The drawn descriptor *)

(** The values of rand() and rnd() in the order of the calls. *)
Record xfer_draws := XferDraws {
  r_lines : Z; r_width : Z; r_lz_p : Z; r_lz : Z; r_stride : Z; r_cb_p : Z; r_cb : Z; r_cz_p : Z; r_cz : Z;
  r_phys : Z; r_ent : Z; r_adr : Z; r_gio : Z; r_ready : Z }.
Record descr := Descr { x_memadr : Z; x_size : Z; x_stride : Z; x_count : Z; x_gio : Z; x_ready : Z }.
Definition d_lines (d : xfer_draws) : Z := r_lines d mod 7.
Definition d_width (d : xfer_draws) : Z := 1 + r_width d mod 40.
Definition d_lzoom (d : xfer_draws) : Z := if r_lz_p d mod 4 =? 0 then r_lz d mod 4 else 1.
Definition d_stride (d : xfer_draws) : Z := r_stride d mod 130 - 64.
Definition d_cbytes (d : xfer_draws) : Z := if r_cb_p d mod 4 =? 0 then r_cb d mod 41 else d_width d.
Definition d_czoom (d : xfer_draws) : Z := if r_cz_p d mod 4 =? 0 then r_cz d mod 4 else d_lzoom d.
Definition d_phys (d : xfer_draws) : bool := r_phys d mod 4 =? 0.
Definition d_memadr (tlb : tlb4) (d : xfer_draws) : Z :=
  if d_phys d then 0x00100000 + r_adr d mod 0x00e00000
  else u32 ((nth (Z.to_nat (r_ent d mod 4)) (tlb_hi tlb) 0 .& 0xffc00000) + 0x00010000 + r_adr d mod 0x003e0000).
Definition draw_xfer (t : Z) (tlb : tlb4) (d : xfer_draws) : descr :=
  Descr (d_memadr tlb d) ((d_lines d .<< 16) .| d_width d) ((d_lzoom d .<< 16) .| u16 (d_stride d))
    ((d_czoom d .<< 16) .| d_cbytes d) (0x1f0f0000 + ((r_gio d mod 0x400) .<< 3))
    (if t mod 3 =? 0 then 100 else 20 + r_ready d mod 70).

(** ** The test loop *)
Section Main.
Variable E : Type.
Variable eval : E -> bool -> vin -> E.
Variable comb : E -> vcomb.
Variable v_done : E -> bool.
Variable v_memadr_end : E -> Z.
Abbreviation vbench := (E * vin * vst)%type.

(** [cyc - t0 > 2000000] ends the wait; two more rounds are fuel enough. *)
Definition LIMIT : Z := 2000000.
Definition FUEL : nat := Z.to_nat (LIMIT + 2).
(** What a transfer draws: the TLB entries, the descriptor, and for the
    steps of the wait and the three after it the draws of [step]. *)
Record round_draws := RoundDraws {
  w_e0 : ent_draws; w_e1 : ent_draws; w_e2 : ent_draws; w_e3 : ent_draws;
  w_x : xfer_draws; w_wait : nat -> Z * Z; w_after : list (Z * Z) }.
(** The registers of the channel, [v_go = 1], [got.clear()]. *)
Definition program (x : descr) (tlb : tlb4) (s : vbench) : vbench :=
  let '(e, i, v) := s in
  (e, VIn (x_memadr x) (x_size x) (x_stride x) (x_count x) (x_gio x) tlb true (i_ready i) (i_rsp_valid i) (i_rsp_data i),
   VSt (s_cyc v) (s_reply v) (s_addr v) (s_op v) (n_loads v) (n_bursts v) [] (got_gio v)).
Definition cycle_of (s : vbench) : Z := s_cyc (snd s).
Fixpoint steps_opt (g : mem) (ready : Z) (ds : list (Z * Z)) (s : vbench) : option vbench :=
  match ds with
  | [] => Some s
  | d :: t => match step E eval comb g ready d s with Some s => steps_opt g ready t s | None => None end
  end.
(** Transfer [t]: [None] is any of the FAIL exits. *)
Definition round (t : Z) (d : round_draws) (m : mem) (s : vbench) : option (mem * vbench) :=
  let '(g, tlb) := setup_tlb t (w_e0 d) (w_e1 d) (w_e2 d) (w_e3 d) m in
  let x := draw_xfer t tlb (w_x d) in
  let s := program x tlb s in
  match xfer E eval comb v_done g (x_ready x) LIMIT (cycle_of s) (w_wait d) FUEL 0 s with
  | Done s =>
      if verdict E v_memadr_end g s tlb (x_memadr x) (x_size x) (x_stride x) (x_count x) (x_gio x) then
        match steps_opt g (x_ready x) (w_after d) s with Some s => Some (g, s) | None => None end
      else None
  | _ => None
  end.
Fixpoint main_loop (t : Z) (ds : list round_draws) (m : mem) (s : vbench) : option (mem * vbench) :=
  match ds with
  | [] => Some (m, s)
  | d :: ds => match round t d m s with Some (m, s) => main_loop (t + 1) ds m s | None => None end
  end.
Definition vdma_exit (ds : list round_draws) (m : mem) (s : vbench) : Z :=
  match main_loop 0 ds m s with Some _ => 0 | None => 1 end.
End Main.

(** ** Locality of the reference transfer *)

(** The loops read only addresses between [lo] and [hi] when the address stays
    far enough inside. *)
Section Local.
Variables (g g' : mem) (tlb tlb' : tlb4) (lo hi : Z).
Hypothesis Hagree : forall va, lo <= va < hi -> ref_byte g tlb va = ref_byte g' tlb' va.
Hypothesis Hlo : 0 <= lo.
Hypothesis Hhi : hi < 2 ^ 32.
Lemma gather_local len : forall m d i,
  lo <= m -> m + Z.of_nat len <= hi ->
  gather g tlb m d i len = gather g' tlb' m d i len /\ snd (gather g' tlb' m d i len) = m + Z.of_nat len.
Proof.
  induction len as [|len IH]; intros m d i Hm Hl; cbn [gather]; [split; [done|cbn; lia]|].
  rewrite u32_small by lia. rewrite Hagree by lia. destruct (IH (m + 1) (d .| (ref_byte g' tlb' m .<< (56 - 8 * Z.of_nat i))) (S i)) as [H1 H2]; [lia|lia|].
  split; [exact H1|]. rewrite H2. lia.
Qed.
Lemma bytes_loop_local fuel : forall m bytes,
  (bytes <= fuel)%nat -> lo <= m -> m + Z.of_nat bytes <= hi ->
  bytes_loop g tlb fuel m bytes = bytes_loop g' tlb' fuel m bytes /\
  snd (bytes_loop g' tlb' fuel m bytes) = m + Z.of_nat bytes.
Proof.
  induction fuel as [|fuel IH]; intros m bytes Hf Hm Hb; cbn [bytes_loop].
  { split; [done|cbn; lia]. }
  destruct bytes as [|bytes]; [split; [done|cbn; lia]|].
  set (len := Nat.min (S bytes) 8).
  destruct (gather_local len m 0 0 Hm ltac:(unfold len; lia)) as [-> H2].
  destruct (gather g' tlb' m 0 0 len) as [d m1]. cbn [snd] in H2. subst m1.
  destruct (IH (m + Z.of_nat len) (S bytes - len)%nat) as [-> H3]; [unfold len; lia|lia|unfold len; lia|].
  destruct (bytes_loop g' tlb' fuel _ _) as [o m2]. cbn [snd] in *. split; [done|unfold len in *; lia].
Qed.
Variable width : nat.
Lemma zoom_loop_local zoom : forall m b,
  lo <= m -> lo + Z.of_nat width <= m + Z.of_nat b -> m + Z.of_nat b <= hi ->
  zoom_loop g tlb width zoom m b = zoom_loop g' tlb' width zoom m b /\
  snd (fst (zoom_loop g' tlb' width zoom m b)) = (if (zoom =? 0)%nat then m else m + Z.of_nat b) /\
  snd (zoom_loop g' tlb' width zoom m b) = (if (zoom =? 0)%nat then b else width).
Proof.
  induction zoom as [|zoom IH]; intros m b Hm Hw Hb; cbn [zoom_loop]; [done|].
  destruct (bytes_loop_local b m b ltac:(lia) Hm Hb) as [-> H2].
  destruct (bytes_loop g' tlb' b m b) as [o m1]. cbn [snd] in H2. subst m1. cbn [Nat.eqb].
  destruct (Nat.ltb_spec 0 zoom) as [Hz|Hz].
  - rewrite u32_small by lia. destruct (IH (m + Z.of_nat b - Z.of_nat width) width) as (-> & H3 & H4); [lia..|].
    destruct (zoom_loop g' tlb' width zoom _ width) as [[o2 m2] b2]. cbn [fst snd] in *. split; [done|].
    replace (zoom =? 0)%nat with false in * by (symmetry; apply Nat.eqb_neq; lia). split; [lia|done].
  - assert (zoom = 0%nat) as -> by lia. cbn [zoom_loop fst snd]. done.
Qed.
Variables (lzoom : nat) (stride : Z).
Hypothesis Hwidth : (width <= 40)%nat.
Hypothesis Hstride : -65 <= stride <= 65.
Lemma lines_loop_local lines : forall zoom m b,
  (b <= 40)%nat -> lo + 40 + 105 * Z.of_nat lines <= m -> m + 40 + 105 * Z.of_nat lines <= hi ->
  lines_loop g tlb width lzoom stride lines zoom m b = lines_loop g' tlb' width lzoom stride lines zoom m b.
Proof.
  induction lines as [|lines IH]; intros zoom m b Hb Hm Hh; cbn [lines_loop]; [done|].
  destruct (zoom_loop_local zoom m b) as (-> & H2 & H3); [lia..|].
  destruct (zoom_loop g' tlb' width zoom m b) as [[o m1] b1]. cbn [fst snd] in *.
  assert (m <= m1 <= m + 40) as Hm1 by (destruct (zoom =? 0)%nat; lia).
  assert (b1 <= 40)%nat as Hb1 by (destruct (zoom =? 0)%nat; lia).
  rewrite u32_small by lia. by rewrite IH by lia.
Qed.
End Local.

(** ** What the draws can reach *)

Lemma d_bounds d :
  0 <= d_lines d < 7 /\ 1 <= d_width d <= 40 /\ 0 <= d_lzoom d <= 3 /\ -64 <= d_stride d <= 65 /\
  0 <= d_cbytes d <= 40 /\ 0 <= d_czoom d <= 3.
Proof.
  unfold d_lines, d_cbytes, d_czoom, d_width, d_lzoom, d_stride.
  pose proof (Z.mod_pos_bound (r_lines d) 7 ltac:(lia)). pose proof (Z.mod_pos_bound (r_width d) 40 ltac:(lia)).
  pose proof (Z.mod_pos_bound (r_lz d) 4 ltac:(lia)). pose proof (Z.mod_pos_bound (r_stride d) 130 ltac:(lia)).
  pose proof (Z.mod_pos_bound (r_cb d) 41 ltac:(lia)). pose proof (Z.mod_pos_bound (r_cz d) 4 ltac:(lia)).
  destruct (r_lz_p d mod 4 =? 0), (r_cb_p d mod 4 =? 0), (r_cz_p d mod 4 =? 0); lia.
Qed.
(** A register of two 16-bit halves. *)
Lemma halves h l : 0 <= h -> 0 <= l < 2 ^ 16 -> (((h .<< 16) .| l) .>> 16) = h /\ ((h .<< 16) .| l) .& 0xffff = l.
Proof.
  intros Hh Hl. rewrite lor_shiftl_add, Z.shiftr_div_pow2 by lia.
  change 0xffff with (2 ^ 16 - 1). rewrite land_ones_mod by lia. split.
  - rewrite Z.div_add_l, (Z.div_small l) by lia. lia.
  - rewrite Z.add_comm, Z.mod_add by lia. by apply Z.mod_small.
Qed.
Lemma small_zoom z : 0 <= z <= 3 -> z .& 0x3ff = z.
Proof. intros H. change 0x3ff with (2 ^ 10 - 1). rewrite land_ones_mod by lia. by apply Z.mod_small; lia. Qed.

(** The reference transfer of a drawn descriptor, its registers unpacked. *)
Lemma drawn_perform g tlb0 tlb t d :
  let x := draw_xfer t tlb0 d in
  ref_perform g tlb (x_memadr x) (x_size x) (x_stride x) (x_count x) =
  lines_loop g tlb (Z.to_nat (d_width d)) (Z.to_nat (d_lzoom d)) (d_stride d) (Z.to_nat (d_lines d))
    (Z.to_nat (d_czoom d)) (d_memadr tlb0 d) (Z.to_nat (d_cbytes d)).
Proof.
  destruct (d_bounds d) as (Hl & Hw & Hz & Hs & Hb & Hc). cbv zeta. unfold ref_perform, draw_xfer. cbn [x_memadr x_size x_stride x_count].
  assert (0 <= u16 (d_stride d) < 2 ^ 16) as Hu by (unfold u16; apply Z.mod_pos_bound; lia).
  destruct (halves (d_lines d) (d_width d)) as [-> ->]; [lia|lia|].
  destruct (halves (d_lzoom d) (u16 (d_stride d))) as [-> Hlow]; [lia|lia|].
  destruct (halves (d_czoom d) (d_cbytes d)) as [-> ->]; [lia|lia|]. rewrite !small_zoom by done.
  assert (s16 ((d_lzoom d .<< 16) .| u16 (d_stride d)) = d_stride d) as ->; [|done].
  assert (u16 ((d_lzoom d .<< 16) .| u16 (d_stride d)) = u16 (d_stride d)) as Hu16.
  { transitivity (((d_lzoom d .<< 16) .| u16 (d_stride d)) .& 0xffff); [|exact Hlow].
    change 0xffff with (2 ^ 16 - 1). rewrite land_ones_mod by lia. reflexivity. }
  unfold s16. rewrite Hu16. unfold u16.
  destruct (Z.ltb_spec (d_stride d mod 0x10000) 0x8000); Z.to_euclidean_division_equations; lia.
Qed.

(** The 1 KB on either side of a drawn transfer's start. *)
Definition near (memadr va : Z) : Prop := memadr - 0x400 <= va < memadr + 0x400.
Lemma drawn_reach t d0 d1 d2 d3 m d :
  let tlb := snd (setup_tlb t d0 d1 d2 d3 m) in
  let a := d_memadr tlb d in
  if d_phys d then 0x00100000 <= a < 0x00f00000
  else exists e h, tlb_hi tlb !! e = Some h /\ 256 <= h / 0x400000 < 1000 /\
    h / 0x400000 * 0x400000 + 0x10000 <= a < h / 0x400000 * 0x400000 + 0x3f0000.
Proof.
  cbv zeta. unfold d_memadr. destruct (d_phys d).
  { pose proof (Z.mod_pos_bound (r_adr d) 0x00e00000 ltac:(lia)). lia. }
  set (tlb := snd _). pose proof (Z.mod_pos_bound (r_ent d) 4 ltac:(lia)) as He.
  set (e := Z.to_nat (r_ent d mod 4)). exists e, (nth e (tlb_hi tlb) 0).
  assert (tlb_hi tlb !! e = Some (nth e (tlb_hi tlb) 0) /\
    (exists i r, 0 <= i < 4 /\ nth e (tlb_hi tlb) 0 = entry_hi t i r)) as [Hl (i & r & Hi & Hh)].
  { unfold tlb, setup_tlb. cbn [snd tlb_hi]. assert (e < 4)%nat as Hlt by (unfold e; lia). clearbody e.
    destruct e as [|[|[|[|e]]]]; cbn [nth lookup list_lookup]; [| | | |lia]; (split; [done|]);
      [exists 0|exists 1|destruct (t mod 7 =? 3); [exists 1|exists 2]|exists 3]; eexists; (split; [lia|reflexivity]). }
  split; [exact Hl|]. rewrite Hh. destruct (entry_hi_spec t i r Hi) as [Hu Hq]. rewrite (region_eq _ Hu), Hq.
  pose proof (Z.mod_pos_bound t 5 ltac:(lia)). pose proof (Z.mod_pos_bound (r_adr d) 0x003e0000 ltac:(lia)).
  rewrite u32_small by lia. lia.
Qed.
(** A drawn transfer reads only the kilobyte on either side of its
    start, and these addresses lie below the image's 16 MB when the descriptor is
    physical, in the one 4 MB region of the TLB entry it was drawn from otherwise:
    two memories and TLBs that give those addresses the same bytes have the same
    reference doublewords and final address. *)
Theorem drawn_transfer_local (t : Z) (d0 d1 d2 d3 : ent_draws) (m : mem) (d : xfer_draws) (g g' : mem) (tlb' : tlb4) :
  let tlb := snd (setup_tlb t d0 d1 d2 d3 m) in
  let x := draw_xfer t tlb d in
  (if d_phys d then forall va, near (x_memadr x) va -> 0 <= va < MEMSZ
   else exists e h, tlb_hi tlb !! e = Some h /\ forall va, near (x_memadr x) va -> va / 0x400000 = h / 0x400000) /\
  ((forall va, near (x_memadr x) va -> ref_byte g tlb va = ref_byte g' tlb' va) ->
   ref_perform g tlb (x_memadr x) (x_size x) (x_stride x) (x_count x) =
   ref_perform g' tlb' (x_memadr x) (x_size x) (x_stride x) (x_count x)).
Proof.
  cbv zeta. set (tlb := snd _). pose proof (drawn_reach t d0 d1 d2 d3 m d) as Hr. cbv zeta in Hr. fold tlb in Hr.
  assert (0x100000 <= d_memadr tlb d < 0xfa000000) as Ha.
  { destruct (d_phys d); [lia|]. destruct Hr as (e & h & _ & Hh & Hb). lia. }
  split.
  - unfold draw_xfer, near, MEMSZ. cbn [x_memadr]. destruct (d_phys d); [intros va; lia|].
    destruct Hr as (e & h & He & Hh & Hb). exists e, h. split; [done|]. intros va Hva.
    symmetry. apply (Z.div_unique _ _ _ (va - h / 0x400000 * 0x400000)); lia.
  - intros Hag. rewrite !(drawn_perform _ tlb _ t d).
    destruct (d_bounds d) as (Hl & Hw & Hz & Hs & Hbt & Hc).
    apply (lines_loop_local g g' tlb tlb' (d_memadr tlb d - 0x400) (d_memadr tlb d + 0x400)); [exact Hag|lia..].
Qed.

(** ** Transfers of the loop *)
Section Rounds.
Context (E : Type) (eval : E -> bool -> vin -> E) (comb : E -> vcomb) (v_done : E -> bool) (v_memadr_end : E -> Z).
Abbreviation round := (round E eval comb v_done v_memadr_end).
Abbreviation wait_of g tlb x d s :=
  (xfer E eval comb v_done g (x_ready x) LIMIT (cycle_of E s) (w_wait d) FUEL 0 (program E x tlb s)).

(** The wait for a transfer always has an outcome: the fuel never runs out. *)
Theorem vdma_wait_total (g : mem) (tlb : tlb4) (x : descr) (d : round_draws) (s : E * vin * vst) :
  match wait_of g tlb x d s with
  | Done s' => v_done (fst (fst s')) = true /\ cycle_of E s < cycle_of E s' <= cycle_of E s + LIMIT
  | BadAccess => True
  | NoDone s' => cycle_of E s' = cycle_of E s + LIMIT + 1
  | OutOfFuel => False
  end.
Proof.
  destruct s as [[e i] v]. assert (cycle_of E (program E x tlb (e, i, v)) = cycle_of E (e, i, v)) as Hc by done.
  pose proof (vdma_xfer_terminates E eval comb v_done g (x_ready x) LIMIT (cycle_of E (e, i, v)) (w_wait d) FUEL 0
    (program E x tlb (e, i, v))) as [_ H].
  - by vm_compute.
  - change (s_cyc (snd (program E x tlb (e, i, v)))) with (cycle_of E (e, i, v)). unfold LIMIT. lia.
  - change (s_cyc (snd (program E x tlb (e, i, v)))) with (cycle_of E (e, i, v)). unfold FUEL, LIMIT. lia.
  - exact H.
Qed.

(** A transfer of the loop goes through exactly when the engine reports
    done within the limit, what it handed to the GIO port is the reference transfer
    of the drawn descriptor on the drawn address space, at the programmed GIO
    address and with the reference's final address, and the three idle cycles after
    it make no bad access; the next transfer starts from where they end. *)
Theorem vdma_round_exact (t : Z) (d : round_draws) (m : mem) (s : E * vin * vst) (r : mem * (E * vin * vst)) :
  let '(g, tlb) := setup_tlb t (w_e0 d) (w_e1 d) (w_e2 d) (w_e3 d) m in
  let x := draw_xfer t tlb (w_x d) in
  let '(exp, exp_end) := ref_perform g tlb (x_memadr x) (x_size x) (x_stride x) (x_count x) in
  round t d m s = Some r <->
  exists e i v, wait_of g tlb x d s = Done (e, i, v) /\
    got v = exp /\ (exp <> [] -> got_gio v = x_gio x) /\ v_memadr_end e = exp_end /\
    exists s', steps_opt E eval comb g (x_ready x) (w_after d) (e, i, v) = Some s' /\ r = (g, s').
Proof.
  unfold VdmaMain.round. destruct (setup_tlb _ _ _ _ _ _) as [g tlb]. cbv zeta. set (x := draw_xfer t tlb (w_x d)).
  assert (cycle_of E (program E x tlb s) = cycle_of E s) as -> by (by destruct s as [[e i] v]).
  destruct (ref_perform _ _ _ _ _ _) as [exp exp_end] eqn:Er.
  destruct (wait_of g tlb x d s) as [[[e i] v]| | |] eqn:Ew.
  - pose proof (vdma_verdict_exact E eval comb v_done v_memadr_end g (e, i, v) tlb (x_memadr x) (x_size x) (x_stride x) (x_count x) (x_gio x)) as Hv.
    cbn beta iota in Hv. rewrite Er in Hv. split.
    + destruct (verdict _ _ _ _ _ _ _ _ _ _); [|done]. destruct (proj1 Hv eq_refl) as (H1 & H2 & H3).
      destruct (steps_opt _ _ _ _ _ _ _) as [s'|] eqn:Es; [|done]. intros [= <-]. exists e, i, v. eauto 10.
    + intros (e' & i' & v' & [= <- <- <-] & H1 & H2 & H3 & s' & Hs & ->). rewrite (proj2 Hv (conj H1 (conj H2 H3))). by rewrite Hs.
  - split; [done|]. by intros (? & ? & ? & ? & _).
  - split; [done|]. by intros (? & ? & ? & ? & _).
  - split; [done|]. by intros (? & ? & ? & ? & _).
Qed.
End Rounds.
