(* ===== verification/Logs.v ===== *)
(** * Logs: the printing probes and the retire trace for offline diffs

    The probes of sim/henry_tb.cpp that report a bounded number of events: the
    watches of the L1 and L2 hooks ([memwatch_fill], [invwatch], [l1d_wb_log],
    [l2_wr_log], [l2_chk_log]), the DMA and L2 search for a word ([watchpa]), the
    descriptor fields of an L2 line ([l2_descr]), FPTRACE, the exception log of the
    main loop ([exc_cycle]) and RTLTRACE ([rtl_cycle]).  A report is the tuple of
    the values it prints; RTLTRACE's lines are also printed and read back. *)
From S2P Require Import Prelude Printf AddressMap GuestMem Monitor Retire.

(** ** Bounded logs *)

(** [static long n = 0; if(P && ++n <= cap) print], also written
    [P && n++ < cap]: the counter moves at every wanted event. *)
Section Capped.
Context {A : Type}.
Definition capped (cap : Z) (P : A -> bool) (s : Z * list A) (x : A) : Z * list A :=
  let '(n, out) := s in
  if P x then (n + 1, if n <? cap then out ++ [x] else out) else s.
Definition capped_run (cap : Z) (P : A -> bool) (xs : list A) : list A := snd (fold_left (capped cap P) xs (0, [])).

Lemma capped_spec cap P xs : forall n out, 0 <= n ->
  snd (fold_left (capped cap P) xs (n, out)) = out ++ take (Z.to_nat (cap - n)) (filter (fun x => P x = true) xs).
Proof.
  induction xs as [|x xs IH]; intros n out Hn; cbn [fold_left].
  { cbn [snd]. by rewrite filter_nil, take_nil, app_nil_r. }
  unfold capped at 2. rewrite filter_cons. destruct (P x) eqn:Ep.
  - rewrite decide_True by done. rewrite IH by lia. destruct (Z.ltb_spec n cap).
    + rewrite <- app_assoc. f_equal. replace (Z.to_nat (cap - n)) with (S (Z.to_nat (cap - (n + 1)))) by lia. done.
    + replace (Z.to_nat (cap - (n + 1))) with O by lia. replace (Z.to_nat (cap - n)) with O by lia. done.
  - rewrite decide_False by congruence. by apply IH.
Qed.
Lemma filter_b (P : A -> bool) (v : bool) x xs :
  filter (fun x => P x = v) (x :: xs) = if Bool.eqb (P x) v then x :: filter (fun x => P x = v) xs else filter (fun x => P x = v) xs.
Proof. rewrite filter_cons. by destruct (P x), v. Qed.
(** A bounded log is the first [cap] wanted events. *)
Lemma capped_first cap P xs : capped_run cap P xs = take (Z.to_nat cap) (filter (fun x => P x = true) xs).
Proof. unfold capped_run. rewrite capped_spec by lia. by rewrite Z.sub_0_r. Qed.
End Capped.

(** ** The L1 and L2 hooks *)

Definition same64 (a b : Z) : bool := Z.ldiff a 63 =? Z.ldiff b 63.
(** MEMWATCH in [l1d_fill]: (cycle, pc, pa, lo, hi). *)
Record fill_ev := FillEv { fe_cyc : Z; fe_pc : Z; fe_pa : Z; fe_lo : Z; fe_hi : Z }.
Definition memwatch_fill (mw : Z) : list fill_ev -> list fill_ev :=
  capped_run 2000 (fun x => negb (mw =? 0) && same64 (fe_pa x) mw).
(** INVWATCH in [l1d_cacheop]. *)
Record inv_ev := InvEv { ie_cyc : Z; ie_pc : Z; ie_pa : Z; ie_inval : bool }.
Definition invwatch (iw : Z) : list inv_ev -> list inv_ev :=
  capped_run 500 (fun x => negb (iw =? 0) && same64 (ie_pa x) iw).
(** [l1d_wb_log] with DESCWATCH under the checker: the two watched lines always,
    and the first twelve of the others. *)
Record wb_ev := WbEv { wb_pa : Z; wb_lo : Z; wb_hi : Z }.
(** The config_cache stack lines are printed whatever the options. *)
Definition wb_cc (x : wb_ev) : bool := (Z.ldiff (wb_pa x) 15 =? 0x082ec100) || (Z.ldiff (wb_pa x) 15 =? 0x082ec0f0).
Definition wb_line (x : wb_ev) : Z := wb_pa x .& 0x0ffffff0.
Definition wb_watched (x : wb_ev) : bool := (wb_line x =? 0x003e4000) || (wb_line x =? 0x083e4000).
Definition l1d_wb_log (g_checker dw : bool) (s : Z * list wb_ev) (x : wb_ev) : Z * list wb_ev :=
  let '(n, out) := s in
  if negb g_checker then s
  else if negb dw then s
  else if wb_watched x then (n, out ++ [x])
  else (n + 1, if n <? 12 then out ++ [x] else out).
(** [dirtydrop] prints for the prologue's PCs, or always under DIRTYDROP. *)
Definition dirtydrop (g : bool) (pc : Z) : bool :=
  let p := u32 pc in (0x8800f6a8 <=? p) && (p <=? 0x8800f6b4) || g.

(** WATCHPA: the pointer 0x0e07bbc0 in either byte order, in the four words of
    a 16-byte payload whose halves are [lo] and [hi]; the indices reported. *)
Definition watchpa (lo hi : Z) : list nat :=
  let w := [u32 lo; u32 (lo .>> 32); u32 hi; u32 (hi .>> 32)] in
  List.filter (fun i => (nth i w 0 =? 0x0e07bbc0) || (nth i w 0 =? 0xc0bb070e)) (seq 0 4).
(** [__builtin_bswap32]. *)
Definition bswap32 (x : Z) : Z := be_val (le_bytes 4 x).
(** [l2_line_log] under L2DBG: BP, BC and DP of the line. *)
Definition l2_descr (d0 d1 : Z) : Z * Z * Z := (bswap32 (u32 d0), bswap32 (u32 (d0 .>> 32)), bswap32 (u32 d1)).
(** [l2_wr_log] under L2WATCH. *)
Record l2_ev := L2Ev { l2_cyc : Z; l2_pa : Z; l2_op : Z; l2_state : Z; l2_d0 : Z; l2_d1 : Z }.
Definition l2_wr_log (on : bool) : list l2_ev -> list l2_ev := capped_run 4000 (fun _ => on).
(** [l2_chk_log]: L2WATCH=0xffffffff logs the first 25 decisions of every line. *)
Record chk_ev := ChkEv { k_pa : Z; k_hit : bool; k_valid : bool; k_dirty : bool; k_op : Z; k_d0lo : Z; k_d0hi : Z }.
Definition l2_chk_log (l2dbg : bool) (l2watch : option Z) (xs : list chk_ev) : list chk_ev :=
  if negb (l2dbg || bool_decide (is_Some l2watch)) then []
  else if match l2watch with Some v => v =? 0xffffffff | None => false end then capped_run 25 (fun _ => true) xs
  else xs.

(** FPTRACE: FP and FCR results of both slots and interrupt entries, with one
    counter per kind; the ports are read whether or not the slot retires. *)
Record fp_ports := FpPorts { fp0 : option (Z * Z); fp1 : option (Z * Z); fcr0 : option (Z * Z); fcr1 : option (Z * Z);
  irq : option (Z * Z * Z * Z) }.
Definition fptrace (cs : list fp_ports) : list (Z * Z) * list (Z * Z) * list (Z * Z * Z * Z) :=
  (capped_run 24 (fun _ => true) (concat (map (fun c => opt_list' (fp0 c) ++ opt_list' (fp1 c)) cs)),
   capped_run 12 (fun _ => true) (concat (map (fun c => opt_list' (fcr0 c) ++ opt_list' (fcr1 c)) cs)),
   capped_run 12 (fun _ => true) (omap irq cs)).

(** ** The exception log of the main loop *)

Record core_sr := CoreSr { c_cause : Z; c_epc : Z; c_badv : Z; c_sr : Z; c_lastpc : Z }.
(** The values one line prints, and the state [prev_epc], [prev_badv],
    [prev_sr], [exc_prints]. *)
Record exc_rec := ExcRec { x_no : Z; x_cyc : Z; x_cause : Z; x_epc : Z; x_badv : Z; x_exl : Z; x_lastpc : Z }.
Record exc_st := ExcSt { prev_epc : Z; prev_badv : Z; prev_sr : Z; exc_out : list exc_rec; exc_prints : Z }.
Definition exc_start : exc_st := ExcSt 0 0 0 [] 0.
Definition exc_cycle (cyc : Z) (c : core_sr) (s : exc_st) : exc_st :=
  if (negb (c_badv c =? prev_badv s) || negb (c_epc c =? prev_epc s)) && (exc_prints s <? 120) then
    ExcSt (c_epc c) (c_badv c) (c_sr c)
      (exc_out s ++ [ExcRec (exc_prints s) cyc (c_cause c) (c_epc c) (c_badv c) ((prev_sr s .>> 1) .& 1) (c_lastpc c)])
      (exc_prints s + 1)
  else ExcSt (prev_epc s) (prev_badv s) (c_sr c) (exc_out s) (exc_prints s).
Fixpoint exc_run (cyc : Z) (cs : list core_sr) (s : exc_st) : exc_st :=
  match cs with [] => s | c :: t => exc_run (cyc + 1) t (exc_cycle cyc c s) end.

(** ** RTLTRACE *)

Record rtl_cfg := RtlCfg { rtl_startpc : Z; rtl_cap : Z; rtl_useronly : bool; rtl_ktlb : bool }.
(** A line: pc, register or -1, value. *)
Record rtl_line := RtlLine { l_pc : Z; l_reg : Z; l_val : Z }.
Record rtl_st := RtlSt { rtl_armed : bool; rtl_out : list rtl_line }.
Definition rtl_start (k : rtl_cfg) : rtl_st := RtlSt (rtl_startpc k =? 0) [].
Definition khandler (pc : Z) : bool :=
  (0x80000000 <=? pc) && (pc <? 0x80000240) || (0x88002000 <=? pc) && (pc <? 0x88015000).
(** The early return of [emit1]. *)
Definition rtl_skips (k : rtl_cfg) (pc : Z) : bool :=
  rtl_useronly k && (0x80000000 <=? pc) && negb (rtl_ktlb k && khandler pc).
Definition rtl_line_of (p : port) : rtl_line :=
  let reg := if p_rv p && negb (p_rp p .& 31 =? 0) then p_rp p .& 31 else -1 in
  RtlLine (u32 (p_pc p)) reg (if reg <? 0 then 0 else u64 (p_rd p)).
Definition emit1 (k : rtl_cfg) (p : port) (s : rtl_st) : rtl_st :=
  if rtl_skips k (u32 (p_pc p)) then s else RtlSt (rtl_armed s) (rtl_out s ++ [rtl_line_of p]).
(** [emitted] is the number of lines. *)
Definition emitted (s : rtl_st) : Z := Z.of_nat (length (rtl_out s)).
Definition rtl_cycle (k : rtl_cfg) (s : rtl_st) (c : rcycle) : rtl_st :=
  if emitted s <? rtl_cap k then
    let s :=
      match slot0 c with
      | Some p =>
          let s := RtlSt (rtl_armed s || (u32 (p_pc p) =? rtl_startpc k)) (rtl_out s) in
          if rtl_armed s then emit1 k p s else s
      | None => s
      end in
    match slot1 c with
    | Some p => if rtl_armed s && (emitted s <? rtl_cap k) then emit1 k p s else s
    | None => s
    end
  else s.
Definition rtl_run (k : rtl_cfg) (cs : list rcycle) : list rtl_line := rtl_out (fold_left (rtl_cycle k) cs (rtl_start k)).

(** [fprintf("%x %d %llx\n")]. *)
(** Sixteen digits are a 64-bit value. *)
Definition print_hex (x : Z) (rest : list Z) : list Z := num_from 16 16 x rest.
Definition print_reg (r : Z) (rest : list Z) : list Z :=
  if r <? 0 then 45 :: 49 :: rest else if r <? 10 then 48 + r :: rest else 48 + r / 10 :: 48 + r mod 10 :: rest.
Definition print_line (l : rtl_line) (rest : list Z) : list Z :=
  print_hex (l_pc l) (32 :: print_reg (l_reg l) (32 :: print_hex (l_val l) (10 :: rest))).

(** ** Properties *)

(** The write-back log holds every write-back of the two watched lines and the
    first twelve of the others, in order. *)
Theorem l1d_wb_log_exact (xs : list wb_ev) :
  let out := snd (fold_left (l1d_wb_log true true) xs (0, [])) in
  out `sublist_of` xs /\
  filter (fun x => wb_watched x = true) out = filter (fun x => wb_watched x = true) xs /\
  filter (fun x => wb_watched x = false) out = take 12 (filter (fun x => wb_watched x = false) xs).
Proof.
  cbv zeta. assert (forall n acc, 0 <= n ->
    exists out, snd (fold_left (l1d_wb_log true true) xs (n, acc)) = acc ++ out /\ out `sublist_of` xs /\
    filter (fun x => wb_watched x = true) out = filter (fun x => wb_watched x = true) xs /\
    filter (fun x => wb_watched x = false) out = take (Z.to_nat (12 - n)) (filter (fun x => wb_watched x = false) xs)) as H.
  { induction xs as [|x xs IH]; intros n acc Hn; cbn [fold_left].
    { exists []. rewrite !filter_nil, take_nil, app_nil_r. auto using sublist_nil. }
    unfold l1d_wb_log at 2. cbn [negb]. destruct (wb_watched x) eqn:Ew.
    - destruct (IH n (acc ++ [x]) Hn) as (out & -> & Hs & H1 & H2). exists (x :: out).
      rewrite <- app_assoc. split; [done|]. split; [by apply sublist_skip|].
      rewrite !filter_b, Ew. cbn [Bool.eqb]. by rewrite H1, H2.
    - destruct (Z.ltb_spec n 12).
      + destruct (IH (n + 1) (acc ++ [x]) ltac:(lia)) as (out & -> & Hs & H1 & H2). exists (x :: out).
        rewrite <- app_assoc. split; [done|]. split; [by apply sublist_skip|].
        rewrite !filter_b, Ew. cbn [Bool.eqb]. rewrite H1, H2. split; [done|].
        replace (Z.to_nat (12 - n)) with (S (Z.to_nat (12 - (n + 1)))) by lia. done.
      + destruct (IH (n + 1) acc ltac:(lia)) as (out & -> & Hs & H1 & H2). exists out.
        split; [done|]. split; [by apply sublist_cons|].
        rewrite !filter_b, Ew. cbn [Bool.eqb]. rewrite H1, H2. split; [done|].
        replace (Z.to_nat (12 - n)) with O by lia. by replace (Z.to_nat (12 - (n + 1))) with O by lia. }
  destruct (H 0 [] ltac:(lia)) as (out & -> & H1). exact H1.
Qed.

(** The exception log as a comparison of adjacent cycles. *)
Fixpoint exc_changes (cyc n : Z) (p : core_sr) (cs : list core_sr) : list exc_rec :=
  match cs with
  | [] => []
  | c :: t =>
      if negb (c_badv c =? c_badv p) || negb (c_epc c =? c_epc p)
      then ExcRec n cyc (c_cause c) (c_epc c) (c_badv c) ((c_sr p .>> 1) .& 1) (c_lastpc c) :: exc_changes (cyc + 1) (n + 1) c t
      else exc_changes (cyc + 1) n c t
  end.
(** The exception log is the first 120 cycles in which EPC or BadVAddr
    differs from the cycle before, each with the EXL bit of the cycle before. *)
Theorem exc_log_exact (cs : list core_sr) :
  exc_out (exc_run 0 cs exc_start) = take 120 (exc_changes 0 0 (CoreSr 0 0 0 0 0) cs).
Proof.
  assert (forall cyc p s, 0 <= exc_prints s -> prev_sr s = c_sr p ->
    (exc_prints s < 120 -> prev_epc s = c_epc p /\ prev_badv s = c_badv p) ->
    exc_out (exc_run cyc cs s) = exc_out s ++ take (Z.to_nat (120 - exc_prints s)) (exc_changes cyc (exc_prints s) p cs)) as H.
  { induction cs as [|c cs IH]; intros cyc p s H0 Hsr Hp; cbn [exc_run exc_changes].
    { by rewrite take_nil, app_nil_r. }
    unfold exc_cycle. destruct (Z.ltb_spec (exc_prints s) 120) as [Hlt|Hge].
    - destruct (Hp Hlt) as [-> ->]. rewrite andb_true_r. destruct (_ || _) eqn:Ec.
      + rewrite (IH (cyc + 1) c) by (cbn; intros; done || lia). cbn [exc_out exc_prints]. rewrite <- app_assoc, Hsr.
        f_equal. replace (Z.to_nat (120 - exc_prints s)) with (S (Z.to_nat (120 - (exc_prints s + 1)))) by lia. done.
      + apply orb_false_iff in Ec as [E1 E2]. apply negb_false_iff, Z.eqb_eq in E1. apply negb_false_iff, Z.eqb_eq in E2.
        rewrite (IH (cyc + 1) c) by (cbn; intros; done || lia). done.
    - rewrite andb_false_r. rewrite (IH (cyc + 1) c) by (cbn; intros; done || lia). cbn [exc_out exc_prints].
      by replace (Z.to_nat (120 - exc_prints s)) with O by lia. }
  rewrite (H 0 (CoreSr 0 0 0 0 0) exc_start) by done. done.
Qed.

(** ** Properties: RTLTRACE *)

(** The retirements once the start PC has retired in slot 0. *)
Fixpoint armed_stream (startpc : Z) (armed : bool) (cs : list rcycle) : list port :=
  match cs with
  | [] => []
  | c :: t =>
      let a := armed || match slot0 c with Some p => u32 (p_pc p) =? startpc | None => false end in
      (if a then retires c else []) ++ armed_stream startpc a t
  end.
Definition rtl_keeps (k : rtl_cfg) (ps : list port) : list rtl_line :=
  map rtl_line_of (List.filter (fun p => negb (rtl_skips k (u32 (p_pc p)))) ps).
Lemma rtl_keeps_app k ps qs : rtl_keeps k (ps ++ qs) = rtl_keeps k ps ++ rtl_keeps k qs.
Proof. unfold rtl_keeps. by rewrite List.filter_app, map_app. Qed.
Lemma emit1_out k p s : emit1 k p s = RtlSt (rtl_armed s) (rtl_out s ++ rtl_keeps k [p]).
Proof. unfold emit1, rtl_keeps. cbn [List.filter]. destruct (rtl_skips _ _); cbn; [by destruct s; rewrite app_nil_r|done]. Qed.
Lemma length_keeps_one k p : (length (rtl_keeps k [p]) <= 1)%nat.
Proof. unfold rtl_keeps. cbn [List.filter]. destruct (negb _); cbn; lia. Qed.
(** What one cycle appends while there is room. *)
Lemma rtl_cycle_out k s c :
  emitted s < rtl_cap k ->
  let a := rtl_armed s || match slot0 c with Some p => u32 (p_pc p) =? rtl_startpc k | None => false end in
  rtl_cycle k s c =
  RtlSt a (rtl_out s ++ take (Z.to_nat (rtl_cap k - emitted s)) (rtl_keeps k (if a then retires c else []))).
Proof.
  intros Hlt. cbv zeta. unfold rtl_cycle, retires. rewrite (proj2 (Z.ltb_lt _ _)) by done.
  assert (forall l : list rtl_line, (length l <= 1)%nat -> take (Z.to_nat (rtl_cap k - emitted s)) l = l) as Ht
    by (intros l Hl; apply take_ge; lia).
  destruct s as [ar out]. cbn [rtl_armed rtl_out] in *. destruct (slot0 c) as [p|]; cbn [opt_list' app].
  - destruct (ar || (u32 (p_pc p) =? rtl_startpc k)) eqn:Ea; cbn [rtl_armed rtl_out].
    + rewrite emit1_out. cbn [rtl_armed rtl_out]. destruct (slot1 c) as [q|]; cbn [opt_list' app andb].
      * change [p; q] with ([p] ++ [q]). rewrite rtl_keeps_app. unfold emitted in *. cbn [rtl_out] in *. rewrite length_app.
        pose proof (length_keeps_one k p) as Hp. pose proof (length_keeps_one k q) as Hq.
        destruct (Z.ltb_spec (Z.of_nat (length out + length (rtl_keeps k [p]))) (rtl_cap k)).
        -- rewrite emit1_out. cbn [rtl_armed rtl_out]. rewrite <- app_assoc. by rewrite take_ge by (rewrite length_app; lia).
        -- f_equal. f_equal. by rewrite take_app_length' by lia.
      * by rewrite Ht by apply length_keeps_one.
    + destruct (slot1 c); cbn [andb]; unfold rtl_keeps; cbn; by rewrite take_nil, app_nil_r.
  - rewrite orb_false_r. destruct ar; cbn [rtl_armed andb].
    + unfold emitted in *. cbn [rtl_out] in *. destruct (slot1 c) as [q|]; cbn [opt_list' rtl_armed rtl_out andb].
      * rewrite (proj2 (Z.ltb_lt _ _)) by done. rewrite emit1_out. cbn [rtl_armed rtl_out]. by rewrite Ht by apply length_keeps_one.
      * unfold rtl_keeps; cbn. by rewrite take_nil, app_nil_r.
    + destruct (slot1 c); unfold rtl_keeps; cbn; by rewrite take_nil, app_nil_r.
Qed.
Lemma rtl_run_full k cs s : rtl_cap k <= emitted s -> fold_left (rtl_cycle k) cs s = s.
Proof.
  intros H. induction cs as [|c cs IH]; [done|]. cbn [fold_left]. unfold rtl_cycle at 2.
  rewrite (proj2 (Z.ltb_ge _ _)) by done. exact IH.
Qed.
Lemma rtl_run_from k cs : forall s,
  emitted s <= rtl_cap k ->
  rtl_out (fold_left (rtl_cycle k) cs s) =
  rtl_out s ++ take (Z.to_nat (rtl_cap k - emitted s)) (rtl_keeps k (armed_stream (rtl_startpc k) (rtl_armed s) cs)).
Proof.
  induction cs as [|c cs IH]; intros s Hs; cbn [fold_left armed_stream].
  { change (rtl_keeps k []) with (@nil rtl_line). by rewrite take_nil, app_nil_r. }
  destruct (Z.lt_ge_cases (emitted s) (rtl_cap k)) as [Hlt|Hge].
  - pose proof (rtl_cycle_out k s c Hlt) as Hc. cbv zeta in Hc.
    set (a := rtl_armed s || _) in *. set (new := rtl_keeps k (if a then retires c else [])) in *.
    rewrite IH; rewrite Hc; unfold emitted in *; cbn [rtl_out rtl_armed]; rewrite length_app, length_take.
    + rewrite rtl_keeps_app. fold new. rewrite <- app_assoc, take_app. do 2 f_equal. f_equal. lia.
    + lia.
  - assert (Z.to_nat (rtl_cap k - emitted s) = O) as -> by lia. cbn [take]. rewrite app_nil_r.
    change (fold_left (rtl_cycle k) cs (rtl_cycle k s c)) with (fold_left (rtl_cycle k) (c :: cs) s).
    by rewrite (rtl_run_full k (c :: cs) s Hge).
Qed.
(** RTLTRACE writes the first [cap] selected retirements, in program
    order, from the first retirement of the start PC in slot 0 on (from the
    beginning when none is given). *)
Theorem rtltrace_exact (k : rtl_cfg) (cs : list rcycle) :
  0 <= rtl_cap k ->
  rtl_run k cs = take (Z.to_nat (rtl_cap k)) (rtl_keeps k (armed_stream (rtl_startpc k) (rtl_startpc k =? 0) cs)).
Proof.
  intros Hc. unfold rtl_run. rewrite rtl_run_from by exact Hc. cbn [rtl_start rtl_out rtl_armed app].
  unfold emitted. cbn [rtl_start rtl_out length]. by rewrite Z.sub_0_r.
Qed.

(** ** Reading RTLTRACE back *)

(** The rest of a line after its first blank or newline. *)
Fixpoint after_sep (l : list Z) : list Z :=
  match l with [] => [] | c :: t => if (c =? 32) || (c =? 10) then t else after_sep t end.
Definition read_line (l : list Z) : rtl_line * list Z :=
  let r := after_sep l in let v := after_sep r in
  (RtlLine (hex_digits 0 l) (match r with 45 :: _ => -1 | _ => dec_digits 0 r end) (hex_digits 0 v), after_sep v).
Fixpoint read_lines (n : nat) (l : list Z) : list rtl_line :=
  match n with O => [] | S k => let '(x, t) := read_line l in x :: read_lines k t end.
Definition rtl_file (ls : list rtl_line) : list Z := fold_right print_line [] ls.
Definition line_ok (l : rtl_line) : Prop := is_u 64 (l_pc l) /\ -1 <= l_reg l < 32 /\ is_u 64 (l_val l).

Lemma hexval_char d : 0 <= d < 16 -> hexval (digit_char d) = Some d.
Proof.
  intros Hd. unfold hexval, digit_char, is_digit. destruct (Z.ltb_spec d 10).
  - rewrite (proj2 (Z.leb_le _ _)), (proj2 (Z.leb_le _ _)) by lia. cbn. f_equal. lia.
  - rewrite (proj2 (Z.leb_le 48 _)), (proj2 (Z.leb_gt (87 + d) 57)) by lia. cbn [andb].
    rewrite (proj2 (Z.leb_le _ _)), (proj2 (Z.leb_le _ _)) by lia. cbn. f_equal. lia.
Qed.
Lemma hex_from_digits n : forall x acc, 0 <= x < 16 ^ Z.of_nat n -> (0 < n)%nat ->
  hex_digits 0 (num_from n 16 x acc) = hex_digits x acc.
Proof.
  induction n as [|n IH]; intros x acc Hx Hn; [lia|]. cbn [num_from]. destruct (Z.ltb_spec x 16).
  - cbn [hex_digits]. rewrite hexval_char by lia. done.
  - rewrite Nat2Z.inj_succ, Z.pow_succ_r in Hx by lia.
    assert (0 < n)%nat. { destruct n; [cbn in Hx; lia|lia]. }
    pose proof (Z.div_mod x 16 ltac:(lia)). pose proof (Z.mod_pos_bound x 16 ltac:(lia)).
    rewrite IH by first [done|split; [apply Z.div_pos; lia|apply Z.div_lt_upper_bound; lia]].
    cbn [hex_digits]. rewrite hexval_char by done. f_equal. lia.
Qed.
Lemma digit_char_sep d : 0 <= d < 16 -> ((digit_char d =? 32) || (digit_char d =? 10)) = false.
Proof. intros Hd. unfold digit_char. destruct (Z.ltb_spec d 10); apply orb_false_iff; split; apply Z.eqb_neq; lia. Qed.
Lemma hex_from_sep n : forall x acc, 0 <= x -> after_sep (num_from n 16 x acc) = after_sep acc.
Proof.
  induction n as [|n IH]; intros x acc Hx; cbn [num_from]; [done|]. destruct (Z.ltb_spec x 16).
  - cbn [after_sep]. by rewrite digit_char_sep by lia.
  - rewrite IH by (apply Z.div_pos; lia). cbn [after_sep]. by rewrite digit_char_sep by (apply Z.mod_pos_bound; lia).
Qed.
Lemma print_hex_read x c rest :
  is_u 64 x -> c = 32 \/ c = 10 -> hex_digits 0 (print_hex x (c :: rest)) = x /\ after_sep (print_hex x (c :: rest)) = rest.
Proof.
  intros Hx Hc. unfold print_hex. rewrite hex_from_digits by (unfold is_u in Hx; change (16 ^ Z.of_nat 16) with (2 ^ 64); lia).
  rewrite hex_from_sep by (unfold is_u in Hx; lia). split; destruct Hc as [-> | ->]; done.
Qed.
Lemma print_reg_read r rest :
  -1 <= r < 32 ->
  match print_reg r (32 :: rest) with 45 :: _ => -1 | _ => dec_digits 0 (print_reg r (32 :: rest)) end = r /\
  after_sep (print_reg r (32 :: rest)) = rest.
Proof.
  intros Hr. assert (r = -1 \/ exists n, (n < 32)%nat /\ r = Z.of_nat n) as [-> | (n & Hn & ->)]
    by (destruct (Z.eq_dec r (-1)); [by left|right; exists (Z.to_nat r); lia]); [done|].
  do 32 (destruct n as [|n]; [split; reflexivity|]). lia.
Qed.
Lemma read_line_print l rest : line_ok l -> read_line (print_line l rest) = (l, rest).
Proof.
  intros (Hp & Hr & Hv). unfold read_line, print_line.
  destruct (print_hex_read (l_pc l) 32 (print_reg (l_reg l) (32 :: print_hex (l_val l) (10 :: rest))) Hp ltac:(by left)) as [-> ->].
  destruct (print_reg_read (l_reg l) (print_hex (l_val l) (10 :: rest)) Hr) as [-> ->].
  destruct (print_hex_read (l_val l) 10 rest Hv ltac:(by right)) as [-> ->]. by destruct l.
Qed.
(** The file's text determines its lines. *)
Theorem rtltrace_reads_back (ls : list rtl_line) :
  Forall line_ok ls -> read_lines (length ls) (rtl_file ls) = ls.
Proof.
  induction 1 as [|l ls Hl _ IH]; [done|]. cbn [length read_lines rtl_file fold_right]. rewrite read_line_print by done.
  fold (rtl_file ls). by rewrite IH.
Qed.

(** ** Properties: the word searches *)

Lemma le_val_app xs ys : le_val (xs ++ ys) = le_val xs + 256 ^ Z.of_nat (length xs) * le_val ys.
Proof.
  induction xs as [|x xs IH]; cbn [app le_val length]; [change (256 ^ Z.of_nat 0) with 1; lia|].
  rewrite IH, Nat2Z.inj_succ, Z.pow_succ_r by lia. ring.
Qed.
(** The two 32-bit words of a little-endian doubleword. *)
Lemma dword_halves bs :
  bytes_ok bs -> length bs = 8%nat ->
  u32 (le_val bs) = le_val (take 4 bs) /\ u32 (le_val bs .>> 32) = le_val (drop 4 bs).
Proof.
  intros Hb Hl. rewrite <- (take_drop 4 bs) in Hb at 1. apply Forall_app in Hb as [H1 H2].
  pose proof (le_val_bound _ H1) as B1. pose proof (le_val_bound _ H2) as B2.
  rewrite length_take in B1. rewrite length_drop in B2. rewrite Hl in B1, B2.
  change (256 ^ Z.of_nat (Nat.min 4 8)) with 0x100000000 in B1. change (256 ^ Z.of_nat (8 - 4)) with 0x100000000 in B2.
  rewrite <- (take_drop 4 bs) at 1 3. rewrite le_val_app, length_take, Hl. change (256 ^ Z.of_nat (Nat.min 4 8)) with 0x100000000.
  unfold u32. rewrite Z.shiftr_div_pow2 by lia. change (2 ^ 32) with 0x100000000. split.
  - rewrite (Z.mul_comm 0x100000000), Z.mod_add by lia. apply Z.mod_small. lia.
  - rewrite (Z.mul_comm 0x100000000), Z.div_add, Z.div_small by lia. apply Z.mod_small. lia.
Qed.
Definition PTR : list Z := [0x0e; 0x07; 0xbb; 0xc0].
Lemma word_is_ptr bs :
  bytes_ok bs -> length bs = 4%nat ->
  ((le_val bs =? 0x0e07bbc0) || (le_val bs =? 0xc0bb070e)) = true <-> bs = PTR \/ bs = rev PTR.
Proof.
  intros Hb Hl. rewrite orb_true_iff, !Z.eqb_eq.
  assert (forall cs, bytes_ok cs -> length cs = 4%nat -> le_val bs = le_val cs -> bs = cs) as Hinj.
  { intros cs Hc Hlc H. rewrite <- (le_bytes_le_val bs Hb), <- (le_bytes_le_val cs Hc). by rewrite Hl, Hlc, H. }
  assert (bytes_ok PTR /\ bytes_ok (rev PTR)) as [H1 H2]
    by (split; repeat (apply Forall_cons_2; [by vm_compute|]); apply Forall_nil_2).
  split.
  - intros [H|H]; [right|left]; by apply Hinj.
  - intros [-> | ->]; [right|left]; by vm_compute.
Qed.
(** The search of a 16-byte payload finds word [i] exactly when its four bytes
    are the pointer's, in either byte order. *)
Theorem watchpa_exact (bs : list Z) (i : nat) :
  bytes_ok bs -> length bs = 16%nat ->
  i ∈ watchpa (le_val (take 8 bs)) (le_val (drop 8 bs)) <->
  (i < 4)%nat /\ (take 4 (drop (4 * i) bs) = PTR \/ take 4 (drop (4 * i) bs) = rev PTR).
Proof.
  intros Hb Hl. rewrite <- (take_drop 8 bs) in Hb at 1. apply Forall_app in Hb as [H1 H2].
  assert (length (take 8 bs) = 8%nat /\ length (drop 8 bs) = 8%nat) as [L1 L2] by (rewrite length_take, length_drop; lia).
  destruct (dword_halves _ H1 L1) as [E0 E1]. destruct (dword_halves _ H2 L2) as [E2 E3].
  unfold watchpa. rewrite E0, E1, E2, E3. rewrite list_elem_of_In, List.filter_In, in_seq.
  assert (forall l k n, bytes_ok l -> bytes_ok (take n (drop k l))) as Hok by (intros; by apply Forall_take, Forall_drop).
  assert (forall k, (k < 4)%nat -> nth k
    [le_val (take 4 (take 8 bs)); le_val (drop 4 (take 8 bs)); le_val (take 4 (drop 8 bs)); le_val (drop 4 (drop 8 bs))] 0 =
    le_val (take 4 (drop (4 * k) bs))) as Hn.
  { intros k Hk. destruct k as [|[|[|[|k]]]]; [| | | |lia]; cbn [nth]; f_equal; cbn [Nat.mul Nat.add].
    - rewrite take_take. done.
    - by rewrite take_drop_commute.
    - rewrite drop_drop. rewrite take_ge; [done|rewrite length_drop; lia]. }
  split.
  - intros [Hi Hp]. split; [lia|]. rewrite Hn in Hp by lia. apply word_is_ptr in Hp; [done| |].
    + apply Hok. rewrite <- (take_drop 8 bs). by apply Forall_app.
    + rewrite length_take, length_drop. lia.
  - intros [Hi Hp]. split; [lia|]. rewrite Hn by lia. apply word_is_ptr; [| |done].
    + apply Hok. rewrite <- (take_drop 8 bs). by apply Forall_app.
    + rewrite length_take, length_drop. lia.
Qed.
Lemma bswap32_bytes bs : bytes_ok bs -> length bs = 4%nat -> bswap32 (le_val bs) = be_val bs.
Proof. intros Hb Hl. unfold bswap32. rewrite <- Hl. by rewrite le_bytes_le_val. Qed.
(** The L2 log decodes a descriptor line's three big-endian words from
    the little-endian doublewords the hook is given. *)
Theorem l2_descr_exact (bs : list Z) :
  bytes_ok bs -> length bs = 16%nat ->
  l2_descr (le_val (take 8 bs)) (le_val (drop 8 bs)) =
  (be_val (take 4 bs), be_val (take 4 (drop 4 bs)), be_val (take 4 (drop 8 bs))).
Proof.
  intros Hb Hl. assert (bytes_ok (take 8 bs) /\ bytes_ok (drop 8 bs)) as [H1 H2] by (split; [by apply Forall_take|by apply Forall_drop]).
  destruct (dword_halves (take 8 bs)) as [E0 E1]; [done|rewrite length_take; lia|].
  destruct (dword_halves (drop 8 bs)) as [E2 _]; [done|rewrite length_drop; lia|].
  unfold l2_descr. rewrite E0, E1, E2.
  rewrite !bswap32_bytes by first [by apply Forall_take | by apply Forall_drop | rewrite ?length_take, ?length_drop, ?length_take; lia].
  rewrite take_take. by rewrite (take_drop_commute bs 4 4).
Qed.
