(* ===== verification/Env.v ===== *)
(** * Env: the knobs read from the environment

    The getenv calls of sim/henry_tb.cpp that configure modelled parts: the memory
    latency model, the watchdog, the trace filters, RETIRETRACE, CTRACE, USRETLOG,
    RTLTRACE, the watch windows handed to the RTL and the SCSI select delay.  Each
    configuration is the one its component takes as a parameter. *)
From stdpp Require Import strings.
From S2P Require Import Prelude Printf AddressMap GuestMem MemBus TraceCodec Checkpoint Checker Monitor Retire Logs Probes Boot.
Open Scope Z_scope.

Section Env.
(** The environment: the value of a variable, if it is set. *)
Variable getenv : string -> option (list Z).
Definition env_flag (x : string) : bool := bool_decide (is_Some (getenv x)).
(** [getenv(x) ? strtoull(getenv(x), 0, 0) : d]; strtoul is the same function here. *)
Definition env_ull (x : string) (d : Z) : Z := match getenv x with Some v => strtoull v | None => d end.
(** The same, cast to [unsigned]. *)
Definition env_u32 (x : string) (d : Z) : Z := match getenv x with Some v => u32 (strtoull v) | None => d end.
(** [strtol] saturates at the limits of a signed 64-bit value; [atoi] then truncates. *)
Definition strtol (base : Z) (v : list Z) : Z :=
  match scan_num base v with
  | Some (neg, n, _) => if neg then Z.max (- n) (- 2 ^ 63) else Z.min n (2 ^ 63 - 1)
  | None => 0
  end.
Definition env_long (x : string) (d : Z) : Z := match getenv x with Some v => strtol 0 v | None => d end.
Definition env_int (x : string) (d : Z) : Z := match getenv x with Some v => s32 (strtol 10 v) | None => d end.

(** Latency model: [(cfg, memlat_state)]. *)
Definition memlat_of_env : cfg * Z :=
  (Cfg (env_int "MEM_LAT_MIN" 1) (env_int "MEM_LAT_MAX" 16) (env_flag "AXI_ALIGN"), memlat_seed (u32 (env_int "MEM_SEED" 1))).
Definition no_retire_limit : Z := env_ull "NO_RETIRE_LIMIT" 65536.
Definition preamble_pc : Z := env_u32 "PREAMBLE_PC" 0.
Definition trace_filter : filter_cfg := FilterCfg (env_flag "TRACE_ASID") (env_u32 "TRACE_ASID" 0) (env_flag "TRACE_PCFILT").
(** The checker's knobs. *)
Definition gprchk : Z := env_long "GPRCHK" 0.
Definition gprchk_poison : Z := env_long "GPRCHK_POISON" (-1).
Definition sc_max : Z := env_long "SCMAX" 200.
Definition retiretrace : option (list Z) * rt_cfg :=
  (getenv "RETIRETRACE",
   RtCfg (env_flag "RETIRETRACE_USERONLY") (env_flag "RETIRETRACE_TRIG_USER") (env_ull "RETIRETRACE_LO" 0) (env_ull "RETIRETRACE_HI" 0)
     (env_ull "RETIRETRACE_N" 0) (Z.to_nat (env_ull "RETIRETRACE_RING" 0)) (env_u32 "RETIRETRACE_STOP" 0)).
(** [new ctrace_writer(path, chunk, level, raw)]. *)
Record ct_cfg := CtCfg { ct_path : list Z; ct_chunk : Z; ct_level : Z; ct_raw : option (list Z) }.
Definition ctrace : option ct_cfg :=
  match getenv "CTRACE" with
  | Some p => Some (CtCfg p (env_u32 "CTRACE_CHUNK" 1000000) (env_int "CTRACE_LEVEL" 3) (getenv "CTRACE_RAW"))
  | None => None
  end.
Definition usretlog : option (list Z) * bool := (getenv "USRETLOG", env_flag "USRETLOG_KERNEL").
Definition rtltrace : rtl_cfg :=
  RtlCfg (env_u32 "RTLTRACE_PC" 0) (env_ull "RTLTRACE_N" 40000000) (env_flag "RTLTRACE_USERONLY") (env_flag "RTLTRACE_KTLB").
(** [sscanf(v, "%llu:%llu", &a, &b)] over zeros: what is not scanned stays zero. *)
Definition scan_range (v : list Z) : Z * Z :=
  match scan_llu v with
  | Some (a, 58 :: t) => match scan_llu t with Some (b, _) => (a, b) | None => (a, 0) end
  | Some (a, _) => (a, 0)
  | None => (0, 0)
  end.
Definition sttrace_window : Z * Z := match getenv "STTRACE" with Some v => scan_range v | None => (0, 0) end.
Definition pcdump_window : option (Z * Z) := option_map scan_range (getenv "PCDUMP").
Definition stdump : Z := env_long "STDUMP" 0.
Definition stline : Z := env_ull "STLINE" 0.
(** The windows the RTL asks for through DPI. *)
Definition ldwatch_pa_f : Z := env_u32 "LDWATCH" 0.
Definition stackrd_lo_f : Z := env_u32 "STACKRD_LO" 0x8800f89c.
Definition stackrd_hi_f : Z := env_u32 "STACKRD_HI" 0x8800f8a8.
Definition vapa_lo_f : Z := env_u32 "VAPA_LO" 0.
Definition vapa_hi_f : Z := env_u32 "VAPA_HI" 0.
Definition l2watch_pa_f : Z := env_u32 "L2WATCH" 0.
(** VAPALOG; [opens] is whether its file can be opened. *)
Definition vapa_of_env (opens : list Z -> bool) : vapa_cfg :=
  VapaCfg (env_ull "VAPA_FROM_CYC" 0) (env_ull "VAPA_MAX" 40000000) match getenv "VAPALOG" with Some f => opens f | None => false end.
Definition newport_vblank : Z := env_ull "NEWPORT_VBLANK_CYC" 1000000.
Definition l2_nocache : bool := env_flag "L2NOCACHE".
(** [scsi_sel_delay], a 16-bit port. *)
Definition scsi_sel_delay : Z := match getenv "FASTDISK" with Some v => u16 (strtoull v) | None => 8192 end.
End Env.

(** ** Numbers *)

(** How a number is written: decimal without a leading zero, or 0x and digits. *)
Inductive written : list Z -> Z -> Prop :=
  | written_dec d ds : 0 < d < 10 -> digits_ok 10 ds -> written (map digit_char (d :: ds)) (value 10 (d :: ds))
  | written_zero : written [48] 0
  | written_hex d ds : digits_ok 16 (d :: ds) -> written (48 :: 120 :: map digit_char (d :: ds)) (value 16 (d :: ds)).

Lemma scan_digits_digits base ds acc seen : base <= 16 -> digits_ok base ds ->
  scan_digits base acc seen (map digit_char ds) = (foldl (fun a d => a * base + d) acc ds, [], seen || negb (bool_decide (ds = []))).
Proof.
  intros Hb H. revert acc seen; induction H as [|d ds Hd H IH]; intros acc seen; cbn [map scan_digits foldl].
  { by rewrite orb_false_r. }
  rewrite hexval_char, (proj2 (Z.ltb_lt _ _)), IH by lia. cbn [orb]. f_equal. by rewrite orb_true_r.
Qed.
(** A character that starts a number: neither space nor sign. *)
Lemma skip_space_digit c l : 48 <= c -> skip_space (c :: l) = c :: l.
Proof.
  intros. cbn [skip_space]. unfold is_space. rewrite (proj2 (Z.eqb_neq c 32)), (proj2 (Z.leb_gt c 13)) by lia.
  by rewrite andb_false_r.
Qed.
Lemma scan_sign_digit c l : 48 <= c -> scan_sign (c :: l) = (false, c :: l).
Proof. intros. unfold scan_sign. destruct c as [|p|p]; try lia. do 6 (destruct p as [p|p|]; try reflexivity; try lia). Qed.

Lemma scan_num_written base v n : base = 0 \/ (base = 10 /\ forall d ds, v <> 48 :: 120 :: map digit_char (d :: ds)) ->
  written v n -> scan_num base v = Some (false, n, []).
Proof.
  intros Hb Hw. revert Hb. destruct Hw as [d ds Hd Hds| |d ds Hds]; intros Hb.
  - unfold scan_num. cbn [map]. pose proof (digit_char_range d ltac:(lia)) as Hr.
    rewrite skip_space_digit, scan_sign_digit by lia.
    assert (Hc : exists c, digit_char d = c /\ c <> 48) by (exists (digit_char d); split; [done|]; unfold digit_char; case_test; bool_props; lia).
    destruct Hc as (c & Ec & Hc).
    assert (Hs : scan_digits 10 0 false (c :: map digit_char ds) = (value 10 (d :: ds), [], true)).
    { rewrite <- Ec. change (digit_char d :: map digit_char ds) with (map digit_char (d :: ds)).
      rewrite scan_digits_digits; [done|lia|]. constructor; [lia|done]. }
    rewrite Ec. assert ((if base =? 0 then 10 else base) = 10) as Hten by (destruct Hb as [->|[-> _]]; done). rewrite Hten.
    destruct c as [|p|p]; try (rewrite Hs; done).
    do 6 (destruct p as [p|p|]; try (rewrite Hs; done); try done).
  - destruct Hb as [->|[-> _]]; reflexivity.
  - destruct Hb as [->|[_ Hb]]; [|exfalso; by apply (Hb d ds)].
    unfold scan_num. rewrite skip_space_digit, scan_sign_digit by lia. cbn [map]. inversion_clear Hds.
    rewrite hexval_char by lia. cbn [Z.eqb orb andb]. rewrite bool_decide_eq_true_2 by eauto.
    change (digit_char d :: map digit_char ds) with (map digit_char (d :: ds)).
    rewrite scan_digits_digits; [done|lia|by constructor].
Qed.
Lemma value_from_nonneg base ds acc : 0 <= base -> digits_ok base ds -> 0 <= acc -> 0 <= foldl (fun a d => a * base + d) acc ds.
Proof. intros Hb H. revert acc; induction H as [|d ds Hd _ IH]; intros acc Ha; cbn [foldl]; [done|]. apply IH. nia. Qed.
Lemma written_nonneg v n : written v n -> 0 <= n.
Proof.
  intros [d ds Hd Hds| |d ds Hds]; [|done|]; unfold value; apply value_from_nonneg; try lia; try done. constructor; [lia|done].
Qed.

(** ** Properties *)

Section EnvProps.
Variable getenv : string -> option (list Z).

(** A knob written as a decimal or hexadecimal number has that value, cut to the
    largest 64-bit value, and its low half where the code keeps 32 bits. *)
Theorem env_number (x : string) (v : list Z) (n d : Z) :
  getenv x = Some v -> written v n ->
  env_ull getenv x d = Z.min n (2 ^ 64 - 1) /\ env_u32 getenv x d = u32 (Z.min n (2 ^ 64 - 1)).
Proof.
  intros Hx Hw. pose proof (written_nonneg _ _ Hw) as H0. unfold env_ull, env_u32, strtoull. rewrite Hx.
  rewrite (scan_num_written 0 v n) by (by try left).
  destruct (Z.leb_spec (2 ^ 64) n).
  - by rewrite Z.min_r by lia.
  - by rewrite Z.min_l by lia.
Qed.

(** An int knob: unset, or written in decimal. *)
Definition int_knob (x : string) (d n : Z) : Prop :=
  (getenv x = None /\ n = d) \/
  exists e ds, getenv x = Some (map digit_char (e :: ds)) /\ 0 < e < 10 /\ digits_ok 10 ds /\ n = value 10 (e :: ds).
Lemma env_int_number x d n : int_knob x d n -> n < 0x80000000 -> env_int getenv x d = n.
Proof.
  intros [[Hx ->]|(e & ds & Hx & He & Hds & ->)] Hn; unfold env_int; rewrite Hx; [done|].
  assert (written (map digit_char (e :: ds)) (value 10 (e :: ds))) as Hw by (by constructor).
  pose proof (written_nonneg _ _ Hw) as H0. unfold strtol.
  rewrite (scan_num_written 10 _ (value 10 (e :: ds))); [| |done].
  { rewrite Z.min_l by lia. unfold s32, u32. rewrite Z.mod_small by lia. by rewrite (proj2 (Z.ltb_lt _ _)). }
  right. split; [done|]. cbn [map]. intros d0 ds0 [=H1 _]. revert H1. unfold digit_char. case_test; bool_props; lia.
Qed.
(** The latency model is sound for every environment that orders the two bounds:
    each draw is within them, so every request is answered. *)
Theorem memlat_env_safe (lo hi : Z) :
  int_knob "MEM_LAT_MIN" 1 lo -> int_knob "MEM_LAT_MAX" 16 hi -> 0 <= lo <= hi -> hi < 0x40000000 ->
  let '(c, s) := memlat_of_env getenv in
  cfg_ok c /\ forall s', lo <= snd (memlat_draw c s') <= hi.
Proof.
  intros Hl Hh H1 H2. unfold memlat_of_env. rewrite (env_int_number _ _ _ Hl), (env_int_number _ _ _ Hh) by lia.
  set (c := Cfg lo hi _). assert (cfg_ok c) as Hc by (unfold cfg_ok, c; cbn; lia). split; [done|].
  intros s'. exact (memlat_draw_bounds c s' Hc).
Qed.
End EnvProps.

(** An environment from a list of settings. *)
Definition env_of (l : list (string * string)) (x : string) : option (list Z) :=
  option_map (fun p => chars (snd p)) (List.find (fun p => bool_decide (fst p = x)) l).

(** The bounds are not checked.  MEM_LAT_MIN above the default MEM_LAT_MAX makes the
    span wrap to about 2^64: with the default seed the first load is answered after
    more than 10^9 cycles, long after the watchdog has called the run wedged. *)
Theorem memlat_min_alone_wedges (cyc un : Z) (rq : req) (l : lane) :
  rq_valid rq = true -> rq_op rq = 4 -> l_prev l = false -> l_reply l = -1 ->
  let '(c, s) := memlat_of_env (env_of [("MEM_LAT_MIN", "20")]) in
  l_reply (snd (fst (lane0_accept c cyc rq s l un))) = cyc + 1082269781 /\
  no_retire_limit (env_of [("MEM_LAT_MIN", "20")]) = 65536.
Proof.
  intros Hv Hop Hp Hr. unfold memlat_of_env.
  set (c := Cfg _ _ _). set (s := memlat_seed _). split; [|reflexivity].
  assert (snd (memlat_draw c s) = 1082269781) as Hd by (vm_compute; reflexivity).
  unfold lane0_accept. rewrite Hv, Hp, Hr, Hop. cbn [negb andb]. change (-1 =? -1) with true. change (4 =? 4) with true.
  destruct (fold_or_mask _ _) as [a b]. destruct (memlat_draw c s) as [s' lat]. cbn [snd] in Hd. rewrite Hd. reflexivity.
Qed.
(** FASTDISK is cut to the 16-bit port: 65536 asks for no delay at all. *)
Theorem fastdisk_wraps : scsi_sel_delay (env_of [("FASTDISK", "65536")]) = 0 /\ scsi_sel_delay (env_of []) = 8192.
Proof. split; vm_compute; reflexivity. Qed.

Lemma env_number_witness : env_ull (env_of [("NO_RETIRE_LIMIT", "0x1f4")]) "NO_RETIRE_LIMIT" 65536 = 500.
Proof.
  refine (proj1 (env_number (env_of [("NO_RETIRE_LIMIT", "0x1f4")]) "NO_RETIRE_LIMIT" (chars "0x1f4") 500 65536 _ _)); [reflexivity|].
  change (chars "0x1f4") with (48 :: 120 :: map digit_char [1; 15; 4]). change 500 with (value 16 [1; 15; 4]).
  constructor. repeat constructor; lia.
Defined.
Lemma memlat_env_safe_witness :
  let '(c, s) := memlat_of_env (env_of [("MEM_LAT_MAX", "40")]) in cfg_ok c.
Proof.
  pose proof (memlat_env_safe (env_of [("MEM_LAT_MAX", "40")]) 1 40) as H.
  destruct (memlat_of_env _) as [c s]. apply H; [left; split; reflexivity| |lia|lia].
  right. exists 4, [0]. split_and!; try reflexivity; try lia. repeat constructor; lia.
Defined.
Lemma memlat_min_alone_wedges_witness :
  let '(c, s) := memlat_of_env (env_of [("MEM_LAT_MIN", "20")]) in
  l_reply (snd (fst (lane0_accept c 100 (Req true 0x08000000 4 0 []) s lane_init 0))) = 1082269881.
Proof.
  exact (proj1 (memlat_min_alone_wedges 100 0 (Req true 0x08000000 4 0 []) lane_init eq_refl eq_refl eq_refl eq_refl)).
Defined.
