(* ===== verification/CtraceTool.v ===== *)
(** * CtraceTool: the trace reader as a command

    main() of sim/ctrace_dump.cc around the reader of [Ctrace]: its arguments, the files
    it opens, the rows of --head and the stores of --addr, and its exit status.  A run that
    returns before the summary has its status only. *)
From S2P Require Import Prelude Checkpoint Ctrace Monitor Boot Env.

Record tool_opts := ToolOpts { o_head : Z; o_raw : option (list Z); o_addr : option Z }.
Definition no_opts : tool_opts := ToolOpts 0 None None.
(** The arguments after the path; what is not an option with a value is passed over. *)
Fixpoint tool_args (args : list (list Z)) (o : tool_opts) : tool_opts :=
  match args with
  | a :: r =>
      match r with
      | v :: t =>
          if bool_decide (a = chars "--head") then tool_args t (ToolOpts (strtol 0 v) (o_raw o) (o_addr o))
          else if bool_decide (a = chars "--raw") then tool_args t (ToolOpts (o_head o) (Some v) (o_addr o))
          else if bool_decide (a = chars "--addr") then tool_args t (ToolOpts (o_head o) (o_raw o) (Some (strtoull v)))
          else tool_args r o
      | [] => o
      end
  | [] => o
  end.

Section Tool.
Variable decompress : nat -> list Z -> option (list Z).
(** [fopen] for reading: the bytes of a file. *)
Variable files : list Z -> option (list Z).

Record tool_out := ToolOut { x_sum : summary; x_rows : list (nat * ct_rec); x_stores : list ct_store; x_mism : option Z }.
(** [printed < (uint64_t)head]. *)
Definition head_rows (head : Z) (rs : list ct_rec) : list (nat * ct_rec) :=
  take (Z.to_nat (Z.min (u64 head) (Z.of_nat (length rs)))) (imap pair rs).
Definition trailer_bad (s : summary) : bool :=
  match d_trailer s with Some (c, r) => negb ((c =? d_chunks s) && (r =? Z.of_nat (length (d_recs s)))) | None => false end.
Definition tool_main (args : list (list Z)) : Z * option tool_out :=
  match args with
  | [] => (1, None)
  | path :: t =>
      let o := tool_args t no_opts in
      match files path with
      | None => (1, None)
      | Some f =>
          match match o_raw o with Some p => option_map Some (files p) | None => Some None end with
          | None => (1, None)
          | Some raw =>
              match ctrace_dump decompress f with
              | inl _ => (1, None)
              | inr s =>
                  let mism := option_map (fun r => raw_mismatches r (d_recs s)) raw in
                  let out := ToolOut s (head_rows (o_head o) (d_recs s))
                               (match o_addr o with Some a => stores_at a s | None => [] end) mism in
                  (if trailer_bad s then 2 else match mism with Some m => if m =? 0 then 0 else 3 | None => 0 end, Some out)
              end
          end
      end
  end.
End Tool.

(** ** Lemmas *)

Lemma raw_mismatches_pos rs : forall raw, 0 <= raw_mismatches raw rs.
Proof.
  induction rs as [|r rs IH]; intros raw; cbn [raw_mismatches]; [lia|]. destruct (fread 18 raw) as [[b raw']|]; [|lia].
  destruct (rd 8 b) as [pc b1]. destruct (rd 8 b1) as [v b2]. destruct (rd 1 b2) as [d b3]. destruct (rd 1 b3) as [fl b4].
  pose proof (IH raw'). case_test; lia.
Qed.
(** A sidecar that stops early has no more mismatches than the whole one. *)
Lemma raw_mismatches_prefix rs : forall raw k, raw_mismatches (take k raw) rs <= raw_mismatches raw rs.
Proof.
  induction rs as [|r rs IH]; intros raw k; cbn [raw_mismatches]; [lia|]. unfold fread. rewrite length_take.
  destruct (Nat.leb_spec 18 (k `min` length raw)).
  - rewrite (proj2 (Nat.leb_le 18 (length raw))) by lia. rewrite take_take, skipn_firstn_comm. replace (18 `min` k)%nat with 18%nat by lia.
    destruct (rd 8 (take 18 raw)) as [pc b1]. destruct (rd 8 b1) as [v b2]. destruct (rd 1 b2) as [d b3]. destruct (rd 1 b3) as [fl b4].
    pose proof (IH (drop 18 raw) (k - 18)%nat). case_test; lia.
  - destruct (18 <=? length raw)%nat; [|lia].
    destruct (rd 8 (take 18 raw)) as [pc b1]. destruct (rd 8 b1) as [v b2]. destruct (rd 1 b2) as [d b3]. destruct (rd 1 b3) as [fl b4].
    pose proof (raw_mismatches_pos rs (drop 18 raw)). case_test; lia.
Qed.

(** ** Properties *)

Section ToolProofs.
Variable compress : list Z -> list Z.
Variable decompress : nat -> list Z -> option (list Z).
Variable files : list Z -> option (list Z).
(** Zstandard: it inverts, and a column of less than 2 GB compresses to less than 4. *)
Hypothesis zstd_inverse : forall b, decompress (length b) (compress b) = Some b.
Hypothesis zstd_bound : forall b, Z.of_nat (length b) < 0x80000000 -> Z.of_nat (length (compress b)) < 0x100000000.

(** The command accepts what the writer wrote.  With the file of a closed trace at its
    path, and any part of the sidecar from its start if --raw asks for one, it exits with
    status 0, finds no mismatch, prints the first --head records of the log in order (all
    of them for a negative number) and, for --addr, the logged stores of that 64-byte
    region but for the [unflushed] ones.  So a sidecar cut short, or empty, passes too.
    Bounds as for the file format: no chunk of 2^28 calls, fewer than 2^32 chunks. *)
Theorem tool_accepts (chunk_recs : nat) (ops : list ct_op) (path : list Z) (args : list (list Z)) (k : nat) :
  Forall op_ok ops -> chunks_fit chunk_recs ops ->
  let w := ct_run compress chunk_recs ops in
  let o := tool_args args no_opts in
  n_chunks w + 1 < 0x100000000 ->
  files path = Some (ct_close compress w) ->
  (forall p, o_raw o = Some p -> files p = Some (take k (w_raw w))) ->
  exists s, tool_main decompress files (path :: args) =
      (0, Some (ToolOut s (head_rows (o_head o) (adds ops))
                  (match o_addr o with Some a => stores_at a s | None => [] end) (option_map (fun _ => 0) (o_raw o)))) /\
    d_recs s = adds ops /\ stores ops = d_stores s ++ stores (unflushed chunk_recs ops).
Proof.
  intros Hok Hl. cbv zeta. set (w := ct_run compress chunk_recs ops). intros Hn Hf Hr.
  destruct (ctrace_file_exact compress decompress chunk_recs ops zstd_inverse zstd_bound Hok Hl Hn) as (s & R1 & R2 & R3 & _ & R5 & R6 & _).
  fold w in R1, R5. exists s. split; [|done]. unfold tool_main. rewrite Hf, R1.
  assert (trailer_bad s = false) as -> by (unfold trailer_bad; rewrite R3, R2, !Z.eqb_refl; done). rewrite R2.
  destruct (o_raw (tool_args args no_opts)) as [p|] eqn:Ep; cbn [option_map]; [|done]. rewrite (Hr p eq_refl). cbn [option_map].
  assert (raw_mismatches (take k (w_raw w)) (adds ops) = 0) as ->; [|done].
  pose proof (raw_mismatches_prefix (adds ops) (w_raw w) k). pose proof (raw_mismatches_pos (adds ops) (take k (w_raw w))).
  rewrite R2 in R5. lia.
Qed.
End ToolProofs.

(** The sample trace of [Ctrace] with an empty sidecar and two rows asked for. *)
Definition sample_files (p : list Z) : option (list Z) :=
  if bool_decide (p = chars "t.ct") then Some (ct_close toy_compress (ct_run toy_compress 2 sample_ops))
  else if bool_decide (p = chars "t.raw") then Some [] else None.
Definition sample_args : list (list Z) := [chars "--head"; chars "0x2"; chars "-q"; chars "--raw"; chars "t.raw"].
Lemma tool_accepts_witness :
  tool_args sample_args no_opts = ToolOpts 2 (Some (chars "t.raw")) None /\
  exists s, tool_main toy_decompress sample_files (chars "t.ct" :: sample_args) =
    (0, Some (ToolOut s [(0%nat, CtRec 0x88000000 2 7 0); (1%nat, CtRec 0x88000004 3 9 4)] [] (Some 0))).
Proof.
  split; [by vm_compute|].
  destruct (tool_accepts toy_compress toy_decompress sample_files toy_inverse toy_bound 2 sample_ops (chars "t.ct") sample_args 0
    sample_ops_ok (chunks_fit_short 2 sample_ops eq_refl) eq_refl) as (s & H & _); [by vm_compute| |exists s; exact H].
  assert (o_raw (tool_args sample_args no_opts) = Some (chars "t.raw")) as -> by (by vm_compute).
  intros p [= <-]. by vm_compute.
Defined.
(** A file that is not there, and one whose trailer counts other records. *)
Example tool_refuses :
  tool_main toy_decompress sample_files [] = (1, None) /\ tool_main toy_decompress sample_files [chars "x"] = (1, None) /\
  fst (tool_main toy_decompress (fun _ => Some (MAGIC ++ le_bytes 8 0 ++ le_bytes 8 5 ++ TRAILER)) [chars "t.ct"]) = 2.
Proof. by vm_compute. Qed.
