(* ===== verification/DebugProbes.v ===== *)
(** * DebugProbes: the probes written for particular bugs

    The hand-written probes of sim/henry_tb.cpp that are keyed to addresses of one
    kernel or program: STDUMP and STLINE in [drain_store_check], PCDUMP, the store
    watches of [wr_log] (ccstore, SHSTORE), the fill
    and invalidate watch of the crash word, SCSIDMADBG, the register walk of SHLOOP,
    SPINDBG and the calibration probe, and the HENRY_TB_GO_DEBUG group
    ([dpi_a0_probe], [dpi_mem_at], the register snapshot with its retire ring, the
    a0 walk).  A line printed is the tuple of its values; the warning of a save
    gate that does not open is here as well. *)
From S2P Require Import Prelude AddressMap GuestMem StoreCheck Monitor Retire Logs Probes.

Definition between (lo hi x : Z) : bool := (lo <=? x) && (x <=? hi).
Definition among (x : Z) (l : list Z) : bool := existsb (Z.eqb x) l.

(** ** Committed stores *)

Record st_ev := StEv { se_cyc : Z; se_pc : Z; se_pa : Z; se_data : Z }.
Inductive st_line := CcStore (x : st_ev) | ShStore (x : st_ev) | ShWord (x : st_ev).
(** What [wr_log] prints of one store; [sh] is SHSTORE. *)
Definition store_lines (sh : bool) (x : st_ev) : list st_line :=
  (if between 0x8800f6a8 0x8800f6b4 (u32 (se_pc x)) then [CcStore x] else []) ++
  (if sh && (2800000000 <? se_cyc x) then
     (if among (u32 (se_data x)) [0x0e07bb40; 0x0e07bb70; 0x0e07bb90; 0x0e07bbc0] then [ShStore x] else []) ++
     (if crashword (se_pa x) && between 0x88018f00 0x88019010 (u32 (se_pc x)) then [ShWord x] else [])
   else []).
(** STDUMP and STLINE, as [drain_store_check] compares the fronts: a pair and whether it agrees. *)
Inductive sp_line := StDump (i r : store_rec) | StLine (i r : store_rec) (ok : bool).
Fixpoint compared (iq rq : list store_rec) : list (store_rec * store_rec) :=
  match iq, rq with
  | i :: iq', r :: rq' => (i, r) :: (if store_agree i r then compared iq' rq' else [])
  | _, _ => []
  end.
Definition pair_lines (stdump g_stline : Z) (s : Z * list sp_line) (p : store_rec * store_rec) : Z * list sp_line :=
  let '(ndump, out) := s in
  let '(i, r) := p in
  let '(ndump, out) := if ndump <? stdump then (ndump + 1, out ++ [StDump i r]) else (ndump, out) in
  (ndump, if negb (g_stline =? 0) && (Z.ldiff (st_addr i) 63 =? Z.ldiff g_stline 63)
          then out ++ [StLine i r (store_agree i r)] else out).
Definition drain_lines (stdump g_stline : Z) (st : sc_state) (s : Z * list sp_line) : Z * list sp_line :=
  fold_left (pair_lines stdump g_stline) (compared (iss_stores st) (rtl_stores st)) s.
(** PCDUMP, next to PCHASH: [n] counts retirements from 1; a PC is printed in [lo, hi). *)
Definition pcdump_one (lo hi : Z) (s : Z * list Z) (pc : Z) : Z * list Z :=
  let '(n, out) := s in
  let n := n + 1 in (n, if (lo <=? n) && (n <? hi) then out ++ [u32 pc] else out).
Definition pcdump_cycle (lo hi : Z) (s : Z * list Z) (c : rcycle) : Z * list Z :=
  fold_left (pcdump_one lo hi) (map p_pc (retires c)) s.
(** FILLTRACE in [l1d_fill] and BCOPYTRACE in [l1d_cacheop]: lines holding the crash word. *)
Definition filltrace (on : bool) (x : fill_ev) : bool := on && crashword (fe_pa x).
Definition invaltrace (on : bool) (x : inv_ev) : bool := ie_inval x && on && crashword (ie_pa x).

(** ** SCSIDMADBG *)

Inductive dma_line :=
  | DmaGo (nbdp to_dev : Z) | DmaDesc (nbdp bp bc dp : Z) | DmaWr (bp cnt lo hi : Z) | DmaSt (state nbdp bp cnt : Z).
Definition dma_dbg (g_checker dbg : bool) (kind a b c d : Z) : option dma_line :=
  if negb g_checker || negb dbg then None
  else if kind =? 2 then Some (DmaGo a b)
  else if kind =? 0 then Some (DmaDesc a b c d)
  else if kind =? 1 then Some (DmaWr a b c d)
  else Some (DmaSt b a c d).

(** ** Register walks *)

Definition rf_at (rf : list Z) (r : nat) : Z := u32 (nth r rf 0).
Inductive sh_line := ShLoop (pc v0 v1 a0 a1 : Z) | ShDiv (pc s0 v0 s1 a1 : Z).
(** SHLOOP, late in the run; [rf] is [g_rf] after both retirements.  A slot that does
    not retire reads as PC 0. *)
Definition shloop_slot (rf : list Z) (rpc : Z) : list sh_line :=
  (if among rpc [0x0e005974; 0x0e005978; 0x0e00598c; 0x0e005990; 0x0e005998]
   then [ShLoop rpc (rf_at rf 2) (rf_at rf 3) (rf_at rf 4) (rf_at rf 5)] else []) ++
  (if among rpc [0x0e03ab50; 0x0e03ab64; 0x0e03ab68]
   then [ShDiv rpc (rf_at rf 16) (rf_at rf 2) (rf_at rf 17) (rf_at rf 5)] else []).
Definition slot_pc (p : option port) : Z := match p with Some p => u32 (p_pc p) | None => 0 end.
Definition shloop (on : bool) (cyc : Z) (c : rcycle) (rf : list Z) : list sh_line :=
  if on && (2800000000 <? cyc) then shloop_slot rf (slot_pc (slot0 c)) ++ shloop_slot rf (slot_pc (slot1 c)) else [].
(** SPINDBG: every 16384th pass of the poll loop; a word the fold rejects prints as 0xbadf00d. *)
Record spin_line := SpinLine { sp_a2 : Z; sp_w0 : Z; sp_w16 : Z; sp_w128 : Z; sp_gp : Z; sp_ra : Z }.
Definition spin_rd (m : mem) (va : Z) : Z :=
  let pa := if (0x80000000 <=? va) && (va <? 0xc0000000) then va .& 0x1fffffff else va in
  let '(o, bad) := fpga_map pa in if bad then 0xbadf00d else be32 m o.
Definition spindbg (sd : bool) (m : mem) (c : rcycle) (rf : list Z) (sn : Z) : Z * list spin_line :=
  match slot0 c with
  | Some p =>
      if sd && (u32 (p_pc p) =? 0x880e1b40) then
        let a2 := rf_at rf 6 in
        (sn + 1, if sn .& 0x3fff =? 0
                 then [SpinLine a2 (spin_rd m a2) (spin_rd m (a2 +32 16)) (spin_rd m (a2 +32 128)) (rf_at rf 28) (rf_at rf 31)]
                 else [])
      else (sn, [])
  | None => (sn, [])
  end.
(** The calibration probe: slot, register and value at the end of the delay loop. *)
Definition calib (c : rcycle) : list (Z * Z * Z) :=
  let one n p := match p with
                 | Some p => if u32 (p_pc p) =? 0x88019648 then [(n, p_rp p, p_rd p)] else []
                 | None => [] end in
  one 0 (slot0 c) ++ one 1 (slot1 c).

(** ** HENRY_TB_GO_DEBUG *)

Inductive a0_tag := StoreSrc | LoadDst | PrfWb.
(** [dpi_a0_probe]; writebacks are windowed to the replayed fault. *)
Definition dpi_a0_probe (on : bool) (cyc is_store : Z) : option a0_tag :=
  if negb on then None
  else if (is_store =? 2) && negb ((21123000 <=? cyc) && (cyc <=? 21124300)) then None
  else Some (if is_store =? 1 then StoreSrc else if is_store =? 0 then LoadDst else PrfWb).
(** [dpi_mem_at]: the doubleword DRAM holds at a physical address, zero when it is
    out of range, and the flag. *)
Definition dpi_mem_at (m : mem) (pa : Z) : Z * bool :=
  let '(off, bad) := if FPGA_ADDRESS_MAP then fpga_map (pa .& 0x1fffffff) else (pa .& 0x1fffffff .& MEM_MASK, false) in
  if negb bad && (off + 8 <=? MEM_SIZE)
  then (fold_left (fun v i => u64 (v .<< 8) .| mget m (off + Z.of_nat i)) (seq 0 8) 0, bad) else (0, bad).

(** The committed registers with their last writers, and the last 256 retirements. *)
Record gpr_snap := GprSnap { gs_gpr : list Z; gs_pc : list Z; gs_ring : list pf_rec * nat; gs_seen : bool }.
Definition gpr_snap0 : gpr_snap := GprSnap (repeat 0 32) (repeat 0 32) (repeat (0, 0, 0) 256, 0%nat) false.
Definition gs_write (s : gpr_snap) (p : port) : gpr_snap :=
  match p_reg p with
  | Some (r, d) => GprSnap (<[Z.to_nat r := d]> (gs_gpr s)) (<[Z.to_nat r := p_pc p]> (gs_pc s)) (gs_ring s) (gs_seen s)
  | None => s
  end.
Definition gs_rec (p : port) : pf_rec := (p_pc p, match p_reg p with Some (r, _) => r | None => -1 end, p_rd p).
Definition gs_push (s : gpr_snap) (p : port) : gpr_snap :=
  GprSnap (gs_gpr s) (gs_pc s) (pf_push 256 (gs_ring s) (gs_rec p)) (gs_seen s).
(** The ring from the 200th newest entry on, empty slots skipped: [(k - 200) & 255] at index [k]. *)
Definition nonzero_pc (x : pf_rec) : bool := negb (fst (fst x) =? 0).
Definition gs_window (s : list pf_rec * nat) : list pf_rec :=
  let '(a, i) := s in
  List.filter nonzero_pc (map (fun k => nth ((i + 56 + k) mod 256) a (0, 0, 0)) (seq 0 200)).
(** A ring line: the PC's low 40 bits and the register write, if there was one. *)
Definition gs_line (x : pf_rec) : Z * option (Z * Z) :=
  let '(pc, r, d) := x in (pc .& 0xffffffffff, if 0 <=? r then Some (r, d) else None).
Record go_report := GoReport { gr_regs : list (Z * Z); gr_ring : list (Z * option (Z * Z)) }.
Definition go_fault (epc cause badv : Z) : bool :=
  (epc .& 0xffffffffff =? 0x120024dd0) && (cause =? 3) && (badv <=? 0x1000).
Definition gs_cycle (c : rcycle) (epc cause badv : Z) (s : gpr_snap) : gpr_snap * option go_report :=
  let s := fold_left gs_write (retires c) s in
  let s := fold_left gs_push (retires c) s in
  let hit := go_fault epc cause badv in
  (GprSnap (gs_gpr s) (gs_pc s) (gs_ring s) hit,
   if hit && negb (gs_seen s) then Some (GoReport (zip (gs_gpr s) (gs_pc s)) (map gs_line (gs_window (gs_ring s)))) else None).

(** The a0 walk: at most 4000 cycles near the crash PCs, and every line in a window of cycles. *)
Definition near_a0 (pc : Z) : bool := (pc =? 0x880119e0) || between 0x20001460 0x20001494 pc.
Inductive a0_line := GoLine (slot pc : Z) (rv : bool) (rp rd : Z) | A0Write (slot pc d : Z) | IrqLine (epc cause sr badv : Z)
  | RtLine (slot pc : Z) (rv : bool) (rp rd : Z).
(** Both ports as they stand, whether or not the slot retires: [(valid, port)]. *)
Record go_in := GoIn { gi_p0 : bool * port; gi_p1 : bool * port; gi_irq : option (Z * Z * Z * Z) }.
Definition go_near (g : go_in) (lines : Z) : Z * list a0_line :=
  let near0 := near_a0 (u32 (p_pc (snd (gi_p0 g)))) in
  let near1 := near_a0 (u32 (p_pc (snd (gi_p1 g)))) in
  let one n near (q : bool * port) := if fst q && near then [GoLine n (u32 (p_pc (snd q))) (p_rv (snd q)) (p_rp (snd q)) (p_rd (snd q))] else [] in
  if (lines <? 4000) && (near0 || near1) then (lines + 1, one 0 near0 (gi_p0 g) ++ one 1 near1 (gi_p1 g)) else (lines, []).
Definition go_window (cyc : Z) (g : go_in) : list a0_line :=
  let a0 n (q : bool * port) := if fst q && p_rv (snd q) && (p_rp (snd q) =? 4) then [A0Write n (p_pc (snd q)) (p_rd (snd q))] else [] in
  let rt n (q : bool * port) := if fst q then [RtLine n (u32 (p_pc (snd q))) (p_rv (snd q)) (p_rp (snd q)) (p_rd (snd q))] else [] in
  if (21073000 <? cyc) && (cyc <? 21130000) then
    a0 0 (gi_p0 g) ++ a0 1 (gi_p1 g) ++
    match gi_irq g with Some (epc, cause, sr, badv) => [IrqLine epc cause sr badv] | None => [] end ++
    rt 0 (gi_p0 g) ++ rt 1 (gi_p1 g)
  else [].

(** ** The save gate that does not open *)

(** [warn_at] and whether this cycle warns, with the millions of instructions past the target. *)
Definition save_warn (g_save_at retired : Z) (armed : bool) (warn_at : Z) : Z * option Z :=
  if negb (g_save_at =? 0) && (g_save_at <=? retired) && negb armed
     && (g_save_at + 5000000 <? retired) && (warn_at <=? retired)
  then (retired + 5000000, Some ((retired - g_save_at) / 1000000)) else (warn_at, None).

(** ** Lemmas *)

Lemma map_seq_from {A} (f : nat -> A) j n : map f (seq j n) = map (fun k => f (j + k)%nat) (seq 0 n).
Proof.
  replace (seq j n) with (map (Nat.add j) (seq 0 n)); [by rewrite map_map|].
  etrans; [apply (fmap_add_seq j 0 n)|]. by rewrite Nat.add_0_r.
Qed.
(** The ring with its untouched slots. *)
Definition gs_ring_ok (xs : list pf_rec) (s : list pf_rec * nat) : Prop :=
  ring_ok 256 xs s /\ forall j, (length xs <= j < 256)%nat -> nth j (fst s) (0, 0, 0) = (0, 0, 0).
Lemma gs_ring_push xs s x : gs_ring_ok xs s -> gs_ring_ok (xs ++ [x]) (pf_push 256 s x).
Proof.
  intros [H Hz]. split; [apply ring_push; [lia|done]|]. destruct H as (Hl & Hi & _). destruct s as [a i]. cbn [fst snd] in *.
  subst i. intros j Hj. rewrite length_app in Hj. cbn [length] in Hj. unfold pf_push. cbn [fst].
  rewrite nth_lookup, list_lookup_insert_ne by (rewrite Nat.mod_small; lia). rewrite <- nth_lookup. apply Hz. lia.
Qed.
Lemma gs_window_exact xs s : gs_ring_ok xs s -> gs_window s = List.filter nonzero_pc (trim 200 xs).
Proof.
  intros [(Hl & Hi & Hk) Hz]. destruct s as [a i]. cbn [fst snd] in *. subst i. unfold gs_window.
  destruct (decide (200 <= length xs)%nat) as [Hn|Hn].
  - f_equal. transitivity (map (fun k => nth k xs (0, 0, 0)) (seq (length xs - 200) 200)).
    + rewrite (map_seq_from _ (length xs - 200)). apply map_ext_in. intros k Hin. apply in_seq in Hin.
      rewrite <- Hk by lia. f_equal. replace (length xs + 56 + k)%nat with (length xs - 200 + k + 1 * 256)%nat by lia.
      apply Nat.Div0.mod_add.
    + rewrite (map_nth_seq 256) by lia. unfold trim. rewrite take_ge; [done|]. rewrite length_drop. lia.
  - rewrite trim_short by lia. replace (seq 0 200) with (seq 0 (200 - length xs + length xs)) by (f_equal; lia).
    rewrite seq_app, map_app, List.filter_app.
    rewrite (map_ext_in _ (fun _ => (0, 0, 0)) (seq 0 (200 - length xs))).
    2: { intros k Hin. apply in_seq in Hin. rewrite Nat.mod_small by lia. apply Hz. lia. }
    assert (forall l : list nat, List.filter nonzero_pc (map (fun _ => (0, 0, 0)) l) = []) as -> by (by induction l).
    cbn [app]. f_equal. transitivity (map (fun k => nth k xs (0, 0, 0)) (seq 0 (length xs))).
    + rewrite Nat.add_0_l, (map_seq_from _ (200 - length xs)). apply map_ext_in. intros k Hin. apply in_seq in Hin.
      rewrite <- Hk by lia. f_equal. replace (length xs + 56 + (200 - length xs + k))%nat with (k + 1 * 256)%nat by lia.
      apply Nat.Div0.mod_add.
    + rewrite (map_nth_seq 256) by lia. rewrite drop_0. by apply take_ge.
Qed.

(** The register a retirement writes, and the newest writer of register [r]. *)
Definition writes (r : nat) (p : port) : bool := match p_reg p with Some (q, _) => Z.to_nat q =? r | None => false end%nat.
Definition last_write (r : nat) (ps : list port) : Z * Z :=
  match list.last (List.filter (writes r) ps) with Some p => (p_rd p, p_pc p) | None => (0, 0) end.
Definition gs_ok (ps : list port) (s : gpr_snap) : Prop :=
  length (gs_gpr s) = 32%nat /\ length (gs_pc s) = 32%nat /\
  (forall r, (r < 32)%nat -> gs_gpr s !! r = Some (fst (last_write r ps)) /\ gs_pc s !! r = Some (snd (last_write r ps))).
Lemma last_write_snoc r ps p : last_write r (ps ++ [p]) = if writes r p then (p_rd p, p_pc p) else last_write r ps.
Proof. unfold last_write. rewrite List.filter_app. cbn [List.filter]. destruct (writes r p); [by rewrite last_snoc|by rewrite app_nil_r]. Qed.
Lemma gs_write_ok ps s p : gs_ok ps s -> gs_ok (ps ++ [p]) (gs_write s p).
Proof.
  intros (H1 & H2 & H3). unfold gs_write. destruct (p_reg p) as [[q d]|] eqn:Ep.
  - assert (d = p_rd p) as -> by (unfold p_reg in Ep; destruct (p_rv p); congruence).
    split_and!; cbn [gs_gpr gs_pc]; rewrite ?length_insert; try done. intros r Hr. rewrite last_write_snoc.
    unfold writes. rewrite Ep. destruct (Nat.eqb_spec (Z.to_nat q) r) as [<-|Hne].
    + rewrite !list_lookup_insert_eq by lia. done.
    + rewrite !list_lookup_insert_ne by done. by apply H3.
  - split_and!; try done. intros r Hr. rewrite last_write_snoc. unfold writes. rewrite Ep. by apply H3.
Qed.
Lemma gs_writes_ok qs : forall ps s, gs_ok ps s -> gs_ok (ps ++ qs) (fold_left gs_write qs s) /\
  gs_ring (fold_left gs_write qs s) = gs_ring s /\ gs_seen (fold_left gs_write qs s) = gs_seen s.
Proof.
  induction qs as [|q qs IH]; intros ps s H; cbn [fold_left]; [by rewrite app_nil_r|].
  destruct (IH _ _ (gs_write_ok ps s q H)) as (H1 & H2 & H3). rewrite <- app_assoc in H1. split; [done|].
  rewrite H2, H3. unfold gs_write. by destruct (p_reg q) as [[? ?]|].
Qed.
Lemma gs_pushes_ok qs : forall xs s, gs_ring_ok xs (gs_ring s) ->
  gs_ring_ok (xs ++ map gs_rec qs) (gs_ring (fold_left gs_push qs s)) /\
  gs_gpr (fold_left gs_push qs s) = gs_gpr s /\ gs_pc (fold_left gs_push qs s) = gs_pc s /\
  gs_seen (fold_left gs_push qs s) = gs_seen s.
Proof.
  induction qs as [|q qs IH]; intros xs s H; cbn [fold_left map]; [by rewrite app_nil_r|].
  destruct (IH (xs ++ [gs_rec q]) (gs_push s q) (gs_ring_push _ _ _ H)) as (H1 & H2 & H3 & H4).
  rewrite <- app_assoc in H1. cbn [app] in H1. rewrite H2, H3, H4. done.
Qed.

(** ** Properties *)

(** A cycle as the snapshot sees it: retirements and the exception ports. *)
Record gs_in := GsIn { gi_c : rcycle; gi_epc : Z; gi_cause : Z; gi_badv : Z }.
Definition gs_fault (x : gs_in) : bool := go_fault (gi_epc x) (gi_cause x) (gi_badv x).
Definition gs_step (s : gpr_snap) (x : gs_in) : gpr_snap := fst (gs_cycle (gi_c x) (gi_epc x) (gi_cause x) (gi_badv x) s).
Definition gs_stream (xs : list gs_in) : list port := stream (map gi_c xs).
Lemma gs_cycle_exact ps s x :
  gs_ok ps s -> gs_ring_ok (map gs_rec ps) (gs_ring s) ->
  let all := ps ++ retires (gi_c x) in
  gs_ok all (gs_step s x) /\ gs_ring_ok (map gs_rec all) (gs_ring (gs_step s x)) /\ gs_seen (gs_step s x) = gs_fault x /\
  snd (gs_cycle (gi_c x) (gi_epc x) (gi_cause x) (gi_badv x) s) =
    if gs_fault x && negb (gs_seen s)
    then Some (GoReport (zip (gs_gpr (gs_step s x)) (gs_pc (gs_step s x)))
                 (map gs_line (List.filter nonzero_pc (trim 200 (map gs_rec all))))) else None.
Proof.
  intros H1 H2 all. unfold gs_step, gs_cycle. destruct (gs_writes_ok (retires (gi_c x)) ps s H1) as (W1 & W2 & W3).
  set (s1 := fold_left gs_write _ s) in *. rewrite <- W2 in H2.
  destruct (gs_pushes_ok (retires (gi_c x)) _ s1 H2) as (P1 & P2 & P3 & P4). set (s2 := fold_left gs_push _ s1) in *.
  rewrite <- map_app in P1. fold all in P1. cbn [fst snd gs_gpr gs_pc gs_ring gs_seen]. rewrite P4, W3.
  split; [|split; [exact P1|split; [done|]]].
  - destruct W1 as (L1 & L2 & L3). unfold gs_ok. cbn [gs_gpr gs_pc]. by rewrite P2, P3.
  - by rewrite (gs_window_exact _ _ P1).
Qed.
Lemma stream_snoc cs c : stream (cs ++ map gi_c [c]) = stream cs ++ retires (gi_c c).
Proof. unfold stream. rewrite map_app, concat_app. cbn. by rewrite app_nil_r. Qed.
Lemma lookup_repeat {A} (x : A) n i : (i < n)%nat -> repeat x n !! i = Some x.
Proof. revert i; induction n as [|n IH]; intros [|i] Hi; try lia; cbn; [done|]. apply IH. lia. Qed.
Lemma gs_start_ok : gs_ok [] gpr_snap0 /\ gs_ring_ok [] (gs_ring gpr_snap0).
Proof.
  unfold gpr_snap0, gs_ok, gs_ring_ok, ring_ok. cbn [gs_gpr gs_pc gs_ring fst snd]. split.
  - split; [done|]. split; [done|]. intros r Hr. by rewrite lookup_repeat by lia.
  - split; [split; [apply repeat_length|split; [done|intros k Hk; cbn in Hk; lia]]|]. intros j _. apply nth_repeat.
Qed.
Lemma gs_run_ok xs : let s := fold_left gs_step xs gpr_snap0 in
  gs_ok (gs_stream xs) s /\ gs_ring_ok (map gs_rec (gs_stream xs)) (gs_ring s) /\
  gs_seen s = match list.last xs with Some x => gs_fault x | None => false end.
Proof.
  induction xs as [|x xs IH] using rev_ind; cbv zeta.
  - destruct gs_start_ok as [H1 H2]. by split_and!.
  - rewrite fold_left_app. cbn [fold_left]. destruct IH as (I1 & I2 & I3).
    destruct (gs_cycle_exact _ _ x I1 I2) as (C1 & C2 & C3 & _). unfold gs_stream in *.
    rewrite last_snoc. rewrite map_app, stream_snoc. done.
Qed.

(** The snapshot of the near-NULL store: over any run it is printed exactly in the
    cycles where the fault shows and did not show the cycle before; it then gives for
    every register the value and PC of its newest writer, and the retirements with a
    nonzero PC among the last 200, oldest first. *)
Theorem go_report_exact (xs : list gs_in) (x : gs_in) :
  let s := fold_left gs_step xs gpr_snap0 in
  let all := gs_stream (xs ++ [x]) in
  let rep := snd (gs_cycle (gi_c x) (gi_epc x) (gi_cause x) (gi_badv x) s) in
  (is_Some rep <-> gs_fault x = true /\ match list.last xs with Some y => gs_fault y | None => false end = false) /\
  (forall r, rep = Some r ->
     gr_ring r = map gs_line (List.filter nonzero_pc (trim 200 (map gs_rec all))) /\
     forall i, (i < 32)%nat -> gr_regs r !! i = Some (last_write i all)).
Proof.
  cbv zeta. destruct (gs_run_ok xs) as (I1 & I2 & I3). cbv zeta in *.
  destruct (gs_cycle_exact _ _ x I1 I2) as (C1 & _ & _ & ->). rewrite I3.
  assert (gs_stream (xs ++ [x]) = gs_stream xs ++ retires (gi_c x)) as E
    by (unfold gs_stream; rewrite map_app; apply stream_snoc).
  rewrite E. destruct C1 as (L1 & L2 & L3). split.
  - destruct (gs_fault x), (match list.last xs with Some y => gs_fault y | None => false end); cbn [andb negb];
      split; try done; try (by intros [? ?]); try (by intros _).
  - intros r Hr. destruct (_ && _); [|done]. injection Hr as <-. cbn [gr_ring gr_regs]. split; [done|]. intros i Hi.
    destruct (L3 i Hi) as [G1 G2]. apply (lookup_zip_with_Some pair).
    exists (fst (last_write i (gs_stream xs ++ retires (gi_c x)))), (snd (last_write i (gs_stream xs ++ retires (gi_c x)))).
    split_and!; [by destruct (last_write _ _)|exact G1|exact G2].
Qed.

(** Shifting bytes into a 64-bit word reads them big-endian. *)
Lemma shift_in_bytes bs : bytes_ok bs -> (length bs <= 8)%nat ->
  fold_left (fun v b => u64 (v .<< 8) .| b) bs 0 = be_val bs.
Proof.
  induction bs as [|b bs IH] using rev_ind; intros Hb Hl; [done|].
  apply Forall_app in Hb as [Hb Hx]. apply Forall_inv in Hx. rewrite length_app in Hl. cbn [length] in Hl.
  rewrite fold_left_app. cbn [fold_left]. rewrite IH by (try done; lia). unfold be_val. rewrite rev_app_distr.
  cbn [rev app le_val]. assert (bytes_ok (rev bs)) as Hr by (by apply Forall_rev).
  pose proof (le_val_bound _ Hr) as Hv. rewrite length_rev in Hv.
  assert (256 ^ Z.of_nat (length bs) <= 256 ^ 7) as Hp by (apply Z.pow_le_mono_r; lia).
  change (256 ^ 7) with 0x100000000000000 in Hp.
  unfold u64. rewrite Z.mod_small by (rewrite Z.shiftl_mul_pow2 by lia; lia).
  rewrite lor_shiftl_add by (unfold is_u in *; lia). lia.
Qed.
(** A block read is the bytes at its offsets. *)
Lemma mget_bytes_seq m n : forall off, mget_bytes m off n = map (fun i => mget m (off + Z.of_nat i)) (seq 0 n).
Proof.
  induction n as [|n IH]; intros off; [done|]. cbn [mget_bytes seq map]. rewrite IH. f_equal; [f_equal; lia|].
  rewrite <- seq_shift, map_map. apply map_ext; intros i. f_equal; lia.
Qed.
Lemma fold_left_map {A B C} (f : A -> B -> A) (g : C -> B) l : forall a,
  fold_left f (map g l) a = fold_left (fun x c => f x (g c)) l a.
Proof. by induction l as [|c l IH]; intros a; cbn; [|rewrite IH]. Qed.
(** [dpi_mem_at] prints the eight bytes the fold addresses as one big-endian word,
    and nothing but zero beyond the end of DRAM. *)
Theorem dpi_mem_at_exact (m : mem) (pa : Z) :
  mem_ok m ->
  let '(off, bad) := fpga_map (pa .& 0x1fffffff) in
  dpi_mem_at m pa = (if negb bad && (off + 8 <=? MEM_SIZE) then be_val (mget_bytes m off 8) else 0, bad).
Proof.
  intros Hm. unfold dpi_mem_at. change FPGA_ADDRESS_MAP with true. cbv iota.
  destruct (fpga_map _) as [off bad]. destruct (_ && _); [|done]. f_equal.
  rewrite <- (shift_in_bytes (mget_bytes m off 8)); [|by apply mget_bytes_ok|by rewrite length_mget_bytes].
  by rewrite mget_bytes_seq, fold_left_map.
Qed.

(** A drain compares the pairs at equal positions of the queues, up to the first that disagrees. *)
Lemma compared_spec iq : forall rq iq' rq' mis, drain_fronts iq rq = (iq', rq', mis) ->
  exists k, (k <= length iq)%nat /\ (k <= length rq)%nat /\ compared iq rq = take k (zip iq rq) /\
    (mis = None -> iq' = drop k iq /\ rq' = drop k rq /\ k = Nat.min (length iq) (length rq)).
Proof.
  induction iq as [|i iq IH]; intros [|r rq] iq' rq' mis; cbn [drain_fronts compared].
  1-3: intros [= <- <- <-]; exists 0%nat; cbn; split_and!; done || lia.
  destruct (store_agree i r) eqn:E.
  - intros H. destruct (IH _ _ _ _ H) as (k & ? & ? & -> & Hn). exists (S k). cbn. split_and!; try lia; [done|].
    intros Hm. destruct (Hn Hm) as (-> & -> & ->). split_and!; done || lia.
  - intros [= <- <- <-]. exists 1%nat. cbn. split_and!; done || lia.
Qed.
Lemma zip_grow {A B} k (I I' : list A) (R R' : list B) : (k <= length I)%nat -> (k <= length R)%nat ->
  take k (zip (I ++ I') (R ++ R')) = take k (zip I R).
Proof. intros H1 H2. by rewrite !zip_with_take, !take_app_le. Qed.

(** A run of the store check that stops at a divergence, with the lines of STDUMP and STLINE. *)
Definition probed_step (sc_max stdump g_stline : Z) (s : sc_state * bool * (Z * list sp_line)) (op : sc_op) :
  sc_state * bool * (Z * list sp_line) :=
  let '(st, stopped, log) := s in
  (sc_step sc_max false (st, stopped) op,
   match op with Drain => if stopped then log else drain_lines stdump g_stline st log | _ => log end).
Definition probed_run (sc_max stdump g_stline : Z) (ops : list sc_op) : sc_state * bool * (Z * list sp_line) :=
  fold_left (probed_step sc_max stdump g_stline) ops (sc_init, false, (0, [])).
Definition dump_of (l : sp_line) : option (store_rec * store_rec) := match l with StDump i r => Some (i, r) | _ => None end.
Definition line_of (l : sp_line) : option (store_rec * store_rec * bool) := match l with StLine i r ok => Some (i, r, ok) | _ => None end.
Definition in_line (g_stline : Z) (p : store_rec * store_rec) : bool :=
  negb (g_stline =? 0) && (Z.ldiff (st_addr (fst p)) 63 =? Z.ldiff g_stline 63).
Definition with_ok (p : store_rec * store_rec) : store_rec * store_rec * bool := (p, store_agree (fst p) (snd p)).
Lemma pair_lines_exact stdump g ps : forall nd out, 0 <= nd ->
  let '(nd', out') := fold_left (pair_lines stdump g) ps (nd, out) in
  0 <= nd' /\ omap dump_of out' = omap dump_of out ++ take (Z.to_nat (stdump - nd)) ps /\
  omap line_of out' = omap line_of out ++ map with_ok (List.filter (in_line g) ps).
Proof.
  induction ps as [|[i r] ps IH]; intros nd out Hn; cbn [fold_left].
  { rewrite take_nil. cbn. by rewrite !app_nil_r. }
  cbn [pair_lines List.filter]. unfold in_line at 1. cbn [fst].
  set (out1 := if nd <? stdump then out ++ [StDump i r] else out).
  assert ((if nd <? stdump then (nd + 1, out ++ [StDump i r]) else (nd, out)) = ((if nd <? stdump then nd + 1 else nd), out1)) as ->
    by (unfold out1; by destruct (nd <? stdump)).
  set (nd1 := if nd <? stdump then nd + 1 else nd). set (hit := negb (g =? 0) && _).
  specialize (IH nd1 (if hit then out1 ++ [StLine i r (store_agree i r)] else out1) ltac:(unfold nd1; case_test; lia)).
  destruct (fold_left _ ps _) as [nd' out']. destruct IH as (I1 & -> & ->). split; [done|].
  assert (omap dump_of out1 = omap dump_of out ++ (if nd <? stdump then [(i, r)] else [])) as E1
    by (unfold out1; destruct (nd <? stdump); [by rewrite omap_app|by rewrite app_nil_r]).
  assert (omap line_of out1 = omap line_of out) as E2 by (unfold out1; destruct (nd <? stdump); [rewrite omap_app; apply app_nil_r|done]).
  split.
  - transitivity (omap dump_of out1 ++ take (Z.to_nat (stdump - nd1)) ps).
    { destruct hit; [|done]. rewrite omap_app. cbn. by rewrite app_nil_r. }
    rewrite E1, <- app_assoc. f_equal. unfold nd1. destruct (Z.ltb_spec nd stdump).
    + replace (Z.to_nat (stdump - nd)) with (S (Z.to_nat (stdump - (nd + 1)))) by lia. done.
    + by replace (Z.to_nat (stdump - nd)) with 0%nat by lia.
  - destruct hit; [|by rewrite E2]. rewrite omap_app, E2, <- app_assoc. done.
Qed.
(** Between drains what has been printed is what the compared pairs give. *)
Lemma probed_run_inv sc_max stdump g ops :
  let '(st, stopped, log) := probed_run sc_max stdump g ops in
  let I := iss_pushes ops in let R := rtl_pushes ops in
  exists k, (k <= length I)%nat /\ (k <= length R)%nat /\ log = fold_left (pair_lines stdump g) (take k (zip I R)) (0, []) /\
    (stopped = false -> store_diverged st = false /\ iss_stores st = drop k I /\ rtl_stores st = drop k R).
Proof.
  unfold probed_run. induction ops as [|op ops IH] using rev_ind; [by exists 0%nat|].
  rewrite fold_left_app. cbn [fold_left]. destruct (fold_left _ ops _) as [[st stopped] log]. cbn [probed_step sc_step].
  cbv zeta in *. destruct IH as (k & H1 & H2 & -> & H3).
  assert (iss_pushes (ops ++ [op]) = iss_pushes ops ++ match op with PushIss x => [x] | _ => [] end) as ->
    by (unfold iss_pushes; rewrite omap_app; by destruct op).
  assert (rtl_pushes (ops ++ [op]) = rtl_pushes ops ++ match op with PushRtl x => [x] | _ => [] end) as ->
    by (unfold rtl_pushes; rewrite omap_app; by destruct op).
  set (I := iss_pushes ops) in *. set (R := rtl_pushes ops) in *.
  destruct stopped.
  { exists k. rewrite !length_app. split_and!; try lia; try done; by destruct op; rewrite zip_grow. }
  destruct (H3 eq_refl) as (Hd & HI & HR). clear H3. destruct op as [x|x|]; rewrite ?app_nil_r.
  - exists k. rewrite length_app. split_and!; try lia; [pose proof (zip_grow k I [x] R [] H1 H2) as Hz; rewrite app_nil_r in Hz; by rewrite Hz|].
    intros _. cbn. rewrite HI, drop_app_le by done. done.
  - exists k. rewrite length_app. split_and!; try lia; [pose proof (zip_grow k I [] R [x] H1 H2) as Hz; rewrite app_nil_r in Hz; by rewrite Hz|].
    intros _. cbn. rewrite HR, drop_app_le by done. done.
  - destruct (store_check_cycle sc_max false st) as [[st' ev] stop] eqn:E.
    destruct (store_check_cycle_queues _ _ _ _ _ _ E Hd) as (mis & Hf & -> & Hd').
    destruct (compared_spec _ _ _ _ _ Hf) as (n & Hn1 & Hn2 & Hc & Hm). unfold drain_lines. rewrite Hc.
    rewrite HI, HR in *. rewrite length_drop in *. exists (k + n)%nat. split_and!; try lia.
    + by rewrite <- zip_with_drop, <- fold_left_app, take_take_drop.
    + intros Hs. split; [exact (eq_trans Hd' Hs)|]. destruct mis; [done|]. destruct (Hm eq_refl) as (-> & -> & _). by rewrite !drop_drop.
Qed.
(** The store probes show what the check compares.  In a run ended by a drain, however
    stores and drains interleave, the pairs compared are a prefix of the two program-order
    streams zipped, all of it when the run was not stopped; STDUMP=N prints its first N
    pairs, STLINE those on its line, each once, in order and with the verdict. *)
Theorem store_probes_exact (sc_max stdump g_stline : Z) (ops : list sc_op) :
  let '(_, stopped, (_, out)) := probed_run sc_max stdump g_stline (ops ++ [Drain]) in
  exists k, let ps := take k (zip (iss_pushes ops) (rtl_pushes ops)) in
    omap dump_of out = take (Z.to_nat stdump) ps /\
    omap line_of out = map with_ok (List.filter (in_line g_stline) ps) /\
    (stopped = false -> ps = zip (iss_pushes ops) (rtl_pushes ops)).
Proof.
  pose proof (probed_run_inv sc_max stdump g_stline (ops ++ [Drain])) as P.
  assert (iss_pushes (ops ++ [Drain]) = iss_pushes ops) as EI by (unfold iss_pushes; rewrite omap_app; apply app_nil_r).
  assert (rtl_pushes (ops ++ [Drain]) = rtl_pushes ops) as ER by (unfold rtl_pushes; rewrite omap_app; apply app_nil_r).
  rewrite EI, ER in P. clear EI ER.
  assert (forall st stopped log, probed_run sc_max stdump g_stline (ops ++ [Drain]) = (st, stopped, log) -> stopped = false ->
    iss_stores st = [] \/ rtl_stores st = []) as Hend.
  { intros st stopped log. unfold probed_run. rewrite fold_left_app. cbn [fold_left].
    pose proof (probed_run_inv sc_max stdump g_stline ops) as P0. unfold probed_run in P0.
    destruct (fold_left _ ops _) as [[st0 stopped0] log0]. cbn [probed_step sc_step]. cbv zeta in P0.
    destruct P0 as (k0 & _ & _ & _ & H0). destruct stopped0; [by intros [= <- <- _]|]. destruct (H0 eq_refl) as [Hd _].
    destruct (store_check_cycle sc_max false st0) as [[st' ev] stop] eqn:E. intros [= <- <- _].
    destruct (store_check_cycle_queues _ _ _ _ _ _ E Hd) as (mis & Hf & -> & _). intros Hs.
    destruct (drain_fronts_spec _ _ _ _ _ Hf) as (k1 & _ & _ & _ & _ & _ & Hm). by destruct mis. }
  destruct (probed_run _ _ _ _) as [[st stopped] [nd out]]. destruct P as (k & H1 & H2 & Hlog & H3). exists k. cbv zeta.
  pose proof (pair_lines_exact stdump g_stline (take k (zip (iss_pushes ops) (rtl_pushes ops))) 0 [] ltac:(lia)) as L.
  rewrite <- Hlog, Z.sub_0_r in L. destruct L as (_ & -> & ->). split_and!; [done|done|]. intros ->.
  destruct (H3 eq_refl) as (_ & HI & HR). apply take_ge. rewrite length_zip_with.
  destruct (Hend _ _ _ eq_refl eq_refl) as [Hq|Hq]; rewrite Hq in *;
    [apply (f_equal length) in HI; rewrite length_drop in HI; cbn in HI|apply (f_equal length) in HR; rewrite length_drop in HR; cbn in HR]; lia.
Qed.

(** PCDUMP=lo:hi prints the [lo]-th to the [hi - 1]-th retired PC, counted from 1 in
    program order, whatever the pairing into cycles. *)
Theorem pcdump_exact (lo hi : Z) (cs : list rcycle) :
  1 <= lo -> snd (fold_left (pcdump_cycle lo hi) cs (0, [])) =
  take (Z.to_nat (hi - lo)) (drop (Z.to_nat (lo - 1)) (map (fun p => u32 (p_pc p)) (stream cs))).
Proof.
  intros Hlo.
  assert (forall s, fold_left (pcdump_cycle lo hi) cs s = fold_left (pcdump_one lo hi) (map p_pc (stream cs)) s) as ->.
  { induction cs as [|c cs IH]; intros s; [done|]. cbn [fold_left]. rewrite IH, stream_cons, map_app, fold_left_app. done. }
  rewrite <- (map_map p_pc u32). generalize (map p_pc (stream cs)) as pcs.
  assert (forall pcs n out, 0 <= n -> snd (fold_left (pcdump_one lo hi) pcs (n, out)) =
    out ++ take (Z.to_nat (hi - Z.max lo (n + 1))) (drop (Z.to_nat (lo - 1 - n)) (map u32 pcs))) as H.
  { induction pcs as [|pc pcs IH]; intros n out Hn; cbn [fold_left map].
    { rewrite drop_nil, take_nil. cbn. by rewrite app_nil_r. }
    cbn [pcdump_one]. rewrite IH by lia. destruct (Z.leb_spec lo (n + 1)); cbn [andb].
    - replace (Z.to_nat (lo - 1 - n)) with 0%nat by lia. replace (Z.to_nat (lo - 1 - (n + 1))) with 0%nat by lia. rewrite !drop_0.
      destruct (Z.ltb_spec (n + 1) hi).
      + replace (Z.to_nat (hi - Z.max lo (n + 1))) with (S (Z.to_nat (hi - Z.max lo (n + 1 + 1)))) by lia.
        rewrite <- app_assoc. done.
      + replace (Z.to_nat (hi - Z.max lo (n + 1))) with 0%nat by lia. by replace (Z.to_nat (hi - Z.max lo (n + 1 + 1))) with 0%nat by lia.
    - replace (Z.to_nat (lo - 1 - n)) with (S (Z.to_nat (lo - 1 - (n + 1)))) by lia. cbn [drop]. do 2 f_equal. lia. }
  intros pcs. rewrite H by lia. cbn [app]. do 2 f_equal; lia.
Qed.

(** The warnings of a save gate that stays shut: for retirement counts that never
    decrease, each comes more than five million instructions past the target and, from
    the second on, at least five million after the one before it. *)
Fixpoint save_warns (g_save_at : Z) (rs : list Z) (warn_at : Z) : list Z :=
  match rs with
  | [] => []
  | r :: t => let '(w, out) := save_warn g_save_at r false warn_at in
              match out with Some _ => r :: save_warns g_save_at t w | None => save_warns g_save_at t w end
  end.
Fixpoint spaced (gap lo : Z) (l : list Z) : Prop :=
  match l with [] => True | x :: t => lo <= x /\ spaced gap (x + gap) t end.
Theorem save_warns_spaced (g_save_at : Z) (rs : list Z) (warn_at : Z) :
  spaced 5000000 warn_at (save_warns g_save_at rs warn_at) /\
  Forall (fun r => g_save_at + 5000000 < r) (save_warns g_save_at rs warn_at).
Proof.
  revert warn_at; induction rs as [|r rs IH]; intros w; [done|]. cbn [save_warns]. unfold save_warn.
  destruct (_ && _) eqn:E; [|apply IH]. bool_props. destruct (IH (r + 5000000)) as [I1 I2]. cbn [spaced]. by split; [|constructor].
Qed.

Definition sample_fault : gs_in :=
  GsIn (RCycle (Some (Port 0x120024dd4 true 2 4 None None)) None 0 0) 0x120024dd0 3 4.
Lemma dpi_mem_at_exact_witness :
  dpi_mem_at (mput_bytes ∅ 0x100 [1; 2; 3; 4; 5; 6; 7; 8]) 0x100 = (0x102030405060708, false).
Proof.
  assert (mem_ok (mput_bytes ∅ 0x100 [1; 2; 3; 4; 5; 6; 7; 8])) as Hm
    by (apply mem_ok_mput; [apply mem_ok_empty|repeat constructor; by vm_compute]).
  pose proof (dpi_mem_at_exact _ 0x100 Hm) as H. destruct (fpga_map _) as [off bad] eqn:E.
  vm_compute in E. injection E as <- <-. rewrite H. vm_compute. reflexivity.
Defined.
(** The faulting store in two cycles running is reported once, with r2's writer. *)
Example go_report_once :
  let s := fold_left gs_step [sample_fault] gpr_snap0 in
  snd (gs_cycle (gi_c sample_fault) 0x120024dd0 3 4 s) = None /\
  option_map (fun r => (gr_regs r !! 2%nat, gr_ring r)) (snd (gs_cycle (gi_c sample_fault) 0x120024dd0 3 4 gpr_snap0))
  = Some (Some (4, 0x120024dd4), [(0x120024dd4, Some (2, 4))]).
Proof. split; vm_compute; reflexivity. Qed.
Lemma pcdump_exact_witness : snd (fold_left (pcdump_cycle 2 4) [dual_retire; dual_retire] (0, [])) = [0x88000004; 0x88000000].
Proof. rewrite (pcdump_exact 2 4 [dual_retire; dual_retire]); [reflexivity|lia]. Defined.
