(* ===== verification/Recorders.v ===== *)
(** * Recorders: the run loop with its trace recorders

    The loop of [MainLoop] with the recorders of sim/henry_tb.cpp at the places where
    the code calls them.  Those of the retirement block run before the first [break]
    of an iteration: the ctrace writer (stores at the clock edge, then retirements
    and exception), USRETLOG, the register shadow, RETIRETRACE, the PRFAULT ring,
    RTLTRACE and PCHASH.  The PC trace and the TIP profile come after the last one,
    so they miss the iteration that breaks.  All of them are on here: they share
    nothing, and one that is off keeps its state. *)
From S2P Require Import Prelude AddressMap GuestMem MemBus Checkpoint StoreCheck TlbMirror Checker Scsi Ctrace Monitor Retire Cosim Gates MainLoop Logs.

(** What the recorders before the breaks keep, RETIRETRACE apart, and those after. *)
Record taps := Taps {
  t_ct : writer; t_usr : list Z; t_rf : list Z; t_pf : list pf_rec * nat; t_rtl : rtl_st; t_pch : Z * Z * list (Z * Z * Z) }.
Record lates := Lates { t_trace : bool * list (Z * Z); t_tip : gmap Z Z }.
Record recs := Recs { r_taps : taps; r_rt : rt_st; r_late : lates }.

Section Recorders.
Context {R Disk RingSt : Type}.
Variable execMips : iss R -> iss R * list store_rec.
Variable raise_int : iss R -> Z -> Z -> iss R.
Variable last_ld_va : iss R -> Z.
Variable apply_tlb_write : iss R -> pend_tlb_t -> iss R.
Variable scsi_service_run : scsi_req -> Disk -> list Z -> scsi_rsp * list Z * bool * Z.
Variable block_write : Z -> list Z -> Disk -> Disk.
Variable stage_read : RingSt * mem -> list Z -> Z -> RingSt * mem.
Variable ring_poll : RingSt * mem -> Z -> option scsi_cqe * (RingSt * mem).
Variable read_wr : RingSt * mem -> nat -> list Z * (RingSt * mem).
Variable host_poll : Z -> RingSt * mem -> RingSt * mem.
Variables st_ok tgt_good : Z.
Variables checker no_mapskip no_sc_stop scsihash disk_ok : bool.
Variables gprchk gprchk_poison sc_max : Z.
Variable ck : option cp_header.
Variable bc : cfg.
Variables max_cyc max_icnt NO_RETIRE_LIMIT g_save_at preamble_pc : Z.
Variable verify : bool.
(** The recorders' own parameters. *)
Variable compress : list Z -> list Z.
Variables chunk_recs RN : nat.
Variable g_usr_kernel : bool.
Variable rtk : rt_cfg.
Variable rtlk : rtl_cfg.
Variable kentry : Z.
Abbreviation st := (@main R Disk RingSt).
Abbreviation check := (chk_section execMips raise_int last_ld_va apply_tlb_write checker no_mapskip no_sc_stop gprchk
  gprchk_poison sc_max ck).
Abbreviation scsi := (service_section scsi_service_run block_write stage_read ring_poll read_wr host_poll st_ok tgt_good scsihash disk_ok).
Abbreviation cycle := (main_cycle execMips raise_int last_ld_va apply_tlb_write scsi_service_run block_write stage_read
  ring_poll read_wr host_poll st_ok tgt_good checker no_mapskip no_sc_stop scsihash disk_ok gprchk gprchk_poison sc_max ck bc
  NO_RETIRE_LIMIT g_save_at preamble_pc verify).
Abbreviation run := (main_run execMips raise_int last_ld_va apply_tlb_write scsi_service_run block_write stage_read
  ring_poll read_wr host_poll st_ok tgt_good checker no_mapskip no_sc_stop scsihash disk_ok gprchk gprchk_poison sc_max ck bc
  max_cyc max_icnt NO_RETIRE_LIMIT g_save_at preamble_pc verify).

(** The ctrace calls of a cycle: [wr_log]'s stores, then the retirement block's. *)
Definition ct_ops (k : tick) (took_irq : bool) : list ct_op :=
  map (fun x => AddStore (CtStore (u64 (st_pc x)) (st_addr x) (st_data x))) (k_stores k) ++
  ct_cycle (k_slots k) (if took_irq then Some (k_cause k, k_epc k, k_badv k) else None).
Definition tap (k : tick) (took_irq : bool) (cyc : Z) (t : taps) : taps :=
  Taps (fold_left (ct_step compress chunk_recs) (ct_ops k took_irq) (t_ct t)) (usret_cycle g_usr_kernel cyc (k_slots k) (t_usr t))
    (rf_cycle (t_rf t) (k_slots k)) (pf_cycle RN (t_pf t) (k_slots k)) (rtl_cycle rtlk (t_rtl t) (k_slots k))
    (pchash_cycle (t_pch t) (k_slots k)).
Definition late (k : tick) (cyc : Z) (t : lates) : lates :=
  Lates (trace_cycle kentry cyc (k_slots k) (t_trace t)) (tip_cycle (t_tip t) (k_slots k)).

Definition tap_cycle (mon_on : bool) (k : tick) (took_irq : bool) (w : st) (t : recs) : (st + exit) * recs :=
  if n_armed w then (inr (Saved w), t)
  else
    match mon_section checker mon_on k w with
    | None => (inr (Frozen w), t)
    | Some mo =>
        let w := edge_section checker NO_RETIRE_LIMIT k mo w in
        let t := Recs (tap k took_irq (n_cyc w) (r_taps t))
                   (rt_cycle rtk (n_mem w) (l_retired (n_loop w)) (k_slots k) (r_rt t)) (r_late t) in
        let '(vg, fire) := verify_gate preamble_pc verify (option_map p_pc (slot0 (k_slots k))) (l_retired (n_loop w)) (n_vg w) in
        let w := with_vg vg w in
        if fire then (inr (Verified w), t)
        else
          let '(w, stop) := check k (step_section k w) in
          if stop then (inr (StoreStop w), t)
          else (inl (bus_section checker bc g_save_at k (scsi k w)), Recs (r_taps t) (r_rt t) (late k (n_cyc w) (r_late t)))
    end.
Fixpoint tap_run (mon_on : bool) (ks : Z -> tick) (irq : Z -> bool) (fuel : nat) (w : st) (t : recs) : option (exit * recs) :=
  match fuel with
  | O => None
  | S n =>
      if main_cond max_cyc max_icnt w then
        match tap_cycle mon_on (ks (n_cyc w)) (irq (n_cyc w)) w t with
        | (inl w, t) => tap_run mon_on ks irq n w t
        | (inr e, t) => Some (e, t)
        end
      else Some (Done w, t)
  end.
(** Before the loop; the register shadow may be seeded from a checkpoint. *)
Definition recs_start (g_rf : list Z) : recs :=
  Recs (Taps ct_open [] g_rf (repeat (0, 0, 0) RN, 0%nat) (rtl_start rtlk) pchash_init) (RtSt [] 0 false false) (Lates (false, []) ∅).
End Recorders.

(** ** Lemmas *)

Section RecorderLemmas.
Context {R Disk RingSt : Type}.
Variable execMips : iss R -> iss R * list store_rec.
Variable raise_int : iss R -> Z -> Z -> iss R.
Variable last_ld_va : iss R -> Z.
Variable apply_tlb_write : iss R -> pend_tlb_t -> iss R.
Variable scsi_service_run : scsi_req -> Disk -> list Z -> scsi_rsp * list Z * bool * Z.
Variable block_write : Z -> list Z -> Disk -> Disk.
Variable stage_read : RingSt * mem -> list Z -> Z -> RingSt * mem.
Variable ring_poll : RingSt * mem -> Z -> option scsi_cqe * (RingSt * mem).
Variable read_wr : RingSt * mem -> nat -> list Z * (RingSt * mem).
Variable host_poll : Z -> RingSt * mem -> RingSt * mem.
Variables st_ok tgt_good : Z.
Variables checker no_mapskip no_sc_stop scsihash disk_ok : bool.
Variables gprchk gprchk_poison sc_max : Z.
Variable ck : option cp_header.
Variable bc : cfg.
Variables max_cyc max_icnt NO_RETIRE_LIMIT g_save_at preamble_pc : Z.
Variable verify : bool.
(** The recorders' own parameters. *)
Variable compress : list Z -> list Z.
Variables chunk_recs RN : nat.
Variable g_usr_kernel : bool.
Variable rtk : rt_cfg.
Variable rtlk : rtl_cfg.
Variable kentry : Z.
Abbreviation st := (@main R Disk RingSt).
Abbreviation check := (chk_section execMips raise_int last_ld_va apply_tlb_write checker no_mapskip no_sc_stop gprchk
  gprchk_poison sc_max ck).
Abbreviation scsi := (service_section scsi_service_run block_write stage_read ring_poll read_wr host_poll st_ok tgt_good scsihash disk_ok).
Abbreviation cycle := (main_cycle execMips raise_int last_ld_va apply_tlb_write scsi_service_run block_write stage_read
  ring_poll read_wr host_poll st_ok tgt_good checker no_mapskip no_sc_stop scsihash disk_ok gprchk gprchk_poison sc_max ck bc
  NO_RETIRE_LIMIT g_save_at preamble_pc verify).
Abbreviation run := (main_run execMips raise_int last_ld_va apply_tlb_write scsi_service_run block_write stage_read
  ring_poll read_wr host_poll st_ok tgt_good checker no_mapskip no_sc_stop scsihash disk_ok gprchk gprchk_poison sc_max ck bc
  max_cyc max_icnt NO_RETIRE_LIMIT g_save_at preamble_pc verify).

Abbreviation ops := ct_ops.
Abbreviation tapf := (tap compress chunk_recs RN g_usr_kernel rtlk).
Abbreviation tcycle := (tap_cycle execMips raise_int last_ld_va apply_tlb_write scsi_service_run block_write stage_read
  ring_poll read_wr host_poll st_ok tgt_good checker no_mapskip no_sc_stop scsihash disk_ok gprchk gprchk_poison sc_max ck bc
  NO_RETIRE_LIMIT g_save_at preamble_pc verify compress chunk_recs RN g_usr_kernel rtk rtlk kentry).
Abbreviation trun := (tap_run execMips raise_int last_ld_va apply_tlb_write scsi_service_run block_write stage_read
  ring_poll read_wr host_poll st_ok tgt_good checker no_mapskip no_sc_stop scsihash disk_ok gprchk gprchk_poison sc_max ck bc
  max_cyc max_icnt NO_RETIRE_LIMIT g_save_at preamble_pc verify compress chunk_recs RN g_usr_kernel rtk rtlk kentry).

(** The recorders only read. *)
Lemma tap_cycle_main mon_on k irq (w : st) t : fst (tcycle mon_on k irq w t) = cycle mon_on k w.
Proof.
  unfold tap_cycle, main_cycle. destruct (n_armed w); [done|]. destruct (mon_section _ _ _ _) as [mo|]; [|done]. cbv zeta.
  destruct (verify_gate _ _ _ _ _) as [vg [|]]; [done|]. by destruct (check _ _) as [w2 [|]].
Qed.
Lemma tap_run_main mon_on ks irq fuel : forall (w : st) t, option_map fst (trun mon_on ks irq fuel w t) = run mon_on ks fuel w.
Proof.
  induction fuel as [|n IH]; intros w t; cbn [tap_run main_run]; [done|]. destruct (main_cond _ _ _); [|done].
  rewrite <- (tap_cycle_main mon_on (ks (n_cyc w)) (irq (n_cyc w)) w t).
  destruct (tcycle mon_on _ _ w t) as [[w'|e] t']; cbn [fst]; [apply IH|done].
Qed.

(** The cycles from [i] on. *)
Fixpoint over {A} (f : Z -> A -> A) (n : nat) (i : Z) (a : A) : A :=
  match n with O => a | S n => over f n (i + 1) (f i a) end.
Fixpoint cycles (ks : Z -> tick) (i : Z) (n : nat) : list rcycle :=
  match n with O => [] | S n => k_slots (ks i) :: cycles ks (i + 1) n end.
(** A run left by one of the breaks after the retirement block has recorded one cycle more. *)
Definition broke (e : @exit R Disk RingSt) : nat := match e with Verified _ | StoreStop _ => 1 | _ => 0 end.
Definition heads (cs : list rcycle) : Z := Z.of_nat (length (omap slot0 cs)).
Lemma heads_cons c cs : heads (c :: cs) = (match slot0 c with Some _ => 1 | None => 0 end) + heads cs.
Proof. unfold heads. cbn. destruct (slot0 c); cbn [length]; lia. Qed.

(** RETIRETRACE reads instruction words from DRAM; the PCs it keeps do not depend on them. *)
Definition rt_eqv (s s' : rt_st) : Prop :=
  map ir_pc (rt_recs s) = map ir_pc (rt_recs s') /\ rt_armed s = rt_armed s' /\ rt_stopped s = rt_stopped s'.
Lemma rt_emit_eqv m m' vpc s s' : rt_eqv s s' -> rt_eqv (rt_emit rtk m vpc s) (rt_emit rtk m' vpc s').
Proof.
  intros (H1 & H2 & H3). unfold rt_emit. destruct (_ && _); [by repeat split|]. unfold rt_eqv. cbn [rt_recs rt_armed rt_stopped].
  split; [|done]. rewrite !length_app. apply (f_equal length) in H1 as Hl. rewrite !length_map in Hl. rewrite Hl. cbn [length].
  match goal with |- map _ (if _ then drop 1 ?x else _) = map _ (if _ then drop 1 ?y else _) =>
    assert (map ir_pc x = map ir_pc y) as E by (by rewrite !map_app, H1) end.
  match goal with |- map _ (if ?b then _ else _) = _ => destruct b end; [by rewrite <- !skipn_map, E|done].
Qed.
Lemma rt_cycle_eqv m m' r c s s' : rt_eqv s s' -> rt_eqv (rt_cycle rtk m r c s) (rt_cycle rtk m' r c s').
Proof.
  intros (H1 & H2 & H3). unfold rt_cycle. rewrite <- H3. destruct (rt_stopped s) eqn:Es; [split; [done|split; congruence]|]. cbv zeta.
  apply (f_equal length) in H1 as Hl. rewrite !length_map in Hl. cbn [rt_recs rt_armed]. rewrite H2, Hl.
  assert (forall ps s s', rt_eqv s s' -> rt_eqv (fold_left (fun s p => rt_emit rtk m (u32 (p_pc p)) s) ps s)
            (fold_left (fun s p => rt_emit rtk m' (u32 (p_pc p)) s) ps s')) as Hf.
  { induction ps as [|p ps IH]; intros x x' Hx; cbn [fold_left]; [done|]. by apply IH, rt_emit_eqv. }
  match goal with |- context [RtSt (rt_recs s) (rt_ifail s) ?a false] =>
    assert (rt_eqv (RtSt (rt_recs s) (rt_ifail s) a false) (RtSt (rt_recs s') (rt_ifail s') a false)) as Hs by (by repeat split) end.
  match goal with |- rt_eqv (RtSt (rt_recs (if ?b then _ else _)) _ _ _) _ => destruct b end; [|by repeat split]. destruct (Hf (retires c) _ _ Hs) as (F1 & F2 & F3). by repeat split.
Qed.
Lemma rt_run_eqv m m' cs : forall r s s', rt_eqv s s' -> rt_eqv (rt_run rtk m r cs s) (rt_run rtk m' r cs s').
Proof. induction cs as [|c cs IH]; intros r s s' H; cbn [rt_run]; [done|]. by apply IH, rt_cycle_eqv. Qed.

(** What one iteration does to the counters and the recorders. *)
Definition head (k : tick) : Z := match slot0 (k_slots k) with Some _ => 1 | None => 0 end.
Definition retired (w : st) : Z := l_retired (n_loop w).
Lemma edge_counters k mo (w : st) :
  let w1 := edge_section checker NO_RETIRE_LIMIT k mo w in
  n_cyc w1 = n_cyc w /\ n_mem w1 = n_mem w /\ retired w1 = retired w + head k.
Proof. unfold edge_section, retired, head, n_mem, n_cyc. cbn. destruct (slot0 (k_slots k)); cbn; split_and!; lia || done. Qed.
Lemma check_counters k (w w' : st) stop : check k w = (w', stop) -> n_cyc w' = n_cyc w /\ retired w' = retired w.
Proof. intros H. apply check_frame in H as [H _]. unfold n_cyc, retired. by rewrite H. Qed.
Lemma tail_counters k (w : st) :
  n_cyc (bus_section checker bc g_save_at k (scsi k w)) = n_cyc w + 1 /\
  retired (bus_section checker bc g_save_at k (scsi k w)) = retired w.
Proof.
  unfold bus_section. destruct (if checker then _ else _) as [b c]. unfold n_cyc, retired. cbn [n_loop loop_at l_cyc l_retired].
  by rewrite (proj1 (scsi_frame _ _ _ _ _ _ _ _ _ _ k w)).
Qed.
Lemma tap_cycle_exact mon_on k irq (w : st) t :
  let a := tapf k irq (n_cyc w) (r_taps t) in
  let b := rt_cycle rtk (n_mem w) (retired w + head k) (k_slots k) (r_rt t) in
  match tcycle mon_on k irq w t with
  | (inl w', t') => n_cyc w' = n_cyc w + 1 /\ retired w' = retired w + head k /\ t' = Recs a b (late kentry k (n_cyc w) (r_late t))
  | (inr (Verified w'), t') | (inr (StoreStop w'), t') => n_cyc w' = n_cyc w /\ retired w' = retired w + head k /\ t' = Recs a b (r_late t)
  | (inr e, t') => last_state e = w /\ t' = t
  end.
Proof.
  unfold tap_cycle. destruct (n_armed w); [done|]. destruct (mon_section _ _ _ _) as [mo|]; [|done]. cbv zeta.
  destruct (edge_counters k mo w) as (E1 & E2 & E3). set (w1 := edge_section _ _ _ _ _) in *.
  change (l_retired (n_loop w1)) with (retired w1). rewrite E1, E2, E3.
  destruct (verify_gate _ _ _ _ _) as [vg [|]]; [done|].
  destruct (check k (step_section k (with_vg vg w1))) as [w2 stop] eqn:Ec. apply check_counters in Ec as [C1 C2].
  change (n_cyc (step_section k (with_vg vg w1))) with (n_cyc w1) in C1.
  change (retired (step_section k (with_vg vg w1))) with (retired w1) in C2.
  destruct stop; [by rewrite C1, C2|]. destruct (tail_counters k w2) as [T1 T2]. rewrite T1, T2, C1, C2, E1, E3. done.
Qed.
Lemma tap_run_exact mon_on ks irq fuel : forall (w : st) t e t',
  trun mon_on ks irq fuel w t = Some (e, t') ->
  exists n, n_cyc (last_state e) = n_cyc w + Z.of_nat n /\
    r_taps t' = over (fun i => tapf (ks i) (irq i) i) (n + broke e) (n_cyc w) (r_taps t) /\
    r_late t' = over (fun i => late kentry (ks i) i) n (n_cyc w) (r_late t) /\
    retired (last_state e) = retired w + heads (cycles ks (n_cyc w) (n + broke e)) /\
    rt_eqv (r_rt t') (rt_run rtk ∅ (retired w) (cycles ks (n_cyc w) (n + broke e)) (r_rt t)).
Proof.
  induction fuel as [|fuel IH]; intros w t e t' H; cbn [tap_run] in H; [done|].
  assert (forall s, rt_eqv s s) as Hrefl by done.
  destruct (main_cond _ _ _).
  2: { injection H as <- <-. exists 0%nat. cbn. split_and!; try done; unfold heads; cbn; lia. }
  pose proof (tap_cycle_exact mon_on (ks (n_cyc w)) (irq (n_cyc w)) w t) as P. cbv zeta in P.
  assert (forall r, rt_run rtk ∅ r [k_slots (ks (n_cyc w))] (r_rt t) =
    rt_cycle rtk ∅ (r + head (ks (n_cyc w))) (k_slots (ks (n_cyc w))) (r_rt t)) as Hone.
  { intros r. cbn [rt_run]. unfold head. destruct (slot0 _); [done|]. by rewrite Z.add_0_r. }
  destruct (tcycle mon_on _ _ w t) as [[w'|e1] t1].
  - destruct P as (P1 & P2 & ->). destruct (IH _ _ _ _ H) as (n & I1 & I2 & I3 & I4 & I5). cbn [r_taps r_late r_rt] in *.
    exists (S n). rewrite P1 in I1, I2, I3, I4, I5. cbn [Nat.add over cycles]. rewrite heads_cons. fold (head (ks (n_cyc w))).
    split_and!; try done; try lia.
    destruct I5 as (J1 & J2 & J3). cbn [rt_run].
    replace (match slot0 (k_slots (ks (n_cyc w))) with Some _ => retired w + 1 | None => retired w end)
      with (retired w') by (rewrite P2; unfold head; destruct (slot0 _); lia). rewrite P2 in *.
    destruct (rt_run_eqv ∅ ∅ (cycles ks (n_cyc w + 1) (n + broke e)) (retired w + head (ks (n_cyc w))) _ _
      (rt_cycle_eqv (n_mem w) ∅ (retired w + head (ks (n_cyc w))) (k_slots (ks (n_cyc w))) _ _ (Hrefl (r_rt t)))) as (K1 & K2 & K3).
    split; [|split]; congruence.
  - injection H as -> <-.
    destruct e as [w'|w'|w'|w'|w']; cbn [last_state] in P; cbn [last_state broke].
    1, 2, 5: destruct P as [-> ->]; exists 0%nat; cbn; split_and!; try done; unfold heads; cbn; lia.
    all: destruct P as (P1 & P2 & ->); exists 0%nat; cbn [Nat.add over cycles r_taps r_late r_rt]; rewrite heads_cons, Hone;
      fold (head (ks (n_cyc w))); split_and!; try done; try (unfold heads; cbn; lia); by apply rt_cycle_eqv.
Qed.

(** *** What the recorders hold after the cycles they saw *)

(** A recorder that is told the cycle's number. *)
Fixpoint replay {A} (h : Z -> rcycle -> A -> A) (cyc : Z) (cs : list rcycle) (a : A) : A :=
  match cs with [] => a | c :: t => replay h (cyc + 1) t (h cyc c a) end.
Lemma over_replay {A B} (ks : Z -> tick) (f : Z -> A -> A) (g : A -> B) (h : Z -> rcycle -> B -> B) :
  (forall i a, g (f i a) = h i (k_slots (ks i)) (g a)) ->
  forall n i a, g (over f n i a) = replay h i (cycles ks i n) (g a).
Proof. intros H n. induction n as [|n IH]; intros i a; cbn [over cycles replay]; [done|]. by rewrite IH, H. Qed.
Lemma replay_fold {A} (h : A -> rcycle -> A) cs : forall i a, replay (fun _ c a => h a c) i cs a = fold_left h cs a.
Proof. induction cs as [|c cs IH]; intros i a; cbn [replay fold_left]; [done|]. apply IH. Qed.
Lemma usret_replay kernel cs : forall i a, replay (usret_cycle kernel) i cs a = usret_run kernel i cs a.
Proof. induction cs as [|c cs IH]; intros i a; cbn [replay usret_run]; [done|]. apply IH. Qed.

(** The ctrace calls of a run, and the stores committed in it. *)
Fixpoint ct_log (ks : Z -> tick) (irq : Z -> bool) (i : Z) (n : nat) : list ct_op :=
  match n with O => [] | S n => ct_ops (ks i) (irq i) ++ ct_log ks irq (i + 1) n end.
Fixpoint committed (ks : Z -> tick) (i : Z) (n : nat) : list ct_store :=
  match n with
  | O => []
  | S n => map (fun x => CtStore (u64 (st_pc x)) (st_addr x) (st_data x)) (k_stores (ks i)) ++ committed ks (i + 1) n
  end.
Fixpoint marked (ks : Z -> tick) (irq : Z -> bool) (i : Z) (n : nat) : list (rcycle * option (Z * Z * Z)) :=
  match n with
  | O => []
  | S n => (k_slots (ks i), if irq i then Some (k_cause (ks i), k_epc (ks i), k_badv (ks i)) else None) :: marked ks irq (i + 1) n
  end.
Lemma ct_over ks irq n : forall i a,
  t_ct (over (fun i => tapf (ks i) (irq i) i) n i a) = fold_left (ct_step compress chunk_recs) (ct_log ks irq i n) (t_ct a).
Proof. induction n as [|n IH]; intros i a; cbn [over ct_log]; [done|]. by rewrite IH, fold_left_app. Qed.
Lemma marked_cycles ks irq n : forall i, map fst (marked ks irq i n) = cycles ks i n.
Proof. induction n as [|n IH]; intros i; cbn; [done|]. by rewrite IH. Qed.
Lemma adds_stores {A} (f : A -> ct_store) (l : list A) :
  adds (map (fun x => AddStore (f x)) l) = [] /\ stores (map (fun x => AddStore (f x)) l) = map f l.
Proof. induction l as [|x l [I1 I2]]; [done|]. cbn [map]. unfold adds, stores in *. cbn. by rewrite I1, I2. Qed.
Lemma stores_cycle c irq : stores (ct_cycle c irq) = [].
Proof. unfold ct_cycle, stores. by destruct (slot0 c), (slot1 c), irq as [[[? ?] ?]|]. Qed.
Lemma ct_log_exact ks irq n : forall i,
  adds (ct_log ks irq i n) = adds (concat (map (fun ci => ct_cycle (fst ci) (snd ci)) (marked ks irq i n))) /\
  stores (ct_log ks irq i n) = committed ks i n.
Proof.
  induction n as [|n IH]; intros i; [done|]. destruct (IH (i + 1)) as [I1 I2]. cbn [ct_log committed marked map concat fst snd].
  unfold ct_ops. destruct (adds_stores (fun x => CtStore (u64 (st_pc x)) (st_addr x) (st_data x)) (k_stores (ks i))) as [S1 S2].
  cbn beta in S1, S2.
  by rewrite !adds_app, !stores_app, I1, I2, S1, S2, stores_cycle, app_nil_r.
Qed.
Lemma ct_rec_of_ok f p : f = 0 \/ f = CTF_SLOT1 -> rec_ok (ct_rec_of f p).
Proof.
  intros Hf. unfold ct_rec_of, rec_ok. pose proof (u64_range (p_pc p)).
  destruct (p_reg p) as [[d v]|], (p_fp p) as [[d' v']|], (p_fcr p) as [[d'' v'']|]; cbn [r_pc r_dst r_val r_flags];
    split_and!; try apply u64_range; try apply u8_range; destruct Hf as [-> | ->]; by vm_compute.
Qed.
(** Committed stores as the ports carry them. *)
Definition stores_typed (ks : Z -> tick) : Prop :=
  forall i, Forall (fun x => is_u 64 (st_addr x) /\ is_u 64 (st_data x)) (k_stores (ks i)).
Lemma ct_log_ok ks irq n : stores_typed ks -> forall i, Forall op_ok (ct_log ks irq i n).
Proof.
  intros Hs. induction n as [|n IH]; intros i; cbn [ct_log]; [constructor|]. apply Forall_app; split; [|apply IH].
  unfold ct_ops, ct_cycle. rewrite !Forall_app. split_and!.
  - induction (Hs i) as [|x l [Hx1 Hx2] _ IHl]; cbn [map]; constructor; [by split; [apply u64_range|]|done].
  - destruct (slot0 _); [|constructor]. constructor; [apply ct_rec_of_ok; by left|constructor].
  - destruct (slot1 _); [|constructor]. constructor; [apply ct_rec_of_ok; by right|constructor].
  - destruct (irq i); repeat constructor.
Qed.
Lemma rt_pcs m k cs : map ir_pc (rt_stream k m (stream cs)) = List.filter (rt_keeps k) (map (fun p => u32 (p_pc p)) (stream cs)).
Proof. unfold rt_stream. rewrite map_map. apply map_id. Qed.

(** ** Property *)

(** C12.  The recorders of a run agree.  Whatever ends the run, what they hold are
    functions of the same retirements: those of every cycle from the start up to the
    last one whose retirement block ran.  [retired] counts their heads; the CTRACE file,
    dumped, gives their PCs in order and all stores committed in those cycles except
    those after the last record when no record is pending at close ([unflushed]);
    USRETLOG reads back as the wanted ones; the register shadow, RTLTRACE and PCHASH are
    computed from all of them; the PRFAULT ring and the RETIRETRACE archive hold the
    newest.  The PC trace and the TIP profile hold the whole iterations only, one cycle
    less when the verify compare or a store divergence broke out of the loop.
    Assumed: a PRFAULT ring of at least one entry, RETIRETRACE without trigger, window or
    record cap and with a non-empty ring ([rt_unlimited]), [retired] not negative,
    port-width stores, no ctrace chunk of 2^28 calls, fewer than 2^32 chunks. *)
Theorem recorders_agree (decompress : nat -> list Z -> option (list Z)) (mon_on : bool) (ks : Z -> tick) (irq : Z -> bool)
  (w : st) (g_rf : list Z) :
  (forall b, decompress (length b) (compress b) = Some b) ->
  (forall b, Z.of_nat (length b) < 0x80000000 -> Z.of_nat (length (compress b)) < 0x100000000) ->
  (0 < RN)%nat -> rt_unlimited rtk -> 0 <= retired w -> stores_typed ks ->
  exists e t n, trun mon_on ks irq (S (Z.to_nat (max_cyc - n_cyc w))) w (recs_start RN rtlk g_rf) = Some (e, t) /\
    run mon_on ks (S (Z.to_nat (max_cyc - n_cyc w))) w = Some e /\ n_cyc (last_state e) = n_cyc w + Z.of_nat n /\
    let full := cycles ks (n_cyc w) n in
    let all := cycles ks (n_cyc w) (n + broke e) in
    let pcs := map p_pc (stream all) in
    let us := usret_wanted_of g_usr_kernel (n_cyc w) all in
    retired (last_state e) = retired w + heads all /\
    (chunks_fit chunk_recs (ct_log ks irq (n_cyc w) (n + broke e)) -> n_chunks (t_ct (r_taps t)) + 1 < 0x100000000 ->
     exists s, ctrace_dump decompress (ct_close compress (t_ct (r_taps t))) = inr s /\
       map r_pc (d_recs s) = map u64 pcs /\
       committed ks (n_cyc w) (n + broke e) =
         d_stores s ++ stores (unflushed chunk_recs (ct_log ks irq (n_cyc w) (n + broke e)))) /\
    usret_read (length us) (t_usr (r_taps t)) = us /\
    t_rf (r_taps t) = fold_left rf_cycle all g_rf /\ rtl_out (t_rtl (r_taps t)) = rtl_run rtlk all /\
    t_pch (r_taps t) = (fnv FNV_BASIS (map u32 pcs), Z.of_nat (length pcs), pchash_reports pcs) /\
    pf_dump RN (t_pf (r_taps t)) = trim RN (map pf_of (stream all)) /\
    map ir_pc (rt_recs (r_rt t)) =
      trim (rt_ring rtk) (List.filter (rt_keeps rtk) (map (fun p => u32 (p_pc p)) (stream (up_to_stop rtk all)))) /\
    t_trace (r_late t) = replay (trace_cycle kentry) (n_cyc w) full (false, []) /\
    tip_total (t_tip (r_late t)) = 2 * Z.of_nat n.
Proof.
  intros Hz Hb HRN Hrt Hr0 Hst.
  destruct (main_run_total execMips raise_int last_ld_va apply_tlb_write scsi_service_run block_write stage_read ring_poll
    read_wr host_poll st_ok tgt_good no_mapskip no_sc_stop scsihash disk_ok gprchk gprchk_poison sc_max ck bc max_cyc max_icnt
    NO_RETIRE_LIMIT g_save_at preamble_pc verify checker mon_on ks (Z.to_nat (max_cyc - n_cyc w)) w ltac:(lia)) as [e He].
  pose proof (tap_run_main mon_on ks irq (S (Z.to_nat (max_cyc - n_cyc w))) w (recs_start RN rtlk g_rf)) as Ht. rewrite He in Ht.
  destruct (trun _ _ _ _ _ _) as [[e' t]|] eqn:Et; [|done]. cbn in Ht. injection Ht as ->.
  destruct (tap_run_exact _ _ _ _ _ _ _ _ Et) as (n & H1 & H2 & H3 & H4 & H5). exists e, t, n.
  cbn [r_taps r_late r_rt recs_start] in H2, H3, H5. set (all := cycles ks (n_cyc w) (n + broke e)) in *.
  do 3 (split; [done|]). cbv zeta. fold all. split; [done|]. rewrite H2, H3. split_and!.
  - rewrite ct_over. cbn [t_ct]. intros Hfit Hnc.
    destruct (ctrace_file_exact compress decompress chunk_recs _ Hz Hb (ct_log_ok ks irq _ Hst _) Hfit Hnc) as (s & R1 & R2 & _ & _ & _ & R6 & _).
    destruct (ct_log_exact ks irq (n + broke e) (n_cyc w)) as [L1 L2]. exists s. split; [exact R1|].
    rewrite R2, L1, <- L2. split; [|done]. destruct (ctrace_capture_in_order (marked ks irq (n_cyc w) (n + broke e))) as [C _].
    rewrite marked_cycles in C. rewrite C. by rewrite map_map.
  - rewrite (over_replay ks _ t_usr (usret_cycle g_usr_kernel)) by done. rewrite usret_replay. cbn [t_usr].
    exact (proj1 (usret_log_decodes g_usr_kernel (n_cyc w) all)).
  - rewrite (over_replay ks _ t_rf (fun _ c a => rf_cycle a c)) by done. apply replay_fold.
  - unfold rtl_run. rewrite (over_replay ks _ t_rtl (fun _ c a => rtl_cycle rtlk a c)) by done. by rewrite replay_fold.
  - rewrite (over_replay ks _ t_pch (fun _ c a => pchash_cycle a c)) by done. rewrite replay_fold. apply pchash_of_stream.
  - rewrite (over_replay ks _ t_pf (fun _ c a => pf_cycle RN a c)) by done. rewrite replay_fold. by apply prfault_ring_tail.
  - destruct H5 as [-> _]. rewrite rt_run_recs; [|done|done|done|cbn; lia]. cbn [rt_recs app].
    unfold trim. rewrite <- skipn_map, rt_pcs. f_equal. by rewrite <- (rt_pcs ∅), length_map.
  - by rewrite (over_replay ks _ t_trace (trace_cycle kentry)) by done.
  - rewrite (over_replay ks _ t_tip (fun _ c a => tip_cycle a c)) by done. rewrite replay_fold, tip_conserves_cycles.
    f_equal. generalize (n_cyc w). clear. induction n as [|n IH]; intros i; cbn [cycles length]; [done|]. rewrite Nat2Z.inj_succ, IH. lia.
Qed.
End RecorderLemmas.

(** Two cycles of the loop of [MainLoop]'s sample: both retirements are in every record. *)
Lemma sample_stores_typed : stores_typed (sample_tick 7 no_input).
Proof. intros i. repeat constructor; by vm_compute. Qed.
Lemma recorders_agree_witness :
  exists e t s,
    tap_run storing_exec toy_raise toy_ld no_tlb no_service (fun _ _ d => d) (fun r _ _ => r) (fun r _ => (None, r))
      (fun r n => (repeat 0 n, r)) (fun _ x => x) 0 0 true false false false false 0 (-1) 200 None sample_bus_cfg 2 0 65536 0 0 false
      toy_compress 1 3 true sample_rt (RtlCfg 0 100 false false) 0x88000000 false (sample_tick 7 no_input) (fun _ => false)
      3 sample_main (recs_start 3 (RtlCfg 0 100 false false) (repeat 0 32)) = Some (e, t) /\
    ctrace_dump toy_decompress (ct_close toy_compress (t_ct (r_taps t))) = inr s /\
    map r_pc (d_recs s) = [0x88000000; 0x88000004] /\ tip_total (t_tip (r_late t)) = 4.
Proof.
  destruct (recorders_agree storing_exec toy_raise toy_ld no_tlb no_service (fun _ _ d => d) (fun r _ _ => r) (fun r _ => (None, r))
    (fun r n => (repeat 0 n, r)) (fun _ x => x) 0 0 true false false false false 0 (-1) 200 None sample_bus_cfg 2 0 65536 0 0 false
    toy_compress 1 3 true sample_rt (RtlCfg 0 100 false false) 0x88000000 toy_decompress false (sample_tick 7 no_input) (fun _ => false)
    sample_main (repeat 0 32) toy_inverse toy_bound) as (e & t & n & H1 & H2 & H3 & _ & H5 & _ & _ & _ & _ & _ & _ & _ & H13).
  - lia.
  - repeat split. cbn. lia.
  - reflexivity.
  - apply sample_stores_typed.
  - assert (option_map (fun e => (n_cyc (last_state e), broke e)) (Some e) = Some (2, 0%nat)) as Hv
      by (rewrite <- H2; vm_compute; reflexivity).
    injection Hv as Hc Hb. rewrite Hc in H3. change (n_cyc sample_main) with 0 in H3. assert (n = 2%nat) as -> by lia.
    rewrite Hb in H5. destruct H5 as (s & R1 & R2 & _).
    { apply chunks_fit_short. vm_compute. reflexivity. }
    { assert (option_map (fun r => n_chunks (t_ct (r_taps (snd r))) + 1 <? 0x100000000) (Some (e, t)) = Some true) as Hn
        by (rewrite <- H1; vm_compute; reflexivity).
      apply Z.ltb_lt. by injection Hn. }
    exists e, t, s. split; [exact H1|]. split; [exact R1|]. split; [rewrite R2; vm_compute; reflexivity|exact H13].
Defined.
