(* ===== verification/Services.v ===== *)
(** * Services: launching the core, the Ethernet tap service, the GIO window

    The parts of sim/henry_tb.cpp's main that stand between the Verilated model
    and the board services: the reset and resume handshake ([launch]), the Ethernet
    service through the staging rings with its ENET_LOOPBACK socket pair
    ([enet_cycle]), the doorbell registers and the 8042's port decode.  The model,
    the rings, the address filter, the board's display and keyboard are parameters:
    they come from headers outside the repository. *)
From S2P Require Import Prelude AddressMap GuestMem.

(** ** Reset and resume *)

Section Launch.
Context {T : Type}.
Record launch_in := LaunchIn { l_reset : bool; l_resume : bool; l_pc : Z }.
Variable eval : T -> bool -> launch_in -> T.
Variable ready_for_resume : T -> bool.
Definition tick (i : launch_in) (t : T) : T := eval (eval t true i) false i.
Fixpoint ticks (is_ : list launch_in) (t : T) : T := match is_ with [] => t | i :: k => ticks k (tick i t) end.
(** [while(!tb->ready_for_resume) tick()]; [None] is a wait longer than the fuel. *)
Fixpoint wait_ready (fuel : nat) (i : launch_in) (t : T) : option T :=
  if ready_for_resume t then Some t
  else match fuel with O => None | S k => wait_ready k i (tick i t) end.
Definition launch (fuel : nat) (resume_pc64 : Z) (t : T) : option T :=
  let idle := LaunchIn false false resume_pc64 in let go := LaunchIn false true resume_pc64 in
  let t := ticks (repeat (LaunchIn true false 0) 4) t in
  let t := tick idle t in
  match wait_ready fuel idle t with
  | Some t => Some (ticks [go; idle; go; idle] t)
  | None => None
  end.
End Launch.

(** ** Doorbells *)

Record ring_ports := RingPorts { ring_tx_cons : Z; ring_rx_prod : Z; ring_scsi_cq_cons : Z; ring_scsi_rd_beats : Z; ring_scsi_rd_seq : Z }.
Record gio_ports := GioPorts { gio_ans_lo : Z; gio_ans_hi : Z; gio_ans_seq : Z; gio_cons : Z; gio_irq : Z }.
(** The register numbers are the rings' own. *)
Section Doorbells.
Variables RING_DB_TX_CONS RING_DB_RX_PROD RING_DB_SCSI_CQ_CONS RING_DB_SCSI_RD_BEATS RING_DB_SCSI_RD_SEQ : Z.
Definition tb_ring_doorbell (t : ring_ports) (reg v : Z) : ring_ports :=
  if reg =? RING_DB_TX_CONS then RingPorts v (ring_rx_prod t) (ring_scsi_cq_cons t) (ring_scsi_rd_beats t) (ring_scsi_rd_seq t)
  else if reg =? RING_DB_RX_PROD then RingPorts (ring_tx_cons t) v (ring_scsi_cq_cons t) (ring_scsi_rd_beats t) (ring_scsi_rd_seq t)
  else if reg =? RING_DB_SCSI_CQ_CONS then RingPorts (ring_tx_cons t) (ring_rx_prod t) v (ring_scsi_rd_beats t) (ring_scsi_rd_seq t)
  else if reg =? RING_DB_SCSI_RD_BEATS then RingPorts (ring_tx_cons t) (ring_rx_prod t) (ring_scsi_cq_cons t) v (ring_scsi_rd_seq t)
  else if reg =? RING_DB_SCSI_RD_SEQ then RingPorts (ring_tx_cons t) (ring_rx_prod t) (ring_scsi_cq_cons t) (ring_scsi_rd_beats t) v
  else t.
Variables GIO_DB_ANS_LO GIO_DB_ANS_HI GIO_DB_ANS_SEQ GIO_DB_CONS GIO_DB_IRQ : Z.
Definition tb_gio_doorbell (t : gio_ports) (reg v : Z) : gio_ports :=
  if reg =? GIO_DB_ANS_LO then GioPorts v (gio_ans_hi t) (gio_ans_seq t) (gio_cons t) (gio_irq t)
  else if reg =? GIO_DB_ANS_HI then GioPorts (gio_ans_lo t) v (gio_ans_seq t) (gio_cons t) (gio_irq t)
  else if reg =? GIO_DB_ANS_SEQ then GioPorts (gio_ans_lo t) (gio_ans_hi t) v (gio_cons t) (gio_irq t)
  else if reg =? GIO_DB_CONS then GioPorts (gio_ans_lo t) (gio_ans_hi t) (gio_ans_seq t) v (gio_irq t)
  else if reg =? GIO_DB_IRQ then GioPorts (gio_ans_lo t) (gio_ans_hi t) (gio_ans_seq t) (gio_cons t) (u16 v)
  else t.
End Doorbells.
(** The 8042: data at byte 3, command and status at byte 7. *)
Definition ps2_command (off : Z) : bool := negb ((off .>> 2) .& 1 =? 0).

(** ** The Ethernet service *)

Abbreviation frame := (list Z).
(** ENET_LOOPBACK's socket pair, an open tap, or neither. *)
Inductive link := Loopback | Tap | NoLink.
Definition is_loopback (l : link) : bool := match l with Loopback => true | _ => false end.
Definition link_ok (l : link) : bool := match l with NoLink => false | _ => true end.

Section Enet.
Context {R : Type}.
(** [enet_ring_tx_poll(&ring, fd)] with the frames it writes and the doorbells it
    rings, [enet_ring_rx_push], [enet_addr_filter(cmd, sta, frame)]. *)
Variable tx_poll : R -> bool -> R * list frame * list (Z * Z).
Variable rx_push : R -> frame -> R * list (Z * Z).
Variable enet_addr_filter : Z -> list Z -> frame -> bool.
Variable doorbell : ring_ports -> Z -> Z -> ring_ports.
Variable ENET_FRAME_MAX : nat.
(** How many datagrams the socket pair holds; a write to a full one fails. *)
Variable sock_cap : nat.

Record enet := Enet { e_ring : R; e_ports : ring_ports; e_sock : list frame; e_wire : list frame }.
Definition ring_all (p : ring_ports) (ds : list (Z * Z)) : ring_ports := fold_left (fun p d => doorbell p (fst d) (snd d)) ds p.
Definition sock_write (q : list frame) (f : frame) : list frame := if (length q <? sock_cap)%nat then q ++ [f] else q.
(** The transmit poll of the 64-cycle grid; also the frames sent. *)
Definition enet_tx (l : link) (cyc : Z) (s : enet) : enet * list frame :=
  if cyc .& 0x3f =? 0 then
    let '(r, fs, ds) := tx_poll (e_ring s) (link_ok l) in
    (Enet r (ring_all (e_ports s) ds)
       (if is_loopback l then fold_left sock_write fs (e_sock s) else e_sock s)
       (match l with Tap => e_wire s ++ fs | _ => e_wire s end), fs)
  else (s, []).
(** [sta[j] = enet_station >> (8*(5-j))]. *)
Definition station_bytes (st : Z) : list Z := map (fun j => u8 (st .>> (8 * (5 - Z.of_nat j)))) (seq 0 6).
(** The receive poll of the 1024-cycle grid: one datagram, cut to the buffer.
    [tap_in] is what the tap would return; also the frame handed to the ring. *)
Definition enet_rx (l : link) (cyc station rx_cmd : Z) (tap_in : option frame) (s : enet) : enet * list frame :=
  if link_ok l && (cyc .& 0x3ff =? 0) then
    let '(got, q) :=
      match l with
      | Loopback => match e_sock s with f :: q => (Some f, q) | [] => (None, []) end
      | _ => (tap_in, e_sock s)
      end in
    match got with
    | None => (s, [])
    | Some f =>
        let fr := take ENET_FRAME_MAX f in
        if (14 <=? length fr)%nat && (is_loopback l || enet_addr_filter (u8 rx_cmd) (station_bytes station) fr) then
          let '(r, ds) := rx_push (e_ring s) fr in
          (Enet r (ring_all (e_ports s) ds) q (e_wire s), [fr])
        else (Enet (e_ring s) (e_ports s) q (e_wire s), [])
    end
  else (s, []).
(** The GIO poll between the two touches none of this state. *)
Definition enet_cycle (l : link) (cyc station rx_cmd : Z) (tap_in : option frame) (s : enet) : enet * list frame * list frame :=
  let '(s, sent) := enet_tx l cyc s in
  let '(s, pushed) := enet_rx l cyc station rx_cmd tap_in s in
  (s, sent, pushed).
(** The inputs of a cycle: station address, receive command, tap. *)
Fixpoint enet_run (l : link) (cyc : Z) (ins : list (Z * Z * option frame)) (s : enet) : enet * list frame * list frame :=
  match ins with
  | [] => (s, [], [])
  | (st, cmd, tap) :: t =>
      let '(s, sent, pushed) := enet_cycle l cyc st cmd tap s in
      let '(s, sent', pushed') := enet_run l (cyc + 1) t s in
      (s, sent ++ sent', pushed ++ pushed')
  end.
End Enet.

(** The GIO window of a cycle: a retrace when it is due, with one keyboard event,
    then the poll that answers a held load. *)
Section Gio.
Context {NP PS2 G : Type}.
Variable next_vblank_at : NP -> Z.
Variable vblank : NP -> Z -> NP.
Variable service : PS2 -> Z -> PS2.
Variable gio_poll : NP -> PS2 -> G -> NP * PS2 * G.
Definition gio_cycle (cyc : Z) (np : NP) (ps : PS2) (g : G) : NP * PS2 * G :=
  if next_vblank_at np <=? cyc then gio_poll (vblank np cyc) (service ps cyc) g else gio_poll np ps g.
End Gio.

(** ** Properties *)

Section LaunchProofs.
Context {T : Type} (eval : T -> bool -> launch_in -> T) (ready_for_resume : T -> bool).
Lemma wait_ready_at k : forall fuel i t,
  (k <= fuel)%nat -> ready_for_resume (ticks eval (repeat i k) t) = true ->
  (forall j, (j < k)%nat -> ready_for_resume (ticks eval (repeat i j) t) = false) ->
  wait_ready eval ready_for_resume fuel i t = Some (ticks eval (repeat i k) t).
Proof.
  induction k as [|k IH]; intros fuel i t Hf Hr Hn.
  - cbn in *. destruct fuel; cbn [wait_ready]; by rewrite Hr.
  - destruct fuel as [|fuel]; [lia|]. cbn [wait_ready]. pose proof (Hn O ltac:(lia)) as H0. cbn in H0. rewrite H0.
    apply (IH fuel i (tick eval i t)); [lia|exact Hr|]. intros j Hj. exact (Hn (S j) ltac:(lia)).
Qed.
Lemma wait_ready_never fuel : forall i t,
  (forall j, ready_for_resume (ticks eval (repeat i j) t) = false) -> wait_ready eval ready_for_resume fuel i t = None.
Proof.
  induction fuel as [|fuel IH]; intros i t Hn; cbn [wait_ready]; pose proof (Hn O) as H0; cbn in H0; rewrite H0; [done|].
  apply IH. intros j. exact (Hn (S j)).
Qed.
Lemma ticks_app is1 is2 t : ticks eval (is1 ++ is2) t = ticks eval is2 (ticks eval is1 t).
Proof. revert t; induction is1 as [|i k IH]; intros t; cbn; auto. Qed.
(** A core that becomes ready [k] ticks after the one that releases reset
    is launched by exactly this input sequence: four reset ticks, one and then [k]
    idle ticks, and two resume pulses with the 64-bit resume PC presented; a core
    that never becomes ready is waited for without bound. *)
Theorem launch_exact (pc : Z) (t : T) :
  let idle := LaunchIn false false pc in let go := LaunchIn false true pc in
  let t1 := ticks eval (repeat (LaunchIn true false 0) 4 ++ [idle]) t in
  (forall k fuel, (k <= fuel)%nat -> ready_for_resume (ticks eval (repeat idle k) t1) = true ->
     (forall j, (j < k)%nat -> ready_for_resume (ticks eval (repeat idle j) t1) = false) ->
     launch eval ready_for_resume fuel pc t =
     Some (ticks eval (repeat (LaunchIn true false 0) 4 ++ [idle] ++ repeat idle k ++ [go; idle; go; idle]) t)) /\
  ((forall j, ready_for_resume (ticks eval (repeat idle j) t1) = false) ->
     forall fuel, launch eval ready_for_resume fuel pc t = None).
Proof.
  cbv zeta. set (idle := LaunchIn false false pc). set (rst := repeat _ 4). rewrite ticks_app. cbn [ticks]. split.
  - intros k fuel Hk Hr Hn. unfold launch. fold idle. fold rst. rewrite (wait_ready_at k) by done.
    by rewrite !ticks_app.
  - intros Hn fuel. unfold launch. fold idle. fold rst. by rewrite wait_ready_never.
Qed.
End LaunchProofs.

(** The station address, first byte first. *)
Lemma station_be st : station_bytes st = be_bytes 6 st.
Proof.
  unfold station_bytes, be_bytes, u8. cbn [seq map le_bytes rev app]. rewrite !Z.shiftr_div_pow2 by lia.
  rewrite !Z.div_div by lia. change (2 ^ (8 * (5 - Z.of_nat 5))) with 1. by rewrite Z.div_1_r.
Qed.

Section EnetProofs.
Context {R : Type} (tx_poll : R -> bool -> R * list frame * list (Z * Z)) (rx_push : R -> frame -> R * list (Z * Z)).
Context (filter_ : Z -> list Z -> frame -> bool) (doorbell : ring_ports -> Z -> Z -> ring_ports) (MAX cap : nat).
Abbreviation enet := (@enet R).
Abbreviation cycle := (enet_cycle tx_poll rx_push filter_ doorbell MAX cap).
Abbreviation run := (enet_run tx_poll rx_push filter_ doorbell MAX cap).

Lemma sock_writes fs : forall q,
  (length q <= cap)%nat ->
  fold_left (sock_write cap) fs q = q ++ take (cap - length q) fs /\ (length (fold_left (sock_write cap) fs q) <= cap)%nat.
Proof.
  induction fs as [|f fs IH]; intros q Hq; cbn [fold_left]; [by rewrite take_nil, app_nil_r|].
  unfold sock_write at 2 4. destruct (Nat.ltb_spec (length q) cap) as [Hlt|Hge].
  - destruct (IH (q ++ [f])) as [-> Hl]; [rewrite length_app; cbn; lia|]. split; [|exact Hl].
    rewrite <- app_assoc, length_app. cbn [length app]. replace (cap - length q)%nat with (S (cap - (length q + 1))) by lia. done.
  - destruct (IH q Hq) as [-> Hl]. split; [|exact Hl]. by replace (cap - length q)%nat with O by lia.
Qed.
(** What the service passes on of the datagrams it reads. *)
Definition rx_slot (cyc : Z) : bool := cyc .& 0x3ff =? 0.
Definition passed (fs : list frame) : list frame := List.filter (fun f => 14 <=? length f)%nat (map (take MAX) fs).
Lemma passed_app fs gs : passed (fs ++ gs) = passed fs ++ passed gs.
Proof. unfold passed. by rewrite map_app, List.filter_app. Qed.
(** The bookkeeping of a stretch of the loopback: of the frames sent, [acc] were
    taken by the socket pair; [read] came out of it again. *)
Record looped (q : list frame) (sent pushed : list frame) (q' : list frame) (acc read : list frame) : Prop := {
  lp_acc : acc `sublist_of` sent;
  lp_flow : q ++ acc = read ++ q';
  lp_pushed : pushed = passed read;
  lp_cap : (length q' <= cap)%nat;
  lp_room : (length q + length sent <= cap)%nat -> acc = sent }.
Lemma tx_loops cyc (s : enet) :
  (length (e_sock s) <= cap)%nat ->
  let '(s1, sent) := enet_tx tx_poll doorbell cap Loopback cyc s in
  exists acc, acc `sublist_of` sent /\ e_sock s1 = e_sock s ++ acc /\ (length (e_sock s1) <= cap)%nat /\
    ((length (e_sock s) + length sent <= cap)%nat -> acc = sent).
Proof.
  intros Hq. unfold enet_tx. destruct (_ =? _).
  - destruct (tx_poll _ _) as [[r fs] ds]. cbn [e_sock is_loopback].
    destruct (sock_writes fs (e_sock s) Hq) as [-> Hl]. eexists. split; [|split; [done|split; [exact Hl|]]].
    + rewrite <- (take_drop (cap - length (e_sock s)) fs) at 2. by apply sublist_inserts_r.
    + intros Hf. apply take_ge. lia.
  - exists []. rewrite app_nil_r. auto using sublist_nil.
Qed.
Lemma rx_loops cyc st cmd tap (s : enet) :
  let '(s2, pushed) := enet_rx rx_push filter_ doorbell MAX Loopback cyc st cmd tap s in
  exists read, e_sock s = read ++ e_sock s2 /\ pushed = passed read /\ (length read <= if rx_slot cyc then 1 else 0)%nat.
Proof.
  unfold enet_rx. cbn [link_ok andb]. fold (rx_slot cyc). destruct (rx_slot cyc); [|by exists []].
  destruct (e_sock s) as [|f q] eqn:Eq; [exists []; cbn; rewrite ?Eq; split_and!; [done..|lia]|].
  cbn [is_loopback orb]. rewrite andb_true_r. unfold passed.
  destruct (14 <=? _)%nat eqn:El; [destruct (rx_push _ _) as [r ds]|]; exists [f]; cbn [e_sock map List.filter];
    rewrite El; split_and!; [done..|cbn; lia].
Qed.
Lemma looped_cycle q acc sent q1 read pushed q2 :
  acc `sublist_of` sent -> q1 = q ++ acc -> (length q1 <= cap)%nat -> ((length q + length sent <= cap)%nat -> acc = sent) ->
  q1 = read ++ q2 -> pushed = passed read -> looped q sent pushed q2 acc read.
Proof.
  intros Ha -> Hc Hr Hq Hp. split; try done. rewrite Hq, length_app in Hc. lia.
Qed.
Lemma cycle_loops cyc st cmd tap (s : enet) :
  (length (e_sock s) <= cap)%nat ->
  let '(s', sent, pushed) := cycle Loopback cyc st cmd tap s in
  exists acc read, looped (e_sock s) sent pushed (e_sock s') acc read /\
    (length read <= if rx_slot cyc then 1 else 0)%nat.
Proof.
  intros Hq. unfold enet_cycle. pose proof (tx_loops cyc s Hq) as T. destruct (enet_tx _ _ _ _ _ s) as [s1 sent].
  destruct T as (acc & T1 & T2 & T3 & T4). pose proof (rx_loops cyc st cmd tap s1) as X.
  destruct (enet_rx _ _ _ _ _ _ _ _ _ s1) as [s2 pushed]. destruct X as (read & X1 & X2 & X3).
  exists acc, read. split; [by eapply looped_cycle|done].
Qed.
(** Two stretches make one. *)
Lemma looped_app q sent pushed q1 acc read sent' pushed' q2 acc' read' :
  looped q sent pushed q1 acc read -> looped q1 sent' pushed' q2 acc' read' ->
  looped q (sent ++ sent') (pushed ++ pushed') q2 (acc ++ acc') (read ++ read').
Proof.
  intros [Ha Hf Hp Hc Hr] [Ha' Hf' Hp' Hc' Hr']. split; [by apply sublist_app| |by rewrite passed_app, Hp, Hp'|done|].
  - by rewrite app_assoc, Hf, <- !app_assoc, Hf'.
  - intros Hroom. rewrite length_app in Hroom. assert (acc = sent) as -> by (apply Hr; lia). rewrite Hr'; [done|].
    apply (f_equal length) in Hf. rewrite !length_app in Hf. lia.
Qed.
Lemma looped_nil q : (length q <= cap)%nat -> looped q [] [] q [] [].
Proof. intros H. split; auto using sublist_nil. by rewrite app_nil_r. Qed.
(** Cycles of the 1024 grid among [n] from [cyc]. *)
Fixpoint polls (cyc : Z) (n : nat) : nat :=
  match n with O => O | S k => ((if rx_slot cyc then 1 else 0) + polls (cyc + 1)%Z k)%nat end.
(** With ENET_LOOPBACK the frames handed to the receive ring are the
    transmitted ones in transmission order, cut to the buffer and without those
    below 14 bytes; nothing is duplicated or invented, what is in flight is in the
    socket pair, only a full socket pair drops frames, and at most one frame is
    received per 1024 cycles however many are sent. *)
Theorem loopback_in_order (ins : list (Z * Z * option frame)) (cyc : Z) (s : enet) :
  (length (e_sock s) <= cap)%nat ->
  let '(s', sent, pushed) := run Loopback cyc ins s in
  exists acc read, acc `sublist_of` sent /\ e_sock s ++ acc = read ++ e_sock s' /\ pushed = passed read /\
    (length read <= polls cyc (length ins))%nat /\ (length (e_sock s') <= cap)%nat /\
    ((length (e_sock s) + length sent <= cap)%nat -> acc = sent).
Proof.
  intros Hq.
  assert (let '(s', sent, pushed) := run Loopback cyc ins s in exists acc read,
    looped (e_sock s) sent pushed (e_sock s') acc read /\ (length read <= polls cyc (length ins))%nat) as H.
  { revert cyc s Hq; induction ins as [|[[st cmd] tap] ins IH]; intros cyc s Hq; cbn [enet_run].
    { exists [], []. split; [by apply looped_nil|cbn; lia]. }
    pose proof (cycle_loops cyc st cmd tap s Hq) as Hc. destruct (cycle Loopback cyc st cmd tap s) as [[s1 sent] pushed].
    destruct Hc as (acc & read & Hl & Hn). specialize (IH (cyc + 1) s1 (lp_cap _ _ _ _ _ _ Hl)).
    destruct (run Loopback (cyc + 1) ins s1) as [[s2 sent'] pushed']. destruct IH as (acc' & read' & Hl' & Hn').
    exists (acc ++ acc'), (read ++ read'). split; [by eapply looped_app|]. cbn [length polls]. rewrite length_app. lia. }
  destruct (run Loopback cyc ins s) as [[s' sent] pushed]. destruct H as (acc & read & [Ha Hf Hp Hc Hr] & Hn). by exists acc, read.
Qed.
End EnetProofs.

(** ** Witness *)
(** A ring that has two frames to send, one of them too short to receive. *)
Definition toy_frames : list frame := [repeat 7 14; [1; 2; 3]].
Definition toy_enet : @enet (list frame) := Enet toy_frames (RingPorts 0 0 0 0 0) [] [].
Lemma loopback_in_order_witness :
  exists acc read, acc `sublist_of` toy_frames /\ [] ++ acc = read ++ [[1; 2; 3]] /\ [repeat 7 14] = passed 1514 read /\ acc = toy_frames.
Proof.
  destruct (loopback_in_order (fun r (_ : bool) => ([], r, [])) (fun r _ => (r, [])) (fun _ _ _ => false)
    (fun p _ _ => p) 1514 4 [(0, 0, None)] 0 toy_enet ltac:(cbn; lia)) as (acc & read & H1 & H2 & H3 & _ & _ & H6).
  exists acc, read. split; [exact H1|]. split; [exact H2|]. split; [exact H3|]. apply H6. cbn. lia.
Defined.
