(* ===== verification/Host.v ===== *)
(** * Host: the board services in the run loop

    The polls between the checker block and the SCSI servicer of an iteration of
    sim/henry_tb.cpp's main loop: [enet_ring_tx_poll], the GIO window, the receive side of
    the Ethernet service.  The three rings keep their slots in DRAM, so each poll works on
    its own ring and on the memory the others left.  [host_cycle] is what [MainLoop] calls
    [host_poll]; the SCSI ring's operations are lifted to the joint state. *)
From S2P Require Import Prelude AddressMap GuestMem MemBus Services Checkpoint StoreCheck TlbMirror Checker Scsi Monitor Retire Cosim Verdict Gates MainLoop.

Section Host.
Context {SR ER NP PS2 G : Type}.
(** The SCSI ring's operations. *)
Variable stage_read : SR * mem -> list Z -> Z -> SR * mem.
Variable ring_poll : SR * mem -> Z -> option scsi_cqe * (SR * mem).
Variable read_wr : SR * mem -> nat -> list Z * (SR * mem).
(** The Ethernet ring's, and the address filter. *)
Variable tx_poll : ER * mem -> bool -> (ER * mem) * list frame * list (Z * Z).
Variable rx_push : ER * mem -> frame -> (ER * mem) * list (Z * Z).
Variable enet_addr_filter : Z -> list Z -> frame -> bool.
Variable ring_doorbell : ring_ports -> Z -> Z -> ring_ports.
Variable ENET_FRAME_MAX : nat.
Variable sock_cap : nat.
(** The GIO window's: display, keyboard, and the window's ring. *)
Variable next_vblank_at : NP -> Z.
Variable vblank : NP -> Z -> NP.
Variable service : PS2 -> Z -> PS2.
Variable gio_poll : NP -> PS2 -> G * mem -> NP * PS2 * (G * mem).
(** [tx_fd]/[rx_fd], and what a cycle reads: station address, receive command, tap. *)
Variable l : link.
Variable ins : Z -> Z * Z * option frame.

(** The last two fields only log what went through the service. *)
Record host := HostSt { h_scsi : SR; h_enet : @enet ER; h_np : NP; h_ps2 : PS2; h_gio : G; h_sent : list frame; h_pushed : list frame }.
Definition on_mem (m : mem) (s : @enet ER) : @enet (ER * mem) := Enet (e_ring s, m) (e_ports s) (e_sock s) (e_wire s).
Definition off_mem (s : @enet (ER * mem)) : @enet ER * mem :=
  (Enet (fst (e_ring s)) (e_ports s) (e_sock s) (e_wire s), snd (e_ring s)).
Definition host_cycle (cyc : Z) (hm : host * mem) : host * mem :=
  let '(h, m) := hm in let '(station, rx_cmd, tap_in) := ins cyc in
  let '(en, sent) := enet_tx tx_poll ring_doorbell sock_cap l cyc (on_mem m (h_enet h)) in
  let '(en, m) := off_mem en in
  let '(np, ps, (g, m)) := gio_cycle next_vblank_at vblank service gio_poll cyc (h_np h) (h_ps2 h) (h_gio h, m) in
  let '(en, pushed) := enet_rx rx_push enet_addr_filter ring_doorbell ENET_FRAME_MAX l cyc station rx_cmd tap_in (on_mem m en) in
  let '(en, m) := off_mem en in
  (HostSt (h_scsi h) en np ps g (h_sent h ++ sent) (h_pushed h ++ pushed), m).

Definition with_sring (r : SR) (h : host) : host := HostSt r (h_enet h) (h_np h) (h_ps2 h) (h_gio h) (h_sent h) (h_pushed h).
Definition host_stage_read (hm : host * mem) (b : list Z) (q : Z) : host * mem :=
  let '(r, m) := stage_read (h_scsi (fst hm), snd hm) b q in (with_sring r (fst hm), m).
Definition host_ring_poll (hm : host * mem) (q : Z) : option scsi_cqe * (host * mem) :=
  let '(e, (r, m)) := ring_poll (h_scsi (fst hm), snd hm) q in (e, (with_sring r (fst hm), m)).
Definition host_read_wr (hm : host * mem) (n : nat) : list Z * (host * mem) :=
  let '(d, (r, m)) := read_wr (h_scsi (fst hm), snd hm) n in (d, (with_sring r (fst hm), m)).

End Host.

Section HostProofs.
Context {R Disk SR ER NP PS2 G : Type}.
Variable execMips : iss R -> iss R * list store_rec.
Variable raise_int : iss R -> Z -> Z -> iss R.
Variable last_ld_va : iss R -> Z.
Variable apply_tlb_write : iss R -> pend_tlb_t -> iss R.
Variable scsi_service_run : scsi_req -> Disk -> list Z -> scsi_rsp * list Z * bool * Z.
Variable block_write : Z -> list Z -> Disk -> Disk.
Variables st_ok tgt_good : Z.
Variables checker no_mapskip no_sc_stop scsihash disk_ok : bool.
Variables gprchk gprchk_poison sc_max : Z.
Variable ck : option cp_header.
Variable bc : cfg.
Variables max_cyc max_icnt NO_RETIRE_LIMIT g_save_at preamble_pc : Z.
Variable verify : bool.
Variable stage_read : SR * mem -> list Z -> Z -> SR * mem.
Variable ring_poll : SR * mem -> Z -> option scsi_cqe * (SR * mem).
Variable read_wr : SR * mem -> nat -> list Z * (SR * mem).
Variable tx_poll : ER * mem -> bool -> (ER * mem) * list frame * list (Z * Z).
Variable rx_push : ER * mem -> frame -> (ER * mem) * list (Z * Z).
Variable enet_addr_filter : Z -> list Z -> frame -> bool.
Variable ring_doorbell : ring_ports -> Z -> Z -> ring_ports.
Variable ENET_FRAME_MAX : nat.
Variable sock_cap : nat.
Variable next_vblank_at : NP -> Z.
Variable vblank : NP -> Z -> NP.
Variable service : PS2 -> Z -> PS2.
Variable gio_poll : NP -> PS2 -> G * mem -> NP * PS2 * (G * mem).
Variable ins : Z -> Z * Z * option frame.
Abbreviation host := (@host SR ER NP PS2 G).
Abbreviation hcycle := (host_cycle tx_poll rx_push enet_addr_filter ring_doorbell ENET_FRAME_MAX sock_cap
  next_vblank_at vblank service gio_poll Loopback ins).
Abbreviation st := (@main R Disk host).
Abbreviation services := (service_section scsi_service_run block_write (host_stage_read stage_read) (host_ring_poll ring_poll)
  (host_read_wr read_wr) hcycle st_ok tgt_good scsihash disk_ok).
Abbreviation cycle := (main_cycle execMips raise_int last_ld_va apply_tlb_write scsi_service_run block_write
  (host_stage_read stage_read) (host_ring_poll ring_poll) (host_read_wr read_wr) hcycle st_ok tgt_good checker no_mapskip
  no_sc_stop scsihash disk_ok gprchk gprchk_poison sc_max ck bc NO_RETIRE_LIMIT g_save_at preamble_pc verify).
Abbreviation run := (main_run execMips raise_int last_ld_va apply_tlb_write scsi_service_run block_write
  (host_stage_read stage_read) (host_ring_poll ring_poll) (host_read_wr read_wr) hcycle st_ok tgt_good checker no_mapskip
  no_sc_stop scsihash disk_ok gprchk gprchk_poison sc_max ck bc max_cyc max_icnt NO_RETIRE_LIMIT g_save_at preamble_pc verify).

(** ** Lemmas *)

(** What the Ethernet service shows of a state: its socket pair and its logs. *)
Definition sock (h : host) : list frame := e_sock (h_enet h).
Definition traffic (h : host) : list frame * list frame * list frame := (sock h, h_sent h, h_pushed h).
(** The bookkeeping of [looped] from [h] to [h']. *)
Definition carried (h h' : host) (n : nat) (sent acc read : list frame) : Prop :=
  h_sent h' = h_sent h ++ sent /\ (length read <= n)%nat /\
  exists pushed, h_pushed h' = h_pushed h ++ pushed /\ looped ENET_FRAME_MAX sock_cap (sock h) sent pushed (sock h') acc read.

Lemma host_carries cyc h m : (length (sock h) <= sock_cap)%nat ->
  exists sent acc read, carried h (fst (hcycle cyc (h, m))) (if rx_slot cyc then 1 else 0) sent acc read.
Proof.
  intros Hq. unfold host_cycle. destruct (ins cyc) as [[sta cmd] tap].
  pose proof (tx_loops tx_poll ring_doorbell sock_cap cyc (on_mem m (h_enet h)) Hq) as T.
  destruct (enet_tx _ _ _ _ _ _) as [s1 sent]. destruct T as (acc & T1 & T2 & T3 & T4). cbn [off_mem fst snd].
  destruct (gio_cycle _ _ _ _ _ _ _ _) as [[np ps] [g m1]].
  set (en := on_mem m1 _). assert (e_sock en = e_sock s1) as He by done.
  pose proof (rx_loops rx_push enet_addr_filter ring_doorbell ENET_FRAME_MAX cyc sta cmd tap en) as X.
  destruct (enet_rx _ _ _ _ _ _ _ _ _ en) as [s2 pushed]. destruct X as (read & X1 & X2 & X3).
  exists sent, acc, read. split; [done|]. split; [done|]. exists pushed. split; [done|]. unfold sock. cbn.
  rewrite He in X1. by eapply (looped_cycle _ _ _ acc sent (e_sock s1)).
Qed.
(** The SCSI servicer works on its own ring. *)
Lemma services_traffic k (w : st) : traffic (n_ring (services k w)) = traffic (fst (hcycle (n_cyc w) (n_ring w, n_mem w))).
Proof.
  unfold service_section, host_section. destruct (hcycle (n_cyc w) (n_ring w, n_mem w)) as [h m]. cbn [fst].
  unfold scsi_section. cbn [n_ring n_scsi n_disk n_cyc n_loop n_mem n_bus host_write].
  match goal with |- context [scsi_cycle ?a ?b ?c ?d ?e ?f ?g ?sh ?i ?j ?q ?gm ?di ?r ?s] =>
    pose proof (scsi_cycle_ring (fun x : host * mem => traffic (fst x)) a b c d e f g sh i j q gm di r s) as H;
    destruct (scsi_cycle a b c d e f g sh i j q gm di r s) as [[[s1 d1] [h1 m1]] out] end.
  cbn [fst snd n_ring] in *. apply H; intros [x y] ?; intros; unfold host_stage_read, host_ring_poll, host_read_wr; cbn [fst snd].
  - by destruct (stage_read _ _ _).
  - by destruct (ring_poll _ _) as [? [? ?]].
  - by destruct (read_wr _ _) as [? [? ?]].
Qed.
Lemma cycle_traffic mon_on k (w : st) :
  match cycle mon_on k w with
  | inl w' => n_cyc w' = n_cyc w + 1 /\ exists m, traffic (n_ring w') = traffic (fst (hcycle (n_cyc w) (n_ring w, m)))
  | inr e => n_cyc (last_state e) = n_cyc w /\ n_ring (last_state e) = n_ring w
  end.
Proof.
  pose proof (main_cycle_cases execMips raise_int last_ld_va apply_tlb_write scsi_service_run block_write
    (host_stage_read stage_read) (host_ring_poll ring_poll) (host_read_wr read_wr) hcycle st_ok tgt_good no_mapskip
    no_sc_stop scsihash disk_ok gprchk gprchk_poison sc_max ck bc NO_RETIRE_LIMIT g_save_at preamble_pc verify checker mon_on k w) as P.
  destruct (cycle mon_on k w) as [w'|[w'|w'|w'|w'|w']] eqn:E; cbn [last_state].
  - split; [by eapply main_cycle_cyc|]. destruct P as (mo & w1 & _ & Hg & w2 & Hc & ->).
    apply gated_frame in Hg as (G1 & _ & _ & G4 & G5 & _). apply check_frame in Hc as (C1 & _ & _ & C4 & C5 & _).
    exists (n_mem w2). unfold bus_section. destruct (if checker then _ else _) as [b s]. cbn [n_ring].
    rewrite services_traffic. assert (n_cyc w2 = n_cyc w) as -> by (unfold n_cyc; rewrite C1; exact G1).
    assert (n_ring w2 = n_ring w) as -> by (rewrite C4; exact G4). done.
  - done.
  - by subst.
  - destruct P as (mo & Hg). by apply gated_frame in Hg as (G1 & _ & _ & G4 & _).
  - destruct P as (mo & w1 & Hg & Hc). apply gated_frame in Hg as (G1 & _ & _ & G4 & _).
    apply check_frame in Hc as (C1 & _ & _ & C4 & _).
    split; [unfold n_cyc; rewrite C1; exact G1|rewrite C4; exact G4].
  - by subst.
Qed.
Lemma run_carries mon_on ks fuel : forall (w : st) e, (length (sock (n_ring w)) <= sock_cap)%nat ->
  run mon_on ks fuel w = Some e ->
  exists n sent acc read, n_cyc (last_state e) = n_cyc w + Z.of_nat n /\
    carried (n_ring w) (n_ring (last_state e)) (polls (n_cyc w) n) sent acc read.
Proof.
  assert (forall h, (length (sock h) <= sock_cap)%nat -> carried h h 0 [] [] []) as H0.
  { intros h Hh. split; [by rewrite app_nil_r|]. split; [done|]. exists []. rewrite app_nil_r. by split; [|apply looped_nil]. }
  induction fuel as [|fuel IH]; intros w e Hq He; cbn [main_run] in He; [done|].
  destruct (main_cond _ _ w). 2: { injection He as <-. exists 0%nat, [], [], []. split; [cbn; lia|by apply H0]. }
  pose proof (cycle_traffic mon_on (ks (n_cyc w)) w) as P. destruct (cycle mon_on (ks (n_cyc w)) w) as [w'|e'].
  - destruct P as (Hc & m & Ht). destruct (host_carries (n_cyc w) (n_ring w) m Hq) as (s1 & a1 & r1 & C1 & C2 & p1 & C3 & C4).
    generalize dependent (fst (hcycle (n_cyc w) (n_ring w, m))). intros h1 Ht C1 C3 C4. injection Ht as Hs1 Hs2 Hs3. rewrite <- Hs1 in C4. rewrite <- Hs2 in C1. rewrite <- Hs3 in C3.
    destruct (IH w' e (lp_cap _ _ _ _ _ _ _ _ C4) He) as (n & s2 & a2 & r2 & Hn & D1 & D2 & p2 & D3 & D4).
    exists (S n), (s1 ++ s2), (a1 ++ a2), (r1 ++ r2). split; [lia|]. split; [by rewrite D1, C1, app_assoc|].
    split; [rewrite length_app; cbn [polls]; rewrite <- Hc; lia|].
    exists (p1 ++ p2). split; [by rewrite D3, C3, app_assoc|by eapply looped_app].
  - injection He as ->. destruct P as [P1 P2]. exists 0%nat, [], [], []. split; [cbn; lia|]. rewrite P2. by apply H0.
Qed.

(** ** Property *)

(** C18.  Loopback through the whole loop.  With ENET_LOOPBACK, whatever the core, the checker,
    the SCSI servicer and the GIO window do to the DRAM the rings live in, and whatever
    ends the run, the frames handed to the receive ring are the transmitted ones in
    transmission order, cut to the buffer and without those below 14 bytes; only a full
    socket pair drops frames, what was taken and not received is still in it, and a
    frame is received at most once in 1024 cycles. *)
Theorem main_loopback (mon_on : bool) (ks : Z -> tick) (w : st) :
  (length (sock (n_ring w)) <= sock_cap)%nat ->
  exists e n sent acc read, run mon_on ks (S (Z.to_nat (max_cyc - n_cyc w))) w = Some e /\
    let h := n_ring w in let h' := n_ring (last_state e) in
    n_cyc (last_state e) = n_cyc w + Z.of_nat n /\ h_sent h' = h_sent h ++ sent /\
    h_pushed h' = h_pushed h ++ passed ENET_FRAME_MAX read /\ acc `sublist_of` sent /\ sock h ++ acc = read ++ sock h' /\
    (length read <= polls (n_cyc w) n)%nat /\ ((length (sock h) + length sent <= sock_cap)%nat -> acc = sent).
Proof.
  intros Hq.
  destruct (main_run_total execMips raise_int last_ld_va apply_tlb_write scsi_service_run block_write (host_stage_read stage_read)
    (host_ring_poll ring_poll) (host_read_wr read_wr) hcycle st_ok tgt_good no_mapskip no_sc_stop scsihash disk_ok gprchk
    gprchk_poison sc_max ck bc max_cyc max_icnt NO_RETIRE_LIMIT g_save_at preamble_pc verify checker mon_on ks
    (Z.to_nat (max_cyc - n_cyc w)) w ltac:(lia)) as [e He].
  destruct (run_carries mon_on ks _ w e Hq He) as (n & sent & acc & read & Hn & C1 & C2 & p & C3 & [L1 L2 L3 L4 L5]).
  exists e, n, sent, acc, read. split; [exact He|]. cbv zeta. by rewrite C3, L3.
Qed.
End HostProofs.

(** ** Witness *)

(** The sample loop of [MainLoop] with an Ethernet ring that has two frames to send. *)
Abbreviation toy_host := (@host Z (list frame) unit unit unit).
Definition host_main : @main unit unit toy_host :=
  Main (LoopSt 0 0 0 0 false false) false false mon_start [] (VGate false 0) (Gate true 0) [] (toy_chk 0x88000000)
    scsi_init tt (HostSt 0 toy_enet tt tt tt [] []) [] (bus_init (Mems ∅ None) 1).
Abbreviation toy_run thm := (thm storing_exec toy_raise toy_ld no_tlb no_service (fun _ _ d => d) 0 0 true false false false
  false 0 (-1) 200 None sample_bus_cfg 2 0 65536 0 0 false (fun r _ _ => r) (fun r _ => (None, r)) (fun r n => (repeat 0 n, r))
  (fun r _ => (([], snd r), fst r, [])) (fun r _ => (r, [])) (fun _ _ _ => false) (fun p _ _ => p) 1514%nat 4%nat
  (fun _ : unit => 9) (fun d _ => d) (fun p _ => p) (fun d p g => (d, p, g)) (fun _ => (0, 0, None)) false
  (sample_tick 7 no_input) host_main).
Lemma main_loopback_witness :
  exists e : @exit unit unit toy_host, n_cyc (last_state e) = 2 /\ h_sent (n_ring (last_state e)) = toy_frames /\
    h_pushed (n_ring (last_state e)) = [repeat 7 14] /\
    exists acc read, [] ++ acc = read ++ sock (n_ring (last_state e)) /\ acc `sublist_of` toy_frames /\
      h_pushed (n_ring (last_state e)) = passed 1514 read.
Proof.
  pose proof (toy_run main_loopback ltac:(cbn; lia)) as (e & n & sent & acc & read & He & H).
  cbv zeta in H. destruct H as (H1 & H2 & H3 & H4 & H5 & _).
  assert (option_map (fun e => (n_cyc (last_state e), h_sent (n_ring (last_state e)), h_pushed (n_ring (last_state e)))) (Some e)
    = Some (2, toy_frames, [repeat 7 14])) as Hv by (rewrite <- He; vm_compute; reflexivity).
  injection Hv as V1 V2 V3. exists e. split; [exact V1|]. split; [exact V2|]. split; [exact V3|]. exists acc, read.
  split; [exact H5|]. split; [|exact H3]. rewrite V2 in H2. cbn in H2. rewrite H2. exact H4.
Defined.
