(* ===== verification/Frontend.v ===== *)
(** * Frontend: the console in the run loop

    The guest's console where the main loop of sim/henry_tb.cpp serves it: bytes typed
    into the SCC (--rx, RXSCRIPT) before the clock edge, the byte drained after it to
    stdout, to the monitor's client, to the crash detector with its USRETLOG marks
    ([usret_mark]) and to the script, then the retirement block's USRETLOG records.  The
    drained byte of a cycle is an input, like what the RTL shows.  What the monitor and
    the console write to the socket is one stream, [front_cycle]'s [list Z]. *)
From S2P Require Import Prelude Printf AddressMap GuestMem MemBus Checkpoint StoreCheck TlbMirror Checker Scsi Monitor Mipsmon Session Console Retire Cosim Verdict Gates MainLoop Recorders.

(** The lines on stderr. *)
Inductive console_line :=
  | UsrMark (be : bool) (n cyc : Z)
  | BeSignal (cyc retired : Z) | BeCrash (cyc retired : Z)
  | RxTyping (step : nat).
(** The console's part of the loop's state, and [g_usr_fp]'s file with [g_usr_n]. *)
Record tty := Tty {
  t_con : console; t_watch : watch; t_stdout : list Z; t_typed : list typed_byte;
  t_usr : list Z; t_usr_n : Z; t_err : list console_line }.

Section Frontend.
Context {R Disk RingSt : Type}.
Variable execMips : iss R -> iss R * list store_rec.
Variable raise_int : iss R -> Z -> Z -> iss R.
Variable last_ld_va : iss R -> Z.
Variable apply_tlb_write : iss R -> pend_tlb_t -> iss R.
Variable scsi_service_run : scsi_req -> Disk -> list Z -> scsi_rsp * list Z * bool * Z.
Variable block_write : Z -> list Z -> Disk -> Disk.
Variable stage_read : RingSt * mem -> list Z -> Z -> RingSt * mem.
Variable ring_poll : RingSt * mem -> Z -> option scsi_cqe * (RingSt * mem).
Variable read_wr : RingSt * mem -> nat -> list Z * (RingSt * mem).
Variable host_poll : Z -> RingSt * mem -> RingSt * mem.
Variables st_ok tgt_good : Z.
Variables checker no_mapskip no_sc_stop scsihash disk_ok : bool.
Variables gprchk gprchk_poison sc_max : Z.
Variable ck : option cp_header.
Variable bc : cfg.
Variables max_cyc max_icnt NO_RETIRE_LIMIT g_save_at preamble_pc : Z.
Variable verify : bool.
(** --rx, RXSCRIPT, USRETLOG with USRETLOG_KERNEL. *)
Variable rx_bytes : list Z.
Variable steps : list rxstep_t.
Variables usr_on g_usr_kernel : bool.
Abbreviation st := (@main R Disk RingSt).
Abbreviation check := (chk_section execMips raise_int last_ld_va apply_tlb_write checker no_mapskip no_sc_stop gprchk
  gprchk_poison sc_max ck).
Abbreviation services := (service_section scsi_service_run block_write stage_read ring_poll read_wr host_poll st_ok tgt_good scsihash disk_ok).

(** The typed byte of the cycle. *)
Definition tty_drive (cyc : Z) (t : tty) : tty :=
  let '(c, b) := rx_drive rx_bytes cyc (t_con t) in
  Tty c (t_watch t) (t_stdout t) (t_typed t ++ match b with Some b => [b] | None => [] end) (t_usr t) (t_usr_n t) (t_err t).
Definition usret_mark (be : bool) (cyc : Z) (t : tty) : list console_line := if usr_on then [UsrMark be (t_usr_n t) cyc] else [].
(** A drained byte; [retired] does not count this cycle yet. *)
Definition tty_drain (cyc retired ch : Z) (t : tty) : tty :=
  let w := watch_byte (t_watch t) ch in
  let c := con_byte steps ch (t_con t) in
  Tty c w (t_stdout t ++ [ch]) (t_typed t) (t_usr t) (t_usr_n t)
    (t_err t ++
     (if negb (sig_hit (t_watch t)) && sig_hit w then usret_mark true cyc t ++ [BeSignal cyc retired] else []) ++
     (if negb (crash_hit (t_watch t)) && crash_hit w then BeCrash cyc retired :: usret_mark false cyc t else []) ++
     (if (rxstep (t_con t) <? rxstep c)%nat then [RxTyping (rxstep (t_con t))] else [])).
(** The USRETLOG calls of the retirement block. *)
Definition tty_retire (cyc : Z) (c : rcycle) (t : tty) : tty :=
  if usr_on then
    Tty (t_con t) (t_watch t) (t_stdout t) (t_typed t) (usret_cycle g_usr_kernel cyc c (t_usr t))
      (t_usr_n t + Z.of_nat (length (List.filter (usret_wanted g_usr_kernel) (retires c)))) (t_err t)
  else t.
Definition tty_cycle (cyc retired : Z) (ch : option Z) (c : rcycle) (t : tty) : tty :=
  let t := tty_drive cyc t in
  let t := match ch with Some ch => tty_drain cyc retired ch t | None => t end in
  tty_retire cyc c t.
(** Written to the socket by the console in a cycle. *)
Definition to_client (mo : mon) (ch : option Z) : list Z :=
  match ch with Some ch => match mon_console_out ch mo with Some b => [b] | None => [] end | None => [] end.

Definition front_cycle (mon_on : bool) (k : tick) (ch : option Z) (w : st) (t : tty) (sock : list Z) : (st + exit) * tty * list Z :=
  if n_armed w then (inr (Saved w), t, sock)
  else
    match mon_section checker mon_on k w with
    | None => (inr (Frozen w), t, sock)
    | Some mo =>
        let t := tty_cycle (n_cyc w) (l_retired (n_loop w)) ch (k_slots k) t in
        let sock := sock ++ wire (n_mon w) mo ++ to_client mo ch in
        let w := edge_section checker NO_RETIRE_LIMIT k mo w in
        let '(vg, fire) := verify_gate preamble_pc verify (option_map p_pc (slot0 (k_slots k))) (l_retired (n_loop w)) (n_vg w) in
        let w := with_vg vg w in
        if fire then (inr (Verified w), t, sock)
        else
          let sock := sock ++ wire (n_mon w) (n_mon (step_section k w)) in
          let '(w, stop) := check k (step_section k w) in
          if stop then (inr (StoreStop w), t, sock)
          else (inl (bus_section checker bc g_save_at k (services k w)), t, sock)
    end.
(** [con c] is the byte drained in cycle [c]. *)
Fixpoint front_run (mon_on : bool) (ks : Z -> tick) (con : Z -> option Z) (fuel : nat) (w : st) (t : tty) (sock : list Z)
    : option (exit * tty * list Z) :=
  match fuel with
  | O => None
  | S n =>
      if main_cond max_cyc max_icnt w then
        match front_cycle mon_on (ks (n_cyc w)) (con (n_cyc w)) w t sock with
        | (inl w, t, sock) => front_run mon_on ks con n w t sock
        | (inr e, t, sock) => Some (e, t, sock)
        end
      else Some (Done w, t, sock)
  end.
Definition tty_start : tty := Tty console_init watch_init [] [] [] 0 [].
End Frontend.

(** ** Lemmas *)

Section Ttys.
Variable rx_bytes : list Z.
Variable steps : list rxstep_t.
Variable g_usr_kernel : bool.
Abbreviation tcycle usr_on := (tty_cycle rx_bytes steps usr_on g_usr_kernel).
(** The console's state [n] cycles after cycle [c], before which [r] had retired. *)
Fixpoint tty_at (usr_on : bool) (ks : Z -> tick) (con : Z -> option Z) (c r : Z) (t : tty) (n : nat) : tty :=
  match n with
  | O => t
  | S n => let i := c + Z.of_nat n in
           tcycle usr_on i (r + heads (cycles ks c n)) (con i) (k_slots (ks i)) (tty_at usr_on ks con c r t n)
  end.
Lemma cycles_app ks a : forall c b, cycles ks c (a + b) = cycles ks c a ++ cycles ks (c + Z.of_nat a) b.
Proof.
  induction a as [|a IH]; intros c b; cbn [Nat.add cycles app]; [f_equal; lia|]. rewrite IH. do 3 f_equal. lia.
Qed.
Lemma tty_at_cons usr_on ks con c r t n :
  tty_at usr_on ks con c r t (S n)
  = tty_at usr_on ks con (c + 1) (r + head (ks c)) (tcycle usr_on c r (con c) (k_slots (ks c)) t) n.
Proof.
  induction n as [|n IH].
  - cbn. unfold heads. cbn. by rewrite !Z.add_0_r.
  - cbn [tty_at] in *. rewrite <- IH. replace (c + Z.of_nat (S n)) with (c + 1 + Z.of_nat n) by lia.
    f_equal. change (cycles ks c (S n)) with (k_slots (ks c) :: cycles ks (c + 1) n). rewrite heads_cons. unfold head. lia.
Qed.
End Ttys.

Section Marks.
Variable rx_bytes : list Z.
Variable steps : list rxstep_t.
Variable g_usr_kernel : bool.
Variable ks : Z -> tick.
Variable con : Z -> option Z.
Variables c r : Z.
Abbreviation at_ := (tty_at rx_bytes steps g_usr_kernel true ks con c r tty_start).

(** What the guest has printed [n] cycles later. *)
Fixpoint said (i : Z) (n : nat) : list Z :=
  match n with O => [] | S n => match con i with Some ch => [ch] | None => [] end ++ said (i + 1) n end.
Lemma said_app a : forall i b, said i (a + b) = said i a ++ said (i + Z.of_nat a) b.
Proof.
  induction a as [|a IH]; intros i b; cbn [Nat.add said app]; [f_equal; lia|]. rewrite IH, <- app_assoc. do 3 f_equal. lia.
Qed.
Lemma usret_wanted_of_app cs : forall i ds,
  usret_wanted_of g_usr_kernel i (cs ++ ds)
  = usret_wanted_of g_usr_kernel i cs ++ usret_wanted_of g_usr_kernel (i + Z.of_nat (length cs)) ds.
Proof.
  induction cs as [|x cs IH]; intros i ds; cbn [usret_wanted_of app length]; [f_equal; lia|].
  rewrite IH, <- app_assoc. do 3 f_equal. lia.
Qed.
Lemma length_cycles n : forall i, length (cycles ks i n) = n.
Proof. induction n as [|n IH]; intros i; cbn; [done|]. by rewrite IH. Qed.
(** The log of the first [n] cycles. *)
Definition logged (n : nat) : list usret_t := usret_wanted_of g_usr_kernel c (cycles ks c n).
Lemma logged_app a b :
  logged (a + b) = logged a ++ usret_wanted_of g_usr_kernel (c + Z.of_nat a) (cycles ks (c + Z.of_nat a) b).
Proof. unfold logged. by rewrite cycles_app, usret_wanted_of_app, length_cycles. Qed.

(** One cycle. *)
Lemma tty_cycle_fields i k ch cc t : let t' := tty_cycle rx_bytes steps true g_usr_kernel i k ch cc t in
  t_stdout t' = t_stdout t ++ match ch with Some b => [b] | None => [] end /\
  t_watch t' = match ch with Some b => watch_byte (t_watch t) b | None => t_watch t end /\
  t_usr t' = usret_cycle g_usr_kernel i cc (t_usr t) /\
  t_usr_n t' = t_usr_n t + Z.of_nat (length (List.filter (usret_wanted g_usr_kernel) (retires cc))).
Proof.
  unfold tty_cycle, tty_drive. destruct (rx_drive _ _ _) as [c0 b]. destruct ch; cbn; by rewrite ?app_nil_r.
Qed.
Lemma tty_at_log n : let t := at_ n in
  t_stdout t = said c n /\ t_watch t = watch_spec (said c n) /\
  t_usr t = usret_run g_usr_kernel c (cycles ks c n) [] /\ t_usr_n t = Z.of_nat (length (logged n)).
Proof.
  induction n as [|n (I1 & I2 & I3 & I4)]; [done|]. cbv zeta. cbn [tty_at].
  destruct (tty_cycle_fields (c + Z.of_nat n) (r + heads (cycles ks c n)) (con (c + Z.of_nat n)) (k_slots (ks (c + Z.of_nat n))) (at_ n))
    as (F1 & F2 & F3 & F4). rewrite F1, F2, F3, F4, I1, I2, I3, I4. rewrite <- Nat.add_1_r, said_app, cycles_app, logged_app.
  cbn [said cycles usret_wanted_of]. rewrite !app_nil_r. split_and!.
  - done.
  - destruct (con _); [by rewrite watch_step|by rewrite app_nil_r].
  - rewrite !usret_run_app, usret_wanted_of_app, map_app, concat_app, length_cycles. cbn [usret_wanted_of app].
    by rewrite usret_cycle_app, app_nil_r.
  - rewrite length_app, length_map. lia.
Qed.

(** The two messages that are watched for. *)
Definition message (be : bool) (s : list Z) : Prop :=
  if be then exists a b, s = a ++ chars "Signal: " ++ b
  else (exists a b, s = a ++ chars "died due to signal" ++ b) \/ (exists a b, s = a ++ chars "cc returned" ++ b).
Definition hit (be : bool) (w : watch) : bool := if be then sig_hit w else crash_hit w.
Lemma hit_spec be s : hit be (watch_spec s) = true <-> message be s.
Proof. destruct be; cbn; [|rewrite orb_true_iff]; by rewrite !contains_spec. Qed.
Definition is_mark (be : bool) (l : console_line) : bool := match l with UsrMark b _ _ => Bool.eqb b be | _ => false end.
Definition marks (be : bool) (t : tty) : list console_line := List.filter (is_mark be) (t_err t).
Lemma tty_cycle_marks be i k ch cc t : let t' := tty_cycle rx_bytes steps true g_usr_kernel i k ch cc t in
  marks be t' = marks be t ++ (if negb (hit be (t_watch t)) && hit be (t_watch t') then [UsrMark be (t_usr_n t) i] else []).
Proof.
  destruct (tty_cycle_fields i k ch cc t) as (_ & Hw & _). cbv zeta in *. rewrite Hw.
  unfold tty_cycle, tty_drive. destruct (rx_drive _ _ _) as [c0 b]. destruct ch as [ch|].
  - unfold tty_retire, tty_drain, usret_mark, marks. cbn [t_err t_watch t_con t_usr_n]. rewrite !List.filter_app. f_equal.
    generalize (rxstep (con_byte steps ch c0)). intros s'. generalize (watch_byte (t_watch t) ch). intros w'.
    destruct be; cbn [hit]; destruct (sig_hit (t_watch t)), (sig_hit w'), (crash_hit (t_watch t)), (crash_hit w'), (_ <? s')%nat; done.
  - cbn. rewrite andb_comm, andb_negb_r, app_nil_r. done.
Qed.
Lemma hit_mono be n : hit be (t_watch (at_ n)) = true -> hit be (t_watch (at_ (S n))) = true.
Proof.
  intros H. cbn [tty_at]. set (k := r + _). set (cc := k_slots _). set (t := at_ n) in *.
  destruct (tty_cycle_fields (c + Z.of_nat n) k (con (c + Z.of_nat n)) cc t) as (_ & -> & _).
  destruct (con _); [|done]. destruct be; cbn in *; by rewrite H.
Qed.
Lemma tty_at_marks be n :
  (hit be (t_watch (at_ n)) = false /\ marks be (at_ n) = []) \/
  (hit be (t_watch (at_ n)) = true /\ exists i, (i < n)%nat /\ hit be (t_watch (at_ i)) = false /\ hit be (t_watch (at_ (S i))) = true /\
     marks be (at_ n) = [UsrMark be (Z.of_nat (length (logged i))) (c + Z.of_nat i)]).
Proof.
  induction n as [|n IH]; [left; by destruct be|].
  pose proof (tty_cycle_marks be (c + Z.of_nat n) (r + heads (cycles ks c n)) (con (c + Z.of_nat n)) (k_slots (ks (c + Z.of_nat n))) (at_ n)) as M.
  cbv zeta in M. change (tty_cycle _ _ _ _ _ _ _ _ (at_ n)) with (at_ (S n)) in M. rewrite M.
  destruct IH as [[H0 Hm]|[H0 (i & Hi & H1 & H2 & Hm)]]; rewrite H0, Hm; cbn [negb andb].
  - destruct (hit be (t_watch (at_ (S n)))) eqn:H; [|left; done]. right. split; [done|]. exists n.
    split; [lia|]. split; [done|]. split; [done|]. by rewrite (proj2 (proj2 (proj2 (tty_at_log n)))).
  - right. split; [by apply hit_mono|]. exists i. split; [lia|]. split; [done|]. split; [done|]. by rewrite app_nil_r.
Qed.
End Marks.

Section FrontendLemmas.
Context {R Disk RingSt : Type}.
Variable execMips : iss R -> iss R * list store_rec.
Variable raise_int : iss R -> Z -> Z -> iss R.
Variable last_ld_va : iss R -> Z.
Variable apply_tlb_write : iss R -> pend_tlb_t -> iss R.
Variable scsi_service_run : scsi_req -> Disk -> list Z -> scsi_rsp * list Z * bool * Z.
Variable block_write : Z -> list Z -> Disk -> Disk.
Variable stage_read : RingSt * mem -> list Z -> Z -> RingSt * mem.
Variable ring_poll : RingSt * mem -> Z -> option scsi_cqe * (RingSt * mem).
Variable read_wr : RingSt * mem -> nat -> list Z * (RingSt * mem).
Variable host_poll : Z -> RingSt * mem -> RingSt * mem.
Variables st_ok tgt_good : Z.
Variables checker no_mapskip no_sc_stop scsihash disk_ok : bool.
Variables gprchk gprchk_poison sc_max : Z.
Variable ck : option cp_header.
Variable bc : cfg.
Variables max_cyc max_icnt NO_RETIRE_LIMIT g_save_at preamble_pc : Z.
Variable verify : bool.
Variable rx_bytes : list Z.
Variable steps : list rxstep_t.
Variable g_usr_kernel : bool.
Abbreviation st := (@main R Disk RingSt).
Abbreviation check := (chk_section execMips raise_int last_ld_va apply_tlb_write checker no_mapskip no_sc_stop gprchk
  gprchk_poison sc_max ck).
Abbreviation cycle := (main_cycle execMips raise_int last_ld_va apply_tlb_write scsi_service_run block_write stage_read
  ring_poll read_wr host_poll st_ok tgt_good checker no_mapskip no_sc_stop scsihash disk_ok gprchk gprchk_poison sc_max ck bc
  NO_RETIRE_LIMIT g_save_at preamble_pc verify).
Abbreviation run := (main_run execMips raise_int last_ld_va apply_tlb_write scsi_service_run block_write stage_read
  ring_poll read_wr host_poll st_ok tgt_good checker no_mapskip no_sc_stop scsihash disk_ok gprchk gprchk_poison sc_max ck bc
  max_cyc max_icnt NO_RETIRE_LIMIT g_save_at preamble_pc verify).
Abbreviation fcycle usr_on := (front_cycle execMips raise_int last_ld_va apply_tlb_write scsi_service_run block_write stage_read
  ring_poll read_wr host_poll st_ok tgt_good checker no_mapskip no_sc_stop scsihash disk_ok gprchk gprchk_poison sc_max ck bc
  NO_RETIRE_LIMIT g_save_at preamble_pc verify rx_bytes steps usr_on g_usr_kernel).
Abbreviation frun usr_on := (front_run execMips raise_int last_ld_va apply_tlb_write scsi_service_run block_write stage_read
  ring_poll read_wr host_poll st_ok tgt_good checker no_mapskip no_sc_stop scsihash disk_ok gprchk gprchk_poison sc_max ck bc
  max_cyc max_icnt NO_RETIRE_LIMIT g_save_at preamble_pc verify rx_bytes steps usr_on g_usr_kernel).
Abbreviation tcycle usr_on := (tty_cycle rx_bytes steps usr_on g_usr_kernel).

(** The console's part does not steer the loop. *)
Lemma front_cycle_main usr_on mon_on k ch (w : st) t sock : fst (fst (fcycle usr_on mon_on k ch w t sock)) = cycle mon_on k w.
Proof.
  unfold front_cycle, main_cycle. destruct (n_armed w); [done|]. destruct (mon_section _ _ _ _) as [mo|]; [|done]. cbv zeta.
  destruct (verify_gate _ _ _ _ _) as [vg [|]]; [done|]. by destruct (check _ _) as [w2 [|]].
Qed.
Lemma front_run_main usr_on mon_on ks con fuel : forall (w : st) t sock,
  option_map (fun r => fst (fst r)) (frun usr_on mon_on ks con fuel w t sock) = run mon_on ks fuel w.
Proof.
  induction fuel as [|n IH]; intros w t sock; cbn [front_run main_run]; [done|]. destruct (main_cond _ _ _); [|done].
  rewrite <- (front_cycle_main usr_on mon_on (ks (n_cyc w)) (con (n_cyc w)) w t sock).
  destruct (fcycle _ mon_on _ _ w t sock) as [[[w'|e] t'] sock']; cbn [fst]; [apply IH|done].
Qed.

Lemma front_cycle_exact usr_on mon_on k ch (w : st) t sock :
  let a := tcycle usr_on (n_cyc w) (retired w) ch (k_slots k) t in
  match fcycle usr_on mon_on k ch w t sock with
  | (inl w', t', _) => n_cyc w' = n_cyc w + 1 /\ retired w' = retired w + head k /\ t' = a
  | (inr (Verified w'), t', _) | (inr (StoreStop w'), t', _) => n_cyc w' = n_cyc w /\ t' = a
  | (inr e, t', _) => last_state e = w /\ t' = t
  end.
Proof.
  unfold front_cycle. destruct (n_armed w); [done|]. destruct (mon_section _ _ _ _) as [mo|]; [|done]. cbv zeta.
  destruct (edge_counters checker NO_RETIRE_LIMIT k mo w) as (E1 & _ & E3). set (w1 := edge_section _ _ _ _ _) in *.
  destruct (verify_gate _ _ _ _ _) as [vg [|]]; [done|].
  destruct (check k (step_section k (with_vg vg w1))) as [w2 stop] eqn:Ec. apply check_counters in Ec as [C1 C2].
  change (n_cyc (step_section k (with_vg vg w1))) with (n_cyc w1) in C1.
  change (retired (step_section k (with_vg vg w1))) with (retired w1) in C2.
  destruct stop; [by rewrite C1, E1|].
  match goal with |- n_cyc (bus_section _ _ _ _ (service_section ?a ?b ?c ?d ?e ?f ?g ?h ?i ?j _ _)) = _ /\ _ =>
    destruct (tail_counters a b c d e f g h checker i j bc g_save_at k w2) as [T1 T2] end.
  rewrite T1, T2, C1, C2, E1, E3. done.
Qed.
Lemma front_run_exact usr_on mon_on ks con fuel : forall (w : st) t sock e t' sock',
  frun usr_on mon_on ks con fuel w t sock = Some (e, t', sock') ->
  exists n, n_cyc (last_state e) = n_cyc w + Z.of_nat n /\
    t' = tty_at rx_bytes steps g_usr_kernel usr_on ks con (n_cyc w) (retired w) t (n + broke e).
Proof.
  induction fuel as [|fuel IH]; intros w t sock e t' sock' H; cbn [front_run] in H; [done|].
  destruct (main_cond _ _ _); [|injection H as <- <- <-; exists 0%nat; cbn; split; [lia|done]].
  pose proof (front_cycle_exact usr_on mon_on (ks (n_cyc w)) (con (n_cyc w)) w t sock) as P. cbv zeta in P.
  destruct (fcycle usr_on mon_on _ _ w t sock) as [[[w'|e0] t0] sock0].
  - destruct P as (P1 & P2 & ->). apply IH in H as (n & H1 & ->). exists (S n). split; [lia|].
    cbn [Nat.add]. by rewrite tty_at_cons, P1, P2.
  - injection H as -> -> _.
    destruct e as [w'|w'|w'|w'|w']; cbn [last_state broke] in *; exists 0%nat.
    1, 2, 5: destruct P as [-> ->]; cbn; split; [lia|done].
    all: destruct P as (P1 & ->); split; [lia|]; cbn; unfold heads; cbn; by rewrite !Z.add_0_r.
Qed.

(** A client that is connected and types nothing, nothing halted or stepping. *)
Definition idle_client (cmd : bool) (mo : mon) : Prop :=
  m_client mo = true /\ m_cmd_mode mo = cmd /\ m_paused mo = false /\ m_step_to mo = 0.
Definition quiet (k : tick) : Prop := k_poll k = no_input.
Lemma wire_out (s s' : mon) : m_out s' = m_out s -> wire s s' = [].
Proof. intros H. unfold wire, replies. by rewrite H, drop_ge by lia. Qed.
Lemma idle_section cmd mon_on k (w : st) : quiet k -> idle_client cmd (n_mon w) ->
  exists mo, mon_section checker mon_on k w = Some mo /\ idle_client cmd mo /\ m_out mo = m_out (n_mon w).
Proof.
  intros Hk (H1 & H2 & H3 & H4). unfold mon_section. destruct mon_on; [|by exists (n_mon w)].
  unfold mon_top. rewrite Hk. cbv zeta. cbn [m_paused]. rewrite H3. cbn [orb].
  match goal with |- context [if _ =? 0 then mon_poll ?a ?b ?t no_input ?s else _] =>
    assert (mon_poll a b t no_input s = s) as -> by (unfold mon_poll; cbn [m_client]; by rewrite H1) end.
  match goal with |- context [if ?b then ?s else ?s] => replace (if b then s else s) with s by (by destruct b) end.
  destruct (k_frozen k); cbn [mon_freeze m_paused]; eexists; by repeat split.
Qed.
Lemma mon_kept_services k (w : st) :
  n_mon (service_section scsi_service_run block_write stage_read ring_poll read_wr host_poll st_ok tgt_good scsihash disk_ok k w) = n_mon w.
Proof.
  pose proof (scsi_mon scsi_service_run block_write stage_read ring_poll read_wr host_poll st_ok tgt_good scsihash disk_ok k (n_mon w) w) as H.
  apply (f_equal n_mon) in H. cbn [set_mon n_mon] in H. rewrite <- H. by destruct w.
Qed.
Lemma idle_cycle cmd usr_on mon_on k ch (w : st) t sock : quiet k -> idle_client cmd (n_mon w) ->
  let '(r, t', sock') := fcycle usr_on mon_on k ch w t sock in
  (forall w', r = inl w' -> idle_client cmd (n_mon w')) /\
  exists b, t_stdout t' = t_stdout t ++ b /\ sock' = sock ++ (if cmd then [] else map u8 b).
Proof.
  intros Hk Hi. unfold front_cycle. destruct (n_armed w). { split; [done|]. exists []. rewrite !app_nil_r. by destruct cmd; rewrite app_nil_r. }
  destruct (idle_section cmd mon_on k w Hk Hi) as (mo & -> & Hmo & Ho). cbv zeta. rewrite (wire_out _ _ Ho). cbn [app].
  assert (exists b, t_stdout (tcycle usr_on (n_cyc w) (l_retired (n_loop w)) ch (k_slots k) t) = t_stdout t ++ b /\
    to_client mo ch = if cmd then [] else map u8 b) as (b & Hb & Hc).
  { destruct Hmo as (M1 & M2 & _). unfold to_client, mon_console_out. rewrite M1, M2.
    exists (match ch with Some c => [c] | None => [] end). split; [|by destruct ch, cmd].
    unfold tty_cycle, tty_drive, tty_retire. destruct (rx_drive _ _ _) as [? ?]. destruct ch, usr_on; cbn; by rewrite ?app_nil_r. }
  set (w1 := edge_section _ _ _ _ _). assert (n_mon w1 = mo) as Hw1 by done.
  destruct (verify_gate _ _ _ _ _) as [vg [|]]; [split; [done|]; exists b; by rewrite Hc|].
  assert (n_mon (step_section k (with_vg vg w1)) = mo) as Hs.
  { unfold step_section, mon_step_done. cbn [n_mon with_vg]. rewrite Hw1. by destruct Hmo as (_ & _ & _ & ->). }
  rewrite Hs. change (n_mon (with_vg vg w1)) with mo. rewrite (wire_out mo mo eq_refl), app_nil_r, Hc.
  destruct (check k (step_section k (with_vg vg w1))) as [w2 stop] eqn:Ec.
  destruct stop; (split; [|by exists b]); [done|]. intros w' [= <-]. apply check_frame in Ec as (_ & _ & _ & _ & _ & _ & C & _).
  unfold bus_section. destruct (if checker then _ else _) as [bb cc]. cbn [n_mon]. rewrite mon_kept_services, C, Hs. done.
Qed.

Lemma mirrored_run cmd usr_on mon_on ks con fuel : (forall c, quiet (ks c)) -> forall (w : st) t0 k0 e t sock,
  idle_client cmd (n_mon w) -> k0 = (if cmd then [] else map u8 (t_stdout t0)) ->
  frun usr_on mon_on ks con fuel w t0 k0 = Some (e, t, sock) -> sock = if cmd then [] else map u8 (t_stdout t).
Proof.
  intros Hk. induction fuel as [|fuel IH]; intros w t0 k0 e t sock Hi H0 H; cbn [front_run] in H; [done|].
  destruct (main_cond _ _ _); [|injection H as _ <- <-; exact H0].
  pose proof (idle_cycle cmd usr_on mon_on (ks (n_cyc w)) (con (n_cyc w)) w t0 k0 (Hk _) Hi) as P.
  destruct (fcycle usr_on mon_on _ _ w t0 k0) as [[r t1] k1]. destruct P as (P1 & b & P2 & P3).
  assert (k1 = if cmd then [] else map u8 (t_stdout t1)) as H1 by (rewrite P2, P3, H0; destruct cmd; [done|by rewrite map_app]).
  destruct r as [w'|e1]; [by eapply (IH w' t1 k1); [apply P1| |]|injection H as _ <- <-; exact H1].
Qed.

(** ** Properties *)

(** C13.  The crash marks anchor the log.  Whatever ends the run and wherever the console was
    polled, stdout holds every byte the guest printed, USRETLOG decodes to the wanted
    retirements of the cycles that were recorded, and for each of the two messages
    ("Signal: " and cc's): no mark is printed if the guest has not printed it; otherwise
    exactly one, with the first cycle in which the message was complete, and its record
    number cuts the log at that cycle: the records before it are those of all earlier
    cycles, the ones after it those of that cycle and the later ones. *)
Theorem crash_mark_anchors (mon_on : bool) (ks : Z -> tick) (con : Z -> option Z) (w : st) :
  exists e t sock n, frun true mon_on ks con (S (Z.to_nat (max_cyc - n_cyc w))) w tty_start [] = Some (e, t, sock) /\
    run mon_on ks (S (Z.to_nat (max_cyc - n_cyc w))) w = Some e /\ n_cyc (last_state e) = n_cyc w + Z.of_nat n /\
    let c := n_cyc w in let N := (n + broke e)%nat in
    let log := usret_wanted_of g_usr_kernel c (cycles ks c N) in
    t_stdout t = said con c N /\ usret_read (length log) (t_usr t) = log /\
    forall be,
      (~ message be (t_stdout t) /\ marks be t = []) \/
      (exists i m, (i < N)%nat /\ marks be t = [UsrMark be (Z.of_nat m) (c + Z.of_nat i)] /\
         ~ message be (said con c i) /\ message be (said con c (S i)) /\
         take m log = usret_wanted_of g_usr_kernel c (cycles ks c i) /\
         drop m log = usret_wanted_of g_usr_kernel (c + Z.of_nat i) (cycles ks (c + Z.of_nat i) (N - i))).
Proof.
  destruct (main_run_total execMips raise_int last_ld_va apply_tlb_write scsi_service_run block_write stage_read ring_poll
    read_wr host_poll st_ok tgt_good no_mapskip no_sc_stop scsihash disk_ok gprchk gprchk_poison sc_max ck bc max_cyc max_icnt
    NO_RETIRE_LIMIT g_save_at preamble_pc verify checker mon_on ks (Z.to_nat (max_cyc - n_cyc w)) w ltac:(lia)) as [e He].
  pose proof (front_run_main true mon_on ks con (S (Z.to_nat (max_cyc - n_cyc w))) w tty_start []) as Ht. rewrite He in Ht.
  destruct (frun true _ _ _ _ _ _ _) as [[[e' t] sock]|] eqn:Et; [|done]. cbn in Ht. injection Ht as ->.
  destruct (front_run_exact _ _ _ _ _ _ _ _ _ _ _ Et) as (n & H1 & ->). exists e. eexists. exists sock, n.
  do 3 (split; [done|]). cbv zeta. set (c := n_cyc w). set (N := (n + broke e)%nat).
  destruct (tty_at_log rx_bytes steps g_usr_kernel ks con c (retired w) N) as (L1 & L2 & L3 & _).
  split; [exact L1|]. split; [rewrite L3; exact (proj1 (usret_log_decodes g_usr_kernel c (cycles ks c N)))|].
  intros be. rewrite L1. destruct (tty_at_marks rx_bytes steps g_usr_kernel ks con c (retired w) be N) as [[H0 Hm]|(_ & i & Hi & H2 & H3 & Hm)].
  - left. split; [|done]. rewrite L2 in H0. rewrite <- hit_spec. congruence.
  - right. exists i, (length (logged g_usr_kernel ks c i)). split; [done|]. split; [done|].
    rewrite (proj1 (proj2 (tty_at_log _ _ _ _ _ _ _ i))) in H2. rewrite (proj1 (proj2 (tty_at_log _ _ _ _ _ _ _ (S i)))) in H3.
    rewrite <- !hit_spec. split; [congruence|]. split; [done|].
    pose proof (logged_app g_usr_kernel ks c i (N - i)) as Ha. replace (i + (N - i))%nat with N in Ha by lia.
    change (usret_wanted_of g_usr_kernel c (cycles ks c N)) with (logged g_usr_kernel ks c N). rewrite Ha.
    by rewrite take_app_length, drop_app_length.
Qed.

(** The client mirrors the console.  While the monitor's client is connected, types
    nothing and nothing is halted or stepping, a run writes to the socket, in console
    mode, exactly the bytes it writes to stdout, and in command mode nothing: guest
    output of that time is not sent later either. *)
Theorem console_mirrored (cmd usr_on mon_on : bool) (ks : Z -> tick) (con : Z -> option Z) (w : st) :
  (forall c, quiet (ks c)) -> idle_client cmd (n_mon w) ->
  exists e t sock, frun usr_on mon_on ks con (S (Z.to_nat (max_cyc - n_cyc w))) w tty_start [] = Some (e, t, sock) /\
    sock = if cmd then [] else map u8 (t_stdout t).
Proof.
  intros Hk Hi.
  destruct (main_run_total execMips raise_int last_ld_va apply_tlb_write scsi_service_run block_write stage_read ring_poll
    read_wr host_poll st_ok tgt_good no_mapskip no_sc_stop scsihash disk_ok gprchk gprchk_poison sc_max ck bc max_cyc max_icnt
    NO_RETIRE_LIMIT g_save_at preamble_pc verify checker mon_on ks (Z.to_nat (max_cyc - n_cyc w)) w ltac:(lia)) as [e He].
  pose proof (front_run_main usr_on mon_on ks con (S (Z.to_nat (max_cyc - n_cyc w))) w tty_start []) as Ht. rewrite He in Ht.
  destruct (frun usr_on _ _ _ _ _ _ _) as [[[e' t] sock]|] eqn:Et; [|done]. exists e', t, sock. split; [done|].
  eapply mirrored_run; [exact Hk|exact Hi| |exact Et]. by destruct cmd.
Qed.
End FrontendLemmas.


(** ** Witnesses *)

(** The sample loop of [MainLoop]: two cycles, a byte printed in each. *)
Definition sample_con (c : Z) : option Z := nth_error (chars "hi") (Z.to_nat c).
Definition console_client : mon := Mon true false false 0 (repeat 0 LINE_SIZE) 0 0 0 0 [].
Abbreviation toy_front thm cmd mo := (thm storing_exec toy_raise toy_ld no_tlb no_service (fun _ _ d => d) (fun r _ _ => r)
  (fun r _ => (None, r)) (fun r n => (repeat 0 n, r)) (fun _ x => x) 0 0 true false false false false 0 (-1) 200 None
  sample_bus_cfg 2 0 65536 0 0 false [] [] false cmd true true (sample_tick 7 no_input) sample_con (set_mon mo sample_main)).
Lemma console_mirrored_witness :
  exists (e : @exit unit unit Z) t sock, n_cyc (last_state e) = 2 /\ t_stdout t = chars "hi" /\ sock = map u8 (chars "hi").
Proof.
  pose proof (toy_front console_mirrored false console_client (fun c => eq_refl) (conj eq_refl (conj eq_refl (conj eq_refl eq_refl))))
    as (e & t & sock & H & Hs).
  assert (option_map (fun r => (n_cyc (last_state (fst (fst r))), t_stdout (snd (fst r)))) (Some (e, t, sock)) = Some (2, chars "hi")) as Hv
    by (rewrite <- H; vm_compute; reflexivity).
  injection Hv as V1 V2. exists e, t, sock. split; [exact V1|]. split; [exact V2|]. rewrite <- V2. exact Hs.
Defined.

(** A user process that prints the message a character per cycle, retiring an instruction in
    each: the mark names the cycle of its last character, and the records before it. *)
Definition user_tick (c : Z) : tick :=
  Tick no_input [] [] [] false (RCycle (Some (Port (0x1000 + 4 * c) true 2 7 None None)) None 0 0) 0 false 0 0 0 0 0
    (sample_req 0) (idle_req, idle_req) false.
Example be_signal_mark :
  let t := tty_at [] [] false true user_tick (fun c => nth_error (chars "Signal: 11") (Z.to_nat c)) 0 0 tty_start 10 in
  t_err t = [UsrMark true 7 7; BeSignal 7 7] /\ t_usr_n t = 10 /\ t_stdout t = chars "Signal: 11".
Proof. vm_compute. done. Qed.
