(* ===== verification/Reports.v ===== *)
(** * Reports: the periodic line and what a run prints at its end

    The TIP dump with its 20 rows ([tip_dump]), the heartbeat of the main loop of
    sim/henry_tb.cpp, and the code behind the loop in its order: counters of the memory
    lanes, of the SCSI read check and of the checker, the closing line, CTRACE, the flush
    driver, memory dumps, the trace files, and the comparison reports of TRACE-VAL and
    LOADVAL with the lines around the first mismatch.  A line is the tuple of the values the
    harness computed for it; values of the model's ports that it passes on and ratios are
    left out, text files and archives written at that point are components of their own. *)
From stdpp Require Import sorting.
From S2P Require Import Prelude AddressMap GuestMem MemBus TraceCodec Checkpoint StoreCheck TlbMirror Checker Scsi Loader Ctrace Monitor Retire Probes Cosim Verdict Gates MainLoop.

(** ** TIP *)

(** Weights count half cycles, as in [tip_cycle]. *)
Inductive tip_line := TipHead (periodic : bool) (total : Z) (distinct : nat) | TipRow (pc weight : Z).
Definition heavier (a b : Z * Z) : Prop := snd b <= snd a.
(** [std::sort] leaves equal weights in any order. *)
Definition tip_sorted (t : gmap Z Z) (v : list (Z * Z)) : Prop := Permutation v (map_to_list t) /\ StronglySorted heavier v.
Definition tip_dump (periodic : bool) (v : list (Z * Z)) : list tip_line :=
  match v with
  | [] => []
  | _ => TipHead periodic (foldr (fun p acc => snd p + acc) 0 v) (length v) ::
         map (fun p => TipRow (fst p) (snd p)) (take 20 v)
  end.
(** Every 2^24 cycles but the first. *)
Definition heartbeat (cyc : Z) : bool := negb (cyc =? 0) && (cyc mod 2 ^ 24 =? 0).

(** ** Comparison reports *)

Inductive cmp_word := CmpPass | CmpNothing | CmpFail.
Definition cmp_verdict (n mism : nat) : cmp_word :=
  if (mism =? 0)%nat && (0 <? n)%nat then CmpPass else if (n =? 0)%nat then CmpNothing else CmpFail.
(** The counting loop: [first] is the first bad index. *)
Definition cmp_count (n : nat) (bad : nat -> bool) : nat * option nat :=
  let bs := List.filter bad (seq 0 n) in (length bs, head bs).
(** [for(i = first > 2 ? first-2 : 0; i <= first+2 && i < n; i++)]. *)
Definition cmp_window (n : nat) (bad : nat -> bool) : list (nat * bool) :=
  match snd (cmp_count n bad) with
  | None => []
  | Some f => let lo := (if 2 <? f then f - 2 else 0)%nat in
              map (fun i => (i, (i =? f)%nat)) (seq lo (Nat.min (f + 3) n - lo))
  end.

Inductive report :=
  | Tip (l : tip_line)
  | Lane1Ops (rd16 wr16 rd64 wr64 : Z) | UnalignedReqs (n : Z)
  | RdChkLine (reads bytes bad_reads bad_bytes : Z)
  | FinalLine (retired last_pc : Z)
  | CheckerLine (insns diverge copsupp mapped resync : Z)
  | ClosingLine (w : final_word)
  | CtraceLine (recs bytes : Z)
  | XfLine (period edges done : Z) (stats : Z * Z * Z) (running : bool)
  | XfPages (base n : Z) (drop : bool) (found : Z) | XfOutstanding (since : Z)
  | DumpPa (words : list Z)
  | RtLine (n : nat) (ifail : Z)
  | TraceVal (ref dec wbytes : nat) (overflow : bool) | CmpLine (n mism : nat) (w : cmp_word)
  | TraceRow (i : nat) (ref dec : Z) (first : bool)
  | LvSanity (zero total : nat) (samples : list (Z * Z * Z))
  | LoadvalVal (ref dec wbytes : nat) (overflow : bool)
  | LvRow (i : nat) (ref dec : Z * Z * Z) (first : bool).

Definition trace_val_report (m : mem) (wbytes : nat) (overflow : bool) (ref : list Z) : list report :=
  let dec := decode (length ref) (ring_bits m wbytes) in
  let n := Nat.min (length dec) (length ref) in
  let bad i := negb (nth i dec 0 =? nth i ref 0) in
  [TraceVal (length ref) (length dec) wbytes overflow; CmpLine n (fst (cmp_count n bad)) (cmp_verdict n (fst (cmp_count n bad)))] ++
  map (fun w => TraceRow (fst w) (nth (fst w) ref 0) (nth (fst w) dec 0) (snd w)) (cmp_window n bad).
Definition lv_dec (m : mem) (i : nat) : Z * Z * Z :=
  (rd32 m (Z.of_nat i * 16), rd32 m (Z.of_nat i * 16 + 4), rd32 m (Z.of_nat i * 16 + 8)).
Definition loadval_report (m : mem) (wbytes : nat) (overflow : bool) (ref : list (Z * Z * Z)) : list report :=
  let nrec := (wbytes / 16)%nat in
  let n := Nat.min nrec (length ref) in
  let bad i := negb (lv_match m i (nth i ref (0, 0, 0))) in
  [LvSanity (length (List.filter (fun r => snd r =? 0) ref)) (length ref) (take 4 ref);
   LoadvalVal (length ref) nrec wbytes overflow; CmpLine n (fst (cmp_count n bad)) (cmp_verdict n (fst (cmp_count n bad)))] ++
  map (fun w => LvRow (fst w) (nth (fst w) ref (0, 0, 0)) (lv_dec m (fst w)) (snd w)) (cmp_window n bad).

(** ** The end of a run *)

(** TIP's weights as sorted; what is on: CTRACE (its writer), --extflush, --dump, RETIRETRACE (its records), the
    two validation modes; and the ports read here. *)
Record end_in := EndIn {
  z_tip : list (Z * Z); z_ct : option writer; z_xf : xf_cfg; z_xfs : xf_st; z_flush_stat : Z; z_dumps : list Z; z_rt : option rt_st;
  z_val : option (list Z); z_lv : option (list (Z * Z * Z)); z_wptr : nat; z_overflow : bool }.
Definition xf_lines (i : end_in) : list report :=
  let k := z_xf i in let s := z_xfs i in
  if xf_period k =? 0 then []
  else
    XfLine (xf_period k) (xf_edges s) (xf_done s) (xf_report s) (negb (xf_busy_since s =? 0)) ::
    (if xfpg_n k =? 0 then [] else [XfPages (xfpg_base k) (xfpg_n k) (xfpg_drop k) ((z_flush_stat i .>> 2) .& 0x3fff)]) ++
    (if xf_busy_since s =? 0 then [] else [XfOutstanding (xf_busy_since s)]).

Section End.
Context {R Disk RingSt : Type}.
Variable compress : list Z -> list Z.
Variable checker : bool.
Definition final_report (i : end_in) (e : @exit R Disk RingSt) : list report :=
  let w := last_state e in
  let op k := nth k (b_lane1_ops (n_bus w)) 0 in
  let rc := s_rdchk (n_scsi w) in
  let k := c_k (n_chk w) in
  map Tip (tip_dump false (z_tip i)) ++
  [Lane1Ops (op 4%nat) (op 7%nat) (op 5%nat) (op 6%nat); UnalignedReqs (b_unaligned (n_bus w));
   RdChkLine (rd_reads rc) (rd_bytes rc) (rd_bad_reads rc) (rd_bad_bytes rc);
   FinalLine (l_retired (n_loop w)) (l_last_pc (n_loop w))] ++
  (if checker then [CheckerLine (k_insns k) (k_diverge k) (k_copsupp k) (k_mapped k) (k_resync k)] else []) ++
  [ClosingLine (closing e)] ++
  (match z_ct i with Some c => let c := match c_pc (w_cols c) with [] => c | _ => flush_chunk compress c end in [CtraceLine (total_recs c) (out_bytes c)] | None => [] end) ++
  xf_lines i ++ map (fun pa => DumpPa (dump_pa (n_mem w) pa)) (z_dumps i) ++
  (match z_rt i with Some r => match rt_recs r with [] => [] | _ => [RtLine (length (rt_recs r)) (rt_ifail r)] end | None => [] end) ++
  (match z_val i with Some ref => trace_val_report (n_mem w) (z_wptr i) (z_overflow i) ref | None => [] end) ++
  (match z_lv i with Some ref => loadval_report (n_mem w) (z_wptr i) (z_overflow i) ref | None => [] end).
End End.

(** ** Lemmas *)

Lemma count_mism_filter dec : forall ref,
  count_mism dec ref = (Nat.min (length dec) (length ref),
    length (List.filter (fun i => negb (nth i dec 0 =? nth i ref 0)) (seq 0 (Nat.min (length dec) (length ref))))).
Proof.
  induction dec as [|d dec IH]; intros [|r ref]; cbn [count_mism length Nat.min]; [done..|].
  rewrite IH. cbn [seq]. rewrite <- seq_shift. cbn [List.filter nth].
  assert (forall f l, length (List.filter f (map S l)) = length (List.filter (fun i => f (S i)) l)) as Hm.
  { intros f l. induction l as [|x l IHl]; cbn; [done|]. destruct (f (S x)); cbn; by rewrite IHl. }
  destruct (d =? r); cbn [negb length]; rewrite Hm; done.
Qed.
(** The first bad index, if any; the window is the indices within two of it. *)
Lemma cmp_window_cases n bad :
  (fst (cmp_count n bad) = 0%nat /\ cmp_window n bad = [] /\ forall i, (i < n)%nat -> bad i = false) \/
  (exists f, (0 < fst (cmp_count n bad))%nat /\ (f < n)%nat /\ bad f = true /\ (forall i, (i < f)%nat -> bad i = false) /\
     cmp_window n bad = map (fun i => (i, (i =? f)%nat)) (seq (f - 2) (Nat.min (f + 3) n - (f - 2)))).
Proof.
  unfold cmp_window, cmp_count. cbn [fst snd].
  assert (forall k a, (List.filter bad (seq a k) = [] /\ forall i, (a <= i < a + k)%nat -> bad i = false) \/
    exists f t, List.filter bad (seq a k) = f :: t /\ (a <= f < a + k)%nat /\ bad f = true /\ forall i, (a <= i < f)%nat -> bad i = false) as H.
  { induction k as [|k IH]; intros a; cbn [seq List.filter]; [left; split; [done|lia]|].
    destruct (bad a) eqn:Ha; [right; exists a; eexists; split; [done|]; split; [lia|]; split; [done|lia]|].
    destruct (IH (S a)) as [[H1 H2]|(f & t & H1 & H2 & H3 & H4)]; [left|right; exists f, t]; split; try done.
    - intros i Hi. destruct (decide (i = a)) as [->|]; [done|]. apply H2. lia.
    - split; [lia|]. split; [done|]. intros i Hi. destruct (decide (i = a)) as [->|]; [done|]. apply H4. lia. }
  destruct (H n 0%nat) as [[-> H2]|(f & t & -> & H2 & H3 & H4)]; cbn [length head].
  - left. split; [done|]. split; [done|]. intros i Hi. apply H2. lia.
  - right. exists f. split; [lia|]. split; [lia|]. split; [done|]. split; [intros i Hi; apply H4; lia|].
    replace (if (2 <? f)%nat then (f - 2)%nat else 0%nat) with (f - 2)%nat; [done|]. destruct (Nat.ltb_spec 2 f); lia.
Qed.
Lemma cmp_verdict_cases n mism : let w := cmp_verdict n mism in
  (w = CmpPass <-> (0 < n)%nat /\ mism = 0%nat) /\ (w = CmpFail <-> (0 < n)%nat /\ mism <> 0%nat).
Proof. unfold cmp_verdict. destruct (Nat.eqb_spec mism 0), (Nat.ltb_spec 0 n), (Nat.eqb_spec n 0); cbn; split; split; try done; lia. Qed.
Lemma nth_take {A} (x : A) (l : list A) : forall i f, (i < f)%nat -> nth i (take f l) x = nth i l x.
Proof. induction l as [|y l IH]; intros [|i] [|f] H; cbn; try done; try lia. apply IH. lia. Qed.
Lemma take_agree (dec ref : list Z) f : (f <= length dec)%nat -> (f <= length ref)%nat ->
  (forall i, (i < f)%nat -> negb (nth i dec 0 =? nth i ref 0) = false) -> take f dec = take f ref.
Proof.
  intros Hd Hr H. apply (nth_ext _ _ 0 0); [rewrite !length_take; lia|]. intros i Hi. rewrite length_take in Hi.
  rewrite !nth_take by lia. specialize (H i ltac:(lia)). by apply negb_false_iff, Z.eqb_eq in H.
Qed.

(** ** Properties *)

(** The TRACE-VAL report is exact: it counts what the comparison counts, says PASS iff
    something was compared and all of it agrees, and prints no rows in that case;
    otherwise its rows are the records within two of the first disagreement, which alone
    is marked. *)
Theorem trace_val_report_exact (m : mem) (wbytes : nat) (overflow : bool) (ref : list Z) :
  let dec := decode (length ref) (ring_bits m wbytes) in
  let '(n, mism) := trace_val m wbytes ref in
  exists w rows, trace_val_report m wbytes overflow ref = TraceVal (length ref) (length dec) wbytes overflow :: CmpLine n mism w :: rows /\
    (w = CmpPass <-> (0 < n)%nat /\ take n dec = take n ref) /\
    ((take n dec = take n ref /\ rows = []) \/
     exists f, (f < n)%nat /\ take f dec = take f ref /\ nth f dec 0 <> nth f ref 0 /\
       rows = map (fun i => TraceRow i (nth i ref 0) (nth i dec 0) (i =? f)%nat) (seq (f - 2) (Nat.min (f + 3) n - (f - 2)))).
Proof.
  cbv zeta. unfold trace_val. rewrite count_mism_filter. unfold trace_val_report.
  set (dec := decode _ _). set (n := Nat.min _ _). set (bad := fun i : nat => negb (nth i dec 0 =? nth i ref 0)).
  change (length (List.filter bad (seq 0 n))) with (fst (cmp_count n bad)).
  do 2 eexists. split; [reflexivity|]. destruct (cmp_verdict_cases n (fst (cmp_count n bad))) as [V _].
  destruct (cmp_window_cases n bad) as [(H1 & -> & H2)|(f & H1 & H2 & H3 & H4 & ->)].
  - assert (take n dec = take n ref) as E by (apply take_agree; [lia|lia|exact H2]).
    split; [rewrite V; tauto|]. left. done.
  - apply negb_true_iff, Z.eqb_neq in H3. split.
    + rewrite V. split; [lia|]. intros [Hn E]. destruct H3. by rewrite <- (nth_take 0 dec f n), <- (nth_take 0 ref f n), E.
    + right. exists f. split; [done|]. split; [apply take_agree; [lia|lia|exact H4]|]. split; [done|]. by rewrite map_map.
Qed.

(** LOADVAL's report is exact: PASS iff at least one record was compared and every one in
    the ring is the captured load; else the rows are those within two of the first
    disagreement. *)
Theorem loadval_report_exact (m : mem) (wbytes : nat) (overflow : bool) (ref : list (Z * Z * Z)) :
  let n := Nat.min (wbytes / 16) (length ref) in
  exists mism w rows,
    loadval_report m wbytes overflow ref =
      LvSanity (length (List.filter (fun r => snd r =? 0) ref)) (length ref) (take 4 ref) ::
      LoadvalVal (length ref) (wbytes / 16) wbytes overflow :: CmpLine n mism w :: rows /\
    (w = CmpPass <-> (0 < n)%nat /\ forall i, (i < n)%nat -> lv_dec m i = nth i ref (0, 0, 0)) /\
    (rows = [] <-> forall i, (i < n)%nat -> lv_dec m i = nth i ref (0, 0, 0)) /\
    (forall i r d b, In (LvRow i r d b) rows ->
       (i < n)%nat /\ r = nth i ref (0, 0, 0) /\ d = lv_dec m i /\ (b = true -> d <> r) /\
       (forall j, (j + 2 < i)%nat -> lv_dec m j = nth j ref (0, 0, 0))).
Proof.
  cbv zeta. set (n := Nat.min _ _). unfold loadval_report. fold n. set (bad := fun i : nat => negb (lv_match m i (nth i ref (0, 0, 0)))).
  assert (forall i, bad i = false <-> lv_dec m i = nth i ref (0, 0, 0)) as Hb.
  { intros i. unfold bad, lv_match, lv_dec. destruct (nth i ref (0, 0, 0)) as [[pc val] addr].
    rewrite negb_false_iff, !andb_true_iff, !Z.eqb_eq. split; [intros [[-> ->] ->]; done|by intros [= -> -> ->]]. }
  do 3 eexists. split; [reflexivity|]. destruct (cmp_verdict_cases n (fst (cmp_count n bad))) as [V _]. rewrite V.
  destruct (cmp_window_cases n bad) as [(H1 & -> & H2)|(f & H1 & H2 & H3 & H4 & ->)].
  - rewrite H1. cbn [map]. split_and!; [|split; [intros _ i Hi; by apply Hb, H2|done]|done].
    split; [intros [? _]; split; [done|]; intros i Hi; by apply Hb, H2|tauto].
  - assert (~ forall i, (i < n)%nat -> lv_dec m i = nth i ref (0, 0, 0)) as Hn
      by (intros H; specialize (H f H2); apply Hb in H; congruence).
    split; [split; [lia|tauto]|]. split.
    + split; [|tauto]. rewrite map_map. intros E%(f_equal length). rewrite length_map, length_seq in E. cbn [length] in E. lia.
    + intros i r d b. rewrite map_map. intros Hi. apply in_map_iff in Hi as (j & E & Hj). apply in_seq in Hj.
      cbn [fst snd] in E. injection E as <- <- <- <-. split; [lia|]. split; [done|]. split; [done|]. split.
      * intros ->%Nat.eqb_eq Hd. apply Hb in Hd. congruence.
      * intros x Hx. apply Hb, H4. lia.
Qed.

(** The TIP dump shows the hottest PCs.  However the sort orders equal weights: nothing is
    printed without samples; otherwise the total is all the cycles attributed, and the rows are
    the weights of different PCs, heaviest first, 20 of them or all, and no PC that is
    left out weighs more than one shown. *)
Theorem tip_dump_top (periodic : bool) (t : gmap Z Z) (v : list (Z * Z)) :
  tip_sorted t v ->
  (t = ∅ /\ tip_dump periodic v = []) \/
  exists shown, tip_dump periodic v = TipHead periodic (tip_total t) (size t) :: map (fun p => TipRow (fst p) (snd p)) shown /\
    length shown = Nat.min 20 (size t) /\ NoDup (map fst shown) /\ StronglySorted heavier shown /\
    (forall p w, In (p, w) shown -> t !! p = Some w) /\
    (forall p w q x, t !! p = Some w -> ~ In (p, w) shown -> In (q, x) shown -> w <= x).
Proof.
  intros [Hp Hs]. assert (length v = size t) as Hl by (rewrite (Permutation_length Hp); apply length_map_to_list).
  destruct v as [|a v'] eqn:Ev; [left; split; [|done]; apply map_size_empty_iff; cbn in Hl; lia|]. rewrite <- Ev in *.
  right. exists (take 20 v).
  assert (foldr (fun p acc => snd p + acc) 0 v = tip_total t) as Ht.
  { unfold tip_total. rewrite map_fold_foldr.
    transitivity (foldr (fun p acc => snd p + acc) 0 (map_to_list t)).
    - apply (foldr_permutation (=)); [by intros ? ? ? ->|intros; lia|done].
    - generalize (map_to_list t). intros l. induction l as [|[k x] l IH]; cbn; [done|]. by rewrite IH. }
  split; [unfold tip_dump; by rewrite <- Ht, <- Hl, Ev|]. split; [by rewrite length_take, Hl|].
  assert (NoDup (map fst v)) as Hnd by (eapply NoDup_Permutation_proper; [apply Permutation_map, Hp|apply NoDup_fst_map_to_list]).
  assert (forall p w, In (p, w) v <-> t !! p = Some w) as Hin.
  { intros p w. rewrite <- elem_of_map_to_list, list_elem_of_In. split; apply Permutation_in; [exact Hp|by symmetry]. }
  rewrite <- (take_drop 20 v), map_app in Hnd. apply list.NoDup_app in Hnd as (Hnd & _).
  rewrite <- (take_drop 20 v) in Hs. apply StronglySorted_app in Hs as (Hcross & Hs & _). split; [done|]. split; [done|]. split.
  - intros p w H. apply Hin. rewrite <- (take_drop 20 v). apply in_or_app. by left.
  - intros p w q x H Hn Hq. apply Hin in H. rewrite <- (take_drop 20 v) in H. apply in_app_or in H as [H|H]; [done|].
    apply (Hcross (q, x) (p, w)); by apply list_elem_of_In.
Qed.

(** ** Witnesses *)

Definition sample_tip : gmap Z Z := {[0x80000000 := 3; 0x80000004 := 7; 0x80000008 := 3]}.
Lemma tip_dump_top_witness :
  exists shown, tip_dump false [(0x80000004, 7); (0x80000008, 3); (0x80000000, 3)] =
      TipHead false 13 3 :: map (fun p => TipRow (fst p) (snd p)) shown /\ length shown = 3%nat /\ StronglySorted heavier shown.
Proof.
  destruct (tip_dump_top false sample_tip [(0x80000004, 7); (0x80000008, 3); (0x80000000, 3)]) as [[H _]|(shown & H1 & H2 & _ & H4 & _)].
  - split.
    + apply NoDup_Permutation; [apply (bool_decide_unpack _); by vm_compute|apply NoDup_map_to_list|].
      intros [k w]. rewrite elem_of_map_to_list. unfold sample_tip. rewrite !elem_of_cons. split.
      * intros [[= -> ->]|[[= -> ->]|[[= -> ->]|H]]]; [reflexivity..|by apply elem_of_nil in H].
      * rewrite !lookup_insert_Some, lookup_singleton_Some. intros [[<- <-]|[_ [[<- <-]|[_ [<- <-]]]]]; tauto.
    + repeat constructor; unfold heavier; cbn; lia.
  - by vm_compute in H.
  - exists shown. split; [exact H1|]. split; [exact H2|exact H4].
Defined.
(** Three records agree, the fourth does not: the window marks it. *)
Example sample_window : cmp_window 6 (fun i => (i =? 3)%nat) = [(1, false); (2, false); (3, true); (4, false); (5, false)]%nat.
Proof. reflexivity. Qed.
